(** * The text-analysis pipeline of antigravity_revenue_engine

    A shallow embedding of the five analysis engines under [src/lib/nlp]
    (tokenizer, sentence splitter, sentiment analyzer, keyword extractor and
    named-entity recognizer) and of the cache every engine keeps, followed by
    the properties of the specification that were checked against them.

    Modelling conventions.
    - A JavaScript string is the list of its UTF-16 code units ([text]).
    - [toLowerCase] and [toUpperCase] act on the ASCII letters only; the
      case tables of the runtime for other code units are not modelled.
    - An object literal used as a dictionary ([Record<string, T>]) is an
      association list, the last binding of a repeated key winning as in
      an object literal.  [Record_get] reads its own properties;
      [obj[key]] also finds the properties of [Object.prototype], which
      [lookup] adds.  The two agree on every key that is not [inherited];
      of the words a text can hold that leaves out [constructor] alone.
      The engines are modelled on [Record_get], and a statement that
      depends on the difference says so in a hypothesis ([typed],
      [own_lemma]); the sentiment analysis is also modelled in full
      ([analyzeTokens_full], [analyze_full]), with NaN and the TypeError
      it can end in.
    - A [Map] is an association list in insertion order.
    - A number is an exact rational ([Q]); rounding of doubles is not
      modelled: a statement on numbers bounds a value or equates it with
      the expression the source computes it by.  [number] adds NaN where
      the analysis in full needs it.  Offsets and counters are integers
      ([Z]) or naturals.
    - Module-level singletons ([tokenizer], [sentenceSplitter], ...) live
      in one [World] record that every operation threads. *)

From Stdlib Require Import List Bool Arith NArith ZArith QArith Qabs Qround.
From Stdlib Require Import String Ascii DecimalString Lia Lqa Permutation Sorted.
Import ListNotations.

Set Implicit Arguments.
Local Open Scope Z_scope.

(** ** JavaScript strings *)

Module JS.

Local Open Scope N_scope.

Definition char := N.
Definition text := list char.

(** An ASCII literal as a JavaScript string. *)
Definition str (s : string) : text :=
  List.map N_of_ascii (list_ascii_of_string s).

Fixpoint text_eqb (a b : text) : bool :=
  match a, b with
  | [], [] => true
  | x :: a', y :: b' => (N.eqb x y && text_eqb a' b')%bool
  | _, _ => false
  end.

Definition mem (x : text) (s : list text) : bool := existsb (text_eqb x) s.

Definition in_range (lo hi c : N) : bool := (N.leb lo c && N.leb c hi)%bool.
Definition one_of (cs : list N) (c : char) : bool := existsb (N.eqb c) cs.

(** [\d], [[A-Za-z]], [[A-Z]], [[a-z]], [\w] and [\s] of the regular
    expressions of the source (none of them carries the [u] flag). *)
Definition is_digit (c : char) : bool := in_range 48 57 c.
Definition is_upper (c : char) : bool := in_range 65 90 c.
Definition is_lower (c : char) : bool := in_range 97 122 c.
Definition is_alpha (c : char) : bool := (is_upper c || is_lower c)%bool.
Definition is_word (c : char) : bool :=
  (is_alpha c || is_digit c || N.eqb c 95)%bool.
Definition is_space (c : char) : bool :=
  (in_range 9 13 c || one_of [32; 160; 5760; 8232; 8233; 8239; 8287; 12288; 65279] c
   || in_range 8192 8202 c)%bool.

Definition lower_char (c : char) : char := if is_upper c then (c + 32)%N else c.
Definition upper_char (c : char) : char := if is_lower c then (c - 32)%N else c.
Definition toLowerCase (s : text) : text := List.map lower_char s.
Definition toUpperCase (s : text) : text := List.map upper_char s.

(** Longest prefix whose characters satisfy [p], and what follows it. *)
Fixpoint span (p : char -> bool) (l : text) : text * text :=
  match l with
  | c :: l' => if p c then let (a, b) := span p l' in (c :: a, b) else ([], l)
  | [] => ([], [])
  end.

Fixpoint starts_with (sub l : text) : bool :=
  match sub, l with
  | [], _ => true
  | x :: sub', y :: l' => (N.eqb x y && starts_with sub' l')%bool
  | _ :: _, [] => false
  end.

Definition endsWith (s suffix : text) : bool :=
  starts_with (rev suffix) (rev s).

(** [s.substring(a, b)]: the two indices are swapped when [a > b]. *)
Definition substring (s : text) (a b : nat) : text :=
  let lo := Nat.min a b in
  let hi := Nat.max a b in
  firstn (hi - lo)%nat (skipn lo s).

Fixpoint index_from (sub l : text) (k : nat) : option nat :=
  if starts_with sub l then Some k
  else match l with
       | [] => None
       | _ :: l' => index_from sub l' (S k)
       end.

(** [s.indexOf(sub, pos)]: the position is clamped to [0 .. s.length]. *)
Definition indexOf (s sub : text) (pos : Z) : Z :=
  let p := Nat.min (Z.to_nat pos) (List.length s) in
  match index_from sub (skipn p s) p with
  | Some k => Z.of_nat k
  | None => (-1)%Z
  end.

Definition includes (s sub : text) : bool :=
  match index_from sub s 0%nat with Some _ => true | None => false end.

Fixpoint drop_while (p : char -> bool) (l : text) : text :=
  match l with
  | c :: l' => if p c then drop_while p l' else l
  | [] => []
  end.

Definition trimStart (s : text) : text := drop_while is_space s.
Definition trimEnd (s : text) : text := rev (drop_while is_space (rev s)).
Definition trim (s : text) : text := trimEnd (trimStart s).

(** [a.join(sep)]. *)
Fixpoint join (sep : text) (l : list text) : text :=
  match l with
  | [] => []
  | [x] => x
  | x :: l' => x ++ sep ++ join sep l'
  end.

(** A non-empty string is truthy. *)
Definition truthy (s : text) : bool :=
  match s with [] => false | _ => true end.

(** *** Object literals used as dictionaries *)

Definition Record (V : Type) := list (text * V).

Fixpoint Record_get {V} (r : Record V) (k : text) : option V :=
  match r with
  | [] => None
  | (k', v) :: r' =>
      match Record_get r' k with
      | Some v' => Some v'
      | None => if text_eqb k' k then Some v else None
      end
  end.

(** *** Maps, in insertion order *)

Definition Map (V : Type) := list (text * V).

Fixpoint Map_get {V} (m : Map V) (k : text) : option V :=
  match m with
  | [] => None
  | (k', v) :: m' => if text_eqb k' k then Some v else Map_get m' k
  end.

Definition Map_has {V} (m : Map V) (k : text) : bool :=
  match Map_get m k with Some _ => true | None => false end.

(** [m.set(k, v)] keeps the place of a key that is already present. *)
Fixpoint Map_set {V} (m : Map V) (k : text) (v : V) : Map V :=
  match m with
  | [] => [(k, v)]
  | (k', v') :: m' =>
      if text_eqb k' k then (k', v) :: m' else (k', v') :: Map_set m' k v
  end.

Fixpoint Map_delete {V} (m : Map V) (k : text) : Map V :=
  match m with
  | [] => []
  | (k', v') :: m' =>
      if text_eqb k' k then m' else (k', v') :: Map_delete m' k
  end.

Definition Map_size {V} (m : Map V) : nat := List.length m.
Definition Map_keys {V} (m : Map V) : list text := List.map fst m.

(** [m.keys().next().value]: the oldest key, [undefined] on an empty map. *)
Definition Map_first_key {V} (m : Map V) : option text :=
  match m with
  | [] => None
  | (k, _) :: _ => Some k
  end.

(** *** Numbers *)

Definition Math_max (a b : Q) : Q := if Qle_bool a b then b else a.
Definition Math_min (a b : Q) : Q := if Qle_bool a b then a else b.
Definition Math_abs (a : Q) : Q := Qabs a.
Definition num (n : nat) : Q := inject_Z (Z.of_nat n).

(** [xs.sort(cmp)]: the sort of the runtime is stable; [cmp a b <= 0]
    keeps [a] before [b]. *)
Section Sort.
Variable A : Type.
Variable le : A -> A -> bool.   (* [le a b] iff [cmp a b <= 0] *)

Fixpoint sort_insert (x : A) (l : list A) : list A :=
  match l with
  | [] => [x]
  | y :: l' => if le x y then x :: l else y :: sort_insert x l'
  end.

Definition sort (l : list A) : list A := fold_right sort_insert [] l.
End Sort.

(** *** The prototype chain

    [obj[key]] finds the own properties of an object literal and, failing
    that, the properties of [Object.prototype]: functions, and the
    prototype itself under [__proto__], all of them truthy and none of
    them a string or a number. *)
Definition Object_prototype : list text :=
  List.map str [
    "constructor"%string; "__defineGetter__"%string; "__defineSetter__"%string;
    "__lookupGetter__"%string; "__lookupSetter__"%string; "__proto__"%string; "hasOwnProperty"%string;
    "isPrototypeOf"%string; "propertyIsEnumerable"%string; "toLocaleString"%string; "toString"%string;
    "valueOf"%string ].

Definition inherited (k : text) : bool := mem k Object_prototype.

Inductive Lookup (V : Type) :=
| Own (v : V)
| Inherited
| Absent.
Arguments Own {V} v.
Arguments Inherited {V}.
Arguments Absent {V}.

Definition lookup {V} (r : Record V) (k : text) : Lookup V :=
  match Record_get r k with
  | Some v => Own v
  | None => if inherited k then Inherited else Absent
  end.

(** *** Numbers that may be NaN

    An arithmetic operation on NaN, or on a value that is not a number
    such as an inherited function or [undefined], gives NaN; a comparison
    with NaN is false; [Math.min] and [Math.max] of NaN are NaN. *)
Inductive number :=
| Num (q : Q)
| NaN.

Definition number_add (a b : number) : number :=
  match a, b with Num x, Num y => Num (x + y)%Q | _, _ => NaN end.
Definition number_sub (a b : number) : number :=
  match a, b with Num x, Num y => Num (x - y)%Q | _, _ => NaN end.
Definition number_mul (a b : number) : number :=
  match a, b with Num x, Num y => Num (x * y)%Q | _, _ => NaN end.
(** [a / d] for a divisor that is a number other than zero. *)
Definition number_div (a : number) (d : Q) : number :=
  match a with Num x => Num (x / d)%Q | NaN => NaN end.
Definition number_abs (a : number) : number :=
  match a with Num x => Num (Math_abs x) | NaN => NaN end.
Definition number_min (a b : number) : number :=
  match a, b with Num x, Num y => Num (Math_min x y) | _, _ => NaN end.
Definition number_max (a b : number) : number :=
  match a, b with Num x, Num y => Num (Math_max x y) | _, _ => NaN end.
(** [a > 0] *)
Definition number_positive (a : number) : bool :=
  match a with Num x => negb (Qle_bool x 0) | NaN => false end.

End JS.

Import JS.
Local Open Scope string_scope.
Local Open Scope list_scope.

(** ** Data model ([@/types] and the interfaces of the engines) *)

Inductive PartOfSpeech :=
  NOUN | VERB | ADJ | ADV | DET | PRON | ADP | CONJ | NUM | PUNCT | INTJ
| PART | SYM.

Definition PartOfSpeech_eqb (a b : PartOfSpeech) : bool :=
  match a, b with
  | NOUN, NOUN | VERB, VERB | ADJ, ADJ | ADV, ADV | DET, DET | PRON, PRON
  | ADP, ADP | CONJ, CONJ | NUM, NUM | PUNCT, PUNCT | INTJ, INTJ
  | PART, PART | SYM, SYM => true
  | _, _ => false
  end.

Record Token := {
  tok_text : text;
  lemma : text;
  pos : PartOfSpeech;
  tag : text;
  isStopWord : bool;
  isPunctuation : bool;
  isAlpha : bool;
  isDigit : bool;
  index : nat;
  startChar : Z;
  endChar : Z }.

Record SentimentScore := {
  overall : Q;
  positive : Q;
  negative : Q;
  neutral : Q;
  confidence : Q }.

Inductive SentenceType := declarative | interrogative | exclamatory | imperative.

Record Sentence := {
  sen_text : text;
  sen_tokens : list Token;
  sen_startChar : nat;
  sen_endChar : nat;
  sen_type : SentenceType;
  sen_sentiment : SentimentScore;
  sen_complexity : Q }.

Inductive EntityType :=
  PERSON | ORGANIZATION | LOCATION | PRODUCT | DATE | TIME | MONEY | PERCENT
| EVENT | URL | EMAIL | HASHTAG | MENTION.

Definition EntityType_eqb (a b : EntityType) : bool :=
  match a, b with
  | PERSON, PERSON | ORGANIZATION, ORGANIZATION | LOCATION, LOCATION
  | PRODUCT, PRODUCT | DATE, DATE | TIME, TIME | MONEY, MONEY
  | PERCENT, PERCENT | EVENT, EVENT | URL, URL | EMAIL, EMAIL
  | HASHTAG, HASHTAG | MENTION, MENTION => true
  | _, _ => false
  end.

Record NamedEntity := {
  ent_text : text;
  ent_type : EntityType;
  ent_startChar : Z;
  ent_endChar : Z;
  ent_confidence : Q }.

Record ScoredKeyword := {
  keyword : text;
  kw_score : Q;
  frequency : Z;
  method : text }.

(** The [keywords] field of [ExtractedKeywords]; [keyphrases], [topics]
    and [statistics] are computed after it and do not feed back into it. *)
Record ExtractedKeywords := {
  keywords : list ScoredKeyword }.

(** ** The engine singletons and their caches *)

Record World := {
  tokenizer_cache : Map (list Token);
  sentenceSplitter_cache : Map (list Sentence);
  sentimentAnalyzer_cache : Map SentimentScore;
  keywordExtractor_cache : Map ExtractedKeywords;
  nerRecognizer_cache : Map (list NamedEntity) }.

(** Every engine freshly constructed. *)
Definition fresh : World :=
  {| tokenizer_cache := []; sentenceSplitter_cache := [];
     sentimentAnalyzer_cache := []; keywordExtractor_cache := [];
     nerRecognizer_cache := [] |}.

(** Operations read and update the singletons: a state monad over [World]. *)
Definition M (A : Type) : Type := World -> A * World.
Definition ret {A} (a : A) : M A := fun w => (a, w).
Definition bind {A B} (m : M A) (k : A -> M B) : M B :=
  fun w => let (a, w') := m w in k a w'.
Notation "x <- m ;; k" := (bind m (fun x => k))
  (at level 61, m at next level, right associativity).

Fixpoint mapM {A B} (f : A -> M B) (l : list A) : M (list B) :=
  match l with
  | [] => ret []
  | a :: l' => b <- f a ;; bs <- mapM f l' ;; ret (b :: bs)
  end.

(** *** The cache in front of every main operation

    [tokenize], [split], [analyze], [extract] and [recognize] all open with
    the same lookup and close with the same insertion:
<<
    const cacheKey = text.substring(0, n);
    if (this.cache.has(cacheKey)) return this.cache.get(cacheKey)!;
    ...
    if (this.cache.size >= this.maxCacheSize) {
      const firstKey = this.cache.keys().next().value;
      if (firstKey) this.cache.delete(firstKey);
    }
    this.cache.set(cacheKey, result);
    return result;
>>
    An [Engine] gathers what differs: where the cache lives, the length of
    the key prefix, the capacity and the computation in between. *)
Record Engine (I R : Type) := {
  cache_get : World -> Map R;
  cache_set : Map R -> World -> World;
  keyLength : nat;
  maxCacheSize : nat;
  input_text : I -> text;
  compute : I -> M R }.

Definition cacheKey {I R} (E : Engine I R) (i : I) : text :=
  substring (input_text E i) 0 (keyLength E).

(** The eviction step; the guard [if (firstKey)] is the truthiness of the
    key, a string. *)
Definition evict {R} (cap : nat) (c : Map R) : Map R :=
  if (cap <=? Map_size c)%nat then
    match Map_first_key c with
    | Some firstKey => if truthy firstKey then Map_delete c firstKey else c
    | None => c
    end
  else c.

Definition call {I R} (E : Engine I R) (i : I) : M R := fun w =>
  let key := cacheKey E i in
  match Map_get (cache_get E w) key with
  | Some r => (r, w)
  | None =>
      let (result, w1) := compute E i w in
      let c := evict (maxCacheSize E) (cache_get E w1) in
      (result, cache_set E (Map_set c key result) w1)
  end.

(** [clearCache()] of an engine. *)
Definition clearCache {I R} (E : Engine I R) : M unit :=
  fun w => (tt, cache_set E [] w).

(** ** Tokenizer ([src/lib/nlp/tokenizer.ts]) *)

Module Tokenizer.

Record LemmaRule := {
  suffix : text;
  replacement : text;
  minLength : nat;
  rule_pos : list PartOfSpeech }.

Definition STOP_WORDS : list text :=
  List.map str [
    "a"; "an"; "the"; "and"; "or"; "but"; "in"; "on"; "at"; "to"; "for";
    "of"; "with"; "by"; "from"; "up"; "about"; "into"; "through"; "during";
    "before"; "after"; "above"; "below"; "between"; "under"; "again";
    "further"; "then"; "once"; "here"; "there"; "when"; "where"; "why";
    "how"; "all"; "each"; "few"; "more"; "most"; "other"; "some"; "such";
    "no"; "nor"; "not"; "only"; "own"; "same"; "so"; "than"; "too"; "very";
    "s"; "t"; "can"; "will"; "just"; "don"; "should"; "now"; "i"; "me"; "my";
    "myself"; "we"; "our"; "ours"; "ourselves"; "you"; "your"; "yours";
    "yourself"; "yourselves"; "he"; "him"; "his"; "himself"; "she"; "her";
    "hers"; "herself"; "it"; "its"; "itself"; "they"; "them"; "their";
    "theirs"; "themselves"; "what"; "which"; "who"; "whom"; "this"; "that";
    "these"; "those"; "am"; "is"; "are"; "was"; "were"; "be"; "been";
    "being"; "have"; "has"; "had"; "having"; "do"; "does"; "did"; "doing";
    "would"; "could"; "ought"; "as"; "until"; "while"; "if"; "because";
    "against"; "both"; "any"; "over" ].

Definition LEMMA_RULES : list LemmaRule :=
  List.map (fun r => match r with (s, r, n, p) =>
              {| suffix := str s; replacement := str r; minLength := n; rule_pos := p |} end) [
    ("ing", "", 5, [VERB]); ("ying", "y", 5, [VERB]);
    ("ied", "y", 4, [VERB]); ("ies", "y", 4, [VERB]); ("ed", "", 4, [VERB]);
    ("es", "", 4, [VERB]); ("s", "", 4, [VERB; NOUN]);
    ("ies", "y", 4, [NOUN]); ("ves", "f", 4, [NOUN]);
    ("xes", "x", 4, [NOUN]); ("zes", "z", 4, [NOUN]);
    ("ches", "ch", 5, [NOUN]); ("shes", "sh", 5, [NOUN]);
    ("ses", "s", 4, [NOUN]); ("men", "man", 4, [NOUN]); ("er", "", 4, [ADJ]);
    ("est", "", 5, [ADJ]); ("ier", "y", 4, [ADJ]); ("iest", "y", 5, [ADJ]);
    ("ly", "", 4, [ADV]); ("ness", "", 6, [NOUN]); ("ment", "", 6, [NOUN]);
    ("tion", "te", 6, [NOUN]); ("ation", "", 7, [NOUN]);
    ("ity", "", 5, [NOUN]); ("able", "", 6, [ADJ]); ("ible", "", 6, [ADJ]);
    ("ful", "", 5, [ADJ]); ("less", "", 6, [ADJ]); ("ous", "", 5, [ADJ]);
    ("ive", "", 5, [ADJ]) ]%nat.

Definition IRREGULAR_VERBS : Record text :=
  List.map (fun p => (str (fst p), str (snd p))) [
    ("was", "be"); ("were", "be"); ("been", "be"); ("being", "be");
    ("am", "be"); ("is", "be"); ("are", "be"); ("had", "have");
    ("has", "have"); ("having", "have"); ("did", "do"); ("does", "do");
    ("doing", "do"); ("done", "do"); ("went", "go"); ("goes", "go");
    ("going", "go"); ("gone", "go"); ("said", "say"); ("says", "say");
    ("saying", "say"); ("made", "make"); ("makes", "make");
    ("making", "make"); ("knew", "know"); ("knows", "know");
    ("knowing", "know"); ("known", "know"); ("thought", "think");
    ("thinks", "think"); ("thinking", "think"); ("took", "take");
    ("takes", "take"); ("taking", "take"); ("taken", "take");
    ("came", "come"); ("comes", "come"); ("coming", "come"); ("saw", "see");
    ("sees", "see"); ("seeing", "see"); ("seen", "see"); ("got", "get");
    ("gets", "get"); ("getting", "get"); ("gotten", "get"); ("gave", "give");
    ("gives", "give"); ("giving", "give"); ("given", "give");
    ("found", "find"); ("finds", "find"); ("finding", "find");
    ("told", "tell"); ("tells", "tell"); ("telling", "tell");
    ("felt", "feel"); ("feels", "feel"); ("feeling", "feel");
    ("left", "leave"); ("leaves", "leave"); ("leaving", "leave");
    ("brought", "bring"); ("brings", "bring"); ("bringing", "bring");
    ("began", "begin"); ("begins", "begin"); ("beginning", "begin");
    ("begun", "begin"); ("kept", "keep"); ("keeps", "keep");
    ("keeping", "keep"); ("held", "hold"); ("holds", "hold");
    ("holding", "hold"); ("wrote", "write"); ("writes", "write");
    ("writing", "write"); ("written", "write"); ("stood", "stand");
    ("stands", "stand"); ("standing", "stand"); ("heard", "hear");
    ("hears", "hear"); ("hearing", "hear"); ("let", "let"); ("lets", "let");
    ("letting", "let"); ("meant", "mean"); ("means", "mean");
    ("meaning", "mean"); ("set", "set"); ("sets", "set"); ("setting", "set");
    ("met", "meet"); ("meets", "meet"); ("meeting", "meet"); ("ran", "run");
    ("runs", "run"); ("running", "run"); ("paid", "pay"); ("pays", "pay");
    ("paying", "pay"); ("sat", "sit"); ("sits", "sit"); ("sitting", "sit");
    ("spoke", "speak"); ("speaks", "speak"); ("speaking", "speak");
    ("spoken", "speak"); ("lay", "lie"); ("lies", "lie"); ("lying", "lie");
    ("lain", "lie"); ("led", "lead"); ("leads", "lead"); ("leading", "lead");
    ("read", "read"); ("reads", "read"); ("reading", "read");
    ("grew", "grow"); ("grows", "grow"); ("growing", "grow");
    ("grown", "grow"); ("lost", "lose"); ("loses", "lose");
    ("losing", "lose"); ("fell", "fall"); ("falls", "fall");
    ("falling", "fall"); ("fallen", "fall"); ("sent", "send");
    ("sends", "send"); ("sending", "send"); ("built", "build");
    ("builds", "build"); ("building", "build"); ("spent", "spend");
    ("spends", "spend"); ("spending", "spend"); ("cut", "cut");
    ("cuts", "cut"); ("cutting", "cut"); ("hit", "hit"); ("hits", "hit");
    ("hitting", "hit"); ("put", "put"); ("puts", "put"); ("putting", "put");
    ("shut", "shut"); ("shuts", "shut"); ("shutting", "shut");
    ("hurt", "hurt"); ("hurts", "hurt"); ("hurting", "hurt");
    ("cost", "cost"); ("costs", "cost"); ("costing", "cost");
    ("burst", "burst"); ("bursts", "burst"); ("bursting", "burst");
    ("sold", "sell"); ("sells", "sell"); ("selling", "sell");
    ("bought", "buy"); ("buys", "buy"); ("buying", "buy");
    ("caught", "catch"); ("catches", "catch"); ("catching", "catch");
    ("taught", "teach"); ("teaches", "teach"); ("teaching", "teach");
    ("fought", "fight"); ("fights", "fight"); ("fighting", "fight");
    ("sought", "seek"); ("seeks", "seek"); ("seeking", "seek");
    ("wore", "wear"); ("wears", "wear"); ("wearing", "wear");
    ("worn", "wear"); ("bore", "bear"); ("bears", "bear");
    ("bearing", "bear"); ("borne", "bear"); ("born", "bear");
    ("tore", "tear"); ("tears", "tear"); ("tearing", "tear");
    ("torn", "tear"); ("swore", "swear"); ("swears", "swear");
    ("swearing", "swear"); ("sworn", "swear"); ("broke", "break");
    ("breaks", "break"); ("breaking", "break"); ("broken", "break");
    ("chose", "choose"); ("chooses", "choose"); ("choosing", "choose");
    ("chosen", "choose"); ("froze", "freeze"); ("freezes", "freeze");
    ("freezing", "freeze"); ("frozen", "freeze"); ("woke", "wake");
    ("wakes", "wake"); ("waking", "wake"); ("woken", "wake");
    ("drove", "drive"); ("drives", "drive"); ("driving", "drive");
    ("driven", "drive"); ("rode", "ride"); ("rides", "ride");
    ("riding", "ride"); ("ridden", "ride"); ("rose", "rise");
    ("rises", "rise"); ("rising", "rise"); ("risen", "rise");
    ("wrote", "write"); ("writes", "write"); ("writing", "write");
    ("written", "write"); ("hid", "hide"); ("hides", "hide");
    ("hiding", "hide"); ("hidden", "hide"); ("bit", "bite");
    ("bites", "bite"); ("biting", "bite"); ("bitten", "bite");
    ("flew", "fly"); ("flies", "fly"); ("flying", "fly"); ("flown", "fly");
    ("drew", "draw"); ("draws", "draw"); ("drawing", "draw");
    ("drawn", "draw"); ("threw", "throw"); ("throws", "throw");
    ("throwing", "throw"); ("thrown", "throw"); ("blew", "blow");
    ("blows", "blow"); ("blowing", "blow"); ("blown", "blow");
    ("knew", "know"); ("knows", "know"); ("knowing", "know");
    ("known", "know"); ("slew", "slay"); ("slays", "slay");
    ("slaying", "slay"); ("slain", "slay"); ("swam", "swim");
    ("swims", "swim"); ("swimming", "swim"); ("swum", "swim");
    ("sang", "sing"); ("sings", "sing"); ("singing", "sing");
    ("sung", "sing"); ("rang", "ring"); ("rings", "ring");
    ("ringing", "ring"); ("rung", "ring"); ("sank", "sink");
    ("sinks", "sink"); ("sinking", "sink"); ("sunk", "sink");
    ("shrank", "shrink"); ("shrinks", "shrink"); ("shrinking", "shrink");
    ("shrunk", "shrink"); ("stank", "stink"); ("stinks", "stink");
    ("stinking", "stink"); ("stunk", "stink"); ("drank", "drink");
    ("drinks", "drink"); ("drinking", "drink"); ("drunk", "drink");
    ("sprang", "spring"); ("springs", "spring"); ("springing", "spring");
    ("sprung", "spring"); ("won't", "will not"); ("can't", "can not");
    ("couldn't", "could not"); ("shouldn't", "should not");
    ("wouldn't", "would not"); ("don't", "do not"); ("doesn't", "does not");
    ("didn't", "did not"); ("isn't", "is not"); ("aren't", "are not");
    ("wasn't", "was not"); ("weren't", "were not"); ("haven't", "have not");
    ("hasn't", "has not"); ("hadn't", "had not"); ("i'm", "i am");
    ("you're", "you are"); ("we're", "we are"); ("they're", "they are");
    ("he's", "he is"); ("she's", "she is"); ("it's", "it is");
    ("that's", "that is"); ("what's", "what is"); ("who's", "who is");
    ("where's", "where is"); ("i've", "i have"); ("you've", "you have");
    ("we've", "we have"); ("they've", "they have"); ("i'll", "i will");
    ("you'll", "you will"); ("we'll", "we will"); ("they'll", "they will");
    ("he'll", "he will"); ("she'll", "she will"); ("it'll", "it will");
    ("i'd", "i would"); ("you'd", "you would"); ("we'd", "we would");
    ("they'd", "they would"); ("he'd", "he would"); ("she'd", "she would");
    ("it'd", "it would"); ("let's", "let us"); ("that'd", "that would");
    ("who'd", "who would") ].

Definition IRREGULAR_PLURALS : Record text :=
  List.map (fun p => (str (fst p), str (snd p))) [
    ("children", "child"); ("feet", "foot"); ("teeth", "tooth");
    ("mice", "mouse"); ("geese", "goose"); ("men", "man");
    ("women", "woman"); ("people", "person"); ("oxen", "ox");
    ("dice", "die"); ("lice", "louse"); ("criteria", "criterion");
    ("phenomena", "phenomenon"); ("data", "datum");
    ("bacteria", "bacterium"); ("cacti", "cactus"); ("fungi", "fungus");
    ("nuclei", "nucleus"); ("radii", "radius"); ("alumni", "alumnus");
    ("syllabi", "syllabus"); ("analyses", "analysis"); ("bases", "basis");
    ("crises", "crisis"); ("diagnoses", "diagnosis");
    ("hypotheses", "hypothesis"); ("oases", "oasis");
    ("parentheses", "parenthesis"); ("syntheses", "synthesis");
    ("theses", "thesis"); ("appendices", "appendix"); ("indices", "index");
    ("matrices", "matrix"); ("vertices", "vertex") ].

Definition WORD_POS_MAP : Record (PartOfSpeech * text) :=
  List.map (fun e => match e with (w, p, g) => (str w, (p, str g)) end) [
    ("be", VERB, "VB"); ("have", VERB, "VB"); ("do", VERB, "VB");
    ("say", VERB, "VB"); ("get", VERB, "VB"); ("make", VERB, "VB");
    ("go", VERB, "VB"); ("know", VERB, "VB"); ("take", VERB, "VB");
    ("see", VERB, "VB"); ("come", VERB, "VB"); ("think", VERB, "VB");
    ("look", VERB, "VB"); ("want", VERB, "VB"); ("give", VERB, "VB");
    ("use", VERB, "VB"); ("find", VERB, "VB"); ("tell", VERB, "VB");
    ("ask", VERB, "VB"); ("work", VERB, "VB"); ("seem", VERB, "VB");
    ("feel", VERB, "VB"); ("try", VERB, "VB"); ("leave", VERB, "VB");
    ("call", VERB, "VB"); ("need", VERB, "VB"); ("become", VERB, "VB");
    ("put", VERB, "VB"); ("mean", VERB, "VB"); ("keep", VERB, "VB");
    ("let", VERB, "VB"); ("begin", VERB, "VB"); ("show", VERB, "VB");
    ("hear", VERB, "VB"); ("play", VERB, "VB"); ("run", VERB, "VB");
    ("move", VERB, "VB"); ("live", VERB, "VB"); ("believe", VERB, "VB");
    ("hold", VERB, "VB"); ("bring", VERB, "VB"); ("happen", VERB, "VB");
    ("write", VERB, "VB"); ("provide", VERB, "VB"); ("sit", VERB, "VB");
    ("stand", VERB, "VB"); ("lose", VERB, "VB"); ("pay", VERB, "VB");
    ("meet", VERB, "VB"); ("include", VERB, "VB"); ("continue", VERB, "VB");
    ("set", VERB, "VB"); ("learn", VERB, "VB"); ("change", VERB, "VB");
    ("lead", VERB, "VB"); ("understand", VERB, "VB"); ("watch", VERB, "VB");
    ("follow", VERB, "VB"); ("stop", VERB, "VB"); ("create", VERB, "VB");
    ("speak", VERB, "VB"); ("read", VERB, "VB"); ("allow", VERB, "VB");
    ("add", VERB, "VB"); ("spend", VERB, "VB"); ("grow", VERB, "VB");
    ("open", VERB, "VB"); ("walk", VERB, "VB"); ("win", VERB, "VB");
    ("offer", VERB, "VB"); ("remember", VERB, "VB"); ("love", VERB, "VB");
    ("consider", VERB, "VB"); ("appear", VERB, "VB"); ("buy", VERB, "VB");
    ("wait", VERB, "VB"); ("serve", VERB, "VB"); ("die", VERB, "VB");
    ("send", VERB, "VB"); ("expect", VERB, "VB"); ("build", VERB, "VB");
    ("stay", VERB, "VB"); ("fall", VERB, "VB"); ("cut", VERB, "VB");
    ("reach", VERB, "VB"); ("kill", VERB, "VB"); ("remain", VERB, "VB");
    ("suggest", VERB, "VB"); ("raise", VERB, "VB"); ("pass", VERB, "VB");
    ("sell", VERB, "VB"); ("require", VERB, "VB"); ("report", VERB, "VB");
    ("decide", VERB, "VB"); ("pull", VERB, "VB"); ("develop", VERB, "VB");
    ("time", NOUN, "NN"); ("year", NOUN, "NN"); ("people", NOUN, "NNS");
    ("way", NOUN, "NN"); ("day", NOUN, "NN"); ("man", NOUN, "NN");
    ("thing", NOUN, "NN"); ("woman", NOUN, "NN"); ("life", NOUN, "NN");
    ("child", NOUN, "NN"); ("world", NOUN, "NN"); ("school", NOUN, "NN");
    ("state", NOUN, "NN"); ("family", NOUN, "NN"); ("student", NOUN, "NN");
    ("group", NOUN, "NN"); ("country", NOUN, "NN"); ("problem", NOUN, "NN");
    ("hand", NOUN, "NN"); ("part", NOUN, "NN"); ("place", NOUN, "NN");
    ("case", NOUN, "NN"); ("week", NOUN, "NN"); ("company", NOUN, "NN");
    ("system", NOUN, "NN"); ("program", NOUN, "NN");
    ("question", NOUN, "NN"); ("work", NOUN, "NN");
    ("government", NOUN, "NN"); ("number", NOUN, "NN");
    ("night", NOUN, "NN"); ("point", NOUN, "NN"); ("home", NOUN, "NN");
    ("water", NOUN, "NN"); ("room", NOUN, "NN"); ("mother", NOUN, "NN");
    ("area", NOUN, "NN"); ("money", NOUN, "NN"); ("story", NOUN, "NN");
    ("fact", NOUN, "NN"); ("month", NOUN, "NN"); ("lot", NOUN, "NN");
    ("right", NOUN, "NN"); ("study", NOUN, "NN"); ("book", NOUN, "NN");
    ("eye", NOUN, "NN"); ("job", NOUN, "NN"); ("word", NOUN, "NN");
    ("business", NOUN, "NN"); ("issue", NOUN, "NN"); ("side", NOUN, "NN");
    ("kind", NOUN, "NN"); ("head", NOUN, "NN"); ("house", NOUN, "NN");
    ("service", NOUN, "NN"); ("friend", NOUN, "NN"); ("father", NOUN, "NN");
    ("power", NOUN, "NN"); ("hour", NOUN, "NN"); ("game", NOUN, "NN");
    ("line", NOUN, "NN"); ("end", NOUN, "NN"); ("member", NOUN, "NN");
    ("law", NOUN, "NN"); ("car", NOUN, "NN"); ("city", NOUN, "NN");
    ("community", NOUN, "NN"); ("name", NOUN, "NN");
    ("president", NOUN, "NN"); ("team", NOUN, "NN"); ("minute", NOUN, "NN");
    ("idea", NOUN, "NN"); ("kid", NOUN, "NN"); ("body", NOUN, "NN");
    ("information", NOUN, "NN"); ("back", NOUN, "NN");
    ("parent", NOUN, "NN"); ("face", NOUN, "NN"); ("others", NOUN, "NNS");
    ("level", NOUN, "NN"); ("office", NOUN, "NN"); ("door", NOUN, "NN");
    ("health", NOUN, "NN"); ("person", NOUN, "NN"); ("art", NOUN, "NN");
    ("war", NOUN, "NN"); ("history", NOUN, "NN"); ("party", NOUN, "NN");
    ("result", NOUN, "NN"); ("change", NOUN, "NN"); ("morning", NOUN, "NN");
    ("reason", NOUN, "NN"); ("research", NOUN, "NN"); ("girl", NOUN, "NN");
    ("guy", NOUN, "NN"); ("moment", NOUN, "NN"); ("air", NOUN, "NN");
    ("teacher", NOUN, "NN"); ("force", NOUN, "NN");
    ("education", NOUN, "NN"); ("video", NOUN, "NN");
    ("content", NOUN, "NN"); ("algorithm", NOUN, "NN");
    ("channel", NOUN, "NN"); ("viewer", NOUN, "NN"); ("creator", NOUN, "NN");
    ("audience", NOUN, "NN"); ("engagement", NOUN, "NN");
    ("thumbnail", NOUN, "NN"); ("hook", NOUN, "NN"); ("script", NOUN, "NN");
    ("trend", NOUN, "NN"); ("platform", NOUN, "NN"); ("brand", NOUN, "NN");
    ("good", ADJ, "JJ"); ("new", ADJ, "JJ"); ("first", ADJ, "JJ");
    ("last", ADJ, "JJ"); ("long", ADJ, "JJ"); ("great", ADJ, "JJ");
    ("little", ADJ, "JJ"); ("own", ADJ, "JJ"); ("other", ADJ, "JJ");
    ("old", ADJ, "JJ"); ("right", ADJ, "JJ"); ("big", ADJ, "JJ");
    ("high", ADJ, "JJ"); ("different", ADJ, "JJ"); ("small", ADJ, "JJ");
    ("large", ADJ, "JJ"); ("next", ADJ, "JJ"); ("early", ADJ, "JJ");
    ("young", ADJ, "JJ"); ("important", ADJ, "JJ"); ("few", ADJ, "JJ");
    ("public", ADJ, "JJ"); ("bad", ADJ, "JJ"); ("same", ADJ, "JJ");
    ("able", ADJ, "JJ"); ("viral", ADJ, "JJ"); ("amazing", ADJ, "JJ");
    ("incredible", ADJ, "JJ"); ("crazy", ADJ, "JJ"); ("insane", ADJ, "JJ");
    ("shocking", ADJ, "JJ"); ("secret", ADJ, "JJ"); ("best", ADJ, "JJS");
    ("worst", ADJ, "JJS"); ("better", ADJ, "JJR"); ("worse", ADJ, "JJR");
    ("now", ADV, "RB"); ("just", ADV, "RB"); ("also", ADV, "RB");
    ("very", ADV, "RB"); ("then", ADV, "RB"); ("more", ADV, "RBR");
    ("here", ADV, "RB"); ("well", ADV, "RB"); ("only", ADV, "RB");
    ("even", ADV, "RB"); ("back", ADV, "RB"); ("there", ADV, "RB");
    ("still", ADV, "RB"); ("down", ADV, "RB"); ("up", ADV, "RB");
    ("out", ADV, "RB"); ("really", ADV, "RB"); ("never", ADV, "RB");
    ("always", ADV, "RB"); ("most", ADV, "RBS"); ("actually", ADV, "RB");
    ("literally", ADV, "RB") ].

(** *** Part-of-speech patterns

    Each regular expression of [POS_PATTERNS] is a test on the token text.
    The anchored alternations are membership tests on the lower-cased text
    and the unanchored [.../i] ones are suffix tests. *)

Definition single (cs : list N) (t : text) : bool :=
  match t with [c] => one_of cs c | _ => false end.

Definition whole_ci (ws : list string) (t : text) : bool :=
  mem (toLowerCase t) (List.map str ws).

Definition ends_ci (ss : list string) (t : text) : bool :=
  existsb (fun s => endsWith (toLowerCase t) (str s)) ss.

Definition digits (t : text) : bool :=
  match t with [] => false | _ => forallb is_digit t end.

(** [/^\d+[,.]\d+$/] *)
Definition decimal (t : text) : bool :=
  match span is_digit t with
  | (_ :: _, c :: r) => one_of [44; 46]%N c && digits r
  | _ => false
  end.

(** [/^\d+(st|nd|rd|th)$/i] *)
Definition ordinal (t : text) : bool :=
  match span is_digit t with
  | (_ :: _, r) => whole_ci ["st"; "nd"; "rd"; "th"] r
  | _ => false
  end.

(** [/^\$\d+/] *)
Definition dollars (t : text) : bool :=
  match t with
  | c :: d :: _ => N.eqb c 36 && is_digit d
  | _ => false
  end.

(** [/^\d+%$/] *)
Definition percent (t : text) : bool :=
  match span is_digit t with
  | (_ :: _, [c]) => N.eqb c 37
  | _ => false
  end.

Record POSPattern := {
  pattern : text -> bool;
  pat_pos : PartOfSpeech;
  pat_tag : text }.

Definition POS_PATTERNS : list POSPattern :=
  List.map (fun e => match e with (p, q, g) =>
              {| pattern := p; pat_pos := q; pat_tag := str g |} end) [
    (* Punctuation *)
    (single [46; 33; 63; 59; 58]%N, PUNCT, ".");
    (single [44]%N, PUNCT, ",");
    (single [45; 8211; 8212]%N, PUNCT, ":");
    (single [39; 34; 96; 39]%N, PUNCT, "''");
    (single [40; 41; 91; 93; 123; 125]%N, PUNCT, "-LRB-");
    (* Numbers *)
    (digits, NUM, "CD");
    (decimal, NUM, "CD");
    (ordinal, ADJ, "JJ");
    (dollars, NUM, "CD");
    (percent, NUM, "CD");
    (* Determiners *)
    (whole_ci ["a"; "an"; "the"], DET, "DT");
    (whole_ci ["this"; "that"; "these"; "those"], DET, "DT");
    (whole_ci ["my"; "your"; "his"; "her"; "its"; "our"; "their"], DET, "PRP$");
    (whole_ci ["some"; "any"; "no"; "every"; "each"; "all"; "both"; "few";
               "many"; "much"; "more"; "most"; "other"; "another"], DET, "DT");
    (* Pronouns *)
    (whole_ci ["i"; "me"; "myself"], PRON, "PRP");
    (whole_ci ["you"; "yourself"; "yourselves"], PRON, "PRP");
    (whole_ci ["he"; "him"; "himself"; "she"; "her"; "herself"; "it";
               "itself"], PRON, "PRP");
    (whole_ci ["we"; "us"; "ourselves"; "they"; "them"; "themselves"],
     PRON, "PRP");
    (whole_ci ["who"; "whom"; "whose"; "which"; "what"; "whoever";
               "whatever"; "whichever"], PRON, "WP");
    (* Prepositions *)
    (whole_ci ["in"; "on"; "at"; "to"; "for"; "of"; "with"; "by"; "from";
               "up"; "about"; "into"; "through"; "during"; "before";
               "after"; "above"; "below"; "between"; "under"; "again";
               "further"; "then"; "once"], ADP, "IN");
    (* Conjunctions *)
    (whole_ci ["and"; "or"; "but"; "nor"; "so"; "yet"; "for"], CONJ, "CC");
    (whole_ci ["if"; "unless"; "although"; "because"; "since"; "while";
               "when"; "where"; "whereas"; "whether"; "as"; "than"; "that"],
     CONJ, "IN");
    (* Auxiliaries *)
    (whole_ci ["is"; "am"; "are"; "was"; "were"; "be"; "been"; "being"],
     VERB, "VB");
    (whole_ci ["have"; "has"; "had"; "having"], VERB, "VB");
    (whole_ci ["do"; "does"; "did"; "doing"], VERB, "VB");
    (whole_ci ["will"; "would"; "shall"; "should"; "can"; "could"; "may";
               "might"; "must"], VERB, "MD");
    (* Common verb endings *)
    (ends_ci ["ing"], VERB, "VBG");
    (ends_ci ["ed"], VERB, "VBD");
    (ends_ci ["s"], VERB, "VBZ");
    (* Common adjective endings *)
    (ends_ci ["ful"; "less"; "able"; "ible"; "ous"; "ive"; "al"; "ial";
              "ic"; "ical"; "ish"; "like"; "ly"; "y"; "ary"; "ory"],
     ADJ, "JJ");
    (ends_ci ["er"], ADJ, "JJR");
    (ends_ci ["est"], ADJ, "JJS");
    (* Common adverb endings *)
    (ends_ci ["ly"], ADV, "RB");
    (* Common noun endings *)
    (ends_ci ["tion"; "sion"; "ness"; "ment"; "ity"; "ism"; "ist"; "er";
              "or"; "ant"; "ent"; "ance"; "ence"; "dom"; "hood"; "ship";
              "age"], NOUN, "NN");
    (* Interjections *)
    (whole_ci ["oh"; "ah"; "wow"; "ouch"; "hey"; "hi"; "hello"; "bye";
               "oops"; "ugh"; "huh"; "hmm"; "um"; "uh"; "well"; "yeah";
               "yes"; "no"; "okay"; "ok"], INTJ, "UH");
    (* Particles *)
    (whole_ci ["not"; "n't"], PART, "RB");
    (whole_ci ["to"], PART, "TO");
    (* Symbols *)
    (single [64; 35; 36; 37; 38; 42; 43; 61; 60; 62; 126; 94; 124; 92]%N,
     SYM, "SYM") ].

(** *** The scanner

    [tokenRegex] is
    [([A-Za-z]+(?:'[A-Za-z]+)?)|(\d+(?:[.,]\d+)*%?)|([^\w\s])|(\s+)] with
    the [g] flag.  Each alternative is decided by the first character, and
    every greedy repetition runs to its end because what follows it is
    optional, so a match at a position is computed without backtracking.  A
    character that starts no alternative (the underscore) is passed over
    by [exec]. *)

Inductive RawType := word | punct | space.

Record RawToken := { raw_text : text; raw_type : RawType }.

(** [[A-Za-z]+(?:'[A-Za-z]+)?] on a text that starts with a letter. *)
Definition match_word (l : text) : text * text :=
  let (w, rest) := span is_alpha l in
  match rest with
  | c :: rest' =>
      if N.eqb c 39 then
        match span is_alpha rest' with
        | ([], _) => (w, rest)
        | (w2, rest'') => (w ++ c :: w2, rest'')
        end
      else (w, rest)
  | [] => (w, rest)
  end.

(** [(?:[.,]\d+)*] *)
Fixpoint match_groups (fuel : nat) (l : text) : text * text :=
  match fuel, l with
  | S f, c :: rest =>
      if one_of [46; 44]%N c then
        match span is_digit rest with
        | ([], _) => ([], l)
        | (ds, rest') =>
            let (m, r) := match_groups f rest' in (c :: ds ++ m, r)
        end
      else ([], l)
  | _, _ => ([], l)
  end.

(** [\d+(?:[.,]\d+)*%?] on a text that starts with a digit. *)
Definition match_number (l : text) : text * text :=
  let (ds, rest) := span is_digit l in
  let (gs, rest') := match_groups (List.length rest) rest in
  match rest' with
  | c :: rest'' =>
      if N.eqb c 37 then (ds ++ gs ++ [c], rest'') else (ds ++ gs, rest')
  | [] => (ds ++ gs, rest')
  end.

(** The [while ((match = tokenRegex.exec(text)) !== null)] loop; [fuel]
    bounds the number of matches and skipped characters. *)
Fixpoint scan (fuel : nat) (l : text) : list RawToken :=
  match fuel, l with
  | S f, c :: rest =>
      if is_alpha c then
        let (w, r) := match_word l in
        {| raw_text := w; raw_type := word |} :: scan f r
      else if is_digit c then
        let (n, r) := match_number l in
        {| raw_text := n; raw_type := word |} :: scan f r
      else if negb (is_word c) && negb (is_space c) then
        {| raw_text := [c]; raw_type := punct |} :: scan f rest
      else if is_space c then
        scan f (snd (span is_space l))
      else scan f rest
  | _, _ => []
  end.

Definition splitIntoRawTokens (t : text) : list RawToken :=
  scan (List.length t) t.

(** *** Analysis of one token *)

Definition determinePOS (t lowerText : text) : PartOfSpeech * text :=
  match Record_get WORD_POS_MAP lowerText with
  | Some e => e
  | None =>
      match find (fun p => pattern p t) POS_PATTERNS with
      | Some p => (pat_pos p, pat_tag p)
      | None => (NOUN, str "NN")
      end
  end.

Definition apply_rule (w : text) (p : PartOfSpeech) (r : LemmaRule)
  : option text :=
  if endsWith w (suffix r) && (minLength r <=? List.length w)%nat
     && existsb (PartOfSpeech_eqb p) (rule_pos r)
  then
    let stem := firstn (List.length w - List.length (suffix r)) w
                  ++ replacement r in
    if (2 <=? List.length stem)%nat then Some stem else None
  else None.

Fixpoint first_rule (w : text) (p : PartOfSpeech) (rs : list LemmaRule)
  : option text :=
  match rs with
  | [] => None
  | r :: rs' =>
      match apply_rule w p r with
      | Some stem => Some stem
      | None => first_rule w p rs'
      end
  end.

Definition getLemma (w : text) (p : PartOfSpeech) : text :=
  match Record_get IRREGULAR_VERBS w with
  | Some l => l
  | None =>
      match Record_get IRREGULAR_PLURALS w with
      | Some l => l
      | None =>
          match first_rule w p LEMMA_RULES with
          | Some stem => stem
          | None => w
          end
      end
  end.

Definition analyzeToken (t : text) (idx : nat) (startChar endChar : Z)
  : Token :=
  let lowerText := toLowerCase t in
  let (p, g) := determinePOS t lowerText in
  {| tok_text := t;
     lemma := getLemma lowerText p;
     pos := p;
     tag := g;
     isStopWord := mem lowerText STOP_WORDS;
     isPunctuation := PartOfSpeech_eqb p PUNCT;
     isAlpha := match t with [] => false | _ => forallb is_alpha t end;
     isDigit := digits t;
     index := idx;
     startChar := startChar;
     endChar := endChar |}.

(** *** [tokenize] *)

(** The [for (const rawToken of rawTokens)] loop; [n] is [tokens.length]. *)
Fixpoint tokenize_loop (t : text) (rawTokens : list RawToken) (n : nat)
    (currentIndex : Z) : list Token :=
  match rawTokens with
  | [] => []
  | rawToken :: rest =>
      let startChar := indexOf t (raw_text rawToken) currentIndex in
      let endChar := startChar + Z.of_nat (List.length (raw_text rawToken)) in
      analyzeToken (raw_text rawToken) n startChar endChar
        :: tokenize_loop t rest (S n) endChar
  end.

Definition tokenize_uncached (t : text) : list Token :=
  tokenize_loop t (splitIntoRawTokens t) 0 0.

Definition engine : Engine text (list Token) :=
  {| cache_get := tokenizer_cache;
     cache_set := fun c w =>
       {| tokenizer_cache := c;
          sentenceSplitter_cache := sentenceSplitter_cache w;
          sentimentAnalyzer_cache := sentimentAnalyzer_cache w;
          keywordExtractor_cache := keywordExtractor_cache w;
          nerRecognizer_cache := nerRecognizer_cache w |};
     keyLength := 100;
     maxCacheSize := 1000;
     input_text := fun t => t;
     compute := fun t => ret (tokenize_uncached t) |}.

Definition tokenize (t : text) : M (list Token) := call engine t.

(** *** Helpers on token sequences *)

(** [getWordFrequencies]: the occurrences of every lemma among the tokens
    that are alphabetic and neither stop word nor punctuation. *)
Definition is_content (token : Token) : bool :=
  negb (isStopWord token) && negb (isPunctuation token) && isAlpha token.

Definition getWordFrequencies (tokens : list Token) : Map nat :=
  fold_left
    (fun (frequencies : Map nat) token =>
       if is_content token then
         Map_set frequencies (lemma token)
           (match Map_get frequencies (lemma token) with
            | Some k => k
            | None => 0
            end + 1)%nat
       else frequencies)
    tokens [].

(** *** The tables read through the prototype chain

    [determinePOS] and [getLemma] read [WORD_POS_MAP], [IRREGULAR_VERBS]
    and [IRREGULAR_PLURALS] with [obj[key]].  On a key that is inherited
    and not an own key the test [if (TABLE[key])] succeeds and the
    inherited value is returned: [pos] and [tag], destructured from it,
    are [undefined], and the lemma is not a string.  [None] stands for
    these outcomes. *)
Definition determinePOS_full (t lowerText : text)
  : option (PartOfSpeech * text) :=
  match lookup WORD_POS_MAP lowerText with
  | Own e => Some e
  | Inherited => None
  | Absent =>
      match find (fun p => pattern p t) POS_PATTERNS with
      | Some p => Some (pat_pos p, pat_tag p)
      | None => Some (NOUN, str "NN")
      end
  end.

Definition getLemma_full (w : text) (p : option PartOfSpeech)
  : option text :=
  match lookup IRREGULAR_VERBS w with
  | Own l => Some l
  | Inherited => None
  | Absent =>
      match lookup IRREGULAR_PLURALS w with
      | Own l => Some l
      | Inherited => None
      | Absent =>
          match p with
          | Some p =>
              match first_rule w p LEMMA_RULES with
              | Some stem => Some stem
              | None => Some w
              end
          | None => Some w
          end
      end
  end.

(** The token the source builds of the text of [k] has strings for
    [pos], [tag] and [lemma]. *)
Definition typed (k : Token) : bool :=
  let lowerText := toLowerCase (tok_text k) in
  match determinePOS_full (tok_text k) lowerText with
  | Some e =>
      match getLemma_full lowerText (Some (fst e)) with
      | Some _ => true
      | None => false
      end
  | None => false
  end.

(** The lemma of [k], in lower case, is not an inherited key: the tables
    of the sentiment analyzer are read at it as the own-property lookup
    reads them. *)
Definition own_lemma (k : Token) : bool :=
  negb (inherited (toLowerCase (lemma k))).

End Tokenizer.

(** ** Sentiment analyzer ([src/lib/nlp/sentiment-analyzer.ts]) *)

Module SentimentAnalyzer.

Record LexiconEntry := {
  score : Q;
  intensity : Q;
  emotions : list text }.

Definition SENTIMENT_LEXICON : Record LexiconEntry :=
  List.map (fun e => match e with (w, sc, i, em) =>
              (str w, {| score := sc; intensity := i; emotions := List.map str em |}) end) [
    ("amazing", 4, 0.9, ["joy"; "surprise"]); ("awesome", 4, 0.85, ["joy"]);
    ("beautiful", 3, 0.7, ["joy"; "love"]); ("best", 4, 0.8, ["joy"]);
    ("brilliant", 4, 0.85, ["joy"; "surprise"]);
    ("celebrate", 3, 0.75, ["joy"]); ("champion", 3, 0.7, ["joy"; "pride"]);
    ("charming", 3, 0.65, ["love"; "joy"]); ("delight", 4, 0.8, ["joy"]);
    ("delightful", 4, 0.8, ["joy"]); ("excellent", 4, 0.85, ["joy"]);
    ("exceptional", 4, 0.85, ["joy"; "surprise"]);
    ("exciting", 3, 0.75, ["joy"; "anticipation"]);
    ("extraordinary", 4, 0.85, ["surprise"; "joy"]);
    ("fabulous", 4, 0.85, ["joy"]); ("fantastic", 4, 0.85, ["joy"]);
    ("favorite", 3, 0.7, ["love"; "joy"]);
    ("genius", 4, 0.85, ["admiration"; "surprise"]);
    ("glorious", 4, 0.8, ["joy"; "admiration"]);
    ("gorgeous", 4, 0.8, ["love"; "joy"]); ("great", 3, 0.7, ["joy"]);
    ("happy", 3, 0.75, ["joy"]);
    ("incredible", 4, 0.85, ["surprise"; "joy"]);
    ("inspiring", 3, 0.75, ["admiration"; "joy"]);
    ("legendary", 4, 0.85, ["admiration"; "surprise"]);
    ("love", 4, 0.9, ["love"; "joy"]); ("lovely", 3, 0.7, ["love"; "joy"]);
    ("magnificent", 4, 0.85, ["admiration"; "joy"]);
    ("marvelous", 4, 0.85, ["joy"; "surprise"]);
    ("masterpiece", 5, 0.95, ["admiration"; "joy"]);
    ("outstanding", 4, 0.85, ["joy"; "admiration"]);
    ("perfect", 5, 0.95, ["joy"]);
    ("phenomenal", 4, 0.9, ["surprise"; "joy"]);
    ("remarkable", 3, 0.75, ["surprise"; "joy"]);
    ("sensational", 4, 0.85, ["surprise"; "joy"]);
    ("spectacular", 4, 0.85, ["surprise"; "joy"]);
    ("stunning", 4, 0.85, ["surprise"; "joy"]);
    ("sublime", 4, 0.85, ["joy"; "admiration"]);
    ("superb", 4, 0.85, ["joy"]); ("superior", 3, 0.7, ["pride"; "joy"]);
    ("terrific", 4, 0.8, ["joy"]);
    ("thrilled", 4, 0.85, ["joy"; "excitement"]);
    ("triumph", 4, 0.8, ["joy"; "pride"]);
    ("unbelievable", 4, 0.85, ["surprise"]);
    ("victory", 3, 0.75, ["joy"; "pride"]);
    ("viral", 3, 0.7, ["excitement"; "joy"]);
    ("win", 3, 0.7, ["joy"; "pride"]); ("winner", 3, 0.7, ["joy"; "pride"]);
    ("wonderful", 4, 0.85, ["joy"]); ("wow", 3, 0.8, ["surprise"; "joy"]);
    ("accept", 1, 0.4, ["trust"]);
    ("accomplished", 2, 0.6, ["pride"; "joy"]);
    ("achievement", 2, 0.6, ["pride"]); ("admire", 2, 0.6, ["admiration"]);
    ("agree", 1, 0.4, ["trust"]); ("amusing", 2, 0.5, ["joy"; "amusement"]);
    ("appreciate", 2, 0.6, ["gratitude"]); ("approval", 2, 0.5, ["trust"]);
    ("attractive", 2, 0.5, ["love"]); ("benefit", 2, 0.5, ["joy"]);
    ("calm", 2, 0.5, ["serenity"]); ("capable", 2, 0.5, ["trust"]);
    ("care", 2, 0.6, ["love"]); ("comfortable", 2, 0.5, ["serenity"]);
    ("confidence", 2, 0.6, ["trust"]); ("cool", 2, 0.5, ["joy"]);
    ("creative", 2, 0.6, ["joy"]); ("curious", 1, 0.5, ["anticipation"]);
    ("easy", 1, 0.4, ["serenity"]); ("effective", 2, 0.5, ["trust"]);
    ("efficient", 2, 0.5, ["trust"]); ("elegant", 2, 0.6, ["admiration"]);
    ("encourage", 2, 0.6, ["trust"; "joy"]); ("enjoy", 2, 0.6, ["joy"]);
    ("entertaining", 2, 0.5, ["joy"; "amusement"]);
    ("enthusiastic", 2, 0.7, ["joy"; "anticipation"]);
    ("free", 2, 0.5, ["joy"]); ("fresh", 1, 0.4, ["joy"]);
    ("friendly", 2, 0.5, ["love"; "trust"]); ("fun", 2, 0.6, ["joy"]);
    ("generous", 2, 0.6, ["love"]); ("glad", 2, 0.6, ["joy"]);
    ("good", 2, 0.5, ["joy"]); ("grateful", 2, 0.7, ["gratitude"]);
    ("growth", 2, 0.5, ["anticipation"]); ("helpful", 2, 0.5, ["trust"]);
    ("honest", 2, 0.5, ["trust"]);
    ("hope", 2, 0.6, ["anticipation"; "optimism"]);
    ("improve", 2, 0.5, ["optimism"]);
    ("innovative", 2, 0.6, ["surprise"; "admiration"]);
    ("insight", 2, 0.5, ["trust"]); ("intelligent", 2, 0.5, ["admiration"]);
    ("interesting", 2, 0.5, ["anticipation"]); ("kind", 2, 0.6, ["love"]);
    ("laugh", 2, 0.6, ["joy"; "amusement"]);
    ("learn", 1, 0.4, ["anticipation"]); ("like", 2, 0.5, ["joy"]);
    ("lucky", 2, 0.5, ["joy"]); ("motivated", 2, 0.6, ["anticipation"]);
    ("natural", 1, 0.4, ["serenity"]); ("nice", 2, 0.5, ["joy"]);
    ("opportunity", 2, 0.5, ["anticipation"]);
    ("optimistic", 2, 0.6, ["optimism"]); ("peaceful", 2, 0.5, ["serenity"]);
    ("pleasant", 2, 0.5, ["joy"]); ("pleased", 2, 0.6, ["joy"]);
    ("popular", 2, 0.5, ["joy"]); ("positive", 2, 0.5, ["optimism"]);
    ("powerful", 2, 0.6, ["admiration"]); ("pretty", 2, 0.5, ["love"]);
    ("progress", 2, 0.5, ["optimism"]); ("proud", 2, 0.7, ["pride"]);
    ("quality", 2, 0.5, ["trust"]); ("recommend", 2, 0.5, ["trust"]);
    ("relax", 2, 0.5, ["serenity"]); ("reliable", 2, 0.5, ["trust"]);
    ("respect", 2, 0.6, ["admiration"]);
    ("safe", 2, 0.5, ["trust"; "serenity"]); ("satisfied", 2, 0.6, ["joy"]);
    ("secure", 2, 0.5, ["trust"]); ("simple", 1, 0.4, ["serenity"]);
    ("smart", 2, 0.5, ["admiration"]); ("smile", 2, 0.6, ["joy"]);
    ("smooth", 1, 0.4, ["serenity"]); ("special", 2, 0.5, ["joy"; "love"]);
    ("strong", 2, 0.5, ["trust"]); ("succeed", 2, 0.6, ["joy"; "pride"]);
    ("success", 3, 0.7, ["joy"; "pride"]); ("support", 2, 0.5, ["trust"]);
    ("sweet", 2, 0.5, ["love"; "joy"]); ("thank", 2, 0.6, ["gratitude"]);
    ("trust", 2, 0.6, ["trust"]); ("unique", 2, 0.5, ["surprise"]);
    ("useful", 2, 0.5, ["trust"]); ("valuable", 2, 0.5, ["trust"]);
    ("warm", 2, 0.5, ["love"]); ("welcome", 2, 0.5, ["trust"; "joy"]);
    ("worth", 2, 0.5, ["trust"]); ("annoy", (-2), 0.5, ["anger"]);
    ("anxious", (-2), 0.6, ["fear"; "anticipation"]);
    ("bad", (-2), 0.5, ["sadness"]); ("bored", (-2), 0.4, ["sadness"]);
    ("boring", (-2), 0.4, ["sadness"]); ("concern", (-1), 0.4, ["fear"]);
    ("confused", (-1), 0.4, ["surprise"]);
    ("criticism", (-2), 0.5, ["anger"]); ("delay", (-1), 0.4, ["anger"]);
    ("difficult", (-1), 0.4, ["fear"]);
    ("disappoint", (-2), 0.6, ["sadness"]);
    ("disappointed", (-2), 0.6, ["sadness"]);
    ("dislike", (-2), 0.5, ["disgust"]); ("doubt", (-1), 0.4, ["fear"]);
    ("dull", (-1), 0.3, ["sadness"]); ("empty", (-1), 0.4, ["sadness"]);
    ("exhausted", (-2), 0.5, ["sadness"]); ("fail", (-2), 0.6, ["sadness"]);
    ("failure", (-2), 0.6, ["sadness"]); ("fault", (-2), 0.5, ["anger"]);
    ("fear", (-2), 0.7, ["fear"]); ("frustrated", (-2), 0.6, ["anger"]);
    ("frustrating", (-2), 0.6, ["anger"]);
    ("guilty", (-2), 0.6, ["sadness"; "fear"]);
    ("hard", (-1), 0.3, ["fear"]); ("ignore", (-1), 0.4, ["sadness"]);
    ("impatient", (-1), 0.4, ["anger"]);
    ("jealous", (-2), 0.6, ["anger"; "sadness"]);
    ("lack", (-1), 0.4, ["sadness"]); ("late", (-1), 0.3, ["anger"]);
    ("lazy", (-1), 0.4, ["disgust"]); ("limit", (-1), 0.3, ["sadness"]);
    ("lonely", (-2), 0.6, ["sadness"]); ("lose", (-2), 0.6, ["sadness"]);
    ("loss", (-2), 0.6, ["sadness"]); ("mad", (-2), 0.6, ["anger"]);
    ("mess", (-1), 0.4, ["disgust"]); ("miss", (-1), 0.4, ["sadness"]);
    ("mistake", (-2), 0.5, ["sadness"]);
    ("negative", (-2), 0.5, ["sadness"]); ("nervous", (-2), 0.5, ["fear"]);
    ("problem", (-2), 0.5, ["sadness"]); ("regret", (-2), 0.6, ["sadness"]);
    ("reject", (-2), 0.6, ["sadness"]); ("risk", (-1), 0.4, ["fear"]);
    ("sad", (-2), 0.7, ["sadness"]); ("scare", (-2), 0.6, ["fear"]);
    ("slow", (-1), 0.3, ["anger"]); ("sorry", (-1), 0.5, ["sadness"]);
    ("stress", (-2), 0.6, ["fear"; "anger"]);
    ("struggle", (-2), 0.5, ["sadness"; "fear"]);
    ("stuck", (-1), 0.4, ["sadness"]); ("tired", (-1), 0.4, ["sadness"]);
    ("trouble", (-2), 0.5, ["fear"]); ("ugly", (-2), 0.5, ["disgust"]);
    ("uncomfortable", (-2), 0.4, ["fear"]); ("unfair", (-2), 0.6, ["anger"]);
    ("unhappy", (-2), 0.6, ["sadness"]);
    ("upset", (-2), 0.6, ["anger"; "sadness"]);
    ("useless", (-2), 0.5, ["sadness"]);
    ("wait", (-1), 0.3, ["anticipation"]); ("weak", (-1), 0.4, ["fear"]);
    ("weird", (-1), 0.3, ["surprise"; "disgust"]);
    ("worry", (-2), 0.6, ["fear"]); ("wrong", (-2), 0.5, ["sadness"]);
    ("abuse", (-4), 0.9, ["anger"; "fear"]); ("angry", (-3), 0.8, ["anger"]);
    ("awful", (-4), 0.85, ["disgust"]);
    ("betray", (-4), 0.9, ["anger"; "sadness"]);
    ("catastrophe", (-4), 0.9, ["fear"; "sadness"]);
    ("cheat", (-3), 0.8, ["anger"; "disgust"]);
    ("corrupt", (-3), 0.8, ["anger"; "disgust"]);
    ("cruel", (-4), 0.85, ["anger"; "fear"]);
    ("damage", (-3), 0.7, ["fear"; "anger"]);
    ("danger", (-3), 0.8, ["fear"]); ("dangerous", (-3), 0.8, ["fear"]);
    ("dead", (-3), 0.8, ["sadness"; "fear"]);
    ("death", (-4), 0.9, ["sadness"; "fear"]);
    ("destroy", (-4), 0.85, ["anger"; "fear"]);
    ("disaster", (-4), 0.9, ["fear"; "sadness"]);
    ("disgust", (-3), 0.8, ["disgust"]);
    ("disgusting", (-4), 0.85, ["disgust"]); ("dread", (-3), 0.8, ["fear"]);
    ("enemy", (-3), 0.7, ["anger"; "fear"]);
    ("evil", (-4), 0.9, ["fear"; "anger"]);
    ("fake", (-3), 0.7, ["anger"; "disgust"]);
    ("fraud", (-4), 0.85, ["anger"; "disgust"]);
    ("grief", (-4), 0.9, ["sadness"]); ("hate", (-4), 0.9, ["anger"]);
    ("horrible", (-4), 0.85, ["fear"; "disgust"]);
    ("horrify", (-4), 0.9, ["fear"]); ("horror", (-4), 0.9, ["fear"]);
    ("hurt", (-3), 0.7, ["sadness"; "anger"]);
    ("idiot", (-3), 0.7, ["anger"; "disgust"]);
    ("insult", (-3), 0.7, ["anger"]); ("kill", (-4), 0.9, ["fear"; "anger"]);
    ("liar", (-3), 0.8, ["anger"; "disgust"]);
    ("lie", (-3), 0.7, ["anger"; "disgust"]);
    ("miserable", (-4), 0.85, ["sadness"]);
    ("murder", (-5), 1.0, ["fear"; "anger"]);
    ("nightmare", (-4), 0.85, ["fear"]);
    ("pain", (-3), 0.7, ["sadness"; "fear"]);
    ("pathetic", (-3), 0.7, ["disgust"; "sadness"]);
    ("poison", (-3), 0.8, ["fear"; "disgust"]);
    ("rage", (-4), 0.9, ["anger"]);
    ("ruin", (-3), 0.8, ["sadness"; "anger"]);
    ("scam", (-4), 0.85, ["anger"; "disgust"]);
    ("shame", (-3), 0.8, ["sadness"]);
    ("shit", (-3), 0.7, ["anger"; "disgust"]);
    ("shock", (-3), 0.8, ["surprise"; "fear"]);
    ("sick", (-2), 0.6, ["sadness"; "disgust"]);
    ("spam", (-3), 0.6, ["anger"; "disgust"]);
    ("stupid", (-3), 0.7, ["anger"; "disgust"]);
    ("suffer", (-3), 0.8, ["sadness"]);
    ("terrible", (-4), 0.85, ["fear"; "sadness"]);
    ("terrify", (-4), 0.9, ["fear"]); ("terror", (-4), 0.9, ["fear"]);
    ("threat", (-3), 0.8, ["fear"]);
    ("toxic", (-3), 0.8, ["disgust"; "fear"]);
    ("tragedy", (-4), 0.9, ["sadness"]); ("tragic", (-4), 0.85, ["sadness"]);
    ("trauma", (-4), 0.9, ["fear"; "sadness"]);
    ("victim", (-3), 0.7, ["sadness"; "fear"]);
    ("violence", (-4), 0.9, ["fear"; "anger"]);
    ("violent", (-4), 0.85, ["fear"; "anger"]);
    ("waste", (-2), 0.5, ["sadness"; "anger"]);
    ("worst", (-4), 0.85, ["sadness"; "anger"]);
    ("worthless", (-3), 0.8, ["sadness"]) ]%Q.

Definition INTENSIFIERS : Record Q :=
  List.map (fun p => (str (fst p), snd p)) [
    ("absolutely", 1.5); ("completely", 1.4); ("definitely", 1.3);
    ("extremely", 1.5); ("greatly", 1.3); ("highly", 1.3);
    ("incredibly", 1.5); ("insanely", 1.6); ("literally", 1.2);
    ("particularly", 1.2); ("perfectly", 1.4); ("purely", 1.3);
    ("quite", 1.2); ("really", 1.3); ("remarkably", 1.3); ("so", 1.3);
    ("super", 1.4); ("totally", 1.4); ("truly", 1.3); ("utterly", 1.5);
    ("very", 1.3) ]%Q.

Definition DIMINISHERS : Record Q :=
  List.map (fun p => (str (fst p), snd p)) [
    ("a bit", 0.6); ("a little", 0.6); ("barely", 0.4); ("fairly", 0.7);
    ("hardly", 0.3); ("kind of", 0.6); ("kinda", 0.6); ("less", 0.6);
    ("marginally", 0.5); ("merely", 0.5); ("mildly", 0.6);
    ("moderately", 0.7); ("only", 0.7); ("partially", 0.6); ("pretty", 0.8);
    ("rather", 0.7); ("slightly", 0.5); ("somewhat", 0.6); ("sort of", 0.6);
    ("sorta", 0.6) ]%Q.

Definition NEGATIONS : list text :=
  List.map str [
    "not"; "n't"; "no"; "never"; "neither"; "nobody"; "nothing"; "nowhere";
    "none"; "without"; "hardly"; "barely"; "scarcely"; "seldom"; "rarely";
    "don't"; "doesn't"; "didn't"; "won't"; "wouldn't"; "couldn't";
    "shouldn't"; "can't"; "cannot" ].

(** The sixteen values of the type [EmotionCategory]. *)
Definition EmotionCategory : list text :=
  List.map str [
    "joy"; "sadness"; "anger"; "fear"; "surprise"; "disgust"; "trust";
    "anticipation"; "love"; "optimism"; "pride"; "admiration"; "gratitude";
    "serenity"; "amusement"; "excitement" ].

Record EmotionAnalysis := {
  primary : text;
  secondary : option text;
  emotion_scores : Record Q;
  emo_intensity : Q;
  emo_confidence : Q }.

(** A number is truthy unless it is zero. *)
Definition nonzero (o : option Q) : option Q :=
  match o with
  | Some q => if Qeq_bool q 0 then None else Some q
  | None => None
  end.

(** [x > 0] *)
Definition positive_num (x : Q) : bool := negb (Qle_bool x 0).

(** *** [analyzeTokens] *)

(** The local variables of the scanning loop. *)
Record Scan := {
  totalScore : Q;
  positiveScore : Q;
  negativeScore : Q;
  wordCount : nat;
  sentimentWordCount : nat;
  currentIntensifier : Q;
  negationActive : bool;
  negationScope : Z }.

Definition scan_init : Scan :=
  {| totalScore := 0; positiveScore := 0; negativeScore := 0;
     wordCount := 0; sentimentWordCount := 0; currentIntensifier := 1;
     negationActive := false; negationScope := 0 |}.

Definition is_negation (token : Token) : bool :=
  mem (toLowerCase (lemma token)) NEGATIONS
  || mem (toLowerCase (tok_text token)) NEGATIONS.

(** The score a lexicon entry contributes in state [s]. *)
Definition word_score (s : Scan) (entry : LexiconEntry) : Q :=
  let sc := (score entry * intensity entry * currentIntensifier s)%Q in
  if negationActive s && (0 <? negationScope s)%Z then (sc * -0.5)%Q else sc.

(** The part of the loop body after the three [continue] tests. *)
Definition score_token (s : Scan) (token : Token) : Scan :=
  let lem := toLowerCase (lemma token) in
  let s1 :=
    match Record_get SENTIMENT_LEXICON lem with
    | Some entry =>
        let sc := word_score s entry in
        {| totalScore := (totalScore s + sc)%Q;
           positiveScore :=
             if positive_num sc then (positiveScore s + sc)%Q
             else positiveScore s;
           negativeScore :=
             if positive_num sc then negativeScore s
             else (negativeScore s + Math_abs sc)%Q;
           wordCount := wordCount s;
           sentimentWordCount := S (sentimentWordCount s);
           currentIntensifier := 1;
           negationActive := negationActive s;
           negationScope := negationScope s |}
    | None => s
    end in
  let s2 :=
    if isAlpha token && negb (isStopWord token)
    then {| totalScore := totalScore s1; positiveScore := positiveScore s1;
            negativeScore := negativeScore s1;
            wordCount := S (wordCount s1);
            sentimentWordCount := sentimentWordCount s1;
            currentIntensifier := currentIntensifier s1;
            negationActive := negationActive s1;
            negationScope := negationScope s1 |}
    else s1 in
  if negationActive s2 && isAlpha token
  then {| totalScore := totalScore s2; positiveScore := positiveScore s2;
          negativeScore := negativeScore s2; wordCount := wordCount s2;
          sentimentWordCount := sentimentWordCount s2;
          currentIntensifier := currentIntensifier s2;
          negationActive :=
            if (negationScope s2 - 1 <=? 0)%Z then false else negationActive s2;
          negationScope := (negationScope s2 - 1)%Z |}
  else s2.

Definition with_intensifier (s : Scan) (m : Q) : Scan :=
  {| totalScore := totalScore s; positiveScore := positiveScore s;
     negativeScore := negativeScore s; wordCount := wordCount s;
     sentimentWordCount := sentimentWordCount s;
     currentIntensifier := m;
     negationActive := negationActive s;
     negationScope := negationScope s |}.

(** One iteration of [for (let i = 0; i < tokens.length; i++)]. *)
Definition step (s : Scan) (token : Token) : Scan :=
  let lem := toLowerCase (lemma token) in
  if is_negation token then
    {| totalScore := totalScore s; positiveScore := positiveScore s;
       negativeScore := negativeScore s; wordCount := wordCount s;
       sentimentWordCount := sentimentWordCount s;
       currentIntensifier := currentIntensifier s;
       negationActive := true;
       negationScope := 3 |}
  else
    match nonzero (Record_get INTENSIFIERS lem) with
    | Some m => with_intensifier s m
    | None =>
        match nonzero (Record_get DIMINISHERS lem) with
        | Some m => with_intensifier s m
        | None => score_token s token
        end
    end.

(** The normalisation after the loop. *)
Definition normalize (s : Scan) : SentimentScore :=
  let normalizer := Nat.max (sentimentWordCount s) 1 in
  let maxPossibleScore := (num normalizer * 5)%Q in
  let normalizedTotal := (totalScore s / maxPossibleScore)%Q in
  let normalizedPositive := (positiveScore s / maxPossibleScore)%Q in
  let normalizedNegative := (negativeScore s / maxPossibleScore)%Q in
  let totalSentiment := (normalizedPositive + normalizedNegative)%Q in
  let neutral := Math_max 0 (1 - totalSentiment)%Q in
  let confidence :=
    Math_min (num (sentimentWordCount s) / num (Nat.max (wordCount s) 1))%Q 1 in
  {| overall := Math_max (-1) (Math_min 1 normalizedTotal);
     positive := Math_min 1 normalizedPositive;
     negative := Math_min 1 normalizedNegative;
     neutral := Math_min 1 neutral;
     confidence := confidence |}.

Definition analyzeTokens (tokens : list Token) : SentimentScore :=
  normalize (fold_left step tokens scan_init).

(** *** [analyze] *)

Definition engine : Engine text SentimentScore :=
  {| cache_get := sentimentAnalyzer_cache;
     cache_set := fun c w =>
       {| tokenizer_cache := tokenizer_cache w;
          sentenceSplitter_cache := sentenceSplitter_cache w;
          sentimentAnalyzer_cache := c;
          keywordExtractor_cache := keywordExtractor_cache w;
          nerRecognizer_cache := nerRecognizer_cache w |};
     keyLength := 100;
     maxCacheSize := 1000;
     input_text := fun t => t;
     compute := fun t =>
       tokens <- Tokenizer.tokenize t ;;
       ret (analyzeTokens tokens) |}.

Definition analyze (t : text) : M SentimentScore := call engine t.

(** *** [analyzeEmotions] *)

(** The tallies of the first loop: [emotionCounts], [emotionIntensities]
    and [totalIntensity]. *)
Record Tally := {
  emotionCounts : Map nat;
  emotionIntensities : Map (list Q);
  totalIntensity : Q }.

Definition tally_emotion (entry : LexiconEntry) (t : Tally) (emotion : text)
  : Tally :=
  {| emotionCounts :=
       Map_set (emotionCounts t) emotion
         (match Map_get (emotionCounts t) emotion with
          | Some n => n | None => 0%nat end + 1)%nat;
     emotionIntensities :=
       Map_set (emotionIntensities t) emotion
         (match Map_get (emotionIntensities t) emotion with
          | Some l => l | None => [] end ++ [intensity entry]);
     totalIntensity := (totalIntensity t + intensity entry)%Q |}.

Definition tally_token (t : Tally) (token : Token) : Tally :=
  match Record_get SENTIMENT_LEXICON (toLowerCase (lemma token)) with
  | Some entry => fold_left (tally_emotion entry) (emotions entry) t
  | None => t
  end.

Definition sum (l : list Q) : Q := fold_left Qplus l 0%Q.

Definition emotion_score (nkeys : nat) (intensities : list Q) : Q :=
  let avgIntensity := (sum intensities / num (List.length intensities))%Q in
  (avgIntensity * (num (List.length intensities) / num (Nat.max nkeys 1)))%Q.

Definition base_emotions : Record Q :=
  List.map (fun e => (str e, 0%Q))
    ["joy"; "sadness"; "anger"; "fear"; "surprise"; "disgust"; "trust";
     "anticipation"].

Definition analyzeEmotionsTokens (tokens : list Token) : EmotionAnalysis :=
  let t := fold_left tally_token tokens
             {| emotionCounts := []; emotionIntensities := [];
                totalIntensity := 0 |} in
  let sortedEmotions :=
    sort (fun a b => (snd b <=? snd a)%nat) (emotionCounts t) in
  let primary :=
    match sortedEmotions with
    | (e, _) :: _ => if truthy e then e else str "neutral"
    | [] => str "neutral"
    end in
  let secondary :=
    match sortedEmotions with
    | _ :: (e, _) :: _ => Some e
    | _ => None
    end in
  let nkeys := List.length (emotionIntensities t) in
  let emotions1 :=
    fold_left (fun (em : Record Q) (p : text * list Q) =>
                 if Map_has em (fst p)
                 then Map_set em (fst p) (emotion_score nkeys (snd p))
                 else em)
      (emotionIntensities t) base_emotions in
  let maxEmotion := fold_left Math_max (List.map snd emotions1) 0.01%Q in
  let emotions2 := List.map (fun p => (fst p, (snd p / maxEmotion)%Q)) emotions1 in
  let intensity :=
    (totalIntensity t / num (Nat.max (List.length (filter isAlpha tokens)) 1))%Q in
  {| primary := primary;
     secondary := secondary;
     emotion_scores := emotions2;
     emo_intensity := Math_min 1 intensity;
     emo_confidence :=
       Math_min 1 (num (List.length (emotionCounts t)) / 5)%Q |}.

Definition analyzeEmotions (t : text) : M EmotionAnalysis :=
  tokens <- Tokenizer.tokenize t ;;
  ret (analyzeEmotionsTokens tokens).

(** *** Trend, shifts and aspects *)

Record TrendPoint := {
  tr_position : Q;
  tr_sentiment : Q }.

(** [getSentimentTrend]: the callback of [map] runs on the sentences in
    order, each with its index. *)
Definition getSentimentTrend (sentences : list text) : M (list TrendPoint) :=
  mapM (fun p : nat * text =>
          s <- analyze (snd p) ;;
          ret {| tr_position :=
                   (num (fst p)
                    / Math_max (num (List.length sentences) - 1) 1)%Q;
                 tr_sentiment := overall s |})
    (combine (seq 0 (List.length sentences)) sentences).

Inductive Direction := dir_positive | dir_negative.

Record SentimentShift := {
  sh_position : nat;
  sh_from : Q;
  sh_to : Q;
  sh_magnitude : Q;
  sh_direction : Direction;
  sh_sentence : text }.

(** The loop of [findSentimentShifts] from index [i] on; [prev] is
    [sentiments[i - 1]] and [rest] holds the sentences from [i] on with
    their scores. *)
Fixpoint shift_loop (i : nat) (prev : SentimentScore)
    (rest : list (text * SentimentScore)) : list SentimentShift :=
  match rest with
  | [] => []
  | (sentence, curr) :: rest' =>
      let diff := (overall curr - overall prev)%Q in
      (if negb (Qle_bool (Math_abs diff) 0.3)
       then [{| sh_position := i;
                sh_from := overall prev;
                sh_to := overall curr;
                sh_magnitude := Math_abs diff;
                sh_direction :=
                  if positive_num diff then dir_positive else dir_negative;
                sh_sentence := sentence |}]
       else [])
      ++ shift_loop (S i) curr rest'
  end.

Definition findSentimentShifts (sentences : list text)
  : M (list SentimentShift) :=
  sentiments <- mapM analyze sentences ;;
  ret match combine sentences sentiments with
      | [] => []
      | (_, first) :: rest => shift_loop 1 first rest
      end.

Record AspectSentiment := {
  as_aspect : text;
  as_sentiment : Q;
  as_confidence : Q;
  as_mentions : nat }.

Definition is_mention (aspectLower : text) (token : Token) : bool :=
  text_eqb (toLowerCase (lemma token)) aspectLower
  || text_eqb (toLowerCase (tok_text token)) aspectLower.

(** The tokens at the positions [max(0, i - 5) .. min(length, i + 6) - 1]
    other than [i], with their positions. *)
Definition window (tokens : list Token) (i : nat) : list (nat * Token) :=
  let lo := (i - 5)%nat in
  let hi := Nat.min (List.length tokens) (i + 6) in
  filter (fun p => negb (fst p =? i)%nat)
    (firstn (hi - lo)
       (skipn lo (combine (seq 0 (List.length tokens)) tokens))).

(** The inner loop: [(aspectSentiment, count)] after the window of [i]. *)
Definition weigh (i : nat) (acc : Q * nat) (p : nat * Token) : Q * nat :=
  match Record_get SENTIMENT_LEXICON (toLowerCase (lemma (snd p))) with
  | Some entry =>
      let distance :=
        Math_abs (inject_Z (Z.of_nat i) - inject_Z (Z.of_nat (fst p))) in
      let weight := (1 / distance)%Q in
      ((fst acc + score entry * intensity entry * weight)%Q, S (snd acc))
  | None => acc
  end.

Definition aspect_of (tokens : list Token) (aspect : text)
  : AspectSentiment :=
  let aspectLower := toLowerCase aspect in
  let acc :=
    fold_left
      (fun (acc : Q * nat) (p : nat * Token) =>
         if is_mention aspectLower (snd p)
         then fold_left (weigh (fst p)) (window tokens (fst p)) acc
         else acc)
      (combine (seq 0 (List.length tokens)) tokens) (0%Q, 0%nat) in
  {| as_aspect := aspect;
     as_sentiment :=
       if (0 <? snd acc)%nat then (fst acc / num (snd acc))%Q else 0%Q;
     as_confidence := Math_min (num (snd acc) / 3)%Q 1;
     as_mentions := List.length (filter (is_mention aspectLower) tokens) |}.

Definition analyzeAspectSentiment (t : text) (aspects : list text)
  : M (list AspectSentiment) :=
  tokens <- Tokenizer.tokenize t ;;
  ret (List.map (aspect_of tokens) aspects).

(** *** [analyzeTokens] in full

    The loop and the normalisation once more, with the three tables read
    through the prototype chain and with numbers that may be NaN.  At an
    inherited key [INTENSIFIERS[lemma]] is a function: the test succeeds,
    [currentIntensifier] becomes that function, and the next product with
    it is NaN. *)
Record FullScan := {
  full_totalScore : number;
  full_positiveScore : number;
  full_negativeScore : number;
  full_wordCount : nat;
  full_sentimentWordCount : nat;
  full_currentIntensifier : number;
  full_negationActive : bool;
  full_negationScope : Z }.

Record FullScore := {
  full_overall : number;
  full_positive : number;
  full_negative : number;
  full_neutral : number;
  full_confidence : number }.

Definition full_init : FullScan :=
  {| full_totalScore := Num 0; full_positiveScore := Num 0;
     full_negativeScore := Num 0; full_wordCount := 0;
     full_sentimentWordCount := 0; full_currentIntensifier := Num 1;
     full_negationActive := false; full_negationScope := 0 |}.

(** [TABLE[lemma]] when it is truthy: an own number other than zero, or
    the inherited value, which is NaN in a product. *)
Definition multiplier (r : Record Q) (lem : text) : option number :=
  match lookup r lem with
  | Own q => if Qeq_bool q 0 then None else Some (Num q)
  | Inherited => Some NaN
  | Absent => None
  end.

(** [entry.score * entry.intensity] when [SENTIMENT_LEXICON[lemma]] is
    truthy; the two fields of an inherited value are [undefined]. *)
Definition entry_score (lem : text) : option number :=
  match lookup SENTIMENT_LEXICON lem with
  | Own entry => Some (Num (score entry * intensity entry)%Q)
  | Inherited => Some NaN
  | Absent => None
  end.

Definition full_word_score (s : FullScan) (base : number) : number :=
  let sc := number_mul base (full_currentIntensifier s) in
  if full_negationActive s && (0 <? full_negationScope s)%Z
  then number_mul sc (Num (-0.5)) else sc.

Definition full_score_token (s : FullScan) (token : Token) : FullScan :=
  let lem := toLowerCase (lemma token) in
  let s1 :=
    match entry_score lem with
    | Some base =>
        let sc := full_word_score s base in
        {| full_totalScore := number_add (full_totalScore s) sc;
           full_positiveScore :=
             if number_positive sc then number_add (full_positiveScore s) sc
             else full_positiveScore s;
           full_negativeScore :=
             if number_positive sc then full_negativeScore s
             else number_add (full_negativeScore s) (number_abs sc);
           full_wordCount := full_wordCount s;
           full_sentimentWordCount := S (full_sentimentWordCount s);
           full_currentIntensifier := Num 1;
           full_negationActive := full_negationActive s;
           full_negationScope := full_negationScope s |}
    | None => s
    end in
  let s2 :=
    if isAlpha token && negb (isStopWord token)
    then {| full_totalScore := full_totalScore s1;
            full_positiveScore := full_positiveScore s1;
            full_negativeScore := full_negativeScore s1;
            full_wordCount := S (full_wordCount s1);
            full_sentimentWordCount := full_sentimentWordCount s1;
            full_currentIntensifier := full_currentIntensifier s1;
            full_negationActive := full_negationActive s1;
            full_negationScope := full_negationScope s1 |}
    else s1 in
  if full_negationActive s2 && isAlpha token
  then {| full_totalScore := full_totalScore s2;
          full_positiveScore := full_positiveScore s2;
          full_negativeScore := full_negativeScore s2;
          full_wordCount := full_wordCount s2;
          full_sentimentWordCount := full_sentimentWordCount s2;
          full_currentIntensifier := full_currentIntensifier s2;
          full_negationActive :=
            if (full_negationScope s2 - 1 <=? 0)%Z then false
            else full_negationActive s2;
          full_negationScope := (full_negationScope s2 - 1)%Z |}
  else s2.

Definition full_with_intensifier (s : FullScan) (m : number) : FullScan :=
  {| full_totalScore := full_totalScore s;
     full_positiveScore := full_positiveScore s;
     full_negativeScore := full_negativeScore s;
     full_wordCount := full_wordCount s;
     full_sentimentWordCount := full_sentimentWordCount s;
     full_currentIntensifier := m;
     full_negationActive := full_negationActive s;
     full_negationScope := full_negationScope s |}.

Definition full_step (s : FullScan) (token : Token) : FullScan :=
  let lem := toLowerCase (lemma token) in
  if is_negation token then
    {| full_totalScore := full_totalScore s;
       full_positiveScore := full_positiveScore s;
       full_negativeScore := full_negativeScore s;
       full_wordCount := full_wordCount s;
       full_sentimentWordCount := full_sentimentWordCount s;
       full_currentIntensifier := full_currentIntensifier s;
       full_negationActive := true;
       full_negationScope := 3 |}
  else
    match multiplier INTENSIFIERS lem with
    | Some m => full_with_intensifier s m
    | None =>
        match multiplier DIMINISHERS lem with
        | Some m => full_with_intensifier s m
        | None => full_score_token s token
        end
    end.

Definition full_normalize (s : FullScan) : FullScore :=
  let normalizer := Nat.max (full_sentimentWordCount s) 1 in
  let maxPossibleScore := (num normalizer * 5)%Q in
  let normalizedTotal := number_div (full_totalScore s) maxPossibleScore in
  let normalizedPositive :=
    number_div (full_positiveScore s) maxPossibleScore in
  let normalizedNegative :=
    number_div (full_negativeScore s) maxPossibleScore in
  let totalSentiment := number_add normalizedPositive normalizedNegative in
  let neutral := number_max (Num 0) (number_sub (Num 1) totalSentiment) in
  let confidence :=
    Math_min (num (full_sentimentWordCount s)
              / num (Nat.max (full_wordCount s) 1))%Q 1 in
  {| full_overall :=
       number_max (Num (-1)) (number_min (Num 1) normalizedTotal);
     full_positive := number_min (Num 1) normalizedPositive;
     full_negative := number_min (Num 1) normalizedNegative;
     full_neutral := number_min (Num 1) neutral;
     full_confidence := Num confidence |}.

Definition analyzeTokens_full (tokens : list Token) : FullScore :=
  full_normalize (fold_left full_step tokens full_init).

(** [analyze] of fresh engines, with the error made explicit: every
    iteration of the loop starts with [token.lemma.toLowerCase()], which
    raises a TypeError on a token whose lemma is no string; [None] stands
    for it. *)
Definition analyze_full (t : text) : option FullScore :=
  let tokens := Tokenizer.tokenize_uncached t in
  if forallb Tokenizer.typed tokens then Some (analyzeTokens_full tokens)
  else None.

End SentimentAnalyzer.

(** ** Sentence splitter ([src/lib/nlp/sentence-splitter.ts]) *)

Module SentenceSplitter.

Definition titles : list text :=
  List.map str [
    "mr"; "mrs"; "ms"; "dr"; "prof"; "sr"; "jr"; "rev"; "hon"; "gov"; "pres";
    "gen"; "col"; "lt"; "sgt"; "cpl"; "pvt"; "adm"; "capt"; "cmdr"; "maj";
    "rep"; "sen"; "amb"; "treas"; "sec"; "atty"; "supt" ].

Definition academic : list text :=
  List.map str [
    "ph"; "phd"; "md"; "ba"; "bs"; "ma"; "mba"; "jd"; "llb"; "llm"; "ed";
    "edd"; "dds"; "dvm"; "rn"; "esq"; "cpa"; "pe"; "ra" ].

Definition months : list text :=
  List.map str [
    "jan"; "feb"; "mar"; "apr"; "jun"; "jul"; "aug"; "sep"; "sept"; "oct";
    "nov"; "dec" ].

Definition states : list text :=
  List.map str [
    "ala"; "ariz"; "ark"; "calif"; "colo"; "conn"; "del"; "fla"; "ill";
    "ind"; "kans"; "mass"; "mich"; "minn"; "miss"; "mont"; "nebr"; "nev";
    "okla"; "oreg"; "penn"; "tenn"; "tex"; "wash"; "wisc"; "wyo" ].

Definition common : list text :=
  List.map str [
    "etc"; "vs"; "viz"; "al"; "eg"; "ie"; "cf"; "approx"; "dept"; "est";
    "min"; "max"; "misc"; "no"; "nos"; "op"; "pp"; "re"; "ref"; "tel";
    "temp"; "vet"; "vol"; "vols"; "yr"; "yrs"; "fig"; "figs"; "inc"; "corp";
    "ltd"; "co"; "bros"; "assn"; "assoc"; "natl"; "intl"; "govt" ].

Definition units : list text :=
  List.map str [
    "oz"; "lb"; "lbs"; "kg"; "km"; "cm"; "mm"; "ml"; "mg"; "ft"; "yd"; "mi";
    "hr"; "hrs"; "min"; "mins"; "sec"; "secs"; "cal"; "sq"; "cu" ].

Definition positiveWords : list text :=
  List.map str [
    "good"; "great"; "excellent"; "amazing"; "wonderful"; "fantastic";
    "awesome"; "best"; "love"; "happy"; "beautiful"; "perfect"; "incredible";
    "brilliant"; "outstanding"; "superb"; "magnificent"; "exceptional";
    "positive"; "success"; "win"; "winning"; "joy"; "exciting"; "excited" ].

Definition negativeWords : list text :=
  List.map str [
    "bad"; "terrible"; "awful"; "horrible"; "worst"; "hate"; "sad"; "ugly";
    "poor"; "disappointing"; "disappointed"; "negative"; "fail"; "failure";
    "lose"; "losing"; "angry"; "boring"; "bored"; "annoying"; "annoyed";
    "frustrating"; "frustrated"; "painful"; "pain"; "wrong" ].

Definition ALL_ABBREVIATIONS : list text :=
  titles ++ academic ++ months ++ states ++ common ++ units.

Definition SENTENCE_ENDERS : list N := [46; 33; 63]%N.
Definition QUOTE_CHARS : list N := [34; 39; 8220; 8221; 8216; 8217; 96]%N.
Definition BRACKET_CLOSE : list N := [41; 93; 125; 187]%N.

(** *** Sentence type *)

Definition detectSentenceType (t : text) (tokens : list Token)
  : SentenceType :=
  let trimmed := trim t in
  if endsWith trimmed (str "?") then interrogative
  else if endsWith trimmed (str "!") then exclamatory
  else
    match find (fun t => isAlpha t && negb (isStopWord t)) tokens with
    | Some firstWord =>
        if PartOfSpeech_eqb (pos firstWord) VERB then
          match find isAlpha tokens with
          | Some firstAlpha =>
              if PartOfSpeech_eqb (pos firstAlpha) VERB
                 && (index firstAlpha =? index firstWord)%nat
              then imperative else declarative
          | None => declarative
          end
        else declarative
    | None => declarative
    end.

(** *** Complexity *)

Definition is_vowel (c : char) : bool := one_of [97; 101; 105; 111; 117; 121]%N c.

(** The vowel-group count of [countSyllables]. *)
Fixpoint vowel_groups (l : text) (prevVowel : bool) : nat :=
  match l with
  | [] => 0
  | c :: l' =>
      ((if is_vowel c && negb prevVowel then 1 else 0)
       + vowel_groups l' (is_vowel c))%nat
  end.

Definition countSyllables (w : text) : nat :=
  let lower := toLowerCase w in
  if (List.length lower <=? 3)%nat then 1%nat
  else
    let count := vowel_groups lower false in
    let count1 :=
      if endsWith lower (str "e") && (1 <? count)%nat
      then (count - 1)%nat else count in
    let count2 :=
      if endsWith lower (str "le") && (2 <? List.length lower)%nat
         && negb (match nth_error lower (List.length lower - 3) with
                  | Some c => is_vowel c
                  | None => false
                  end)
      then S count1 else count1 in
    Nat.max 1 count2.

Definition clauseIndicators : list text :=
  List.map str [","; ";"; "and"; "but"; "or"; "because"; "although";
                "while"; "when"; "if"; "that"; "which"; "who"].

Definition subordinators : list text :=
  List.map str ["because"; "although"; "while"; "when"; "if"; "unless";
                "since"; "after"; "before"; "that"; "which"; "who"; "whom";
                "whose"].

(** The [complexityScore] field of [analyzeComplexity]. *)
Definition analyzeComplexity (tokens : list Token) : Q :=
  let words := filter isAlpha tokens in
  let wordCount := List.length words in
  if (wordCount =? 0)%nat then 0%Q
  else
    let totalLength :=
      fold_left (fun s t => (s + List.length (tok_text t))%nat) words 0%nat in
    let avgWordLength := (num totalLength / num wordCount)%Q in
    let syllableCount :=
      fold_left Nat.add (List.map (fun t => countSyllables (tok_text t)) words)
        0%nat in
    let avgSyllablesPerWord := (num syllableCount / num wordCount)%Q in
    let clauseCount :=
      fold_left
        (fun n t =>
           if mem (toLowerCase (tok_text t)) clauseIndicators
              || mem (tok_text t) clauseIndicators
           then S n else n) tokens 1%nat in
    let lengthFactor := (Math_min (avgWordLength / 8) 1 * 25)%Q in
    let syllableFactor := (Math_min (avgSyllablesPerWord / 3) 1 * 25)%Q in
    let clauseFactor := (Math_min (num clauseCount / 4) 1 * 25)%Q in
    let wordCountFactor := (Math_min (num wordCount / 30) 1 * 25)%Q in
    (lengthFactor + syllableFactor + clauseFactor + wordCountFactor)%Q.

(** *** Boundary detection *)

(** [getWordBefore]: the letters that end right before [pos]. *)
Definition getWordBefore (t : text) (p : nat) : option text :=
  match rev (fst (span is_alpha (rev (firstn p t)))) with
  | [] => None
  | w => Some w
  end.

(** [getWordAfter]: white space is skipped from [pos] on, then the letters
    are taken. *)
Definition getWordAfter (t : text) (p : nat) : option text :=
  match fst (span is_alpha (drop_while is_space (skipn p t))) with
  | [] => None
  | w => Some w
  end.

Definition getNextNonSpace (t : text) (p : nat) : option char :=
  match drop_while is_space (skipn p t) with
  | c :: _ => Some c
  | [] => None
  end.

(** [/https?:\/\/[^\s]+|www\.[^\s]+/] matched at the start of [l]. *)
Definition url_at (l : text) : option text :=
  let non_space := fun c => negb (is_space c) in
  let after_http :=
    if starts_with (str "http") l then
      let r := skipn 4 l in
      let (s, r1) := match r with
                     | c :: r' => if N.eqb c 115 then ([c], r') else ([], r)
                     | [] => ([], r)
                     end in
      if starts_with (str "://") r1 then
        match fst (span non_space (skipn 3 r1)) with
        | [] => None
        | u => Some (str "http" ++ s ++ str "://" ++ u)
        end
      else None
    else None in
  match after_http with
  | Some u => Some u
  | None =>
      if starts_with (str "www.") l then
        match fst (span non_space (skipn 4 l)) with
        | [] => None
        | u => Some (str "www." ++ u)
        end
      else None
  end.

(** The first match of the pattern above in [l]. *)
Fixpoint url_match (l : text) : option text :=
  match url_at l with
  | Some u => Some u
  | None => match l with
            | [] => None
            | _ :: l' => url_match l'
            end
  end.

(** [/https?:\/\/|www\.|@\w+\./] matched at the start of [l]. *)
Definition link_hint_at (l : text) : bool :=
  starts_with (str "http://") l || starts_with (str "https://") l
  || starts_with (str "www.") l
  || match l with
     | c :: r =>
         N.eqb c 64 &&
         match span is_word r with
         | (_ :: _, d :: _) => N.eqb d 46
         | _ => false
         end
     | [] => false
     end.

Fixpoint link_hint (l : text) : bool :=
  link_hint_at l || match l with
                    | [] => false
                    | _ :: l' => link_hint l'
                    end.

Definition char_is (p : char -> bool) (o : option char) : bool :=
  match o with Some c => p c | None => false end.

Definition isSentenceBoundary (t : text) (p : nat) : bool :=
  let char := nth_error t p in
  if char_is (fun c => N.eqb c 63 || N.eqb c 33) char then true
  else if char_is (N.eqb 46) char then
    let wordBefore := getWordBefore t p in
    let is_abbreviation :=
      match wordBefore with
      | Some w => mem (toLowerCase w) ALL_ABBREVIATIONS
      | None => false
      end in
    if is_abbreviation then
      if char_is is_upper (getNextNonSpace t (p + 1)) then
        match getWordAfter t p, wordBefore with
        | Some _, Some w => negb (mem (toLowerCase w) titles)
        | _, _ => true
        end
      else false
    else
      let charBefore := if (0 <? p)%nat then nth_error t (p - 1) else None in
      let charAfter :=
        if (Z.of_nat p <? Z.of_nat (List.length t) - 1)%Z
        then nth_error t (p + 1) else None in
      if char_is is_digit charBefore && char_is is_digit charAfter then false
      else if (Z.of_nat p <? Z.of_nat (List.length t) - 2)%Z
              && text_eqb (substring t p (p + 3)) (str "...") then false
      else if match wordBefore with
              | Some [c] => is_upper c
              | _ => false
              end && char_is is_upper (getNextNonSpace t (p + 1)) then false
      else
        let lo := (p - 50)%nat in
        let surroundingText :=
          substring t lo (Nat.min (List.length t) (p + 50)) in
        let inside_url :=
          if link_hint surroundingText then
            match url_match surroundingText with
            | Some u =>
                let urlStart := indexOf surroundingText u 0 in
                let relativePos := (50 - (Z.of_nat lo - 0))%Z in
                (urlStart <=? relativePos)%Z
                && (relativePos <? urlStart + Z.of_nat (List.length u))%Z
            | None => false
            end
          else false in
        if inside_url then false
        else
          match getNextNonSpace t (p + 1) with
          | None => true
          | Some c =>
              if is_upper c then true
              else if is_lower c then false
              else if is_digit c then true
              else true
          end
  else false.

Record Boundary := { b_start : nat; b_end : nat }.

(** One iteration of the loop of [findBoundaries], on position [i]. *)
Definition boundary_step (t : text) (acc : list Boundary * nat) (i : nat)
  : list Boundary * nat :=
  let (boundaries, currentStart) := acc in
  match nth_error t i with
  | Some c =>
      if one_of SENTENCE_ENDERS c && isSentenceBoundary t i then
        let closers :=
          fst (span (fun c => one_of QUOTE_CHARS c || one_of BRACKET_CLOSE c)
                 (skipn (i + 1) t)) in
        let endPos := (i + 1 + List.length closers)%nat in
        (boundaries ++ [{| b_start := currentStart; b_end := endPos |}], endPos)
      else acc
  | None => acc
  end.

Definition findBoundaries (t : text) : list Boundary :=
  fst (fold_left (boundary_step t) (seq 0 (List.length t)) ([], 0%nat)).

(** *** The placeholder sentiment of a sentence *)

Definition calculateBasicSentiment (tokens : list Token) : SentimentScore :=
  let count := fun (ws : list text) =>
    List.length (filter (fun t => mem (toLowerCase (lemma t)) ws) tokens) in
  let positive := count positiveWords in
  let negative :=
    List.length
      (filter (fun t => negb (mem (toLowerCase (lemma t)) positiveWords)
                        && mem (toLowerCase (lemma t)) negativeWords) tokens) in
  let total := (positive + negative)%nat in
  if (total =? 0)%nat then
    {| overall := 0; positive := 0; negative := 0; neutral := 1;
       confidence := 0.5 |}
  else
    let positiveScore := (num positive / num total)%Q in
    let negativeScore := (num negative / num total)%Q in
    {| overall := (positiveScore - negativeScore)%Q;
       positive := positiveScore;
       negative := negativeScore;
       neutral := (1 - (positiveScore + negativeScore))%Q;
       confidence := Math_min (num total / 5)%Q 1 |}.

(** *** [split] *)

Definition make_sentence (sentenceText : text) (lastEnd endChar : nat)
  : M (list Sentence) :=
  if (0 <? List.length sentenceText)%nat then
    tokens <- Tokenizer.tokenize sentenceText ;;
    ret [{| sen_text := sentenceText;
            sen_tokens := tokens;
            sen_startChar := lastEnd;
            sen_endChar := endChar;
            sen_type := detectSentenceType sentenceText tokens;
            sen_sentiment := calculateBasicSentiment tokens;
            sen_complexity := analyzeComplexity tokens |}]
  else ret [].

(** The loop over the boundaries, then the remaining text. *)
Fixpoint split_loop (t : text) (boundaries : list Boundary) (lastEnd : nat)
  : M (list Sentence) :=
  match boundaries with
  | boundary :: rest =>
      s <- make_sentence (trim (substring t lastEnd (b_end boundary)))
             lastEnd (b_end boundary) ;;
      ss <- split_loop t rest (b_end boundary) ;;
      ret (s ++ ss)
  | [] =>
      if (lastEnd <? List.length t)%nat then
        make_sentence (trim (skipn lastEnd t)) lastEnd (List.length t)
      else ret []
  end.

Definition engine : Engine text (list Sentence) :=
  {| cache_get := sentenceSplitter_cache;
     cache_set := fun c w =>
       {| tokenizer_cache := tokenizer_cache w;
          sentenceSplitter_cache := c;
          sentimentAnalyzer_cache := sentimentAnalyzer_cache w;
          keywordExtractor_cache := keywordExtractor_cache w;
          nerRecognizer_cache := nerRecognizer_cache w |};
     keyLength := 200;
     maxCacheSize := 500;
     input_text := fun t => t;
     compute := fun t => split_loop t (findBoundaries t) 0 |}.

Definition split (t : text) : M (list Sentence) := call engine t.

(** *** Statistics *)





End SentenceSplitter.

(** ** Keyword extractor ([src/lib/nlp/keyword-extractor.ts]) *)

Module KeywordExtractor.

(** The stop words of this file; [RakeExtractor] reads them.  The filters
    of the other extractors read the [isStopWord] flag of the tokens. *)
Definition STOP_WORDS : list text :=
  List.map str [
    "a"; "about"; "above"; "after"; "again"; "against"; "all"; "am"; "an";
    "and"; "any"; "are"; "aren't"; "as"; "at"; "be"; "because"; "been";
    "before"; "being"; "below"; "between"; "both"; "but"; "by"; "can't";
    "cannot"; "could"; "couldn't"; "did"; "didn't"; "do"; "does"; "doesn't";
    "doing"; "don't"; "down"; "during"; "each"; "few"; "for"; "from";
    "further"; "had"; "hadn't"; "has"; "hasn't"; "have"; "haven't"; "having";
    "he"; "he'd"; "he'll"; "he's"; "her"; "here"; "here's"; "hers";
    "herself"; "him"; "himself"; "his"; "how"; "how's"; "i"; "i'd"; "i'll";
    "i'm"; "i've"; "if"; "in"; "into"; "is"; "isn't"; "it"; "it's"; "its";
    "itself"; "let's"; "me"; "more"; "most"; "mustn't"; "my"; "myself"; "no";
    "nor"; "not"; "of"; "off"; "on"; "once"; "only"; "or"; "other"; "ought";
    "our"; "ours"; "ourselves"; "out"; "over"; "own"; "same"; "shan't";
    "she"; "she'd"; "she'll"; "she's"; "should"; "shouldn't"; "so"; "some";
    "such"; "than"; "that"; "that's"; "the"; "their"; "theirs"; "them";
    "themselves"; "then"; "there"; "there's"; "these"; "they"; "they'd";
    "they'll"; "they're"; "they've"; "this"; "those"; "through"; "to"; "too";
    "under"; "until"; "up"; "very"; "was"; "wasn't"; "we"; "we'd"; "we'll";
    "we're"; "we've"; "were"; "weren't"; "what"; "what's"; "when"; "when's";
    "where"; "where's"; "which"; "while"; "who"; "who's"; "whom"; "why";
    "why's"; "with"; "won't"; "would"; "wouldn't"; "you"; "you'd"; "you'll";
    "you're"; "you've"; "your"; "yours"; "yourself"; "yourselves"; "also";
    "just"; "like"; "will"; "can"; "may"; "might"; "shall"; "get"; "got";
    "getting"; "go"; "going"; "went"; "gone"; "come"; "came"; "coming";
    "make"; "made"; "making"; "take"; "took"; "taken"; "taking"; "see";
    "saw"; "seen"; "seeing"; "know"; "knew"; "known"; "knowing"; "think";
    "thought"; "thinking"; "want"; "wanted"; "wanting"; "use"; "used";
    "using"; "find"; "found"; "finding"; "give"; "gave"; "given"; "giving";
    "tell"; "told"; "telling"; "ask"; "asked"; "asking"; "work"; "worked";
    "working"; "seem"; "seemed"; "seeming"; "feel"; "felt"; "feeling"; "try";
    "tried"; "trying"; "leave"; "left"; "leaving"; "call"; "called";
    "calling"; "keep"; "kept"; "keeping"; "let"; "letting"; "begin"; "began";
    "begun"; "beginning"; "show"; "showed"; "shown"; "showing"; "hear";
    "heard"; "hearing"; "play"; "played"; "playing"; "run"; "ran"; "running";
    "move"; "moved"; "moving"; "live"; "lived"; "living"; "believe";
    "believed"; "believing"; "hold"; "held"; "holding"; "bring"; "brought";
    "bringing"; "happen"; "happened"; "happening"; "write"; "wrote";
    "written"; "writing"; "provide"; "provided"; "providing"; "sit"; "sat";
    "sitting"; "stand"; "stood"; "standing"; "lose"; "lost"; "losing"; "pay";
    "paid"; "paying"; "meet"; "met"; "meeting"; "include"; "included";
    "including"; "continue"; "continued"; "continuing"; "set"; "setting";
    "learn"; "learned"; "learning"; "change"; "changed"; "changing"; "lead";
    "led"; "leading"; "understand"; "understood"; "understanding"; "watch";
    "watched"; "watching"; "follow"; "followed"; "following"; "stop";
    "stopped"; "stopping"; "create"; "created"; "creating"; "speak"; "spoke";
    "spoken"; "speaking"; "read"; "reading"; "allow"; "allowed"; "allowing";
    "add"; "added"; "adding"; "spend"; "spent"; "spending"; "grow"; "grew";
    "grown"; "growing"; "open"; "opened"; "opening"; "walk"; "walked";
    "walking"; "win"; "won"; "winning"; "offer"; "offered"; "offering";
    "remember"; "remembered"; "remembering"; "love"; "loved"; "loving";
    "consider"; "considered"; "considering"; "appear"; "appeared";
    "appearing"; "buy"; "bought"; "buying"; "wait"; "waited"; "waiting";
    "serve"; "served"; "serving"; "die"; "died"; "dying"; "send"; "sent";
    "sending"; "expect"; "expected"; "expecting"; "build"; "built";
    "building"; "stay"; "stayed"; "staying"; "fall"; "fell"; "fallen";
    "falling"; "cut"; "cutting"; "reach"; "reached"; "reaching"; "kill";
    "killed"; "killing"; "remain"; "remained"; "remaining"; "suggest";
    "suggested"; "suggesting"; "raise"; "raised"; "raising"; "pass";
    "passed"; "passing"; "sell"; "sold"; "selling"; "require"; "required";
    "requiring"; "report"; "reported"; "reporting"; "decide"; "decided";
    "deciding"; "pull"; "pulled"; "pulling" ].

Record KeywordConfig := {
  maxKeywords : nat;
  minWordLength : nat;
  includeNGrams : bool;
  useTFIDF : bool;
  useTextRank : bool }.

Definition DEFAULT_CONFIG : KeywordConfig :=
  {| maxKeywords := 30; minWordLength := 3; includeNGrams := true;
     useTFIDF := true; useTextRank := true |}.

(** [x || d] on numbers. *)
Definition or_default (o : option Q) (d : Q) : Q :=
  match o with
  | Some q => if Qeq_bool q 0 then d else q
  | None => d
  end.

(** Descending order of score: [(a, b) => b.score - a.score]. *)
Definition by_score (a b : ScoredKeyword) : bool :=
  Qle_bool (kw_score b) (kw_score a).

Definition lemma_of (t : Token) : text := toLowerCase (lemma t).

(** *** TextRank *)

Definition Graph := Map (Map Q).

Definition edges_of (g : Graph) (w : text) : Map Q :=
  match Map_get g w with Some e => e | None => [] end.

Definition addEdge (g : Graph) (word1 word2 : text) : Graph :=
  if text_eqb word1 word2 then g
  else
    let g1 := if Map_has g word1 then g else Map_set g word1 [] in
    let g2 := if Map_has g1 word2 then g1 else Map_set g1 word2 [] in
    let e1 := edges_of g2 word1 in
    let g3 := Map_set g2 word1
                (Map_set e1 word2 (or_default (Map_get e1 word2) 0 + 1)%Q) in
    let e2 := edges_of g3 word2 in
    Map_set g3 word2
      (Map_set e2 word1 (or_default (Map_get e2 word1) 0 + 1)%Q).

Definition dampingFactor : Q := 0.85.
Definition convergenceThreshold : Q := 0.0001.
Definition maxIterations : nat := 100.

(** The new score of a node from the current scores of its neighbours. *)
Definition node_score (g : Graph) (scores : Map Q) (node_edges : Map Q) : Q :=
  fold_left
    (fun newScore (nw : text * Q) =>
       match Map_get g (fst nw) with
       | Some neighbor_edges =>
           let totalNeighborWeight :=
             fold_left Qplus (List.map snd neighbor_edges) 0%Q in
           if negb (Qle_bool totalNeighborWeight 0) then
             (newScore + dampingFactor * (snd nw / totalNeighborWeight)
                         * or_default (Map_get scores (fst nw)) 1)%Q
           else newScore
       | None => newScore
       end)
    node_edges (1 - dampingFactor)%Q.

(** One sweep over the nodes; the scores are updated in place. *)
Definition sweep (g : Graph) (scores : Map Q) : Map Q * Q :=
  fold_left
    (fun (acc : Map Q * Q) (n : text * Map Q) =>
       let (scores, maxDiff) := acc in
       let newScore := node_score g scores (snd n) in
       let oldScore := or_default (Map_get scores (fst n)) 1 in
       (Map_set scores (fst n) newScore,
        Math_max maxDiff (Math_abs (newScore - oldScore)%Q)))
    g (scores, 0%Q).

Fixpoint iterate (g : Graph) (iterations : nat) (scores : Map Q) : Map Q :=
  match iterations with
  | O => scores
  | S n =>
      let (scores', maxDiff) := sweep g scores in
      if negb (Qle_bool convergenceThreshold maxDiff) then scores'
      else iterate g n scores'
  end.

Definition calculate (g : Graph) : Map Q :=
  iterate g maxIterations
    (fold_left (fun s (n : text * Map Q) => Map_set s (fst n) 1%Q) g []).

(** The edges the window of two following content tokens adds for the
    token at the head of [l]. *)
Definition window_edges (g : Graph) (l : list Token) : Graph :=
  match l with
  | t :: rest => fold_left (fun g u => addEdge g (lemma_of t) (lemma_of u))
                   (firstn 2 rest) g
  | [] => g
  end.

Fixpoint build_graph (g : Graph) (l : list Token) : Graph :=
  match l with
  | [] => g
  | _ :: rest => build_graph (window_edges g l) rest
  end.

Definition count_lemma (l : list Token) (w : text) : Z :=
  Z.of_nat (List.length (filter (fun t => text_eqb (lemma_of t) w) l)).

Definition extractTextRank (cfg : KeywordConfig) (tokens : list Token)
  : list ScoredKeyword :=
  let contentTokens :=
    filter (fun t => isAlpha t && negb (isStopWord t)
                     && (minWordLength cfg <=? List.length (tok_text t))%nat)
      tokens in
  let scores := calculate (build_graph [] contentTokens) in
  sort by_score
    (List.map (fun ws : text * Q =>
                 {| keyword := fst ws; kw_score := snd ws;
                    frequency := count_lemma contentTokens (fst ws);
                    method := str "textrank" |}) scores).

(** *** TF-IDF *)

Section WithLog.

(** [Math.log] as the runtime computes it. *)
Variable Math_log : Q -> Q.

Definition count_word (m : Map Q) (w : text) : Map Q :=
  Map_set m w (or_default (Map_get m w) 0 + 1)%Q.

Definition calculateIDFFromCorpus (corpus : list text) (terms : list text)
  : M (Map Q) :=
  docs <- mapM (fun doc =>
                  toks <- Tokenizer.tokenize doc ;;
                  ret (List.map lemma_of (filter isAlpha toks))) corpus ;;
  let df :=
    fold_left
      (fun df docTokens =>
         fold_left (fun df term =>
                      if mem term docTokens then count_word df term else df)
           terms df) docs [] in
  let N := num (List.length corpus) in
  ret (fold_left
         (fun idf term =>
            let docFreq := or_default (Map_get df term) 0 in
            Map_set idf term (Math_log ((N + 1) / (docFreq + 1)) + 1)%Q)
         terms []).

(** The indices of the tokens whose lemma is [term]. *)
Fixpoint positions_of (term : text) (tokens : list Token) (i : nat)
  : list nat :=
  match tokens with
  | [] => []
  | t :: rest =>
      if text_eqb (lemma_of t) term
      then i :: positions_of term rest (S i)
      else positions_of term rest (S i)
  end.

Definition calculatePseudoIDF (tokens : list Token) (terms : list text)
  : Map Q :=
  fold_left
    (fun idf term =>
       let positions := positions_of term tokens 0 in
       let positionScore :=
         fold_left (fun s p => (s + 1 / Math_log (num p + 2))%Q)
           positions 0%Q in
       let frequencyPenalty :=
         (1 / Math_log (num (List.length positions) + 2))%Q in
       Map_set idf term (positionScore * frequencyPenalty + 1)%Q)
    terms [].

Record TFIDFResult := { term : text; tf : Q; idf : Q; tfidf : Q }.

Definition calculateForDocument (t : text) (corpus : option (list text))
  : M (list TFIDFResult) :=
  tokens <- Tokenizer.tokenize t ;;
  let words :=
    List.map lemma_of
      (filter (fun t => isAlpha t && negb (isStopWord t)
                        && (3 <=? List.length (tok_text t))%nat) tokens) in
  let counts := fold_left count_word words [] in
  let maxTF := fold_left Math_max (List.map snd counts) 1%Q in
  let tfs := List.map (fun wf : text * Q => (fst wf, (snd wf / maxTF)%Q)) counts in
  idfs <- match corpus with
          | Some (d :: ds) =>
              calculateIDFFromCorpus (d :: ds) (List.map fst tfs)
          | _ => ret (calculatePseudoIDF tokens (List.map fst tfs))
          end ;;
  ret (sort (fun a b => Qle_bool (tfidf b) (tfidf a))
         (List.map (fun wt : text * Q =>
                      let idfScore := or_default (Map_get idfs (fst wt)) 1 in
                      {| term := fst wt; tf := snd wt; idf := idfScore;
                         tfidf := (snd wt * idfScore)%Q |}) tfs)).

(** [Math.round] *)
Definition Math_round (x : Q) : Z := Qfloor (x + 0.5)%Q.

Definition extractTFIDF (t : text) (corpus : option (list text))
  : M (list ScoredKeyword) :=
  results <- calculateForDocument t corpus ;;
  ret (List.map (fun r =>
                   {| keyword := term r; kw_score := tfidf r;
                      frequency := Math_round (tf r * 10)%Q;
                      method := str "tfidf" |}) results).

(** *** N-grams *)

(** The n-grams of length [n] that start at each position of [l]. *)
Fixpoint ngrams_at (n : nat) (l : list Token) : list (list Token) :=
  match l with
  | [] => []
  | _ :: rest =>
      if (n <=? List.length l)%nat then firstn n l :: ngrams_at n rest
      else []
  end.

Definition keep_ngram (ngram : list Token) : bool :=
  negb (1 <? List.length (filter isStopWord ngram))%nat
  && negb (match ngram with t :: _ => isStopWord t | [] => false end
           || match rev ngram with t :: _ => isStopWord t | [] => false end).

(** [s.split(' ').length] *)
Definition space_parts (s : text) : nat :=
  S (List.length (filter (N.eqb 32) s)).

Definition extractNGrams (tokens : list Token) : list ScoredKeyword :=
  let contentTokens :=
    filter (fun t => isAlpha t && (2 <=? List.length (tok_text t))%nat)
      tokens in
  let texts :=
    List.map (fun g => join (str " ") (List.map lemma_of g))
      (filter keep_ngram (ngrams_at 2 contentTokens ++ ngrams_at 3 contentTokens)) in
  let ngramCounts := fold_left count_word texts [] in
  sort by_score
    (List.map (fun nc : text * Q =>
                 {| keyword := fst nc;
                    kw_score := (snd nc * num (space_parts (fst nc)))%Q;
                    frequency := Qfloor (snd nc);
                    method := str "ngram" |})
       (filter (fun nc : text * Q => Qle_bool 2 (snd nc)) ngramCounts)).

(** *** Merging the methods *)

Record Combined := {
  c_score : Q;
  c_frequency : Z;
  c_methods : list text }.

Definition combine_keyword (maxScore : Q) (m : Map Combined)
    (k : ScoredKeyword) : Map Combined :=
  let normalized := (kw_score k / maxScore)%Q in
  match Map_get m (keyword k) with
  | Some existing =>
      Map_set m (keyword k)
        {| c_score := (c_score existing + normalized)%Q;
           c_frequency := Z.max (c_frequency existing) (frequency k);
           c_methods :=
             if mem (method k) (c_methods existing) then c_methods existing
             else c_methods existing ++ [method k] |}
  | None =>
      Map_set m (keyword k)
        {| c_score := normalized; c_frequency := frequency k;
           c_methods := [method k] |}
  end.

Definition combine_set (m : Map Combined) (keywords : list ScoredKeyword)
  : Map Combined :=
  let maxScore :=
    fold_left Math_max (List.map kw_score keywords) 0.001%Q in
  fold_left (combine_keyword maxScore) keywords m.

Definition combineKeywords (keywordSets : list (list ScoredKeyword))
  : list ScoredKeyword :=
  let combinedScores := fold_left combine_set keywordSets [] in
  sort by_score
    (List.map (fun kd : text * Combined =>
                 let data := snd kd in
                 let methodBoost :=
                   (1 + (num (List.length (c_methods data)) - 1) * 0.3)%Q in
                 {| keyword := fst kd;
                    kw_score := (c_score data * methodBoost)%Q;
                    frequency := c_frequency data;
                    method := join (str "+") (c_methods data) |})
       combinedScores).

(** *** [extract] *)

Definition extract_uncached (cfg : KeywordConfig)
    (i : text * option (list text)) : M ExtractedKeywords :=
  let (t, corpus) := i in
  tokens <- Tokenizer.tokenize t ;;
  sentences <- SentenceSplitter.split t ;;
  let textRankKeywords :=
    if useTextRank cfg then extractTextRank cfg tokens else [] in
  tfidfKeywords <- (if useTFIDF cfg then extractTFIDF t corpus else ret []) ;;
  let ngramKeywords :=
    if includeNGrams cfg then extractNGrams tokens else [] in
  let combinedKeywords :=
    combineKeywords [textRankKeywords; tfidfKeywords; ngramKeywords] in
  ret {| keywords := firstn (maxKeywords cfg) combinedKeywords |}.

Definition engine (cfg : KeywordConfig)
  : Engine (text * option (list text)) ExtractedKeywords :=
  {| cache_get := keywordExtractor_cache;
     cache_set := fun c w =>
       {| tokenizer_cache := tokenizer_cache w;
          sentenceSplitter_cache := sentenceSplitter_cache w;
          sentimentAnalyzer_cache := sentimentAnalyzer_cache w;
          keywordExtractor_cache := c;
          nerRecognizer_cache := nerRecognizer_cache w |};
     keyLength := 100;
     maxCacheSize := 200;
     input_text := fst;
     compute := extract_uncached cfg |}.

Definition extract (cfg : KeywordConfig) (t : text)
    (corpus : option (list text)) : M ExtractedKeywords :=
  call (engine cfg) (t, corpus).

End WithLog.

End KeywordExtractor.

(** ** Named-entity recognizer ([src/lib/nlp/named-entity-recognizer.ts]) *)

Module NamedEntityRecognizer.

Definition NAME_PREFIXES : list text :=
  List.map str [
    "mr"; "mrs"; "ms"; "miss"; "dr"; "prof"; "professor"; "sir"; "madam";
    "lord"; "lady"; "rev"; "reverend"; "fr"; "father"; "sister"; "brother";
    "rabbi"; "imam"; "senator"; "representative"; "governor"; "mayor";
    "president"; "ceo"; "cfo"; "cto"; "coo"; "vp"; "director"; "manager" ].

Definition NAME_SUFFIXES : list text :=
  List.map str [
    "jr"; "sr"; "ii"; "iii"; "iv"; "v"; "phd"; "md"; "esq"; "jd"; "dds";
    "cpa"; "mba"; "msc"; "bsc"; "ba"; "ma" ].

Definition COMMON_FIRST_NAMES : list text :=
  List.map str [
    "james"; "john"; "robert"; "michael"; "william"; "david"; "richard";
    "joseph"; "thomas"; "charles"; "christopher"; "daniel"; "matthew";
    "anthony"; "mark"; "donald"; "steven"; "paul"; "andrew"; "joshua";
    "kenneth"; "kevin"; "brian"; "mary"; "patricia"; "jennifer"; "linda";
    "elizabeth"; "barbara"; "susan"; "jessica"; "sarah"; "karen"; "nancy";
    "lisa"; "betty"; "margaret"; "sandra"; "ashley"; "dorothy"; "kimberly";
    "emily"; "donna"; "michelle"; "carol"; "amanda"; "melissa"; "deborah";
    "stephanie"; "rebecca"; "sharon"; "laura"; "elon"; "jeff"; "mark"; "tim";
    "sundar"; "satya"; "jensen"; "sam"; "alex" ].

Definition ORG_INDICATORS : list text :=
  List.map str [
    "inc"; "corp"; "corporation"; "company"; "co"; "llc"; "ltd"; "limited";
    "group"; "holdings"; "partners"; "association"; "foundation";
    "institute"; "university"; "college"; "school"; "academy"; "hospital";
    "clinic"; "bank"; "trust"; "fund"; "capital"; "ventures"; "labs";
    "technologies"; "tech"; "software"; "systems"; "solutions"; "services";
    "industries"; "entertainment"; "media"; "studios"; "productions";
    "records"; "music"; "games"; "sports"; "airlines"; "airways"; "motors";
    "automotive" ].

Definition KNOWN_ORGANIZATIONS : list text :=
  List.map str [
    "google"; "apple"; "microsoft"; "amazon"; "facebook"; "meta"; "netflix";
    "twitter"; "x"; "tesla"; "spacex"; "nvidia"; "intel"; "amd"; "ibm";
    "oracle"; "salesforce"; "adobe"; "spotify"; "uber"; "lyft"; "airbnb";
    "tiktok"; "bytedance"; "alibaba"; "tencent"; "baidu"; "samsung"; "sony";
    "nintendo"; "disney"; "warner"; "paramount"; "universal"; "fox"; "hbo";
    "cnn"; "bbc"; "nbc"; "cbs"; "abc"; "espn"; "nfl"; "nba"; "mlb"; "fifa";
    "youtube"; "instagram"; "snapchat"; "pinterest"; "linkedin"; "reddit";
    "twitch"; "discord"; "slack"; "zoom"; "github"; "gitlab"; "openai";
    "anthropic"; "deepmind"; "huggingface"; "stability"; "midjourney" ].

Definition LOCATION_INDICATORS : list text :=
  List.map str [
    "city"; "town"; "village"; "county"; "state"; "province"; "region";
    "country"; "nation"; "island"; "peninsula"; "continent"; "ocean"; "sea";
    "river"; "lake"; "mountain"; "valley"; "desert"; "forest"; "park";
    "street"; "avenue"; "boulevard"; "road"; "highway"; "bridge"; "tunnel";
    "airport"; "station"; "terminal"; "port"; "harbor"; "beach"; "coast" ].

Definition KNOWN_LOCATIONS : list text :=
  List.map str [
    "usa"; "america"; "canada"; "mexico"; "brazil"; "argentina"; "uk";
    "england"; "france"; "germany"; "italy"; "spain"; "portugal"; "russia";
    "china"; "japan"; "korea"; "india"; "australia"; "africa"; "europe";
    "asia"; "california"; "texas"; "florida"; "newyork"; "chicago"; "boston";
    "seattle"; "denver"; "atlanta"; "miami"; "dallas"; "houston"; "phoenix";
    "sanfrancisco"; "losangeles"; "sandiego"; "lasvegas"; "portland";
    "london"; "paris"; "berlin"; "rome"; "madrid"; "amsterdam"; "vienna";
    "tokyo"; "beijing"; "shanghai"; "singapore"; "hongkong"; "dubai";
    "sydney"; "melbourne"; "toronto"; "vancouver"; "montreal"; "hollywood";
    "silicon valley"; "wall street"; "broadway"; "times square"; "manhattan" ].

Definition PRODUCT_INDICATORS : list text :=
  List.map str [
    "iphone"; "ipad"; "macbook"; "airpods"; "apple watch"; "imac"; "pixel";
    "android"; "chrome"; "chromebook"; "nest"; "windows"; "xbox"; "surface";
    "office"; "azure"; "teams"; "alexa"; "kindle"; "echo"; "aws"; "prime";
    "model s"; "model 3"; "model x"; "model y"; "cybertruck"; "playstation";
    "switch"; "quest"; "oculus"; "chatgpt"; "gpt"; "claude"; "gemini";
    "copilot"; "midjourney"; "photoshop"; "illustrator"; "premiere";
    "after effects" ].

(** The regular expressions of the pattern pass, by name and position in
    their array. *)
Inductive Pattern :=
| URL_PATTERN | EMAIL_PATTERN | HASHTAG_PATTERN | MENTION_PATTERN
| DATE_PATTERNS (i : nat) | TIME_PATTERNS (i : nat)
| MONEY_PATTERNS (i : nat) | PERCENTAGE_PATTERNS (i : nat)
| EVENT_PATTERNS (i : nat).

Definition createEntity (t : text) (ty : EntityType) (startChar endChar : Z)
    (confidence : Q) : NamedEntity :=
  {| ent_text := t; ent_type := ty; ent_startChar := startChar;
     ent_endChar := endChar; ent_confidence := confidence |}.

Definition isCapitalized (w : text) : bool :=
  match w with
  | c :: _ => N.eqb c (upper_char c) && negb (N.eqb c (lower_char c))
  | [] => false
  end.

Definition isEntityConnector (w : text) : bool :=
  mem (toLowerCase w)
    (List.map str ["of"; "the"; "and"; "for"; "in"; "at"; "on"; "&"; "-"]).

(** The first loop of [extractCapitalizedSequence]; [started] tells
    whether [sequence] is non-empty. *)
Fixpoint capitalized_run (l : list Token) (started : bool) : list Token :=
  match l with
  | token :: rest =>
      if isCapitalized (tok_text token)
         || (started && isEntityConnector (tok_text token))
      then token :: capitalized_run rest true
      else []
  | [] => []
  end.

(** The second loop: trailing connectors are popped. *)
Fixpoint pop_connectors (rev_sequence : list Token) : list Token :=
  match rev_sequence with
  | token :: rest =>
      if isEntityConnector (tok_text token) then pop_connectors rest
      else rev_sequence
  | [] => []
  end.

(** [extractCapitalizedSequence(tokens, i)], on the tokens from [i] on. *)
Definition extractCapitalizedSequence (l : list Token) : list Token :=
  rev (pop_connectors (rev (capitalized_run l false))).

Definition last_text (tokens : list Token) : text :=
  match rev tokens with
  | t :: _ => toLowerCase (tok_text t)
  | [] => []
  end.

Definition first_text (tokens : list Token) : text :=
  match tokens with
  | t :: _ => toLowerCase (tok_text t)
  | [] => []
  end.

Definition no_spaces (s : text) : text := filter (fun c => negb (is_space c)) s.

Definition classifyEntity (tokens : list Token) : option EntityType :=
  let entityText :=
    join (str " ") (List.map (fun t => toLowerCase (tok_text t)) tokens) in
  let firstWord := first_text tokens in
  let lastWord := last_text tokens in
  let n := List.length tokens in
  if mem lastWord ORG_INDICATORS || mem firstWord KNOWN_ORGANIZATIONS
  then Some ORGANIZATION
  else if mem lastWord LOCATION_INDICATORS
          || mem (no_spaces entityText) KNOWN_LOCATIONS
  then Some LOCATION
  else if mem firstWord NAME_PREFIXES then Some PERSON
  else if mem lastWord NAME_SUFFIXES then Some PERSON
  else if mem firstWord COMMON_FIRST_NAMES && (2 <=? n)%nat then Some PERSON
  else if mem (toLowerCase (no_spaces entityText)) PRODUCT_INDICATORS
  then Some PRODUCT
  else if (n =? 1)%nat then
    if mem firstWord KNOWN_ORGANIZATIONS then Some ORGANIZATION else None
  else if (2 <=? n)%nat && (n <=? 4)%nat then
    if (n <=? 3)%nat && negb (mem lastWord ORG_INDICATORS) then Some PERSON
    else Some ORGANIZATION
  else Some ORGANIZATION.

Definition checkKnownEntity (w : text) : option EntityType :=
  if mem w KNOWN_ORGANIZATIONS then Some ORGANIZATION
  else if mem w KNOWN_LOCATIONS then Some LOCATION
  else if mem w PRODUCT_INDICATORS then Some PRODUCT
  else None.

Definition calculateConfidence (tokens : list Token) (ty : EntityType) : Q :=
  let lastWord := last_text tokens in
  let firstWord := first_text tokens in
  let c0 := (0.5 + Math_min (num (List.length tokens) * 0.05) 0.2)%Q in
  let c1 := if EntityType_eqb ty ORGANIZATION && mem lastWord ORG_INDICATORS
            then (c0 + 0.2)%Q else c0 in
  let c2 := if EntityType_eqb ty PERSON && mem firstWord NAME_PREFIXES
            then (c1 + 0.2)%Q else c1 in
  let c3 := if EntityType_eqb ty LOCATION && mem lastWord LOCATION_INDICATORS
            then (c2 + 0.2)%Q else c2 in
  let c4 := if mem firstWord KNOWN_ORGANIZATIONS || mem firstWord KNOWN_LOCATIONS
            then (c3 + 0.3)%Q else c3 in
  Math_min c4 0.95.

(** The entity of a capitalized sequence, when it is classified. *)
Definition sequence_entity (entityTokens : list Token) : list NamedEntity :=
  match classifyEntity entityTokens with
  | Some entityType =>
      [createEntity
         (join (str " ") (List.map tok_text entityTokens))
         entityType
         (match entityTokens with t :: _ => startChar t | [] => 0 end)
         (match rev entityTokens with t :: _ => endChar t | [] => 0 end)
         (calculateConfidence entityTokens entityType)]
  | None => []
  end.

(** The [while (i < tokens.length)] loop of [extractTokenEntities], on the
    tokens from [i] on; every iteration moves [i] forward. *)
Fixpoint token_entities (fuel : nat) (l : list Token) : list NamedEntity :=
  match fuel, l with
  | S f, token :: rest =>
      if negb (isAlpha token) then token_entities f rest
      else
        let entityTokens :=
          if isCapitalized (tok_text token)
          then extractCapitalizedSequence l else [] in
        match entityTokens with
        | _ :: _ =>
            sequence_entity entityTokens
              ++ token_entities f (skipn (List.length entityTokens) l)
        | [] =>
            match checkKnownEntity (toLowerCase (tok_text token)) with
            | Some entityType =>
                createEntity (tok_text token) entityType (startChar token)
                  (endChar token) 0.8
                  :: token_entities f rest
            | None => token_entities f rest
            end
        end
  | _, _ => []
  end.

Definition extractTokenEntities (tokens : list Token) : list NamedEntity :=
  token_entities (List.length tokens) tokens.

(** *** Deduplication *)

(** The comparator of [deduplicateEntities]: by start, then longer first. *)
Definition span_cmp (a b : NamedEntity) : Z :=
  if negb (ent_startChar a =? ent_startChar b)%Z
  then ent_startChar a - ent_startChar b
  else (ent_endChar b - ent_startChar b) - (ent_endChar a - ent_startChar a).

Definition span_le (a b : NamedEntity) : bool := (span_cmp a b <=? 0)%Z.

Definition is_duplicate (entity e : NamedEntity) : bool :=
  text_eqb (ent_text e) (ent_text entity)
  && EntityType_eqb (ent_type e) (ent_type entity)
  && (Z.abs (ent_startChar e - ent_startChar entity) <? 5)%Z.

(** The [for (const entity of sorted)] loop with its [result] and
    [lastEnd]. *)
Fixpoint dedup_loop (sorted : list NamedEntity) (result : list NamedEntity)
    (lastEnd : Z) : list NamedEntity :=
  match sorted with
  | [] => result
  | entity :: rest =>
      if (ent_startChar entity <? lastEnd)%Z then dedup_loop rest result lastEnd
      else if existsb (is_duplicate entity) result
      then dedup_loop rest result lastEnd
      else dedup_loop rest (result ++ [entity]) (ent_endChar entity)
  end.

Definition deduplicateEntities (entities : list NamedEntity)
  : list NamedEntity :=
  dedup_loop (sort span_le entities) [] (-1).

Definition getEntitiesByType (entities : list NamedEntity) (ty : EntityType)
  : list NamedEntity :=
  filter (fun e => EntityType_eqb (ent_type e) ty) entities.

(** [getEntityFrequencies]: the count and the type under each lower-cased
    entity text; the type is the one of the first entity with that text. *)
Definition getEntityFrequencies (entities : list NamedEntity)
  : Map (nat * EntityType) :=
  fold_left
    (fun (frequencies : Map (nat * EntityType)) entity =>
       let key := toLowerCase (ent_text entity) in
       match Map_get frequencies key with
       | Some existing =>
           Map_set frequencies key (S (fst existing), snd existing)
       | None => Map_set frequencies key (1%nat, ent_type entity)
       end)
    entities [].

Section WithRegExp.

(** The regular-expression engine of the runtime: the successive matches
    of a global pattern in a text, each with its index. *)
Variable regex_matches : Pattern -> text -> list (nat * text).

(** [text.match(p)] and [text.indexOf(m)] for each match [m]. *)
Definition match_entities (p : Pattern) (ty : EntityType) (t : text)
  : list NamedEntity :=
  List.map (fun m : nat * text =>
              let start := indexOf t (snd m) 0 in
              createEntity (snd m) ty start
                (start + Z.of_nat (List.length (snd m))) 0.95)
    (regex_matches p t).

(** The [while ((match = regex.exec(text)) !== null)] loops. *)
Definition exec_entities (ps : list Pattern) (ty : EntityType)
    (confidence : Q) (t : text) : list NamedEntity :=
  flat_map
    (fun p =>
       List.map (fun m : nat * text =>
                   createEntity (snd m) ty (Z.of_nat (fst m))
                     (Z.of_nat (fst m) + Z.of_nat (List.length (snd m)))
                     confidence)
         (regex_matches p t)) ps.

Definition extractPatternEntities (t : text) : list NamedEntity :=
  match_entities URL_PATTERN URL t
  ++ match_entities EMAIL_PATTERN EMAIL t
  ++ match_entities HASHTAG_PATTERN HASHTAG t
  ++ match_entities MENTION_PATTERN MENTION t
  ++ exec_entities (List.map DATE_PATTERNS (seq 0 6)) DATE 0.85 t
  ++ exec_entities (List.map TIME_PATTERNS (seq 0 3)) TIME 0.85 t
  ++ exec_entities (List.map MONEY_PATTERNS (seq 0 3)) MONEY 0.9 t
  ++ exec_entities (List.map PERCENTAGE_PATTERNS (seq 0 2)) PERCENT 0.9 t
  ++ exec_entities (List.map EVENT_PATTERNS (seq 0 4)) EVENT 0.75 t.

Definition recognize_uncached (t : text) : M (list NamedEntity) :=
  tokens <- Tokenizer.tokenize t ;;
  ret (deduplicateEntities
         (extractPatternEntities t ++ extractTokenEntities tokens)).

Definition engine : Engine text (list NamedEntity) :=
  {| cache_get := nerRecognizer_cache;
     cache_set := fun c w =>
       {| tokenizer_cache := tokenizer_cache w;
          sentenceSplitter_cache := sentenceSplitter_cache w;
          sentimentAnalyzer_cache := sentimentAnalyzer_cache w;
          keywordExtractor_cache := keywordExtractor_cache w;
          nerRecognizer_cache := c |};
     keyLength := 150;
     maxCacheSize := 500;
     input_text := fun t => t;
     compute := recognize_uncached |}.

Definition recognize (t : text) : M (list NamedEntity) := call engine t.

End WithRegExp.

End NamedEntityRecognizer.

(** * Properties *)

Unset Implicit Arguments.

(** ** Predicates the statements below are written with *)

Module Props.
Import Tokenizer SentimentAnalyzer NamedEntityRecognizer.

(** Reading back the cache that was just stored. *)
Definition lawful {I R} (E : Engine I R) : Prop :=
  forall c w, cache_get E (cache_set E c w) = c.

(** A character no alternative of [tokenRegex] emits: white space, which
    the fourth alternative consumes, and the underscore, which starts no
    alternative. *)
Definition gap (c : char) : bool := is_space c || N.eqb c 95.
Definition solid (c : char) : bool := negb (gap c).

(** [t] is tiled by [toks]: the tokens in order, each after a run of gap
    characters, and gap characters only after the last. *)
Inductive Tiling : text -> list text -> Prop :=
| Tiling_end g : Forall (fun c => gap c = true) g -> Tiling g []
| Tiling_token g c tok rest toks :
    Forall (fun c => gap c = true) g ->
    Forall (fun c => solid c = true) (c :: tok) ->
    Tiling rest toks ->
    Tiling (g ++ (c :: tok) ++ rest) ((c :: tok) :: toks).

(** The characters a token spans in [t]. *)
Definition span_of (t : text) (k : Token) : text :=
  substring t (Z.to_nat (startChar k)) (Z.to_nat (endChar k)).

(** Tokens in increasing, non-overlapping and non-empty spans from [lo]. *)
Fixpoint chained (lo : Z) (ks : list Token) : Prop :=
  match ks with
  | [] => True
  | k :: ks' =>
      lo <= startChar k /\ startChar k < endChar k /\ chained (endChar k) ks'
  end.

(** The ranges of the fields of a [SentimentScore]. *)
Definition in_ranges (s : SentimentScore) : Prop :=
  (-1 <= overall s /\ overall s <= 1)%Q
  /\ (0 <= positive s /\ positive s <= 1)%Q
  /\ (0 <= negative s /\ negative s <= 1)%Q
  /\ (0 <= neutral s /\ neutral s <= 1)%Q
  /\ (0 <= confidence s /\ confidence s <= 1)%Q.

(** The two running sums never go below zero. *)
Definition sums_nonneg (s : Scan) : Prop :=
  (0 <= positiveScore s /\ 0 <= negativeScore s)%Q.

(** The lexicon entry a token is scored with: none for a negation word,
    an intensifier or a diminisher, which the loop leaves with
    [continue]. *)
Definition scored_entry (token : Token) : option LexiconEntry :=
  let lem := toLowerCase (lemma token) in
  if is_negation token then None
  else match nonzero (Record_get INTENSIFIERS lem) with
       | Some _ => None
       | None =>
           match nonzero (Record_get DIMINISHERS lem) with
           | Some _ => None
           | None => Record_get SENTIMENT_LEXICON lem
           end
       end.

Definition unscored (token : Token) : bool :=
  match scored_entry token with None => true | Some _ => false end.

(** The sentiment-bearing words of a token sequence. *)
Definition sentiment_words (tokens : list Token) : list Token :=
  filter (fun k => negb (unscored k)) tokens.



(** A token whose lemma is in the lexicon. *)
Definition emotion_bearing (token : Token) : bool :=
  match Record_get SENTIMENT_LEXICON (toLowerCase (lemma token)) with
  | Some _ => true
  | None => false
  end.

Definition keys_in_category (t : Tally) : Prop :=
  Forall (fun kv : text * nat => In (fst kv) EmotionCategory) (emotionCounts t).

(** The span of an entity is not inverted. *)
Definition well_formed (e : NamedEntity) : Prop :=
  ent_startChar e <= ent_endChar e.

(** The half-open ranges of two entities share a position. *)
Definition overlap (a b : NamedEntity) : Prop :=
  exists x, (ent_startChar a <= x < ent_endChar a)
            /\ (ent_startChar b <= x < ent_endChar b).

(** No two entities of the list overlap. *)
Definition no_overlap (l : list NamedEntity) : Prop :=
  forall i j a b, i <> j -> nth_error l i = Some a -> nth_error l j = Some b ->
                  ~ overlap a b.

Definition apart (a b : NamedEntity) : Prop := ~ overlap a b.

(** Tokens in increasing, non-empty spans. *)
Definition spaced (ks : list Token) : Prop := exists lo, chained lo ks.

(** Keywords in descending order of score. *)
Definition sorted_desc (l : list ScoredKeyword) : Prop :=
  StronglySorted (fun a b => (kw_score b <= kw_score a)%Q) l.

(** The states the engine singletons go through: every cache starts empty
    and changes only through the operations of the engines. *)
Inductive reachable : World -> Prop :=
| reach_fresh : reachable fresh
| reach_tokenize w t :
    reachable w -> reachable (snd (Tokenizer.tokenize t w))
| reach_split w t :
    reachable w -> reachable (snd (SentenceSplitter.split t w))
| reach_analyze w t :
    reachable w -> reachable (snd (SentimentAnalyzer.analyze t w))
| reach_analyzeEmotions w t :
    reachable w -> reachable (snd (SentimentAnalyzer.analyzeEmotions t w))
| reach_extract w log cfg t corpus :
    reachable w ->
    reachable (snd (KeywordExtractor.extract log cfg t corpus w))
| reach_recognize w rx t :
    reachable w -> reachable (snd (NamedEntityRecognizer.recognize rx t w))
| reach_clear_tokenizer w :
    reachable w -> reachable (snd (clearCache Tokenizer.engine w))
| reach_clear_splitter w :
    reachable w -> reachable (snd (clearCache SentenceSplitter.engine w))
| reach_clear_analyzer w :
    reachable w -> reachable (snd (clearCache SentimentAnalyzer.engine w))
| reach_clear_extractor w log cfg :
    reachable w ->
    reachable (snd (clearCache (KeywordExtractor.engine log cfg) w))
| reach_clear_recognizer w rx :
    reachable w ->
    reachable (snd (clearCache (NamedEntityRecognizer.engine rx) w)).

(** What every cached result satisfies. *)
Definition World_ok (w : World) : Prop :=
  Forall (fun kv => spaced (snd kv)) (tokenizer_cache w)
  /\ Forall (fun kv => in_ranges (snd kv)) (sentimentAnalyzer_cache w)
  /\ Forall (fun kv => no_overlap (snd kv)) (nerRecognizer_cache w)
  /\ Forall (fun kv => sorted_desc (keywords (snd kv)))
       (keywordExtractor_cache w).

(** An operation that keeps the caches in order. *)
Definition keeps {A} (m : M A) : Prop :=
  forall w, World_ok w -> World_ok (snd (m w)).


(** The characters of [t] that the spans of [ks] cover, in order. *)
Definition spanned (t : text) (ks : list Token) : text :=
  List.concat (List.map (span_of t) ks).

Definition non_whitespace (t : text) : text :=
  filter (fun c => negb (is_space c)) t.

(** The decimal numeral of [n]. *)
Definition numbered (n : nat) : text :=
  str (NilEmpty.string_of_uint (Nat.to_uint n)).

(** The state after a sequence of calls of [tokenize]. *)
Definition tokenize_all (ts : list text) (w : World) : World :=
  fold_left (fun w t => snd (Tokenizer.tokenize t w)) ts w.

(** The token the tokenizer makes of a word that stands alone. *)
Definition word_token (s : string) : Token :=
  Tokenizer.analyzeToken (str s) 0 0 (Z.of_nat (String.length s)).

(** The computation of an engine leaves the cache of that engine alone. *)
Definition untouched {I R} (E : Engine I R) : Prop :=
  forall i w, cache_get E (snd (compute E i w)) = cache_get E w.

(** No entry is stored under the empty string. *)
Definition no_empty_key {V} (c : Map V) : Prop :=
  Forall (fun kv : text * V => fst kv <> []) c.

(** Only the cache of the tokenizer changes. *)
Definition tokenizer_only {A} (m : M A) : Prop :=
  forall w,
    sentenceSplitter_cache (snd (m w)) = sentenceSplitter_cache w
    /\ sentimentAnalyzer_cache (snd (m w)) = sentimentAnalyzer_cache w
    /\ keywordExtractor_cache (snd (m w)) = keywordExtractor_cache w
    /\ nerRecognizer_cache (snd (m w)) = nerRecognizer_cache w.

(** The total is the difference of the two running sums. *)
Definition balanced (s : Scan) : Prop :=
  (totalScore s == positiveScore s - negativeScore s)%Q.

(** What the tallies of [analyzeEmotions] hold: no negative intensity. *)
Definition tally_nonneg (t : Tally) : Prop :=
  Forall (fun kv : text * list Q => Forall (fun q => 0 <= q)%Q (snd kv))
    (emotionIntensities t)
  /\ (0 <= totalIntensity t)%Q.

(** A non-empty string without upper-case ASCII letters. *)
Definition plain (w : text) : bool :=
  truthy w && forallb (fun c => negb (is_upper c)) w.

(** The occurrences of [l] as the lemma of a counted token. *)
Definition occurrences (tokens : list Token) (l : text) : nat :=
  List.length (filter (fun k => is_content k && text_eqb (lemma k) l) tokens).

(** A count of [n] more on top of the entry [o] of a frequency map. *)
Definition counted (n : nat) (o : option nat) : option nat :=
  match n with
  | O => o
  | S _ => Some (match o with Some k => k | None => 0 end + n)%nat
  end.

(** What a shift found from index [i] on records, [rest] being the
    sentences from [i] on. *)
Definition shift_in (i : nat) (rest : list text) (sh : SentimentShift)
  : Prop :=
  (i <= sh_position sh)%nat
  /\ nth_error rest (sh_position sh - i) = Some (sh_sentence sh)
  /\ (0.3 < sh_magnitude sh /\ sh_magnitude sh <= 2)%Q
  /\ (sh_magnitude sh == Qabs (sh_to sh - sh_from sh))%Q
  /\ (sh_direction sh = dir_positive <-> (sh_from sh < sh_to sh)%Q).

Definition overall_in_range (s : SentimentScore) : Prop :=
  (-1 <= overall s /\ overall s <= 1)%Q.

(** Boundaries that follow one another from [lo] to [hi], none empty. *)
Fixpoint linked (lo : nat) (bs : list SentenceSplitter.Boundary) (hi : nat)
  : Prop :=
  match bs with
  | [] => lo = hi
  | b :: bs' =>
      SentenceSplitter.b_start b = lo
      /\ (lo < SentenceSplitter.b_end b)%nat
      /\ linked (SentenceSplitter.b_end b) bs' hi
  end.

(** Sentences in increasing spans from [lo] inside a text of [len]
    characters, each holding the trimmed characters of its span. *)
Fixpoint laid_out (t : text) (lo : nat) (ss : list Sentence) : Prop :=
  match ss with
  | [] => True
  | s :: ss' =>
      (lo <= sen_startChar s)%nat
      /\ (sen_startChar s < sen_endChar s)%nat
      /\ (sen_endChar s <= List.length t)%nat
      /\ sen_text s = trim (substring t (sen_startChar s) (sen_endChar s))
      /\ sen_text s <> []
      /\ laid_out t (sen_endChar s) ss'
  end.

(** Position [p] lies in the span of one of the sentences. *)
Definition covered (ss : list Sentence) (p : nat) : Prop :=
  exists s, In s ss /\ (sen_startChar s <= p < sen_endChar s)%nat.

(** What holds of the accumulator of [findBoundaries] before position [i]:
    the boundaries are linked up to [currentStart], and no character from
    [i] up to [currentStart] ends a sentence. *)
Definition scanned (t : text) (i : nat)
    (acc : list SentenceSplitter.Boundary * nat) : Prop :=
  linked 0 (fst acc) (snd acc)
  /\ (snd acc <= List.length t)%nat
  /\ forall j c, (i <= j < snd acc)%nat -> nth_error t j = Some c ->
                 one_of SentenceSplitter.SENTENCE_ENDERS c = false.

(** The entities whose lower-cased text is [k]. *)
Definition named (k : text) (entities : list NamedEntity)
  : list NamedEntity :=
  filter (fun e => text_eqb (toLowerCase (ent_text e)) k) entities.

(** The entry of [getEntityFrequencies] after [es] more entities named
    [k], on top of the entry [o]. *)
Definition recorded (es : list NamedEntity) (o : option (nat * EntityType))
  : option (nat * EntityType) :=
  match es, o with
  | [], _ => o
  | _ :: _, Some (n, ty) => Some ((n + List.length es)%nat, ty)
  | e :: _, None => Some (List.length es, ent_type e)
  end.

(** The state of the loop of [deduplicateEntities]: [lastEnd] is the end
    of a kept entity, or still -1 with nothing kept. *)
Definition dedup_state (result : list NamedEntity) (lastEnd : Z) : Prop :=
  (result = [] /\ lastEnd = -1)
  \/ exists k, In k result /\ lastEnd = ent_endChar k.

(** Why a candidate is not among the kept entities: it starts before -1,
    it starts before the end of a kept entity, or a kept entity has its
    text and type and starts less than 5 characters away. *)
Definition explained (result : list NamedEntity) (e : NamedEntity) : Prop :=
  In e result
  \/ ent_startChar e < -1
  \/ exists k, In k result
               /\ (ent_startChar e < ent_endChar k
                   \/ is_duplicate e k = true).

(** Confidence between 0.5 and 0.95. *)
Definition confident (e : NamedEntity) : Prop :=
  (0.5 <= ent_confidence e /\ ent_confidence e <= 0.95)%Q.

(** The graph of TextRank: no edge weight is negative, and every node is
    one of the words [ws]. *)
Definition weights_ok (g : KeywordExtractor.Graph) : Prop :=
  Forall (fun n : text * Map Q =>
            Forall (fun e : text * Q => 0 <= snd e)%Q (snd n)) g.

Definition keys_within (ws : list text) (g : KeywordExtractor.Graph) : Prop :=
  forall k, In k (Map_keys g) -> In k ws.

(** Scores at or above [1 - dampingFactor]. *)
Definition scores_ok (scores : Map Q) : Prop :=
  Forall (fun s : text * Q => 0.15 <= snd s)%Q scores.

(** Counts are positive whole numbers. *)
Definition counts_ok (m : Map Q) : Prop :=
  Forall (fun p : text * Q =>
            exists n : Z, (1 <= n)%Z /\ (snd p == inject_Z n)%Q) m.

(** Every cached recognition holds confident entities only. *)
Definition confident_cache (w : World) : Prop :=
  Forall (fun kv : text * list NamedEntity => Forall confident (snd kv))
    (nerRecognizer_cache w).

(** Every cached extraction holds each keyword once. *)
Definition distinct_cache (w : World) : Prop :=
  Forall (fun kv : text * ExtractedKeywords =>
            NoDup (List.map keyword (keywords (snd kv))))
    (keywordExtractor_cache w).

(** An operation that keeps an invariant of the state. *)
Definition preserves (Inv : World -> Prop) {A} (m : M A) : Prop :=
  forall w, Inv w -> Inv (snd (m w)).

(** Every cached token list satisfies [P]. *)
Definition tokens_cache (P : list Token -> Prop) (w : World) : Prop :=
  Forall (fun kv : text * list Token => P (snd kv)) (tokenizer_cache w).

(** What a token list holds whatever its text was: increasing non-empty
    spans from 0, indices that count from 0, and texts that are not empty
    and hold no gap character. *)
Definition tokens_sound (ks : list Token) : Prop :=
  chained 0 ks
  /\ List.map index ks = seq 0 (List.length ks)
  /\ Forall (fun k => tok_text k <> []
                      /\ Forall (fun c => solid c = true) (tok_text k)) ks.

(** A state and a score of the analysis on rationals, among those of the
    analysis in full. *)
Definition lift_scan (s : Scan) : FullScan :=
  {| full_totalScore := Num (totalScore s);
     full_positiveScore := Num (positiveScore s);
     full_negativeScore := Num (negativeScore s);
     full_wordCount := wordCount s;
     full_sentimentWordCount := sentimentWordCount s;
     full_currentIntensifier := Num (currentIntensifier s);
     full_negationActive := negationActive s;
     full_negationScope := negationScope s |}.

Definition lift_score (r : SentimentScore) : FullScore :=
  {| full_overall := Num (overall r);
     full_positive := Num (positive r);
     full_negative := Num (negative r);
     full_neutral := Num (neutral r);
     full_confidence := Num (confidence r) |}.

(** A number, not NaN, between [lo] and [hi]. *)
Definition within (lo hi : Q) (n : number) : Prop :=
  match n with
  | Num q => (lo <= q /\ q <= hi)%Q
  | NaN => False
  end.

(** A number, not NaN, equal to [q]. *)
Definition exactly (q : Q) (n : number) : Prop :=
  match n with
  | Num x => (x == q)%Q
  | NaN => False
  end.

Definition full_in_ranges (r : FullScore) : Prop :=
  within (-1) 1 (full_overall r)
  /\ within 0 1 (full_positive r)
  /\ within 0 1 (full_negative r)
  /\ within 0 1 (full_neutral r)
  /\ within 0 1 (full_confidence r).

(** A token with strings for its fields whose lemma is not an inherited
    key. *)
Definition clean (k : Token) : bool :=
  Tokenizer.typed k && Tokenizer.own_lemma k.

(** The fields the source computes for the text of [k], reading its
    tables through the prototype chain, are strings: those of [k]. *)
Definition as_built (k : Token) : Prop :=
  determinePOS_full (tok_text k) (toLowerCase (tok_text k))
  = Some (pos k, tag k)
  /\ getLemma_full (toLowerCase (tok_text k)) (Some (pos k))
     = Some (lemma k).


End Props.


(** ** Strings, maps and the stable sort *)

Module JSFacts.

Lemma text_eqb_eq (a b : text) : text_eqb a b = true <-> a = b.
Proof.
  revert b; induction a as [|x a IH]; intros [|y b]; simpl;
    try (split; [discriminate | congruence || discriminate]);
    try tauto.
  rewrite andb_true_iff, N.eqb_eq, IH. split.
  - intros [-> ->]; reflexivity.
  - intros H; injection H; auto.
Qed.

Lemma text_eqb_refl (a : text) : text_eqb a a = true.
Proof. apply text_eqb_eq; reflexivity. Qed.

Lemma text_eqb_neq (a b : text) : text_eqb a b = false <-> a <> b.
Proof.
  rewrite <- text_eqb_eq. destruct (text_eqb a b); split; congruence.
Qed.

Lemma mem_In (x : text) (s : list text) : mem x s = true <-> In x s.
Proof.
  unfold mem. rewrite existsb_exists. split.
  - intros [y [Hy He]]. apply text_eqb_eq in He. subst; assumption.
  - intros H. exists x. split; [assumption | apply text_eqb_refl].
Qed.

Lemma span_app (p : char -> bool) (l : text) :
  fst (span p l) ++ snd (span p l) = l.
Proof.
  induction l as [|c l IH]; simpl; [reflexivity|].
  destruct (p c); [|reflexivity].
  destruct (span p l) as [a b]; simpl in *. now rewrite IH.
Qed.

Lemma span_all (p : char -> bool) (l : text) : Forall (fun c => p c = true) (fst (span p l)).
Proof.
  induction l as [|c l IH]; simpl; [constructor|].
  destruct (p c) eqn:E; [|constructor].
  destruct (span p l) as [a b]; simpl in *. constructor; assumption.
Qed.

Lemma span_rest (p : char -> bool) (l : text) :
  match snd (span p l) with
  | c :: _ => p c = false
  | [] => True
  end.
Proof.
  induction l as [|c l IH]; simpl; [exact I|].
  destruct (p c) eqn:E; [|simpl; assumption].
  destruct (span p l) as [a b]; simpl in *. assumption.
Qed.

Lemma span_length (p : char -> bool) (l : text) :
  (List.length (snd (span p l)) <= List.length l)%nat.
Proof.
  rewrite <- (span_app p l) at 2. rewrite length_app. lia.
Qed.

Lemma starts_with_app (sub l : text) : starts_with sub (sub ++ l) = true.
Proof.
  induction sub as [|x sub IH]; simpl; [reflexivity|].
  now rewrite N.eqb_refl, IH.
Qed.

Lemma starts_with_prefix (sub l : text) :
  starts_with sub l = true -> exists r, l = sub ++ r.
Proof.
  revert l; induction sub as [|x sub IH]; intros l H; simpl in *.
  - exists l; reflexivity.
  - destruct l as [|y l]; [discriminate|].
    apply andb_true_iff in H as [Hx Hs]. apply N.eqb_eq in Hx; subst.
    destruct (IH _ Hs) as [r ->]. exists r; reflexivity.
Qed.

(** *** Maps *)

Lemma Map_get_set_same {V} (m : Map V) (k : text) (v : V) :
  Map_get (Map_set m k v) k = Some v.
Proof.
  induction m as [|[k' v'] m IH]; simpl.
  - now rewrite text_eqb_refl.
  - destruct (text_eqb k' k) eqn:E; simpl; rewrite E; auto.
Qed.

Lemma Map_get_set_other {V} (m : Map V) (k k0 : text) (v : V) :
  k <> k0 -> Map_get (Map_set m k v) k0 = Map_get m k0.
Proof.
  intros Hne. induction m as [|[k' v'] m IH]; simpl.
  - apply text_eqb_neq in Hne. now rewrite Hne.
  - destruct (text_eqb k' k) eqn:E; simpl.
    + apply text_eqb_eq in E; subst k'.
      apply text_eqb_neq in Hne. now rewrite Hne.
    + destruct (text_eqb k' k0); auto.
Qed.

Lemma Map_set_new {V} (m : Map V) (k : text) (v : V) :
  Map_get m k = None -> Map_set m k v = m ++ [(k, v)].
Proof.
  induction m as [|[k' v'] m IH]; simpl; [reflexivity|].
  destruct (text_eqb k' k); [discriminate|]. intros H. now rewrite IH.
Qed.

Lemma Map_set_present {V} (m : Map V) (k : text) (v : V) :
  Map_get m k <> None -> Map_keys (Map_set m k v) = Map_keys m.
Proof.
  induction m as [|[k' v'] m IH]; simpl; [congruence|].
  destruct (text_eqb k' k); simpl; [reflexivity|].
  intros H. f_equal. apply IH, H.
Qed.

Lemma Map_get_In {V} (m : Map V) (k : text) (v : V) :
  Map_get m k = Some v -> In (k, v) m.
Proof.
  induction m as [|[k' v'] m IH]; simpl; [discriminate|].
  destruct (text_eqb k' k) eqn:E.
  - intros H; injection H as ->. apply text_eqb_eq in E; subst. now left.
  - intros H; right; auto.
Qed.

Lemma Map_delete_incl {V} (m : Map V) (k : text) : incl (Map_delete m k) m.
Proof.
  induction m as [|[k' v'] m IH]; simpl; [apply incl_refl|].
  destruct (text_eqb k' k).
  - apply incl_tl, incl_refl.
  - apply incl_cons; [now left | apply incl_tl, IH].
Qed.

Lemma Map_set_incl {V} (m : Map V) (k : text) (v : V) :
  incl (Map_set m k v) ((k, v) :: m).
Proof.
  induction m as [|[k' v'] m IH]; simpl.
  - apply incl_refl.
  - destruct (text_eqb k' k) eqn:E.
    + apply text_eqb_eq in E; subst.
      intros x [<-|Hx]; [now left | right; now right].
    + intros x [<-|Hx]; [right; now left|].
      destruct (IH x Hx) as [<-|H]; [now left | right; now right].
Qed.

(** *** The sort *)

Section SortFacts.
Variable A : Type.
Variable le : A -> A -> bool.

Lemma sort_insert_perm (x : A) (l : list A) :
  Permutation (sort_insert le x l) (x :: l).
Proof.
  induction l as [|y l IH]; simpl; [reflexivity|].
  destruct (le x y); [reflexivity|].
  rewrite IH. apply perm_swap.
Qed.

Lemma sort_perm (l : list A) : Permutation (sort le l) l.
Proof.
  induction l as [|x l IH]; simpl; [reflexivity|].
  unfold sort in *; simpl. rewrite sort_insert_perm. now constructor.
Qed.

Lemma sort_In (l : list A) (x : A) : In x (sort le l) <-> In x l.
Proof.
  split; apply Permutation_in; [|symmetry]; apply sort_perm.
Qed.

(** With a total and transitive comparator the result is ordered. *)
Hypothesis le_total : forall a b, le a b = true \/ le b a = true.
Hypothesis le_trans : forall a b c, le a b = true -> le b c = true -> le a c = true.

Lemma sort_insert_sorted (x : A) (l : list A) :
  StronglySorted (fun a b => le a b = true) l ->
  StronglySorted (fun a b => le a b = true) (sort_insert le x l).
Proof.
  induction 1 as [|y l Hs IH Hy]; simpl.
  - repeat constructor.
  - destruct (le x y) eqn:E.
    + constructor; [constructor; assumption|].
      constructor; [assumption|].
      eapply Forall_impl; [|exact Hy]. intros a Ha. eauto.
    + constructor; [assumption|].
      eapply Permutation_Forall.
      * symmetry. apply sort_insert_perm.
      * constructor; [|assumption].
        destruct (le_total x y); congruence.
Qed.

Lemma sort_sorted (l : list A) :
  StronglySorted (fun a b => le a b = true) (sort le l).
Proof.
  induction l as [|x l IH]; simpl; [constructor|].
  apply sort_insert_sorted, IH.
Qed.
End SortFacts.

End JSFacts.

(** ** The cache of the engines *)

Module CacheFacts.
Import Props JSFacts.

Lemma Tokenizer_lawful : lawful Tokenizer.engine.
Proof. intros c w; reflexivity. Qed.

Lemma SentimentAnalyzer_lawful : lawful SentimentAnalyzer.engine.
Proof. intros c w; reflexivity. Qed.

Lemma SentenceSplitter_lawful : lawful SentenceSplitter.engine.
Proof. intros c w; reflexivity. Qed.

Lemma KeywordExtractor_lawful log cfg : lawful (KeywordExtractor.engine log cfg).
Proof. intros c w; reflexivity. Qed.

Lemma NamedEntityRecognizer_lawful rx : lawful (NamedEntityRecognizer.engine rx).
Proof. intros c w; reflexivity. Qed.

Lemma substring_prefix (t : text) (n : nat) : substring t 0 n = firstn n t.
Proof. unfold substring. simpl. now rewrite Nat.sub_0_r. Qed.




Lemma evict_incl {R} (cap : nat) (c : Map R) : incl (evict cap c) c.
Proof.
  unfold evict. destruct (cap <=? Map_size c)%nat; [|apply incl_refl].
  destruct (Map_first_key c) as [k|]; [|apply incl_refl].
  destruct (truthy k); [apply Map_delete_incl | apply incl_refl].
Qed.

(** A property of the cached values that the computation establishes
    holds of every returned value, whether computed or read back. *)
Lemma call_preserves {I R} (E : Engine I R) (P : R -> Prop)
    (Inv : World -> Prop) :
  lawful E ->
  (forall w, Inv w -> Forall (fun kv => P (snd kv)) (cache_get E w)) ->
  (forall i w, Inv w -> P (fst (compute E i w)) /\ Inv (snd (compute E i w))) ->
  (forall c w, Inv w -> Forall (fun kv => P (snd kv)) c ->
               Inv (cache_set E c w)) ->
  forall i w, Inv w -> P (fst (call E i w)) /\ Inv (snd (call E i w)).
Proof.
  intros HL Hread Hcomp Hwrite i w Hw. unfold call.
  destruct (Map_get (cache_get E w) (cacheKey E i)) as [r|] eqn:Hg.
  - split; [|exact Hw]. cbn [fst].
    specialize (Hread w Hw). rewrite Forall_forall in Hread.
    apply (Hread (cacheKey E i, r)). now apply Map_get_In.
  - destruct (Hcomp i w Hw) as [Hp Hi].
    destruct (compute E i w) as [r w1]. cbn [fst snd] in *.
    split; [exact Hp|]. apply Hwrite; [exact Hi|].
    apply Forall_forall. intros kv Hkv. apply Map_set_incl in Hkv.
    destruct Hkv as [<-|Hkv]; [exact Hp|].
    apply evict_incl in Hkv.
    specialize (Hread w1 Hi). rewrite Forall_forall in Hread. now apply Hread.
Qed.

End CacheFacts.

(** ** Tokenizer: the scanner tiles the text *)

Module TokenizerFacts.
Import Props JSFacts Tokenizer.

Ltac to_prop :=
  repeat match goal with
    | H : _ && _ = true |- _ => apply andb_true_iff in H; destruct H
    | H : _ || _ = true |- _ => apply orb_true_iff in H; destruct H
    | H : _ || _ = false |- _ => apply orb_false_iff in H; destruct H
    | H : negb _ = true |- _ => apply negb_true_iff in H
    | H : negb _ = false |- _ => apply negb_false_iff in H
    | H : N.leb _ _ = true |- _ => apply N.leb_le in H
    | H : N.leb _ _ = false |- _ => apply N.leb_gt in H
    | H : N.eqb _ _ = true |- _ => apply N.eqb_eq in H
    | H : N.eqb _ _ = false |- _ => apply N.eqb_neq in H
    | H : false = true |- _ => discriminate H
    end.

(** Decides an implication between character classes. *)
Ltac classes :=
  unfold solid, gap, is_word, is_alpha, is_upper, is_lower, is_digit,
    is_space, in_range, one_of in *;
  simpl existsb in *;
  repeat match goal with
    | |- ?b = true => destruct b eqn:?; [reflexivity | exfalso]
    | |- ?b = false => destruct b eqn:?; [exfalso | reflexivity]
    end;
  to_prop; subst; try lia; try discriminate.

Lemma alpha_solid c : is_alpha c = true -> solid c = true.
Proof. intros H. classes. Qed.

Lemma digit_solid c : is_digit c = true -> solid c = true.
Proof. intros H. classes. Qed.

Lemma punct_solid c : is_word c = false -> is_space c = false -> solid c = true.
Proof.
  intros H1 H2. unfold solid, gap, is_word in *. rewrite H2.
  apply orb_false_iff in H1 as [_ ->]. reflexivity.
Qed.

Lemma space_gap c : is_space c = true -> gap c = true.
Proof. intros H. unfold gap. now rewrite H. Qed.

Lemma other_gap c :
  is_alpha c = false -> is_digit c = false ->
  negb (is_word c) && negb (is_space c) = false -> gap c = true.
Proof.
  intros Ha Hd Hp. unfold gap, is_word in *. rewrite Ha, Hd in Hp. simpl in Hp.
  destruct (N.eqb c 95); simpl in *; [apply orb_true_r|].
  apply negb_false_iff in Hp. rewrite Hp. reflexivity.
Qed.

Lemma Tiling_gap g t toks :
  Forall (fun c => gap c = true) g -> Tiling t toks -> Tiling (g ++ t) toks.
Proof.
  intros Hg Ht. destruct Ht as [g' Hg'|g' c tok rest toks Hg' Hs Hr].
  - constructor. apply Forall_app; auto.
  - rewrite app_assoc. constructor; auto. apply Forall_app; auto.
Qed.

Lemma Tiling_head c tok rest toks :
  Forall (fun c => solid c = true) (c :: tok) -> Tiling rest toks ->
  Tiling ((c :: tok) ++ rest) ((c :: tok) :: toks).
Proof. intros. now apply (Tiling_token [] c tok rest toks). Qed.

(** *** What one match consumes *)

Lemma span_fst_cons p c l : p c = true -> fst (span p (c :: l)) = c :: fst (span p l).
Proof. simpl. intros ->. now destruct (span p l). Qed.

Lemma span_snd_cons p c l : p c = true -> snd (span p (c :: l)) = snd (span p l).
Proof. simpl. intros ->. now destruct (span p l). Qed.

Lemma Forall_solid_alpha l :
  Forall (fun c => is_alpha c = true) l -> Forall (fun c => solid c = true) l.
Proof. apply Forall_impl, alpha_solid. Qed.

Lemma Forall_solid_digit l :
  Forall (fun c => is_digit c = true) l -> Forall (fun c => solid c = true) l.
Proof. apply Forall_impl, digit_solid. Qed.

Lemma match_word_spec c l w r :
  is_alpha c = true -> match_word (c :: l) = (w, r) ->
  c :: l = w ++ r /\ (exists w', w = c :: w')
  /\ Forall (fun c => solid c = true) w.
Proof.
  intros Ha. unfold match_word.
  pose proof (span_app is_alpha (c :: l)) as Happ.
  pose proof (span_all is_alpha (c :: l)) as Hall.
  pose proof (span_fst_cons is_alpha c l Ha) as Hfst.
  destruct (span is_alpha (c :: l)) as [w0 rest]; simpl in Happ, Hall, Hfst.
  assert (Hbase : c :: l = w0 ++ rest /\ (exists w', w0 = c :: w')
                  /\ Forall (fun c => solid c = true) w0).
  { split; [now symmetry|]. split; [eexists; eassumption|].
    now apply Forall_solid_alpha. }
  destruct rest as [|q rest']; [intros [= <- <-]; exact Hbase|].
  destruct (N.eqb q 39) eqn:Hq; [|intros [= <- <-]; exact Hbase].
  pose proof (span_app is_alpha rest') as Happ2.
  pose proof (span_all is_alpha rest') as Hall2.
  destruct (span is_alpha rest') as [w2 rest'']; simpl in Happ2, Hall2.
  destruct w2 as [|x w2]; [intros [= <- <-]; exact Hbase|].
  intros [= <- <-]. split; [|split].
  - rewrite <- Happ, <- Happ2, <- app_assoc. reflexivity.
  - rewrite Hfst. eexists; reflexivity.
  - apply Forall_app; split; [now apply Forall_solid_alpha|].
    constructor; [|now apply Forall_solid_alpha].
    apply N.eqb_eq in Hq; subst q. reflexivity.
Qed.

Lemma match_groups_spec fuel l m r :
  match_groups fuel l = (m, r) ->
  l = m ++ r /\ Forall (fun c => solid c = true) m.
Proof.
  revert l m r; induction fuel as [|f IH]; intros l m r; cbn [match_groups].
  - destruct l; intros [= <- <-]; split; auto.
  - destruct l as [|c rest]; [intros [= <- <-]; split; auto|].
    destruct (one_of [46; 44]%N c) eqn:Hc; [|intros [= <- <-]; split; auto].
    pose proof (span_app is_digit rest) as Happ.
    pose proof (span_all is_digit rest) as Hall.
    destruct (span is_digit rest) as [ds rest']; simpl in Happ, Hall.
    destruct ds as [|d ds]; [intros [= <- <-]; split; auto|].
    destruct (match_groups f rest') as [m' r'] eqn:Hm.
    destruct (IH _ _ _ Hm) as [-> Hs].
    intros [= <- <-]. split.
    + rewrite <- Happ. simpl. rewrite <- app_assoc. reflexivity.
    + constructor.
      * unfold one_of in Hc; simpl in Hc. classes.
      * apply (proj2 (Forall_app _ (d :: ds) m')).
        split; [now apply Forall_solid_digit | assumption].
Qed.

Lemma match_number_spec c l n r :
  is_digit c = true -> match_number (c :: l) = (n, r) ->
  c :: l = n ++ r /\ (exists n', n = c :: n')
  /\ Forall (fun c => solid c = true) n.
Proof.
  intros Hd. unfold match_number.
  pose proof (span_app is_digit (c :: l)) as Happ.
  pose proof (span_all is_digit (c :: l)) as Hall.
  pose proof (span_fst_cons is_digit c l Hd) as Hfst.
  destruct (span is_digit (c :: l)) as [ds rest]; simpl in Happ, Hall, Hfst.
  destruct (match_groups (List.length rest) rest) as [gs rest'] eqn:Hg.
  destruct (@match_groups_spec _ _ _ _ Hg) as [-> Hgs].
  assert (Hds : Forall (fun c => solid c = true) ds)
    by now apply Forall_solid_digit.
  destruct rest' as [|q rest''].
  - intros [= <- <-]. split; [|split].
    + rewrite <- Happ. now rewrite app_assoc.
    + rewrite Hfst. eexists; reflexivity.
    + apply Forall_app; auto.
  - destruct (N.eqb q 37) eqn:Hq; intros [= <- <-]; (split; [|split]).
    + rewrite <- Happ. now rewrite <- !app_assoc.
    + rewrite Hfst. eexists; reflexivity.
    + apply Forall_app; split; [assumption|].
      apply Forall_app; split; [assumption|].
      constructor; [|constructor]. apply N.eqb_eq in Hq; subst q. reflexivity.
    + rewrite <- Happ. now rewrite app_assoc.
    + rewrite Hfst. eexists; reflexivity.
    + apply Forall_app; auto.
Qed.

(** The scanner never runs out of fuel on a text no longer than the fuel,
    and its tokens tile the text. *)
Lemma scan_tiling fuel :
  forall l, (List.length l <= fuel)%nat ->
            Tiling l (List.map raw_text (scan fuel l)).
Proof.
  induction fuel as [|f IH]; intros l Hlen.
  - destruct l; [|simpl in Hlen; lia]. simpl. constructor. constructor.
  - destruct l as [|c rest]; [simpl; constructor; constructor|].
    simpl in Hlen. cbn [scan].
    destruct (is_alpha c) eqn:Ha.
    { destruct (match_word (c :: rest)) as [w r] eqn:Hw.
      destruct (@match_word_spec c rest w r Ha Hw) as [Heq [[w' ->] Hs]].
      rewrite Heq. simpl List.map. apply Tiling_head; [assumption|].
      apply IH. apply (f_equal (@List.length _)) in Heq.
      rewrite length_app in Heq. simpl in Heq. lia. }
    destruct (is_digit c) eqn:Hd.
    { destruct (match_number (c :: rest)) as [n r] eqn:Hn.
      destruct (@match_number_spec c rest n r Hd Hn) as [Heq [[n' ->] Hs]].
      rewrite Heq. simpl List.map. apply Tiling_head; [assumption|].
      apply IH. apply (f_equal (@List.length _)) in Heq.
      rewrite length_app in Heq. simpl in Heq. lia. }
    destruct (negb (is_word c) && negb (is_space c)) eqn:Hp.
    { simpl List.map. apply (Tiling_head c [] rest).
      - constructor; [|constructor]. to_prop. now apply punct_solid.
      - apply IH. lia. }
    pose proof (other_gap _ Ha Hd Hp) as Hg.
    destruct (is_space c) eqn:Hsp.
    { rewrite <- (span_app is_space (c :: rest)) at 1.
      apply Tiling_gap.
      - eapply Forall_impl; [|apply span_all]. apply space_gap.
      - apply IH. rewrite (span_snd_cons _ _ _ Hsp).
        pose proof (span_length is_space rest). lia. }
    apply (Tiling_gap [c]); [constructor; auto|].
    apply IH. lia.
Qed.

Lemma splitIntoRawTokens_tiling (t : text) :
  Tiling t (List.map raw_text (splitIntoRawTokens t)).
Proof. apply scan_tiling. apply Nat.le_refl. Qed.


(** *** Offsets *)

Lemma analyzeToken_text t i s e : tok_text (analyzeToken t i s e) = t.
Proof. unfold analyzeToken. now destruct (determinePOS t (toLowerCase t)). Qed.

Lemma analyzeToken_start t i s e : startChar (analyzeToken t i s e) = s.
Proof. unfold analyzeToken. now destruct (determinePOS t (toLowerCase t)). Qed.

Lemma analyzeToken_end t i s e : endChar (analyzeToken t i s e) = e.
Proof. unfold analyzeToken. now destruct (determinePOS t (toLowerCase t)). Qed.

Lemma analyzeToken_index t i s e : index (analyzeToken t i s e) = i.
Proof. unfold analyzeToken. now destruct (determinePOS t (toLowerCase t)). Qed.

Lemma solid_not_gap c x : solid c = true -> gap x = true -> N.eqb c x = false.
Proof.
  intros Hc Hx. apply N.eqb_neq. intros ->. unfold solid in Hc.
  rewrite Hx in Hc. discriminate.
Qed.

(** The search for a token that follows a run of gap characters passes
    over the run and stops at the token. *)
Lemma index_from_gap g c tok rest k :
  Forall (fun c => gap c = true) g -> solid c = true ->
  index_from (c :: tok) (g ++ (c :: tok) ++ rest) k
  = Some (k + List.length g)%nat.
Proof.
  intros Hg Hc. revert k. induction Hg as [|x g Hx Hg IH]; intros k.
  - cbn [app index_from List.length].
    change (c :: tok ++ rest) with ((c :: tok) ++ rest).
    rewrite starts_with_app. f_equal; lia.
  - cbn [app index_from starts_with List.length].
    rewrite (solid_not_gap c x Hc Hx). cbn [andb].
    rewrite IH. f_equal; lia.
Qed.

Lemma indexOf_gap pre g c tok rest :
  Forall (fun c => gap c = true) g -> solid c = true ->
  indexOf (pre ++ g ++ (c :: tok) ++ rest) (c :: tok)
    (Z.of_nat (List.length pre))
  = Z.of_nat (List.length pre + List.length g).
Proof.
  intros Hg Hc. unfold indexOf. rewrite Nat2Z.id.
  rewrite Nat.min_l by (rewrite length_app; lia).
  rewrite skipn_app, skipn_all, Nat.sub_diag. cbn [app skipn].
  now rewrite (index_from_gap g c tok rest _ Hg Hc).
Qed.

Lemma substring_middle (a b c : text) :
  substring (a ++ b ++ c) (List.length a) (List.length a + List.length b) = b.
Proof.
  unfold substring.
  rewrite Nat.min_l, Nat.max_r by lia.
  rewrite skipn_app, skipn_all, Nat.sub_diag. cbn [app skipn].
  replace (List.length a + List.length b - List.length a)%nat
    with (List.length b) by lia.
  rewrite firstn_app, firstn_all, Nat.sub_diag. cbn [firstn].
  apply app_nil_r.
Qed.

Lemma filter_solid_gap g :
  Forall (fun c => gap c = true) g -> filter solid g = [].
Proof.
  induction 1 as [|x g Hx Hg IH]; [reflexivity|].
  cbn [filter]. unfold solid at 1. rewrite Hx. exact IH.
Qed.

Lemma filter_solid_all l :
  Forall (fun c => solid c = true) l -> filter solid l = l.
Proof.
  induction 1 as [|x l Hx Hl IH]; [reflexivity|].
  cbn [filter]. rewrite Hx. now rewrite IH.
Qed.

Lemma chained_weaken lo lo' ks : lo' <= lo -> chained lo ks -> chained lo' ks.
Proof. destruct ks; simpl; [tauto|]. intros H [H1 H2]. split; [lia|assumption]. Qed.

(** The loop of [tokenize] on a tiled text: [indexOf] finds every token
    where the scanner matched it. *)
Lemma tokenize_loop_spec body toks :
  Tiling body toks ->
  forall pre raws n,
    List.map raw_text raws = toks ->
    let t := pre ++ body in
    let ks := tokenize_loop t raws n (Z.of_nat (List.length pre)) in
    List.map tok_text ks = toks
    /\ chained (Z.of_nat (List.length pre)) ks
    /\ List.concat (List.map (span_of t) ks) = filter solid body
    /\ Forall (fun k => span_of t k = tok_text k
                        /\ endChar k <= Z.of_nat (List.length t)) ks
    /\ List.map index ks = seq n (List.length toks).
Proof.
  induction 1 as [g Hg|g c tok rest toks Hg Hs Hr IH]; intros pre raws n Hraw.
  - destruct raws; [|discriminate]. cbn.
    rewrite (filter_solid_gap g Hg). repeat split; constructor.
  - destruct raws as [|r raws]; [discriminate|].
    cbn [List.map] in Hraw. injection Hraw as Hr1 Hr2.
    cbn zeta. cbn [tokenize_loop]. rewrite Hr1.
    assert (Hc : solid c = true) by now inversion Hs.
    rewrite (indexOf_gap pre g c tok rest Hg Hc).
    set (s := (List.length pre + List.length g)%nat).
    set (pre' := pre ++ g ++ c :: tok).
    assert (Ht : pre ++ g ++ (c :: tok) ++ rest = pre' ++ rest).
    { unfold pre'. now rewrite <- !app_assoc. }
    assert (Hlen : Z.of_nat s + Z.of_nat (List.length (c :: tok))
                   = Z.of_nat (List.length pre')).
    { unfold pre', s. rewrite !length_app. lia. }
    rewrite Hlen.
    specialize (IH pre' raws (S n) Hr2). cbn zeta in IH.
    rewrite <- Ht in IH. destruct IH as (IH1 & IH2 & IH3 & IH4 & IH5).
    assert (Hspan : span_of (pre ++ g ++ (c :: tok) ++ rest)
                      (analyzeToken (c :: tok) n (Z.of_nat s)
                         (Z.of_nat (List.length pre'))) = c :: tok).
    { unfold span_of. rewrite analyzeToken_start, analyzeToken_end, !Nat2Z.id.
      replace (List.length pre') with (s + List.length (c :: tok))%nat
        by (unfold pre', s; rewrite !length_app; lia).
      unfold s. rewrite <- length_app, app_assoc.
      apply substring_middle. }
    split; [|split; [|split; [|split]]].
    + cbn [List.map]. rewrite analyzeToken_text. now f_equal.
    + cbn [chained]. rewrite analyzeToken_start, analyzeToken_end.
      split; [unfold s; lia|]. split; [|assumption].
      rewrite <- Hlen. cbn [List.length]. lia.
    + cbn [List.map List.concat]. rewrite Hspan, IH3.
      rewrite !filter_app, (filter_solid_gap g Hg), (filter_solid_all _ Hs).
      reflexivity.
    + constructor; [|assumption].
      rewrite Hspan, analyzeToken_text, analyzeToken_end. split; [reflexivity|].
      rewrite Ht, length_app. lia.
    + cbn [List.map List.length seq]. rewrite analyzeToken_index. now f_equal.
Qed.

Lemma tokenize_uncached_spec (t : text) :
  let ks := tokenize_uncached t in
  chained 0 ks
  /\ List.concat (List.map (span_of t) ks) = filter solid t
  /\ Forall (fun k => span_of t k = tok_text k
                      /\ endChar k <= Z.of_nat (List.length t)) ks
  /\ List.map index ks = seq 0 (List.length ks).
Proof.
  pose proof (tokenize_loop_spec t _ (splitIntoRawTokens_tiling t) []
                (splitIntoRawTokens t) 0%nat eq_refl) as H.
  cbn zeta in H. cbn [app List.length] in H.
  change (Z.of_nat 0) with 0 in H.
  destruct H as (H1 & H2 & H3 & H4 & H5).
  repeat split; try assumption.
  unfold tokenize_uncached. rewrite H5.
  rewrite <- H1, !length_map. reflexivity.
Qed.

End TokenizerFacts.

(** ** Sentiment analyzer *)

Module SentimentFacts.
Import Props JSFacts SentimentAnalyzer.
Local Open Scope Q_scope.

Lemma Math_max_l a b : a <= Math_max a b.
Proof.
  unfold Math_max. destruct (Qle_bool a b) eqn:E.
  - now apply Qle_bool_iff. - apply Qle_refl.
Qed.

Lemma Math_max_r a b : b <= Math_max a b.
Proof.
  unfold Math_max. destruct (Qle_bool a b) eqn:E.
  - apply Qle_refl.
  - apply Qlt_le_weak, Qnot_le_lt. intros H. apply Qle_bool_iff in H. congruence.
Qed.

Lemma Math_max_lub a b c : a <= c -> b <= c -> Math_max a b <= c.
Proof. unfold Math_max. now destruct (Qle_bool a b). Qed.

Lemma Math_min_l a b : Math_min a b <= a.
Proof.
  unfold Math_min. destruct (Qle_bool a b) eqn:E.
  - apply Qle_refl.
  - apply Qlt_le_weak, Qnot_le_lt. intros H. apply Qle_bool_iff in H. congruence.
Qed.

Lemma Math_min_r a b : Math_min a b <= b.
Proof.
  unfold Math_min. destruct (Qle_bool a b) eqn:E.
  - now apply Qle_bool_iff. - apply Qle_refl.
Qed.

Lemma Math_min_glb a b c : c <= a -> c <= b -> c <= Math_min a b.
Proof. unfold Math_min. now destruct (Qle_bool a b). Qed.

Lemma num_nonneg n : 0 <= num n.
Proof. unfold num, Qle; simpl. lia. Qed.

Lemma num_pos n : (1 <= n)%nat -> 0 < num n.
Proof. intros H. unfold num, Qlt; simpl. lia. Qed.

Lemma div_nonneg a b : 0 <= a -> 0 < b -> 0 <= a / b.
Proof.
  intros Ha Hb. apply Qle_shift_div_l; [assumption|]. now rewrite Qmult_0_l.
Qed.

(** *** Ranges of the result *)

Lemma positive_num_spec x : positive_num x = true -> 0 <= x.
Proof.
  unfold positive_num. intros H. apply negb_true_iff in H.
  apply Qlt_le_weak, Qnot_le_lt. intros H'. apply Qle_bool_iff in H'. congruence.
Qed.

Lemma score_token_sums s token : sums_nonneg s -> sums_nonneg (score_token s token).
Proof.
  intros [Hp Hn]. unfold score_token.
  destruct (Record_get SENTIMENT_LEXICON (toLowerCase (lemma token))) as [entry|].
  - set (sc := word_score s entry).
    assert (H1 : sums_nonneg
                   {| totalScore := totalScore s + sc;
                      positiveScore := if positive_num sc then positiveScore s + sc
                                       else positiveScore s;
                      negativeScore := if positive_num sc then negativeScore s
                                       else negativeScore s + Math_abs sc;
                      wordCount := wordCount s;
                      sentimentWordCount := S (sentimentWordCount s);
                      currentIntensifier := 1;
                      negationActive := negationActive s;
                      negationScope := negationScope s |}).
    { split; cbn [positiveScore negativeScore];
        destruct (positive_num sc) eqn:E; try assumption.
      - apply positive_num_spec in E.
        rewrite <- (Qplus_0_l 0). now apply Qplus_le_compat.
      - rewrite <- (Qplus_0_l 0). apply Qplus_le_compat; [assumption|].
        apply Qabs_nonneg. }
    destruct H1 as [H1 H2].
    destruct (isAlpha token && negb (isStopWord token));
      cbn [negationActive isAlpha]; destruct (negationActive s && isAlpha token);
      split; assumption.
  - destruct (isAlpha token && negb (isStopWord token));
      cbn [negationActive]; destruct (negationActive s && isAlpha token);
      split; assumption.
Qed.

Lemma step_sums s token : sums_nonneg s -> sums_nonneg (step s token).
Proof.
  intros H. unfold step.
  destruct (is_negation token); [exact H|].
  destruct (nonzero _); [exact H|].
  destruct (nonzero _); [exact H|].
  now apply score_token_sums.
Qed.

Lemma fold_step_sums tokens s :
  sums_nonneg s -> sums_nonneg (fold_left step tokens s).
Proof.
  revert s; induction tokens as [|k ks IH]; intros s H; simpl; [assumption|].
  apply IH, step_sums, H.
Qed.

Lemma normalize_in_ranges s : sums_nonneg s -> in_ranges (normalize s).
Proof.
  intros [Hp Hn]. unfold normalize, in_ranges.
  cbn [overall positive negative neutral confidence].
  assert (Hd : 0 < num (Nat.max (sentimentWordCount s) 1) * 5).
  { rewrite <- (Qmult_0_l 5). apply Qmult_lt_compat_r; [reflexivity|].
    apply num_pos. lia. }
  repeat split.
  - apply Math_max_l.
  - apply Math_max_lub; [discriminate | apply Math_min_l].
  - apply Math_min_glb; [discriminate | now apply div_nonneg].
  - apply Math_min_l.
  - apply Math_min_glb; [discriminate | now apply div_nonneg].
  - apply Math_min_l.
  - apply Math_min_glb; [discriminate | apply Math_max_l].
  - apply Math_min_l.
  - apply Math_min_glb; [|discriminate].
    apply div_nonneg; [apply num_nonneg | apply num_pos; lia].
  - apply Math_min_r.
Qed.

Lemma analyzeTokens_in_ranges tokens : in_ranges (analyzeTokens tokens).
Proof.
  apply normalize_in_ranges, fold_step_sums. split; apply Qle_refl.
Qed.


(** *** Tokens that reach the lexicon *)

Lemma step_unscored s token :
  unscored token = true ->
  totalScore (step s token) = totalScore s
  /\ positiveScore (step s token) = positiveScore s
  /\ negativeScore (step s token) = negativeScore s
  /\ sentimentWordCount (step s token) = sentimentWordCount s.
Proof.
  unfold unscored, scored_entry, step.
  destruct (is_negation token); [now cbn|].
  destruct (nonzero (Record_get INTENSIFIERS _)); [now cbn|].
  destruct (nonzero (Record_get DIMINISHERS _)); [now cbn|].
  unfold score_token.
  destruct (Record_get SENTIMENT_LEXICON _); [discriminate|]. intros _.
  destruct (isAlpha token && negb (isStopWord token));
    cbn [negationActive]; destruct (negationActive s && isAlpha token);
    now cbn.
Qed.

Lemma fold_unscored tokens s :
  sentiment_words tokens = [] ->
  totalScore (fold_left step tokens s) = totalScore s
  /\ positiveScore (fold_left step tokens s) = positiveScore s
  /\ negativeScore (fold_left step tokens s) = negativeScore s
  /\ sentimentWordCount (fold_left step tokens s) = sentimentWordCount s.
Proof.
  revert s; induction tokens as [|k ks IH]; intros s H; [now cbn|].
  unfold sentiment_words in H. cbn [filter] in H.
  destruct (unscored k) eqn:E; [|discriminate]. cbn [negb] in H.
  cbn [fold_left]. destruct (step_unscored s k E) as (H1 & H2 & H3 & H4).
  destruct (IH (step s k) H) as (I1 & I2 & I3 & I4).
  repeat split; congruence.
Qed.

(** Without a scored token every score is zero, [neutral] is one and the
    confidence is zero. *)
Lemma analyzeTokens_neutral tokens :
  sentiment_words tokens = [] ->
  let r := analyzeTokens tokens in
  overall r == 0 /\ positive r == 0 /\ negative r == 0 /\ neutral r == 1
  /\ confidence r == 0.
Proof.
  intros H. destruct (fold_unscored tokens scan_init H) as (H1 & H2 & H3 & H4).
  cbn zeta. unfold analyzeTokens, normalize.
  cbn [overall positive negative neutral confidence].
  rewrite H1, H2, H3, H4. cbn [scan_init totalScore positiveScore
                                 negativeScore sentimentWordCount].
  repeat split; reflexivity.
Qed.

(** *** The negation window *)






End SentimentFacts.

(** ** Emotions *)

Module EmotionFacts.
Import Props JSFacts SentimentAnalyzer.

Lemma Record_get_In {V} (r : Record V) (k : text) (v : V) :
  Record_get r k = Some v -> In (k, v) r.
Proof.
  induction r as [|[k' v'] r IH]; simpl; [discriminate|].
  destruct (Record_get r k) as [v0|].
  - intros H; injection H as ->. right; now apply IH.
  - destruct (text_eqb k' k) eqn:E; [|discriminate].
    intros H; injection H as ->. apply text_eqb_eq in E; subst. now left.
Qed.

(** Every entry of the lexicon carries at least one emotion, and every
    emotion it carries is one of the sixteen categories. *)
Lemma lexicon_emotions (k : text) (entry : LexiconEntry) :
  In (k, entry) SENTIMENT_LEXICON ->
  emotions entry <> []
  /\ Forall (fun e => In e EmotionCategory) (emotions entry).
Proof.
  assert (H : forallb
                (fun p : text * LexiconEntry =>
                   match emotions (snd p) with [] => false | _ => true end
                   && forallb (fun e => mem e EmotionCategory) (emotions (snd p)))
                SENTIMENT_LEXICON = true) by (vm_compute; reflexivity).
  intros Hin. rewrite forallb_forall in H. specialize (H _ Hin).
  apply andb_true_iff in H as [H1 H2]. cbn [snd] in *. split.
  - destruct (emotions entry); [discriminate | congruence].
  - apply Forall_forall. intros e He. rewrite forallb_forall in H2.
    apply mem_In, H2, He.
Qed.

Lemma category_truthy (e : text) : In e EmotionCategory -> truthy e = true.
Proof.
  intros H. apply mem_In in H. destruct e; [|reflexivity].
  vm_compute in H. discriminate.
Qed.

Lemma Map_set_nonempty {V} (m : Map V) k v : Map_set m k v <> [].
Proof. destruct m as [|[k' v'] m]; simpl; [|destruct (text_eqb k' k)]; discriminate. Qed.

Lemma tally_emotion_keys entry t e :
  In e EmotionCategory -> keys_in_category t ->
  keys_in_category (tally_emotion entry t e).
Proof.
  intros He Ht. unfold keys_in_category, tally_emotion. cbn [emotionCounts].
  apply Forall_forall. intros kv Hkv. apply Map_set_incl in Hkv.
  destruct Hkv as [<-|Hkv]; [exact He|].
  unfold keys_in_category in Ht. rewrite Forall_forall in Ht. now apply Ht.
Qed.

Lemma tally_emotions_keys entry es :
  forall t, Forall (fun e => In e EmotionCategory) es -> keys_in_category t ->
            keys_in_category (fold_left (tally_emotion entry) es t).
Proof.
  induction es as [|e es IH]; intros t Hes Ht; [exact Ht|].
  inversion Hes; subst. cbn [fold_left]. apply IH; [assumption|].
  now apply tally_emotion_keys.
Qed.

Lemma tally_emotions_nonempty entry es :
  forall t, (es <> [] \/ emotionCounts t <> []) ->
            emotionCounts (fold_left (tally_emotion entry) es t) <> [].
Proof.
  induction es as [|e es IH]; intros t H.
  - destruct H; [congruence | assumption].
  - cbn [fold_left]. apply IH. right. unfold tally_emotion. cbn [emotionCounts].
    apply Map_set_nonempty.
Qed.

Lemma tally_token_keys t token :
  keys_in_category t -> keys_in_category (tally_token t token).
Proof.
  intros Ht. unfold tally_token.
  destruct (Record_get SENTIMENT_LEXICON _) as [entry|] eqn:E; [|exact Ht].
  apply Record_get_In, lexicon_emotions in E as [_ E].
  now apply tally_emotions_keys.
Qed.

Lemma tally_token_counts t token :
  (emotionCounts (tally_token t token) = [] <->
   emotionCounts t = [] /\ emotion_bearing token = false).
Proof.
  unfold tally_token, emotion_bearing.
  destruct (Record_get SENTIMENT_LEXICON _) as [entry|] eqn:E.
  - apply Record_get_In, lexicon_emotions in E as [E _]. split.
    + intros H. exfalso. revert H. apply tally_emotions_nonempty. now left.
    + intros [_ H]; discriminate.
  - tauto.
Qed.

Lemma tally_fold tokens :
  forall t,
    keys_in_category t ->
    keys_in_category (fold_left tally_token tokens t)
    /\ (emotionCounts (fold_left tally_token tokens t) = [] <->
        emotionCounts t = [] /\ existsb emotion_bearing tokens = false).
Proof.
  induction tokens as [|k ks IH]; intros t Ht; cbn [fold_left existsb].
  - tauto.
  - destruct (IH (tally_token t k) (tally_token_keys t k Ht)) as [H1 H2].
    split; [assumption|]. rewrite H2, tally_token_counts, orb_false_iff. tauto.
Qed.

(** [primary] is a category as soon as a token bears an emotion, and the
    string [neutral] otherwise. *)
Lemma analyzeEmotionsTokens_primary tokens :
  if existsb emotion_bearing tokens
  then In (primary (analyzeEmotionsTokens tokens)) EmotionCategory
  else primary (analyzeEmotionsTokens tokens) = str "neutral".
Proof.
  unfold analyzeEmotionsTokens. cbn [primary].
  set (t0 := {| emotionCounts := []; emotionIntensities := [];
                totalIntensity := 0 |}).
  destruct (tally_fold tokens t0 (Forall_nil _)) as [Hk He].
  set (t := fold_left tally_token tokens t0) in *.
  set (sorted := sort (fun a b => (snd b <=? snd a)%nat) (emotionCounts t)).
  assert (Hs : forall x, In x sorted -> In (fst x) EmotionCategory).
  { intros x Hx. apply sort_In in Hx. unfold keys_in_category in Hk.
    rewrite Forall_forall in Hk. now apply Hk. }
  destruct (existsb emotion_bearing tokens).
  - destruct sorted as [|[e n] rest] eqn:Es.
    + exfalso. assert (Hc : emotionCounts t = []).
      { apply Permutation_nil. rewrite <- Es. apply sort_perm. }
      apply He in Hc as [_ Hc]. discriminate.
    + specialize (Hs (e, n) (or_introl eq_refl)). cbn [fst] in Hs.
      now rewrite (category_truthy e Hs).
  - assert (Hc : emotionCounts t = []) by (apply He; now split).
    unfold sorted. rewrite Hc. reflexivity.
Qed.

End EmotionFacts.

(** ** Named entities: deduplication *)

Module NERFacts.
Import Props JSFacts TokenizerFacts NamedEntityRecognizer.

Lemma overlap_sym a b : overlap a b -> overlap b a.
Proof. intros [x [H1 H2]]. exists x; tauto. Qed.

Lemma pairs_snoc {A} (R : A -> A -> Prop) (l : list A) (x : A) :
  ForallOrdPairs R l -> Forall (fun y => R y x) l ->
  ForallOrdPairs R (l ++ [x]).
Proof.
  induction 1 as [|a l Ha Hl IH]; intros Hx; cbn [app].
  - constructor; constructor.
  - inversion Hx; subst. constructor; [|now apply IH].
    apply Forall_app; split; [assumption | now constructor].
Qed.

Lemma pairs_no_overlap (l : list NamedEntity) :
  ForallOrdPairs apart l -> no_overlap l.
Proof.
  induction 1 as [|a l Ha Hl IH]; intros i j x y Hij Hi Hj.
  - destruct i; discriminate.
  - rewrite Forall_forall in Ha.
    destruct i as [|i], j as [|j]; cbn [nth_error] in *.
    + congruence.
    + injection Hi as <-. apply Ha. eapply nth_error_In; eassumption.
    + injection Hj as <-. intros H. apply overlap_sym in H. revert H.
      apply Ha. eapply nth_error_In; eassumption.
    + apply (IH i j); auto.
Qed.

(** The greedy loop: every kept entity ends at or before [lastEnd], and a
    candidate is kept only from [lastEnd] on. *)
Lemma dedup_loop_pairs sorted :
  forall result lastEnd,
    Forall well_formed sorted ->
    ForallOrdPairs apart result ->
    Forall (fun e => ent_endChar e <= lastEnd) result ->
    ForallOrdPairs apart (dedup_loop sorted result lastEnd).
Proof.
  induction sorted as [|e rest IH]; intros result lastEnd Hwf Hres Hend;
    cbn [dedup_loop]; [assumption|].
  inversion Hwf as [|? ? He Hrest]; subst.
  destruct (Z.ltb_spec (ent_startChar e) lastEnd) as [Hlt|Hge]; [now apply IH|].
  destruct (existsb (is_duplicate e) result); [now apply IH|].
  unfold well_formed in He. apply IH; [assumption| |].
  - apply pairs_snoc; [assumption|].
    eapply Forall_impl; [|exact Hend]. intros y Hy [x [H1 H2]].
    cbv beta in Hy. lia.
  - apply Forall_app; split.
    + eapply Forall_impl; [|exact Hend]. intros y Hy. cbv beta in Hy. lia.
    + constructor; [lia | constructor].
Qed.

Lemma deduplicateEntities_no_overlap (entities : list NamedEntity) :
  Forall well_formed entities -> no_overlap (deduplicateEntities entities).
Proof.
  intros H. apply pairs_no_overlap, dedup_loop_pairs.
  - eapply Permutation_Forall; [|exact H]. symmetry. apply sort_perm.
  - constructor.
  - constructor.
Qed.

(** *** The candidates are well formed *)

Lemma chained_In lo ks x :
  chained lo ks -> In x ks -> lo <= startChar x /\ startChar x < endChar x.
Proof.
  revert lo; induction ks as [|k ks IH]; intros lo Hc Hx; [destruct Hx|].
  destruct Hc as (H1 & H2 & H3). destruct Hx as [<-|Hx]; [lia|].
  destruct (IH _ H3 Hx). lia.
Qed.

Lemma spaced_tail k ks : spaced (k :: ks) -> spaced ks.
Proof. intros [lo (_ & _ & H)]. now exists (endChar k). Qed.

Lemma spaced_skipn n : forall ks, spaced ks -> spaced (skipn n ks).
Proof.
  induction n as [|n IH]; intros ks H; [exact H|].
  destruct ks as [|k ks]; [exact H|]. cbn [skipn]. apply IH.
  now apply spaced_tail with k.
Qed.

Lemma capitalized_run_prefix l :
  forall started, exists r, l = capitalized_run l started ++ r.
Proof.
  induction l as [|k l IH]; intros b; cbn [capitalized_run].
  - now exists [].
  - destruct (isCapitalized (tok_text k) || b && isEntityConnector (tok_text k)).
    + destruct (IH true) as [r Hr]. exists r. cbn [app]. now f_equal.
    + now exists (k :: l).
Qed.

Lemma pop_connectors_suffix x : exists p, x = p ++ pop_connectors x.
Proof.
  induction x as [|k x [p IH]]; cbn [pop_connectors]; [now exists []|].
  destruct (isEntityConnector (tok_text k)).
  - exists (k :: p). cbn [app]. now f_equal.
  - now exists [].
Qed.

Lemma sequence_prefix l : exists r, l = extractCapitalizedSequence l ++ r.
Proof.
  unfold extractCapitalizedSequence.
  destruct (capitalized_run_prefix l false) as [r Hr].
  destruct (pop_connectors_suffix (rev (capitalized_run l false))) as [p Hp].
  exists (rev p ++ r). rewrite app_assoc, <- rev_app_distr, <- Hp, rev_involutive.
  exact Hr.
Qed.

Lemma prefix_span lo l first seq r last :
  chained lo l -> l = (first :: seq) ++ r -> In last (first :: seq) ->
  startChar first <= endChar last.
Proof.
  intros Hc -> Hin. cbn [app chained] in Hc. destruct Hc as (_ & H1 & H2).
  destruct Hin as [<-|Hin]; [lia|].
  assert (Hl : In last (seq ++ r)) by (apply in_or_app; now left).
  destruct (chained_In _ _ _ H2 Hl). lia.
Qed.

Lemma sequence_entity_wf l :
  spaced l -> Forall well_formed (sequence_entity (extractCapitalizedSequence l)).
Proof.
  intros [lo Hc]. destruct (sequence_prefix l) as [r Hr].
  unfold sequence_entity.
  destruct (classifyEntity _); [|constructor].
  constructor; [|constructor]. unfold well_formed, createEntity.
  cbn [ent_startChar ent_endChar].
  destruct (extractCapitalizedSequence l) as [|first seq] eqn:E; [cbn; lia|].
  destruct (rev (first :: seq)) as [|last rest] eqn:Er.
  - apply (f_equal (@List.length _)) in Er. rewrite length_rev in Er.
    discriminate.
  - apply (prefix_span lo l first seq r last Hc Hr).
    apply in_rev. rewrite Er. now left.
Qed.

Lemma token_entities_wf fuel :
  forall l, spaced l -> Forall well_formed (token_entities fuel l).
Proof.
  induction fuel as [|f IH]; intros l Hl; cbn [token_entities]; [constructor|].
  destruct l as [|token rest]; [constructor|].
  pose proof (spaced_tail _ _ Hl) as Hrest.
  destruct (negb (isAlpha token)); [now apply IH|].
  set (entityTokens := if isCapitalized (tok_text token)
                       then extractCapitalizedSequence (token :: rest) else []).
  assert (Hseq : Forall well_formed (sequence_entity entityTokens)
                 \/ entityTokens = []).
  { unfold entityTokens. destruct (isCapitalized (tok_text token)).
    - left. now apply sequence_entity_wf.
    - now right. }
  destruct entityTokens as [|e es] eqn:E.
  - destruct (checkKnownEntity _); [|now apply IH].
    constructor; [|now apply IH].
    unfold well_formed, createEntity. cbn [ent_startChar ent_endChar].
    destruct Hl as [lo (_ & H & _)]. lia.
  - destruct Hseq as [Hseq|]; [|discriminate].
    apply Forall_app; split; [assumption|].
    apply IH. now apply spaced_skipn.
Qed.

Lemma extractTokenEntities_wf tokens :
  spaced tokens -> Forall well_formed (extractTokenEntities tokens).
Proof. apply token_entities_wf. Qed.

Section Patterns.
Variable regex_matches : Pattern -> text -> list (nat * text).

Lemma match_entities_wf p ty t :
  Forall well_formed (match_entities regex_matches p ty t).
Proof.
  unfold match_entities. apply Forall_forall. intros e He.
  apply in_map_iff in He as [m [<- _]].
  unfold well_formed, createEntity. cbn [ent_startChar ent_endChar]. lia.
Qed.

Lemma exec_entities_wf ps ty c t :
  Forall well_formed (exec_entities regex_matches ps ty c t).
Proof.
  unfold exec_entities. apply Forall_forall. intros e He.
  apply in_flat_map in He as [p [_ He]].
  apply in_map_iff in He as [m [<- _]].
  unfold well_formed, createEntity. cbn [ent_startChar ent_endChar]. lia.
Qed.

Lemma extractPatternEntities_wf t :
  Forall well_formed (extractPatternEntities regex_matches t).
Proof.
  unfold extractPatternEntities.
  do 4 (apply Forall_app; split; [apply match_entities_wf|]).
  do 4 (apply Forall_app; split; [apply exec_entities_wf|]).
  apply exec_entities_wf.
Qed.
End Patterns.

End NERFacts.

(** ** What the caches hold *)

Module WorldFacts.
Import Props JSFacts CacheFacts TokenizerFacts SentimentFacts NERFacts.

Lemma fresh_ok : World_ok fresh.
Proof. repeat split; constructor. Qed.

Lemma keeps_ret {A} (a : A) : keeps (ret a).
Proof. intros w H. exact H. Qed.

Lemma keeps_bind {A B} (m : M A) (k : A -> M B) :
  keeps m -> (forall a, keeps (k a)) -> keeps (bind m k).
Proof.
  intros Hm Hk w H. unfold bind. specialize (Hm w H).
  destruct (m w) as [a w']. now apply Hk.
Qed.

Lemma keeps_mapM {A B} (f : A -> M B) (l : list A) :
  (forall a, keeps (f a)) -> keeps (mapM f l).
Proof.
  intros Hf. induction l as [|a l IH]; cbn [mapM]; [apply keeps_ret|].
  apply keeps_bind; [apply Hf|]. intros b.
  apply keeps_bind; [apply IH|]. intros bs. apply keeps_ret.
Qed.

Lemma tokenize_uncached_spaced t : spaced (Tokenizer.tokenize_uncached t).
Proof. exists 0. apply tokenize_uncached_spec. Qed.

Lemma tokenize_ok t w :
  World_ok w ->
  spaced (fst (Tokenizer.tokenize t w)) /\ World_ok (snd (Tokenizer.tokenize t w)).
Proof.
  apply (call_preserves Tokenizer.engine spaced World_ok).
  - apply Tokenizer_lawful.
  - intros w0 H; apply H.
  - intros i w0 H. split; [apply tokenize_uncached_spaced | exact H].
  - intros c w0 (H1 & H2 & H3 & H4) Hc. repeat split; assumption.
Qed.

Lemma keeps_tokenize t : keeps (Tokenizer.tokenize t).
Proof. intros w H. now apply tokenize_ok. Qed.

(** *** Sentence splitter *)

Lemma keeps_make_sentence s a b : keeps (SentenceSplitter.make_sentence s a b).
Proof.
  unfold SentenceSplitter.make_sentence.
  destruct (0 <? List.length s)%nat; [|apply keeps_ret].
  apply keeps_bind; [apply keeps_tokenize|]. intros; apply keeps_ret.
Qed.

Lemma keeps_split_loop t bs :
  forall lastEnd, keeps (SentenceSplitter.split_loop t bs lastEnd).
Proof.
  induction bs as [|b bs IH]; intros lastEnd; cbn [SentenceSplitter.split_loop].
  - destruct (lastEnd <? List.length t)%nat;
      [apply keeps_make_sentence | apply keeps_ret].
  - apply keeps_bind; [apply keeps_make_sentence|]. intros s.
    apply keeps_bind; [apply IH|]. intros; apply keeps_ret.
Qed.

Lemma keeps_split t : keeps (SentenceSplitter.split t).
Proof.
  intros w H.
  apply (call_preserves SentenceSplitter.engine (fun _ => True) World_ok);
    try assumption.
  - apply SentenceSplitter_lawful.
  - intros w0 _. apply Forall_forall. intros; exact I.
  - intros i w0 H0. split; [exact I|]. now apply keeps_split_loop.
  - intros c w0 (H1 & H2 & H3 & H4) _. repeat split; assumption.
Qed.

(** *** Sentiment analyzer *)

Lemma analyze_ok t w :
  World_ok w ->
  in_ranges (fst (SentimentAnalyzer.analyze t w))
  /\ World_ok (snd (SentimentAnalyzer.analyze t w)).
Proof.
  apply (call_preserves SentimentAnalyzer.engine in_ranges World_ok).
  - apply SentimentAnalyzer_lawful.
  - intros w0 H; apply H.
  - intros i w0 H. cbn [compute SentimentAnalyzer.engine]. unfold bind.
    pose proof (keeps_tokenize i w0 H) as Hk.
    destruct (Tokenizer.tokenize i w0) as [tokens w1]. cbn [fst snd ret] in *.
    split; [apply analyzeTokens_in_ranges | exact Hk].
  - intros c w0 (H1 & H2 & H3 & H4) Hc. repeat split; assumption.
Qed.

Lemma keeps_analyzeEmotions t : keeps (SentimentAnalyzer.analyzeEmotions t).
Proof.
  apply keeps_bind; [apply keeps_tokenize|]. intros; apply keeps_ret.
Qed.

(** *** Named-entity recognizer *)

Lemma recognize_ok rx t w :
  World_ok w ->
  no_overlap (fst (NamedEntityRecognizer.recognize rx t w))
  /\ World_ok (snd (NamedEntityRecognizer.recognize rx t w)).
Proof.
  apply (call_preserves (NamedEntityRecognizer.engine rx) no_overlap World_ok).
  - apply NamedEntityRecognizer_lawful.
  - intros w0 H; apply H.
  - intros i w0 H. cbn [compute NamedEntityRecognizer.engine].
    unfold NamedEntityRecognizer.recognize_uncached, bind.
    destruct (tokenize_ok i w0 H) as [Hs Hk].
    destruct (Tokenizer.tokenize i w0) as [tokens w1]. cbn [fst snd ret] in *.
    split; [|exact Hk].
    apply deduplicateEntities_no_overlap, Forall_app. split.
    + apply extractPatternEntities_wf.
    + now apply extractTokenEntities_wf.
  - intros c w0 (H1 & H2 & H3 & H4) Hc. repeat split; assumption.
Qed.


(** *** Keyword extractor *)

Lemma by_score_total a b :
  KeywordExtractor.by_score a b = true \/ KeywordExtractor.by_score b a = true.
Proof.
  unfold KeywordExtractor.by_score.
  destruct (Qlt_le_dec (kw_score a) (kw_score b)) as [H|H].
  - right. apply Qle_bool_iff. now apply Qlt_le_weak.
  - left. now apply Qle_bool_iff.
Qed.

Lemma by_score_trans a b c :
  KeywordExtractor.by_score a b = true -> KeywordExtractor.by_score b c = true ->
  KeywordExtractor.by_score a c = true.
Proof.
  unfold KeywordExtractor.by_score. rewrite !Qle_bool_iff.
  intros H1 H2. eapply Qle_trans; eassumption.
Qed.

Lemma sort_by_score_desc l : sorted_desc (sort KeywordExtractor.by_score l).
Proof.
  pose proof (sort_sorted _ _ by_score_total by_score_trans l) as H.
  unfold sorted_desc. induction H as [|a l' Hs IH Ha]; constructor.
  - exact IH.
  - eapply Forall_impl; [|exact Ha]. intros b Hb. now apply Qle_bool_iff.
Qed.

Lemma sorted_desc_firstn n : forall l, sorted_desc l -> sorted_desc (firstn n l).
Proof.
  induction n as [|n IH]; intros l H; [constructor|].
  destruct H as [|a l Hs Ha]; [constructor|]. cbn [firstn]. constructor.
  - now apply IH.
  - apply Forall_forall. intros b Hb. rewrite Forall_forall in Ha.
    apply Ha. rewrite <- (firstn_skipn n l). apply in_or_app. now left.
Qed.

Lemma combineKeywords_sorted sets :
  sorted_desc (KeywordExtractor.combineKeywords sets).
Proof. apply sort_by_score_desc. Qed.

Lemma keeps_calculateForDocument log t corpus :
  keeps (KeywordExtractor.calculateForDocument log t corpus).
Proof.
  unfold KeywordExtractor.calculateForDocument.
  apply keeps_bind; [apply keeps_tokenize|]. intros tokens.
  apply keeps_bind; [|intros; apply keeps_ret].
  destruct corpus as [[|d ds]|]; try apply keeps_ret.
  unfold KeywordExtractor.calculateIDFFromCorpus.
  apply keeps_bind; [|intros; apply keeps_ret].
  apply keeps_mapM. intros doc.
  apply keeps_bind; [apply keeps_tokenize | intros; apply keeps_ret].
Qed.

Lemma keeps_extractTFIDF log t corpus :
  keeps (KeywordExtractor.extractTFIDF log t corpus).
Proof.
  apply keeps_bind; [apply keeps_calculateForDocument | intros; apply keeps_ret].
Qed.

Lemma bind_run {A B} (m : M A) (k : A -> M B) (w : World) :
  bind m k w = k (fst (m w)) (snd (m w)).
Proof. unfold bind. now destruct (m w). Qed.

Lemma extract_uncached_ok log cfg i w :
  World_ok w ->
  sorted_desc (keywords (fst (KeywordExtractor.extract_uncached log cfg i w)))
  /\ World_ok (snd (KeywordExtractor.extract_uncached log cfg i w)).
Proof.
  intros H. destruct i as [t corpus]. unfold KeywordExtractor.extract_uncached.
  rewrite !bind_run. cbn [ret fst snd keywords]. split.
  - apply sorted_desc_firstn, combineKeywords_sorted.
  - assert (H3 : keeps (if KeywordExtractor.useTFIDF cfg
                        then KeywordExtractor.extractTFIDF log t corpus
                        else ret [])).
    { destruct (KeywordExtractor.useTFIDF cfg);
        [apply keeps_extractTFIDF | apply keeps_ret]. }
    apply H3, keeps_split, keeps_tokenize, H.
Qed.

Lemma extract_ok log cfg t corpus w :
  World_ok w ->
  sorted_desc (keywords (fst (KeywordExtractor.extract log cfg t corpus w)))
  /\ World_ok (snd (KeywordExtractor.extract log cfg t corpus w)).
Proof.
  apply (call_preserves (KeywordExtractor.engine log cfg)
           (fun r => sorted_desc (keywords r)) World_ok).
  - apply KeywordExtractor_lawful.
  - intros w0 H; apply H.
  - intros i w0 H. now apply extract_uncached_ok.
  - intros c w0 (H1 & H2 & H3 & H4) Hc. repeat split; assumption.
Qed.

(** *** Every reachable state keeps the caches in order *)

Lemma reachable_ok w : reachable w -> World_ok w.
Proof.
  induction 1 as [|w t _ IH|w t _ IH|w t _ IH|w t _ IH|w log cfg t corpus _ IH
                 |w rx t _ IH|w _ IH|w _ IH|w _ IH|w log cfg _ IH|w rx _ IH].
  - apply fresh_ok.
  - now apply tokenize_ok.
  - now apply keeps_split.
  - now apply analyze_ok.
  - now apply keeps_analyzeEmotions.
  - now apply extract_ok.
  - now apply recognize_ok.
  - destruct IH as (H1 & H2 & H3 & H4). repeat split; try assumption; constructor.
  - destruct IH as (H1 & H2 & H3 & H4). repeat split; assumption.
  - destruct IH as (H1 & H2 & H3 & H4). repeat split; try assumption; constructor.
  - destruct IH as (H1 & H2 & H3 & H4). repeat split; try assumption; constructor.
  - destruct IH as (H1 & H2 & H3 & H4). repeat split; try assumption; constructor.
Qed.

End WorldFacts.

(** ** More on the tokenizer *)

Module TokenizerMore.
Import Props JSFacts Tokenizer TokenizerFacts EmotionFacts.

Lemma tokenize_uncached_texts (t : text) :
  List.map tok_text (tokenize_uncached t)
  = List.map raw_text (splitIntoRawTokens t).
Proof.
  pose proof (tokenize_loop_spec t _ (splitIntoRawTokens_tiling t) []
                (splitIntoRawTokens t) 0%nat eq_refl) as H.
  cbn zeta in H. now destruct H as (H & _).
Qed.

Lemma Tiling_no_token t toks :
  Tiling t toks -> Forall (fun c => gap c = true) t -> toks = [].
Proof.
  intros H Hg. destruct H as [g _|g c tok rest toks _ Hs _]; [reflexivity|].
  exfalso. apply Forall_app in Hg as [_ Hg]. cbn [app] in Hg.
  inversion Hg as [|? ? Hc _]; subst. inversion Hs as [|? ? Hc' _]; subst.
  unfold solid in Hc'. rewrite Hc in Hc'. discriminate.
Qed.

Lemma Tiling_solid t toks :
  Tiling t toks ->
  Forall (fun tok => tok <> [] /\ Forall (fun c => solid c = true) tok) toks.
Proof.
  induction 1 as [g Hg|g c tok rest toks Hg Hs Hr IH]; constructor.
  - split; [discriminate | exact Hs].
  - exact IH.
Qed.

Lemma chained_ordered lo ks :
  chained lo ks ->
  forall i j a b, (i < j)%nat -> nth_error ks i = Some a ->
                  nth_error ks j = Some b -> endChar a <= startChar b.
Proof.
  revert lo; induction ks as [|k ks IH]; intros lo Hc i j a b Hij Ha Hb.
  - destruct i; discriminate.
  - destruct Hc as (H1 & H2 & H3).
    destruct j as [|j]; [lia|]. cbn [nth_error] in Hb.
    destruct i as [|i]; cbn [nth_error] in Ha.
    + injection Ha as <-. apply nth_error_In in Hb.
      destruct (NERFacts.chained_In _ _ _ H3 Hb). lia.
    + apply (IH _ H3 i j); [lia | assumption | assumption].
Qed.

Lemma seq_nth_index (ks : list Token) n :
  List.map index ks = seq n (List.length ks) ->
  forall i k, nth_error ks i = Some k -> index k = (n + i)%nat.
Proof.
  revert n; induction ks as [|k0 ks IH]; intros n H i k Hk.
  - destruct i; discriminate.
  - cbn [List.map List.length seq] in H. injection H as H0 H.
    destruct i as [|i]; cbn [nth_error] in Hk.
    + injection Hk as <-. lia.
    + rewrite (IH (S n) H i k Hk). lia.
Qed.

(** *** Lemmas of tokens *)

Lemma lower_char_not_upper (c : char) : is_upper (lower_char c) = false.
Proof.
  unfold lower_char. destruct (is_upper c) eqn:E; [|exact E].
  unfold is_upper, in_range in *.
  apply andb_true_iff in E as [E1 E2].
  apply N.leb_le in E1, E2. apply andb_false_iff. right.
  apply N.leb_gt. lia.
Qed.

Lemma toLowerCase_not_upper (w : text) :
  Forall (fun c => is_upper c = false) (toLowerCase w).
Proof.
  unfold toLowerCase. apply Forall_forall. intros c Hc.
  apply in_map_iff in Hc as [c0 [<- _]]. apply lower_char_not_upper.
Qed.

Lemma in_firstn {A} (n : nat) (l : list A) (x : A) :
  In x (firstn n l) -> In x l.
Proof.
  intros H. rewrite <- (firstn_skipn n l). apply in_or_app. now left.
Qed.

Lemma plain_spec (w : text) :
  plain w = true <-> w <> [] /\ Forall (fun c => is_upper c = false) w.
Proof.
  unfold plain. rewrite andb_true_iff, forallb_forall, Forall_forall. split.
  - intros [H1 H2]. split; [destruct w; [discriminate | congruence]|].
    intros c Hc. now apply negb_true_iff, H2.
  - intros [H1 H2]. split; [destruct w; [congruence | reflexivity]|].
    intros c Hc. now apply negb_true_iff, H2.
Qed.

Lemma irregular_plain (k v : text) :
  In (k, v) IRREGULAR_VERBS \/ In (k, v) IRREGULAR_PLURALS -> plain v = true.
Proof.
  assert (H : forallb (fun p : text * text => plain (snd p))
                (IRREGULAR_VERBS ++ IRREGULAR_PLURALS) = true)
    by (vm_compute; reflexivity).
  intros Hin. rewrite forallb_forall in H.
  apply (H (k, v)), in_or_app, Hin.
Qed.

Lemma rules_plain (r : LemmaRule) :
  In r LEMMA_RULES -> Forall (fun c => is_upper c = false) (replacement r).
Proof.
  assert (H : forallb (fun r => forallb (fun c => negb (is_upper c))
                                  (replacement r)) LEMMA_RULES = true)
    by (vm_compute; reflexivity).
  intros Hin. rewrite forallb_forall in H. specialize (H r Hin).
  rewrite forallb_forall in H. apply Forall_forall. intros c Hc.
  now apply negb_true_iff, H.
Qed.

Lemma first_rule_plain (w : text) (p : PartOfSpeech) (rs : list LemmaRule)
    (stem : text) :
  Forall (fun c => is_upper c = false) w ->
  (forall r, In r rs -> In r LEMMA_RULES) ->
  first_rule w p rs = Some stem ->
  stem <> [] /\ Forall (fun c => is_upper c = false) stem.
Proof.
  intros Hw. induction rs as [|r rs IH]; intros Hrs H; [discriminate|].
  cbn [first_rule] in H. destruct (apply_rule w p r) as [s0|] eqn:E.
  - injection H as <-. unfold apply_rule in E.
    destruct (_ && _ && _); [|discriminate].
    match type of E with
    | (if ?b then _ else _) = _ => destruct b eqn:E2; [|discriminate]
    end.
    injection E as <-. apply Nat.leb_le in E2. split.
    + intros Hnil. rewrite Hnil in E2. cbn in E2. lia.
    + apply Forall_app. split.
      * apply Forall_forall. intros c Hc.
        rewrite Forall_forall in Hw. eapply Hw, in_firstn, Hc.
      * apply rules_plain, Hrs. now left.
  - apply IH; [|exact H]. intros r0 Hr0. apply Hrs. now right.
Qed.

Lemma getLemma_plain (w : text) (p : PartOfSpeech) :
  w <> [] -> Forall (fun c => is_upper c = false) w ->
  getLemma w p <> [] /\ Forall (fun c => is_upper c = false) (getLemma w p).
Proof.
  intros Hne Hw. unfold getLemma.
  destruct (Record_get IRREGULAR_VERBS w) as [l|] eqn:E1.
  { apply plain_spec, (irregular_plain w l). left.
    now apply Record_get_In. }
  destruct (Record_get IRREGULAR_PLURALS w) as [l|] eqn:E2.
  { apply plain_spec, (irregular_plain w l). right.
    now apply Record_get_In. }
  destruct (first_rule w p LEMMA_RULES) as [stem|] eqn:E3.
  - apply (first_rule_plain w p LEMMA_RULES stem Hw); [tauto | exact E3].
  - now split.
Qed.

Lemma analyzeToken_lemma (t : text) (idx : nat) (s e : Z) :
  lemma (analyzeToken t idx s e)
  = getLemma (toLowerCase t) (fst (determinePOS t (toLowerCase t))).
Proof.
  unfold analyzeToken. now destruct (determinePOS t (toLowerCase t)).
Qed.

Lemma tokenize_loop_lemmas (t : text) (raws : list RawToken) :
  forall n cur k,
    In k (tokenize_loop t raws n cur) ->
    exists raw idx s e,
      In raw raws /\ k = analyzeToken (raw_text raw) idx s e.
Proof.
  induction raws as [|raw raws IH]; intros n cur k Hk; [destruct Hk|].
  cbn [tokenize_loop] in Hk. destruct Hk as [<-|Hk].
  - eexists raw, _, _, _. split; [now left | reflexivity].
  - destruct (IH _ _ _ Hk) as (raw' & idx & s & e & Hin & ->).
    eexists raw', _, _, _. split; [now right | reflexivity].
Qed.

(** *** Frequencies *)

Lemma getWordFrequencies_fold (tokens : list Token) (l : text) :
  forall f : Map nat,
    Map_get
      (fold_left
         (fun (frequencies : Map nat) token =>
            if is_content token then
              Map_set frequencies (lemma token)
                (match Map_get frequencies (lemma token) with
                 | Some k => k
                 | None => 0
                 end + 1)%nat
            else frequencies) tokens f) l
    = counted (occurrences tokens l) (Map_get f l).
Proof.
  induction tokens as [|k tokens IH]; intros f; [reflexivity|].
  cbn [fold_left]. rewrite IH. unfold occurrences. cbn [filter].
  destruct (is_content k); cbn [andb]; [|reflexivity].
  destruct (text_eqb (lemma k) l) eqn:E.
  - apply text_eqb_eq in E. subst l. rewrite Map_get_set_same.
    cbn [List.length].
    set (n := List.length _).
    destruct (Map_get f (lemma k)) as [v|]; destruct n; cbn [counted];
      f_equal; lia.
  - apply text_eqb_neq in E. now rewrite Map_get_set_other.
Qed.


Lemma Map_get_none_keys {V} (m : Map V) (k : text) :
  Map_get m k = None -> ~ In k (Map_keys m).
Proof.
  induction m as [|[k1 v1] m IH]; intros E; [intros []|].
  cbn [Map_get] in E. destruct (text_eqb k1 k) eqn:Ek; [discriminate|].
  apply text_eqb_neq in Ek. intros [H|H]; [now apply Ek | now apply IH].
Qed.

Lemma Map_set_keys_NoDup {V} (m : Map V) (k : text) (v : V) :
  NoDup (Map_keys m) -> NoDup (Map_keys (Map_set m k v)).
Proof.
  intros H. destruct (Map_get m k) as [v0|] eqn:E.
  - rewrite Map_set_present; [exact H | congruence].
  - rewrite Map_set_new by exact E. unfold Map_keys in *.
    rewrite map_app. cbn [List.map fst].
    apply NoDup_app; [exact H | repeat constructor; intros [] |].
    intros x Hx [Hk|[]]. subst x.
    now apply (Map_get_none_keys m k E).
Qed.

Lemma getWordFrequencies_keys (tokens : list Token) :
  forall f : Map nat,
    NoDup (Map_keys f) ->
    NoDup (Map_keys
      (fold_left
         (fun (frequencies : Map nat) token =>
            if is_content token then
              Map_set frequencies (lemma token)
                (match Map_get frequencies (lemma token) with
                 | Some k => k
                 | None => 0
                 end + 1)%nat
            else frequencies) tokens f)).
Proof.
  induction tokens as [|k tokens IH]; intros f Hf; [exact Hf|].
  cbn [fold_left]. apply IH.
  destruct (is_content k); [|exact Hf].
  now apply Map_set_keys_NoDup.
Qed.

End TokenizerMore.

(** ** More on the caches *)

Module CacheMore.
Import Props JSFacts CacheFacts.

Lemma Map_get_delete_none {V} (m : Map V) k k0 :
  Map_get m k = None -> Map_get (Map_delete m k0) k = None.
Proof.
  induction m as [|[k' v'] m IH]; cbn [Map_get Map_delete]; [reflexivity|].
  destruct (text_eqb k' k) eqn:E; [discriminate|]. intros H.
  destruct (text_eqb k' k0); [assumption|].
  cbn [Map_get]. rewrite E. now apply IH.
Qed.

Lemma evict_get_none {V} cap (c : Map V) k :
  Map_get c k = None -> Map_get (evict cap c) k = None.
Proof.
  intros H. unfold evict. destruct (cap <=? Map_size c)%nat; [|exact H].
  destruct (Map_first_key c) as [k0|]; [|exact H].
  destruct (truthy k0); [now apply Map_get_delete_none | exact H].
Qed.

(** A full cache whose oldest key is not the empty string loses exactly
    its oldest entry. *)
Lemma evict_full {V} cap k v (m : Map V) :
  (cap <= S (List.length m))%nat -> k <> [] ->
  evict cap ((k, v) :: m) = m.
Proof.
  intros Hc Hk. unfold evict, Map_size. cbn [List.length Map_first_key].
  destruct (Nat.leb_spec cap (S (List.length m))); [|lia].
  destruct k as [|c k]; [congruence|]. cbn [truthy Map_delete].
  now rewrite text_eqb_refl.
Qed.

Lemma evict_not_full {V} cap (c : Map V) :
  (Map_size c < cap)%nat -> evict cap c = c.
Proof.
  intros H. unfold evict. destruct (Nat.leb_spec cap (Map_size c)); [lia|].
  reflexivity.
Qed.

(** What a call leaves in the cache of its engine. *)
Lemma call_cache {I R} (E : Engine I R) (i : I) (w : World) :
  lawful E -> untouched E ->
  cache_get E (snd (call E i w))
  = match Map_get (cache_get E w) (cacheKey E i) with
    | Some _ => cache_get E w
    | None => evict (maxCacheSize E) (cache_get E w)
                ++ [(cacheKey E i, fst (call E i w))]
    end.
Proof.
  intros HL HU. unfold call.
  destruct (Map_get (cache_get E w) (cacheKey E i)) eqn:Hg; [reflexivity|].
  pose proof (HU i w) as Hu.
  destruct (compute E i w) as [r w1]. cbn [fst snd] in *.
  rewrite HL, Hu. apply Map_set_new. now apply evict_get_none.
Qed.

Lemma call_bounded {I R} (E : Engine I R) (i : I) (w : World) :
  lawful E -> untouched E ->
  (1 <= maxCacheSize E)%nat ->
  cacheKey E i <> [] ->
  no_empty_key (cache_get E w) ->
  (Map_size (cache_get E w) <= maxCacheSize E)%nat ->
  no_empty_key (cache_get E (snd (call E i w)))
  /\ (Map_size (cache_get E (snd (call E i w))) <= maxCacheSize E)%nat.
Proof.
  intros HL HU Hcap Hkey Hne Hsize. rewrite (call_cache E i w HL HU).
  destruct (Map_get (cache_get E w) (cacheKey E i)); [now split|].
  assert (He : no_empty_key (evict (maxCacheSize E) (cache_get E w))
               /\ (S (Map_size (evict (maxCacheSize E) (cache_get E w)))
                   <= maxCacheSize E)%nat).
  { destruct (Nat.ltb_spec (Map_size (cache_get E w)) (maxCacheSize E)) as [Hlt|Hge].
    - rewrite evict_not_full by exact Hlt. split; [exact Hne | lia].
    - destruct (cache_get E w) as [|[k v] m] eqn:Ec;
        [unfold Map_size in *; cbn [List.length] in *; lia|].
      inversion Hne as [|? ? Hk Hrest]; subst. cbn [fst] in Hk.
      unfold Map_size in *. cbn [List.length] in *.
      rewrite evict_full by (lia || assumption). split; [exact Hrest | lia]. }
  destruct He as [He1 He2]. split.
  - apply Forall_app; split; [exact He1|]. constructor; [exact Hkey|constructor].
  - unfold Map_size in *. rewrite length_app. cbn [List.length]. lia.
Qed.

Lemma call_bounded_text {I R} (E : Engine I R) (i : I) (w : World) (cap : nat) :
  lawful E -> untouched E ->
  maxCacheSize E = cap -> (1 <= cap)%nat ->
  (1 <= keyLength E)%nat -> input_text E i <> [] ->
  no_empty_key (cache_get E w) ->
  (Map_size (cache_get E w) <= cap)%nat ->
  no_empty_key (cache_get E (snd (call E i w)))
  /\ (Map_size (cache_get E (snd (call E i w))) <= cap)%nat.
Proof.
  intros HL HU <- Hcap Hlen Htext Hne Hsize.
  apply call_bounded; try assumption.
  unfold cacheKey. rewrite substring_prefix.
  destruct (keyLength E); [lia|]. destruct (input_text E i); [congruence|].
  discriminate.
Qed.

(** *** The computations leave the other caches alone *)

Lemma tokenize_frame t w :
  let w' := snd (Tokenizer.tokenize t w) in
  sentenceSplitter_cache w' = sentenceSplitter_cache w
  /\ sentimentAnalyzer_cache w' = sentimentAnalyzer_cache w
  /\ keywordExtractor_cache w' = keywordExtractor_cache w
  /\ nerRecognizer_cache w' = nerRecognizer_cache w.
Proof.
  cbv zeta. unfold Tokenizer.tokenize, call.
  destruct (Map_get _ _); cbn; repeat split; reflexivity.
Qed.

Lemma tokenizer_only_ret {A} (a : A) : tokenizer_only (ret a).
Proof. intros w. repeat split. Qed.

Lemma tokenizer_only_bind {A B} (m : M A) (k : A -> M B) :
  tokenizer_only m -> (forall a, tokenizer_only (k a)) ->
  tokenizer_only (bind m k).
Proof.
  intros Hm Hk w. rewrite WorldFacts.bind_run.
  destruct (Hm w) as (H1 & H2 & H3 & H4).
  destruct (Hk (fst (m w)) (snd (m w))) as (K1 & K2 & K3 & K4).
  repeat split; congruence.
Qed.

Lemma tokenizer_only_tokenize t : tokenizer_only (Tokenizer.tokenize t).
Proof. intros w. apply tokenize_frame. Qed.

Lemma tokenizer_only_mapM {A B} (f : A -> M B) (l : list A) :
  (forall a, tokenizer_only (f a)) -> tokenizer_only (mapM f l).
Proof.
  intros Hf. induction l as [|a l IH]; cbn [mapM]; [apply tokenizer_only_ret|].
  apply tokenizer_only_bind; [apply Hf|]. intros b.
  apply tokenizer_only_bind; [apply IH|]. intros; apply tokenizer_only_ret.
Qed.

Lemma tokenizer_only_make_sentence s a b :
  tokenizer_only (SentenceSplitter.make_sentence s a b).
Proof.
  unfold SentenceSplitter.make_sentence.
  destruct (0 <? List.length s)%nat; [|apply tokenizer_only_ret].
  apply tokenizer_only_bind; [apply tokenizer_only_tokenize|].
  intros; apply tokenizer_only_ret.
Qed.

Lemma tokenizer_only_split_loop t bs :
  forall lastEnd, tokenizer_only (SentenceSplitter.split_loop t bs lastEnd).
Proof.
  induction bs as [|b bs IH]; intros lastEnd; cbn [SentenceSplitter.split_loop].
  - destruct (lastEnd <? List.length t)%nat;
      [apply tokenizer_only_make_sentence | apply tokenizer_only_ret].
  - apply tokenizer_only_bind; [apply tokenizer_only_make_sentence|]. intros s.
    apply tokenizer_only_bind; [apply IH|]. intros; apply tokenizer_only_ret.
Qed.

Lemma split_frame t w :
  let w' := snd (SentenceSplitter.split t w) in
  sentimentAnalyzer_cache w' = sentimentAnalyzer_cache w
  /\ keywordExtractor_cache w' = keywordExtractor_cache w
  /\ nerRecognizer_cache w' = nerRecognizer_cache w.
Proof.
  cbv zeta. unfold SentenceSplitter.split, call.
  destruct (Map_get _ _); [repeat split; reflexivity|].
  cbn [compute SentenceSplitter.engine].
  destruct (tokenizer_only_split_loop t (SentenceSplitter.findBoundaries t) 0%nat w)
    as (_ & H2 & H3 & H4).
  destruct (SentenceSplitter.split_loop t _ 0%nat w) as [r w1].
  cbn [fst snd] in *. cbn. repeat split; assumption.
Qed.

Lemma tokenizer_only_calculateForDocument log t corpus :
  tokenizer_only (KeywordExtractor.calculateForDocument log t corpus).
Proof.
  unfold KeywordExtractor.calculateForDocument.
  apply tokenizer_only_bind; [apply tokenizer_only_tokenize|]. intros tokens.
  apply tokenizer_only_bind; [|intros; apply tokenizer_only_ret].
  destruct corpus as [[|d ds]|]; try apply tokenizer_only_ret.
  unfold KeywordExtractor.calculateIDFFromCorpus.
  apply tokenizer_only_bind; [|intros; apply tokenizer_only_ret].
  apply tokenizer_only_mapM. intros doc.
  apply tokenizer_only_bind;
    [apply tokenizer_only_tokenize | intros; apply tokenizer_only_ret].
Qed.

Lemma Tokenizer_untouched : untouched Tokenizer.engine.
Proof. intros i w. reflexivity. Qed.

Lemma SentenceSplitter_untouched : untouched SentenceSplitter.engine.
Proof.
  intros i w. cbn [compute cache_get SentenceSplitter.engine].
  apply tokenizer_only_split_loop.
Qed.

Lemma SentimentAnalyzer_untouched : untouched SentimentAnalyzer.engine.
Proof.
  intros i w. cbn [compute cache_get SentimentAnalyzer.engine].
  rewrite WorldFacts.bind_run. cbn [ret snd]. apply tokenize_frame.
Qed.

Lemma NamedEntityRecognizer_untouched rx :
  untouched (NamedEntityRecognizer.engine rx).
Proof.
  intros i w. cbn [compute cache_get NamedEntityRecognizer.engine].
  unfold NamedEntityRecognizer.recognize_uncached.
  rewrite WorldFacts.bind_run. cbn [ret snd]. apply tokenize_frame.
Qed.

Lemma KeywordExtractor_untouched log cfg :
  untouched (KeywordExtractor.engine log cfg).
Proof.
  intros [t corpus] w. cbn [compute cache_get KeywordExtractor.engine].
  unfold KeywordExtractor.extract_uncached.
  rewrite !WorldFacts.bind_run. cbn [ret snd].
  set (w1 := snd (Tokenizer.tokenize t w)).
  set (w2 := snd (SentenceSplitter.split t w1)).
  assert (H3 : keywordExtractor_cache w2 = keywordExtractor_cache w).
  { unfold w2. rewrite (proj1 (proj2 (split_frame t w1))).
    unfold w1. apply tokenize_frame. }
  rewrite <- H3.
  destruct (KeywordExtractor.useTFIDF cfg); [|reflexivity].
  unfold KeywordExtractor.extractTFIDF. rewrite WorldFacts.bind_run.
  cbn [ret snd]. apply tokenizer_only_calculateForDocument.
Qed.

(** *** What a call leaves alone *)

Lemma call_frame {C I R} (proj : World -> C) (E : Engine I R) :
  (forall c w, proj (cache_set E c w) = proj w) ->
  (forall i w, proj (snd (compute E i w)) = proj w) ->
  forall i w, proj (snd (call E i w)) = proj w.
Proof.
  intros Hset Hcomp i w. unfold call.
  destruct (Map_get (cache_get E w) (cacheKey E i)); [reflexivity|].
  specialize (Hcomp i w). destruct (compute E i w) as [r w1].
  cbn [snd] in *. now rewrite Hset.
Qed.

Lemma analyze_frame t w :
  let w' := snd (SentimentAnalyzer.analyze t w) in
  keywordExtractor_cache w' = keywordExtractor_cache w
  /\ nerRecognizer_cache w' = nerRecognizer_cache w.
Proof.
  cbv zeta. split.
  - apply (call_frame keywordExtractor_cache SentimentAnalyzer.engine);
      [reflexivity|].
    intros i w0. cbn [compute SentimentAnalyzer.engine].
    rewrite WorldFacts.bind_run. cbn [ret snd]. apply tokenize_frame.
  - apply (call_frame nerRecognizer_cache SentimentAnalyzer.engine);
      [reflexivity|].
    intros i w0. cbn [compute SentimentAnalyzer.engine].
    rewrite WorldFacts.bind_run. cbn [ret snd]. apply tokenize_frame.
Qed.

Lemma recognize_frame rx t w :
  keywordExtractor_cache (snd (NamedEntityRecognizer.recognize rx t w))
  = keywordExtractor_cache w.
Proof.
  apply (call_frame keywordExtractor_cache (NamedEntityRecognizer.engine rx));
    [reflexivity|].
  intros i w0. cbn [compute NamedEntityRecognizer.engine].
  unfold NamedEntityRecognizer.recognize_uncached.
  rewrite WorldFacts.bind_run. cbn [ret snd]. apply tokenize_frame.
Qed.

Lemma extract_frame log cfg t corpus w :
  nerRecognizer_cache (snd (KeywordExtractor.extract log cfg t corpus w))
  = nerRecognizer_cache w.
Proof.
  apply (call_frame nerRecognizer_cache (KeywordExtractor.engine log cfg));
    [reflexivity|].
  intros [t0 c0] w0. cbn [compute KeywordExtractor.engine].
  unfold KeywordExtractor.extract_uncached.
  rewrite !WorldFacts.bind_run. cbn [ret snd].
  set (w1 := snd (Tokenizer.tokenize t0 w0)).
  set (w2 := snd (SentenceSplitter.split t0 w1)).
  assert (H : nerRecognizer_cache w2 = nerRecognizer_cache w0).
  { unfold w2. rewrite (proj2 (proj2 (split_frame t0 w1))).
    unfold w1. apply tokenize_frame. }
  rewrite <- H.
  destruct (KeywordExtractor.useTFIDF cfg); [|reflexivity].
  unfold KeywordExtractor.extractTFIDF. rewrite WorldFacts.bind_run.
  cbn [ret snd]. apply tokenizer_only_calculateForDocument.
Qed.

(** On a miss the call returns what the computation returns. *)
Lemma call_miss {I R} (E : Engine I R) (i : I) (w : World) :
  Map_get (cache_get E w) (cacheKey E i) = None ->
  fst (call E i w) = fst (compute E i w).
Proof.
  intros H. unfold call. rewrite H. now destruct (compute E i w).
Qed.

End CacheMore.

(** ** More on the sentiment analyzer *)

Module SentimentMore.
Import Props JSFacts SentimentAnalyzer SentimentFacts EmotionFacts WorldFacts.
Local Open Scope Q_scope.

Lemma Math_min_cases a b :
  (a <= b /\ Math_min a b = a) \/ (b < a /\ Math_min a b = b).
Proof.
  unfold Math_min. destruct (Qle_bool a b) eqn:E.
  - left. split; [now apply Qle_bool_iff | reflexivity].
  - right. split; [|reflexivity]. apply Qnot_le_lt. intros H.
    apply Qle_bool_iff in H. congruence.
Qed.

Lemma Math_max_cases a b :
  (a <= b /\ Math_max a b = b) \/ (b < a /\ Math_max a b = a).
Proof.
  unfold Math_max. destruct (Qle_bool a b) eqn:E.
  - left. split; [now apply Qle_bool_iff | reflexivity].
  - right. split; [|reflexivity]. apply Qnot_le_lt. intros H.
    apply Qle_bool_iff in H. congruence.
Qed.

Lemma positive_num_false x : positive_num x = false -> x <= 0.
Proof.
  unfold positive_num. intros H. apply negb_false_iff in H.
  now apply Qle_bool_iff.
Qed.

Lemma score_token_balanced s token :
  balanced s -> balanced (score_token s token).
Proof.
  unfold balanced. intros H. unfold score_token.
  set (s1 := match Record_get SENTIMENT_LEXICON _ with
             | Some _ => _ | None => s end).
  assert (H1 : totalScore s1 == positiveScore s1 - negativeScore s1).
  { unfold s1. destruct (Record_get SENTIMENT_LEXICON _) as [entry|]; [|exact H].
    cbn [totalScore positiveScore negativeScore].
    destruct (positive_num (word_score s entry)) eqn:E.
    - rewrite H. ring.
    - apply positive_num_false in E. unfold Math_abs.
      rewrite (Qabs_neg _ E), H. ring. }
  clearbody s1.
  destruct (isAlpha token && negb (isStopWord token));
    cbn [negationActive]; destruct (negationActive s1 && isAlpha token);
    exact H1.
Qed.

Lemma step_balanced s token : balanced s -> balanced (step s token).
Proof.
  intros H. unfold step.
  destruct (is_negation token); [exact H|].
  destruct (nonzero _); [exact H|].
  destruct (nonzero _); [exact H|].
  now apply score_token_balanced.
Qed.

Lemma fold_step_balanced tokens s :
  balanced s -> balanced (fold_left step tokens s).
Proof.
  revert s; induction tokens as [|k ks IH]; intros s H; [exact H|].
  cbn [fold_left]. apply IH, step_balanced, H.
Qed.

(** The three normalised values before clamping. *)
Lemma normalize_parts s :
  sums_nonneg s -> balanced s ->
  exists np nn,
    0 <= np /\ 0 <= nn
    /\ overall (normalize s) = Math_max (-1) (Math_min 1 (totalScore s / (num (Nat.max (sentimentWordCount s) 1) * 5)))
    /\ totalScore s / (num (Nat.max (sentimentWordCount s) 1) * 5) == np - nn
    /\ positive (normalize s) = Math_min 1 np
    /\ negative (normalize s) = Math_min 1 nn
    /\ neutral (normalize s) = Math_min 1 (Math_max 0 (1 - (np + nn))).
Proof.
  intros [Hp Hn] Hb.
  set (d := num (Nat.max (sentimentWordCount s) 1) * 5).
  assert (Hd : 0 < d).
  { unfold d. rewrite <- (Qmult_0_l 5). apply Qmult_lt_compat_r; [reflexivity|].
    apply num_pos. lia. }
  exists (positiveScore s / d), (negativeScore s / d).
  split; [now apply div_nonneg|]. split; [now apply div_nonneg|].
  split; [reflexivity|]. split; [|now repeat split].
  unfold balanced in Hb. rewrite Hb. field. intros H0. rewrite H0 in Hd.
  revert Hd. apply Qlt_irrefl.
Qed.

(** *** Emotions *)

Lemma lexicon_intensity k entry :
  In (k, entry) SENTIMENT_LEXICON -> 0 <= intensity entry.
Proof.
  assert (H : forallb (fun p : text * LexiconEntry =>
                         Qle_bool 0 (intensity (snd p)))
                SENTIMENT_LEXICON = true) by (vm_compute; reflexivity).
  intros Hin. rewrite forallb_forall in H. apply Qle_bool_iff, (H _ Hin).
Qed.

Lemma tally_emotion_nonneg entry t e :
  0 <= intensity entry -> tally_nonneg t ->
  tally_nonneg (tally_emotion entry t e).
Proof.
  intros Hi [H1 H2]. unfold tally_nonneg, tally_emotion.
  cbn [emotionIntensities totalIntensity]. split.
  - apply Forall_forall. intros kv Hkv. apply Map_set_incl in Hkv.
    destruct Hkv as [<-|Hkv].
    + cbn [snd]. apply Forall_app. split; [|now repeat constructor].
      destruct (Map_get (emotionIntensities t) e) as [l|] eqn:E; [|constructor].
      apply Map_get_In in E. rewrite Forall_forall in H1.
      exact (H1 _ E).
    + rewrite Forall_forall in H1. now apply H1.
  - rewrite <- (Qplus_0_l 0). now apply Qplus_le_compat.
Qed.

Lemma tally_token_nonneg t token :
  tally_nonneg t -> tally_nonneg (tally_token t token).
Proof.
  intros Ht. unfold tally_token.
  destruct (Record_get SENTIMENT_LEXICON _) as [entry|] eqn:E; [|exact Ht].
  apply Record_get_In, lexicon_intensity in E.
  revert t Ht. induction (emotions entry) as [|e es IH]; intros t Ht; [exact Ht|].
  cbn [fold_left]. apply IH. now apply tally_emotion_nonneg.
Qed.

Lemma tally_fold_nonneg tokens :
  forall t, tally_nonneg t -> tally_nonneg (fold_left tally_token tokens t).
Proof.
  induction tokens as [|k ks IH]; intros t Ht; [exact Ht|].
  cbn [fold_left]. apply IH. now apply tally_token_nonneg.
Qed.

Lemma sum_from_nonneg l :
  forall a, 0 <= a -> Forall (fun q => 0 <= q) l -> 0 <= fold_left Qplus l a.
Proof.
  induction l as [|x l IH]; intros a Ha Hl; [exact Ha|].
  inversion Hl; subst. cbn [fold_left]. apply IH; [|assumption].
  rewrite <- (Qplus_0_l 0). now apply Qplus_le_compat.
Qed.

Lemma mult_nonneg a b : 0 <= a -> 0 <= b -> 0 <= a * b.
Proof. intros. now apply Qmult_le_0_compat. Qed.

Lemma div_nonneg0 a b : 0 <= a -> 0 <= b -> 0 <= a / b.
Proof.
  intros Ha Hb. unfold Qdiv. apply mult_nonneg; [assumption|].
  now apply Qinv_le_0_compat.
Qed.

Lemma emotion_score_nonneg n l :
  Forall (fun q => 0 <= q) l -> 0 <= emotion_score n l.
Proof.
  intros Hl. unfold emotion_score, sum.
  apply mult_nonneg; apply div_nonneg0;
    try apply num_nonneg. apply sum_from_nonneg; [apply Qle_refl | exact Hl].
Qed.

Lemma fold_max_bounds l :
  forall a, a <= fold_left Math_max l a
            /\ Forall (fun x => x <= fold_left Math_max l a) l.
Proof.
  induction l as [|x l IH]; intros a; cbn [fold_left].
  - split; [apply Qle_refl | constructor].
  - destruct (IH (Math_max a x)) as [H1 H2]. split.
    + eapply Qle_trans; [apply Math_max_l | exact H1].
    + constructor; [|exact H2].
      eapply Qle_trans; [apply Math_max_r | exact H1].
Qed.

Lemma Map_set_keys_present {V} (m : Map V) k v :
  Map_has m k = true -> List.map fst (Map_set m k v) = List.map fst m.
Proof.
  unfold Map_has. intros H. apply Map_set_present.
  destruct (Map_get m k); [discriminate | discriminate].
Qed.

(** The scores are non-negative and their keys stay the eight of the
    initial record. *)
Lemma emotions_fold nkeys (ints : Map (list Q)) :
  forall em : Record Q,
    Forall (fun kv : text * list Q => Forall (fun q => 0 <= q) (snd kv)) ints ->
    Forall (fun p : text * Q => 0 <= snd p) em ->
    let em' :=
      fold_left (fun (em : Record Q) (p : text * list Q) =>
                   if Map_has em (fst p)
                   then Map_set em (fst p) (emotion_score nkeys (snd p))
                   else em) ints em in
    Forall (fun p : text * Q => 0 <= snd p) em'
    /\ List.map fst em' = List.map fst em.
Proof.
  induction ints as [|[e l] ints IH]; intros em Hi He; cbn [fold_left].
  - now split.
  - inversion Hi as [|? ? Hl Hrest]; subst. cbn [fst snd] in *.
    destruct (Map_has em e) eqn:E.
    + destruct (IH (Map_set em e (emotion_score nkeys l)) Hrest) as [H1 H2].
      * apply Forall_forall. intros kv Hkv. apply Map_set_incl in Hkv.
        destruct Hkv as [<-|Hkv]; [now apply emotion_score_nonneg|].
        rewrite Forall_forall in He. now apply He.
      * split; [exact H1|]. rewrite H2. now apply Map_set_keys_present.
    + now apply IH.
Qed.

(** *** Shifts, trend and aspects *)


Lemma mapM_length {A B} (f : A -> M B) (l : list A) :
  forall w, List.length (fst (mapM f l w)) = List.length l.
Proof.
  induction l as [|a l IH]; intros w; [reflexivity|].
  cbn [mapM]. rewrite !bind_run. cbn [ret fst List.length].
  now rewrite IH.
Qed.

Lemma mapM_analyze_ok (l : list text) :
  forall w, World_ok w ->
            Forall in_ranges (fst (mapM analyze l w))
            /\ World_ok (snd (mapM analyze l w)).
Proof.
  induction l as [|t l IH]; intros w Hw.
  - split; [constructor | exact Hw].
  - cbn [mapM]. rewrite !bind_run. cbn [ret fst snd].
    destruct (analyze_ok t w Hw) as [H1 H2].
    destruct (IH _ H2) as [H3 H4]. split; [now constructor | exact H4].
Qed.

Lemma combine_nth_fst {A B} (l : list A) (l' : list B) :
  forall n a, nth_error (List.map fst (combine l l')) n = Some a ->
              nth_error l n = Some a.
Proof.
  revert l'; induction l as [|x l IH]; intros [|y l'] n a H;
    try (destruct n; discriminate).
  destruct n as [|n]; cbn in *; [exact H | now apply (IH l')].
Qed.

Lemma shift_loop_spec (rest : list (text * SentimentScore)) :
  forall i prev,
    overall_in_range prev ->
    Forall (fun p => overall_in_range (snd p)) rest ->
    Forall (shift_in i (List.map fst rest)) (shift_loop i prev rest)
    /\ StronglySorted (fun a b => (sh_position a < sh_position b)%nat)
         (shift_loop i prev rest).
Proof.
  induction rest as [|[sentence curr] rest IH]; intros i prev Hp Hr.
  - split; constructor.
  - inversion Hr as [|? ? Hc Hr']; subst. cbn [snd] in Hc.
    destruct (IH (S i) curr Hc Hr') as [H1 H2].
    assert (H1' : Forall (shift_in i (List.map fst ((sentence, curr) :: rest)))
                    (shift_loop (S i) curr rest)).
    { eapply Forall_impl; [|exact H1].
      intros sh (Ha & Hb & Hrest). split; [lia|]. split; [|exact Hrest].
      cbn [List.map fst].
      replace (sh_position sh - i)%nat with (S (sh_position sh - S i)) by lia.
      exact Hb. }
    cbn [shift_loop].
    destruct (negb (Qle_bool (Math_abs (overall curr - overall prev)) 0.3))
      eqn:E; cbn [app]; [|split; assumption].
    split.
    + constructor; [|exact H1'].
      unfold shift_in. cbn [sh_position sh_sentence sh_magnitude sh_to sh_from
                              sh_direction].
      rewrite Nat.sub_diag. split; [lia|]. split; [reflexivity|].
      apply negb_true_iff in E.
      assert (E' : 0.3 < Qabs (overall curr - overall prev)).
      { apply Qnot_le_lt. intros H. apply Qle_bool_iff in H.
        unfold Math_abs in E. congruence. }
      destruct Hp as [Hp1 Hp2], Hc as [Hc1 Hc2].
      unfold Math_abs. split; [split; [exact E'|]|split; [reflexivity|]].
      * apply Qabs_Qle_condition. split; lra.
      * destruct (positive_num (overall curr - overall prev)) eqn:Ep.
        -- split; [intros _|reflexivity].
           unfold positive_num in Ep. apply negb_true_iff in Ep.
           assert (0 < overall curr - overall prev); [|lra].
           apply Qnot_le_lt. intros H. apply Qle_bool_iff in H. congruence.
        -- split; [discriminate|]. intros H.
           apply positive_num_false in Ep. lra.
    + constructor; [exact H2|].
      eapply Forall_impl; [|exact H1]. intros sh (Ha & _).
      cbn [sh_position]. lia.
Qed.


Lemma lexicon_bound (k : text) (entry : LexiconEntry) :
  In (k, entry) SENTIMENT_LEXICON -> Qabs (score entry * intensity entry) <= 5.
Proof.
  assert (H : forallb (fun p : text * LexiconEntry =>
                         Qle_bool (Qabs (score (snd p) * intensity (snd p))) 5)
                SENTIMENT_LEXICON = true) by (vm_compute; reflexivity).
  intros Hin. rewrite forallb_forall in H.
  apply Qle_bool_iff, (H (k, entry) Hin).
Qed.

Lemma num_S n : num (S n) == num n + 1.
Proof. unfold num. rewrite Nat2Z.inj_succ, <- Z.add_1_r, inject_Z_plus. reflexivity. Qed.

Lemma distance_ge_1 (i j : nat) :
  i <> j -> 1 <= Qabs (inject_Z (Z.of_nat i) - inject_Z (Z.of_nat j)).
Proof.
  intros H.
  assert (E : inject_Z (Z.of_nat i) - inject_Z (Z.of_nat j)
              == inject_Z (Z.of_nat i - Z.of_nat j)).
  { unfold Z.sub. rewrite inject_Z_plus, inject_Z_opp. reflexivity. }
  rewrite E. clear E.
  set (d := (Z.of_nat i - Z.of_nat j)%Z).
  assert (Hd : (d <= -1 \/ 1 <= d)%Z) by (unfold d; lia).
  apply Qabs_case; intros H0; unfold Qle in *; simpl in *; lia.
Qed.

Lemma weigh_bound (i : nat) (acc : Q * nat) (p : nat * Token) :
  fst p <> i ->
  Qabs (fst acc) <= 5 * num (snd acc) ->
  Qabs (fst (weigh i acc p)) <= 5 * num (snd (weigh i acc p)).
Proof.
  intros Hne H. unfold weigh.
  destruct (Record_get SENTIMENT_LEXICON (toLowerCase (lemma (snd p))))
    as [entry|] eqn:E; [|exact H].
  cbn [fst snd]. apply Record_get_In, lexicon_bound in E.
  unfold Math_abs.
  pose proof (distance_ge_1 i (fst p) (fun h => Hne (eq_sym h))) as Hd.
  set (d := Qabs (inject_Z (Z.of_nat i) - inject_Z (Z.of_nat (fst p)))) in *.
  set (x := score entry * intensity entry) in *.
  assert (Hw : 0 <= 1 / d /\ 1 / d <= 1).
  { split.
    - apply Qle_shift_div_l; lra.
    - apply Qle_shift_div_r; lra. }
  eapply Qle_trans; [apply Qabs_triangle|].
  rewrite num_S, Qabs_Qmult, (Qabs_pos (1 / d)) by tauto.
  assert (Qabs x * (1 / d) <= 5 * 1).
  { apply Qmult_le_compat_nonneg; split;
      [apply Qabs_nonneg | exact E | tauto | tauto]. }
  lra.
Qed.

Lemma window_distinct (tokens : list Token) (i : nat) (p : nat * Token) :
  In p (window tokens i) -> fst p <> i.
Proof.
  unfold window. intros H. apply filter_In in H as [_ H].
  apply negb_true_iff in H. now apply Nat.eqb_neq.
Qed.

Lemma window_bound (tokens : list Token) (i : nat) (acc : Q * nat) :
  Qabs (fst acc) <= 5 * num (snd acc) ->
  Qabs (fst (fold_left (weigh i) (window tokens i) acc))
  <= 5 * num (snd (fold_left (weigh i) (window tokens i) acc)).
Proof.
  pose proof (window_distinct tokens i) as Hw.
  revert acc. induction (window tokens i) as [|p l IH]; intros acc H;
    [exact H|].
  cbn [fold_left]. apply IH.
  - intros q Hq. apply Hw. now right.
  - apply weigh_bound; [apply Hw; now left | exact H].
Qed.

Lemma aspect_fold_bound (tokens : list Token) (aspectLower : text)
    (l : list (nat * Token)) :
  forall acc : Q * nat,
    Qabs (fst acc) <= 5 * num (snd acc) ->
    let acc' :=
      fold_left
        (fun (acc : Q * nat) (p : nat * Token) =>
           if is_mention aspectLower (snd p)
           then fold_left (weigh (fst p)) (window tokens (fst p)) acc
           else acc) l acc in
    Qabs (fst acc') <= 5 * num (snd acc').
Proof.
  induction l as [|p l IH]; intros acc H; [exact H|].
  cbn [fold_left]. apply IH.
  destruct (is_mention aspectLower (snd p)); [|exact H].
  now apply window_bound.
Qed.

Lemma aspect_fold_idle (aspectLower : text) (tokens : list Token)
    (l : list (nat * Token)) :
  forall acc : Q * nat,
    Forall (fun p => is_mention aspectLower (snd p) = false) l ->
    fold_left
      (fun (acc : Q * nat) (p : nat * Token) =>
         if is_mention aspectLower (snd p)
         then fold_left (weigh (fst p)) (window tokens (fst p)) acc
         else acc) l acc = acc.
Proof.
  induction l as [|p l IH]; intros acc H; [reflexivity|].
  inversion H as [|? ? Hp Hl]; subst. cbn [fold_left]. rewrite Hp.
  now apply IH.
Qed.

Lemma filter_nil_Forall {A} (f : A -> bool) (l : list A) :
  List.length (filter f l) = 0%nat -> Forall (fun x => f x = false) l.
Proof.
  induction l as [|x l IH]; intros H; [constructor|].
  cbn [filter] in H. destruct (f x) eqn:E; [discriminate|].
  constructor; [exact E | now apply IH].
Qed.

Lemma combine_snd_Forall {A B} (P : B -> Prop) (l : list A) (l' : list B) :
  Forall P l' -> Forall (fun p => P (snd p)) (combine l l').
Proof.
  revert l'; induction l as [|x l IH]; intros [|y l'] H; try constructor.
  - inversion H; assumption.
  - apply IH. now inversion H.
Qed.

Lemma aspect_of_spec (tokens : list Token) (aspect : text) :
  let r := aspect_of tokens aspect in
  as_aspect r = aspect
  /\ (0 <= as_confidence r /\ as_confidence r <= 1)
  /\ (-5 <= as_sentiment r /\ as_sentiment r <= 5)
  /\ (as_mentions r = 0%nat -> as_sentiment r = 0 /\ as_confidence r == 0).
Proof.
  cbv zeta. unfold aspect_of.
  cbn [as_aspect as_confidence as_sentiment as_mentions].
  pose proof (aspect_fold_bound tokens (toLowerCase aspect)
                (combine (seq 0 (List.length tokens)) tokens) (0, 0%nat)) as Hb.
  cbv zeta in Hb.
  set (acc := fold_left _ (combine (seq 0 (List.length tokens)) tokens)
                (0, 0%nat)) in *.
  assert (Hacc : Qabs (fst acc) <= 5 * num (snd acc)).
  { apply Hb. cbn [fst snd]. unfold num. cbn. discriminate. }
  clear Hb. split; [reflexivity|]. split; [|split].
  - split; [|apply Math_min_r].
    apply Math_min_glb; [|discriminate].
    apply div_nonneg; [apply num_nonneg | reflexivity].
  - destruct (0 <? snd acc)%nat eqn:E; [|split; discriminate].
    apply Nat.ltb_lt in E. pose proof (num_pos (snd acc) E) as Hn.
    apply Qabs_Qle_condition in Hacc. destruct Hacc as [H1 H2]. split.
    + apply Qle_shift_div_l; [exact Hn|]. lra.
    + apply Qle_shift_div_r; [exact Hn|]. lra.
  - intros Hm. apply filter_nil_Forall in Hm.
    assert (Ha : acc = (0, 0%nat)).
    { unfold acc. apply aspect_fold_idle.
      now apply (combine_snd_Forall
                   (fun k => is_mention (toLowerCase aspect) k = false)). }
    rewrite Ha. cbn [fst snd]. split; reflexivity.
Qed.




Lemma trend_spec (d : Q) (l : list text) :
  0 < d ->
  forall (k : nat) (w : World),
    World_ok w ->
    num (k + List.length l) - 1 <= d ->
    let pts :=
      fst (mapM (fun p : nat * text =>
                   s <- analyze (snd p) ;;
                   ret {| tr_position := num (fst p) / d;
                          tr_sentiment := overall s |})
             (combine (seq k (List.length l)) l) w) in
    List.length pts = List.length l
    /\ Forall (fun p => (num k / d <= tr_position p /\ tr_position p <= 1)
                        /\ (-1 <= tr_sentiment p /\ tr_sentiment p <= 1)) pts
    /\ StronglySorted (fun a b => tr_position a < tr_position b) pts.
Proof.
  intros Hd. induction l as [|t l IH]; intros k w Hw Hk; cbv zeta.
  - repeat split; constructor.
  - cbn [List.length seq combine mapM]. rewrite !bind_run. cbn [ret fst snd].
    destruct (analyze_ok t w Hw) as [Hr Hw'].
    cbn [List.length] in Hk.
    assert (Hk' : num (S k + List.length l) - 1 <= d).
    { replace (S k + List.length l)%nat with (k + S (List.length l))%nat by lia.
      exact Hk. }
    destruct (IH (S k) _ Hw' Hk') as (H1 & H2 & H3). cbv zeta in H1, H2, H3.
    assert (Hstep : num k / d < num (S k) / d).
    { apply Qlt_shift_div_l; [exact Hd|].
      unfold Qdiv. rewrite <- Qmult_assoc, (Qmult_comm (/ d)), Qmult_inv_r by lra.
      rewrite num_S. lra. }
    split; [cbn [List.length]; now rewrite H1|]. split; [constructor|constructor].
    + cbn [tr_position tr_sentiment]. split; [split; [apply Qle_refl|]|].
      * apply Qle_shift_div_r; [exact Hd|].
        replace (k + S (List.length l))%nat with (S (k + List.length l)) in Hk
          by lia.
        rewrite num_S in Hk.
        assert (num k <= num (k + List.length l)).
        { unfold num. rewrite <- Zle_Qle. lia. }
        lra.
      * destruct Hr as (Ho & _). exact Ho.
    + eapply Forall_impl; [|exact H2]. intros p [[Ha Hb] Hc].
      split; [split; [lra | exact Hb] | exact Hc].
    + exact H3.
    + cbn [tr_position]. eapply Forall_impl; [|exact H2].
      intros p [[Ha Hb] Hc]. lra.
Qed.

End SentimentMore.

(** ** More on the sentence splitter *)

Module SplitterMore.
Import Props JSFacts CacheFacts SentimentFacts WorldFacts SentimentMore.
Import SentenceSplitter.


Lemma factor_bounds (x : Q) :
  (0 <= x -> 0 <= Math_min x 1 * 25 /\ Math_min x 1 * 25 <= 25)%Q.
Proof.
  intros H. destruct (Math_min_cases x 1) as [[A ->]|[A ->]]; split; lra.
Qed.

Lemma analyzeComplexity_bounds (tokens : list Token) :
  (0 <= analyzeComplexity tokens /\ analyzeComplexity tokens <= 100)%Q.
Proof.
  unfold analyzeComplexity.
  destruct (List.length (filter isAlpha tokens) =? 0)%nat eqn:E;
    [split; discriminate|].
  apply Nat.eqb_neq in E.
  assert (Hn : (0 < num (List.length (filter isAlpha tokens)))%Q)
    by (apply num_pos; lia).
  cbv zeta.
  match goal with
  | |- (0 <= ?a + ?b + ?c + ?d /\ _)%Q =>
      assert (Ha : (0 <= a /\ a <= 25)%Q);
      [|assert (Hb : (0 <= b /\ b <= 25)%Q);
        [|assert (Hc : (0 <= c /\ c <= 25)%Q);
          [|assert (Hd : (0 <= d /\ d <= 25)%Q); [|split; lra]]]]
  end.
  - apply factor_bounds, div_nonneg0; [|discriminate].
    apply div_nonneg; [apply num_nonneg | exact Hn].
  - apply factor_bounds, div_nonneg0; [|discriminate].
    apply div_nonneg; [apply num_nonneg | exact Hn].
  - apply factor_bounds, div_nonneg0; [apply num_nonneg | discriminate].
  - apply factor_bounds, div_nonneg0; [apply num_nonneg | discriminate].
Qed.

Lemma num_plus a b : (num (a + b) == num a + num b)%Q.
Proof. unfold num. rewrite Nat2Z.inj_add, inject_Z_plus. reflexivity. Qed.

Lemma calculateBasicSentiment_spec (tokens : list Token) :
  let s := calculateBasicSentiment tokens in
  in_ranges s
  /\ (overall s == positive s - negative s)%Q
  /\ ((positive s = 0 /\ negative s = 0 /\ neutral s = 1
       /\ confidence s = 0.5)%Q
      \/ (positive s + negative s == 1 /\ neutral s == 0
          /\ 0.2 <= confidence s)%Q).
Proof.
  cbv zeta. unfold calculateBasicSentiment.
  set (p := List.length (filter _ tokens)).
  set (n := List.length (filter _ tokens)).
  destruct (p + n =? 0)%nat eqn:E.
  - cbn [overall positive negative neutral confidence]. split; [|split].
    + unfold in_ranges; cbn [overall positive negative neutral confidence].
      repeat split; discriminate.
    + reflexivity.
    + left. repeat split; reflexivity.
  - apply Nat.eqb_neq in E.
    cbn [overall positive negative neutral confidence].
    assert (Ht : (0 < num (p + n))%Q) by (apply num_pos; lia).
    assert (Hp : (0 <= num p / num (p + n))%Q)
      by (apply div_nonneg; [apply num_nonneg | exact Ht]).
    assert (Hn : (0 <= num n / num (p + n))%Q)
      by (apply div_nonneg; [apply num_nonneg | exact Ht]).
    assert (Hs : (num p / num (p + n) + num n / num (p + n) == 1)%Q).
    { rewrite num_plus in *. field. lra. }
    assert (Hc : (0.2 <= Math_min (num (p + n) / 5) 1
                  /\ Math_min (num (p + n) / 5) 1 <= 1)%Q).
    { split; [|apply Math_min_r].
      apply Math_min_glb; [|discriminate].
      apply Qle_shift_div_l; [reflexivity|].
      assert (1 <= num (p + n))%Q; [|lra].
      unfold num. change 1%Q with (inject_Z 1). rewrite <- Zle_Qle. lia. }
    split; [|split].
    + unfold in_ranges; cbn [overall positive negative neutral confidence].
      repeat split; lra.
    + reflexivity.
    + right. repeat split; lra.
Qed.


Lemma closers_not_enders (c : char) :
  one_of QUOTE_CHARS c || one_of BRACKET_CLOSE c = true ->
  one_of SENTENCE_ENDERS c = false.
Proof.
  intros H. apply orb_true_iff in H. unfold one_of in H.
  rewrite !existsb_exists in H.
  assert (Hin : In c (QUOTE_CHARS ++ BRACKET_CLOSE)).
  { apply in_or_app.
    destruct H as [[x [Hx E]]|[x [Hx E]]]; apply N.eqb_eq in E; subst x; tauto. }
  cbn in Hin.
  repeat (destruct Hin as [<-|Hin]; [vm_compute; reflexivity|]).
  destruct Hin.
Qed.

Lemma linked_snoc (bs : list Boundary) :
  forall lo cs e,
    linked lo bs cs -> (cs < e)%nat ->
    linked lo (bs ++ [{| b_start := cs; b_end := e |}]) e.
Proof.
  induction bs as [|b bs IH]; intros lo cs e H He; cbn [app linked] in *.
  - subst. cbn [b_start b_end]. repeat split. exact He.
  - destruct H as (H1 & H2 & H3). repeat split; try assumption.
    now apply IH with (cs := cs).
Qed.

Lemma linked_le (bs : list Boundary) :
  forall lo hi, linked lo bs hi -> (lo <= hi)%nat.
Proof.
  induction bs as [|b bs IH]; intros lo hi H; cbn [linked] in H.
  - lia.
  - destruct H as (H1 & H2 & H3). apply IH in H3. lia.
Qed.

Lemma nth_error_skipn_plus {A} (l : list A) (n j : nat) :
  nth_error (skipn n l) j = nth_error l (n + j).
Proof.
  revert l; induction n as [|n IH]; intros l; [reflexivity|].
  destruct l as [|x l]; [now destruct j|]. cbn [skipn]. apply IH.
Qed.

Lemma boundary_step_scanned (t : text) (i : nat) (acc : list Boundary * nat) :
  scanned t i acc -> scanned t (S i) (boundary_step t acc i).
Proof.
  intros (H1 & H2 & H3). destruct acc as [bs cs]. cbn [fst snd] in *.
  assert (Hkeep : scanned t (S i) (bs, cs)).
  { repeat split; cbn [fst snd]; try assumption.
    intros j c Hj. apply H3. lia. }
  unfold boundary_step.
  destruct (nth_error t i) as [c|] eqn:Ec; [|exact Hkeep].
  destruct (one_of SENTENCE_ENDERS c && isSentenceBoundary t i) eqn:E;
    [|exact Hkeep].
  apply andb_true_iff in E as [E _].
  assert (Hcs : (cs <= i)%nat).
  { destruct (Nat.le_gt_cases cs i) as [|Hlt]; [assumption|].
    rewrite (H3 i c) in E; [discriminate | lia | exact Ec]. }
  assert (Hi : (i < List.length t)%nat)
    by (apply nth_error_Some; congruence).
  set (p := fun c => one_of QUOTE_CHARS c || one_of BRACKET_CLOSE c).
  pose proof (span_app p (skipn (i + 1) t)) as Happ.
  pose proof (span_all p (skipn (i + 1) t)) as Hall.
  set (closers := fst (span p (skipn (i + 1) t))) in *.
  assert (Hlen : (List.length closers <= List.length t - (i + 1))%nat).
  { rewrite <- (length_skipn (i + 1) t), <- Happ, length_app. lia. }
  repeat split; cbn [fst snd].
  - apply linked_snoc with (cs := cs); [exact H1 | lia].
  - lia.
  - intros j c0 Hj Hc0.
    apply closers_not_enders. rewrite Forall_forall in Hall. apply Hall.
    replace j with ((i + 1) + (j - (i + 1)))%nat in Hc0 by lia.
    rewrite <- nth_error_skipn_plus, <- Happ in Hc0.
    rewrite nth_error_app1 in Hc0 by lia.
    now apply nth_error_In in Hc0.
Qed.

Lemma fold_boundary_scanned (t : text) (m : nat) :
  forall k acc,
    scanned t k acc ->
    scanned t (k + m) (fold_left (boundary_step t) (seq k m) acc).
Proof.
  induction m as [|m IH]; intros k acc H; cbn [seq fold_left].
  - now rewrite Nat.add_0_r.
  - replace (k + S m)%nat with (S k + m)%nat by lia.
    apply IH. now apply boundary_step_scanned.
Qed.

Lemma findBoundaries_linked (t : text) :
  exists hi, (hi <= List.length t)%nat /\ linked 0 (findBoundaries t) hi.
Proof.
  unfold findBoundaries.
  destruct (fold_boundary_scanned t (List.length t) 0 ([], 0%nat))
    as (H1 & H2 & _).
  - repeat split; cbn [fst snd]; [lia|]. intros j c Hj. lia.
  - eexists. split; [exact H2 | exact H1].
Qed.



Lemma drop_while_nil (p : char -> bool) (l : text) :
  drop_while p l = [] -> Forall (fun c => p c = true) l.
Proof.
  induction l as [|c l IH]; intros H; [constructor|].
  cbn [drop_while] in H. destruct (p c) eqn:E; [|discriminate].
  constructor; [exact E | now apply IH].
Qed.

Lemma trim_nil (s : text) : trim s = [] -> Forall (fun c => is_space c = true) s.
Proof.
  unfold trim, trimEnd, trimStart. intros H.
  assert (H' : drop_while is_space (rev (drop_while is_space s)) = []).
  { rewrite <- (rev_involutive (drop_while _ (rev _))), H. reflexivity. }
  apply drop_while_nil in H'.
  assert (Hd : drop_while is_space s = []).
  { destruct (drop_while is_space s) as [|c l] eqn:E; [reflexivity|].
    exfalso.
    assert (Hc : is_space c = true).
    { rewrite Forall_forall in H'. apply H', in_rev.
      rewrite rev_involutive. now left. }
    clear H H'. induction s as [|x s IH]; [discriminate|].
    cbn [drop_while] in E. destruct (is_space x) eqn:Ex; [now apply IH|].
    injection E as -> _. congruence. }
  now apply drop_while_nil.
Qed.

Lemma substring_In (t : text) (a b p : nat) (c : char) :
  (a <= p < b)%nat -> nth_error t p = Some c -> In c (substring t a b).
Proof.
  intros Hp Hc. unfold substring.
  rewrite Nat.min_l, Nat.max_r by lia.
  apply (nth_error_In _ (p - a)).
  rewrite nth_error_firstn.
  destruct (p - a <? b - a)%nat eqn:E; [|apply Nat.ltb_ge in E; lia].
  rewrite nth_error_skipn. now replace (a + (p - a))%nat with p by lia.
Qed.

Lemma substring_to_end (t : text) (a : nat) :
  substring t a (List.length t) = skipn a t.
Proof.
  unfold substring.
  destruct (Nat.le_gt_cases a (List.length t)) as [H|H].
  - rewrite Nat.min_l, Nat.max_r by lia.
    apply firstn_all2. rewrite length_skipn. lia.
  - rewrite Nat.min_r, Nat.max_l by lia.
    rewrite (skipn_all2 t) by lia.
    rewrite skipn_all2 by lia. now rewrite firstn_nil.
Qed.

Lemma make_sentence_fst (txt : text) (a b : nat) (w : World) :
  fst (make_sentence txt a b w) = []  /\ txt = []
  \/ exists s, fst (make_sentence txt a b w) = [s]
               /\ sen_text s = txt /\ sen_startChar s = a /\ sen_endChar s = b
               /\ txt <> [].
Proof.
  unfold make_sentence. destruct txt as [|c txt].
  - left. split; reflexivity.
  - right. cbn [List.length Nat.ltb Nat.leb]. rewrite bind_run. cbn [ret fst].
    eexists. split; [reflexivity|]. repeat split. discriminate.
Qed.

Lemma laid_out_lower (t : text) (ss : list Sentence) (lo lo' : nat) :
  (lo' <= lo)%nat -> laid_out t lo ss -> laid_out t lo' ss.
Proof.
  destruct ss as [|s ss]; [trivial|]. cbn [laid_out].
  intros H (H1 & Hrest). split; [lia | exact Hrest].
Qed.

Lemma split_loop_spec (t : text) (bs : list Boundary) :
  forall lastEnd hi w,
    linked lastEnd bs hi -> (hi <= List.length t)%nat ->
    let ss := fst (split_loop t bs lastEnd w) in
    laid_out t lastEnd ss
    /\ forall p c, (lastEnd <= p)%nat -> nth_error t p = Some c ->
                   is_space c = false -> covered ss p.
Proof.
  induction bs as [|b bs IH]; intros lastEnd hi w Hl Hhi; cbv zeta.
  - cbn [split_loop linked] in *. subst hi.
    destruct (lastEnd <? List.length t)%nat eqn:E.
    + apply Nat.ltb_lt in E.
      destruct (make_sentence_fst (trim (skipn lastEnd t)) lastEnd
                  (List.length t) w)
        as [[-> Hnil]|(s & -> & H1 & H2 & H3 & H4)].
      * split; [exact I|]. intros p c Hp Hc Hs. exfalso.
        apply trim_nil in Hnil. rewrite Forall_forall in Hnil.
        rewrite (Hnil c) in Hs; [discriminate|].
        rewrite <- substring_to_end.
        apply (substring_In t lastEnd (List.length t) p); [|exact Hc].
        split; [exact Hp|]. apply nth_error_Some. congruence.
      * split.
        -- cbn [laid_out]. rewrite H1, H2, H3, substring_to_end.
           repeat split; try assumption; lia.
        -- intros p c Hp Hc Hs. exists s. split; [now left|].
           rewrite H2, H3. split; [exact Hp|].
           apply nth_error_Some. congruence.
    + apply Nat.ltb_ge in E. cbn [ret fst]. split; [exact I|].
      intros p c Hp Hc. exfalso.
      assert (p < List.length t)%nat by (apply nth_error_Some; congruence).
      lia.
  - cbn [split_loop linked] in *. destruct Hl as (Hb1 & Hb2 & Hl).
    rewrite !bind_run. cbn [ret fst].
    pose proof (linked_le _ _ _ Hl) as Hle.
    set (w1 := snd (make_sentence _ lastEnd (b_end b) w)).
    destruct (IH (b_end b) hi w1 Hl Hhi) as [IH1 IH2]. cbv zeta in IH1, IH2.
    set (rest := fst (split_loop t bs (b_end b) w1)) in *.
    destruct (make_sentence_fst (trim (substring t lastEnd (b_end b))) lastEnd
                (b_end b) w)
      as [[-> Hnil]|(s & -> & H1 & H2 & H3 & H4)]; cbn [app].
    + split; [apply (laid_out_lower t rest (b_end b)); [lia | exact IH1]|].
      intros p c Hp Hc Hs.
      destruct (Nat.lt_ge_cases p (b_end b)) as [Hlt|Hge];
        [|now apply (IH2 p c)].
      exfalso. apply trim_nil in Hnil. rewrite Forall_forall in Hnil.
      rewrite (Hnil c) in Hs; [discriminate|].
      apply (substring_In t lastEnd (b_end b) p); [lia | exact Hc].
    + split.
      * cbn [laid_out]. rewrite H1, H2, H3.
        repeat split; try assumption; lia.
      * intros p c Hp Hc Hs.
        destruct (Nat.lt_ge_cases p (b_end b)) as [Hlt|Hge].
        -- exists s. split; [now left|]. rewrite H2, H3. lia.
        -- destruct (IH2 p c Hge Hc Hs) as (s' & Hin & Hs').
           exists s'. split; [now right | exact Hs'].
Qed.




Lemma nth_error_skipn_cons {A} (l : list A) (n : nat) (x : A) :
  nth_error l n = Some x -> exists r, skipn n l = x :: r.
Proof.
  revert l; induction n as [|n IH]; intros [|y l] H; try discriminate.
  - injection H as ->. now exists l.
  - now apply IH.
Qed.

Lemma getWordAfter_at_period (t : text) (p : nat) :
  nth_error t p = Some 46%N -> getWordAfter t p = None.
Proof.
  intros H. unfold getWordAfter.
  destruct (nth_error_skipn_cons t p _ H) as [r ->]. reflexivity.
Qed.



End SplitterMore.

(** ** More on the named-entity recognizer *)

Module NERMore.
Import Props JSFacts CacheFacts SentimentFacts NERFacts WorldFacts CacheMore.
Import SentimentMore NamedEntityRecognizer.

Local Open Scope Z_scope.

Lemma explained_grows (result more : list NamedEntity) (e : NamedEntity) :
  explained result e -> explained (result ++ more) e.
Proof.
  intros [H|[H|(k & Hk & H)]].
  - left. apply in_or_app. now left.
  - right. now left.
  - right. right. exists k. split; [apply in_or_app; now left | exact H].
Qed.

Lemma dedup_loop_grows sorted :
  forall result lastEnd,
    exists more, dedup_loop sorted result lastEnd = result ++ more.
Proof.
  induction sorted as [|e rest IH]; intros result lastEnd;
    cbn [dedup_loop].
  - exists []. now rewrite app_nil_r.
  - destruct (ent_startChar e <? lastEnd); [apply IH|].
    destruct (existsb (is_duplicate e) result); [apply IH|].
    destruct (IH (result ++ [e]) (ent_endChar e)) as [more ->].
    exists ([e] ++ more). now rewrite app_assoc.
Qed.

Lemma dedup_loop_explains sorted :
  forall result lastEnd e,
    dedup_state result lastEnd ->
    In e sorted ->
    explained (dedup_loop sorted result lastEnd) e.
Proof.
  induction sorted as [|x rest IH]; intros result lastEnd e Hst Hin;
    [destruct Hin|].
  cbn [dedup_loop].
  assert (Hst' : dedup_state (result ++ [x]) (ent_endChar x)).
  { right. exists x. split; [apply in_or_app; right; now left | reflexivity]. }
  destruct Hin as [<-|Hin].
  - destruct (ent_startChar x <? lastEnd) eqn:E1.
    + apply Z.ltb_lt in E1.
      destruct (dedup_loop_grows rest result lastEnd) as [more ->].
      apply explained_grows.
      destruct Hst as [[_ ->]|(k & Hk & ->)].
      * right. now left.
      * right. right. exists k. split; [exact Hk | now left].
    + destruct (existsb (is_duplicate x) result) eqn:E2.
      * apply existsb_exists in E2 as (k & Hk & Hd).
        destruct (dedup_loop_grows rest result lastEnd) as [more ->].
        apply explained_grows. right. right. exists k.
        split; [exact Hk | now right].
      * destruct (dedup_loop_grows rest (result ++ [x]) (ent_endChar x))
          as [more ->].
        left. apply in_or_app. left. apply in_or_app. right. now left.
  - destruct (ent_startChar x <? lastEnd); [now apply IH|].
    destruct (existsb (is_duplicate x) result); now apply IH.
Qed.

Lemma dedup_loop_incl sorted :
  forall result lastEnd e,
    In e (dedup_loop sorted result lastEnd) -> In e result \/ In e sorted.
Proof.
  induction sorted as [|x rest IH]; intros result lastEnd e H;
    cbn [dedup_loop] in H; [now left|].
  destruct (ent_startChar x <? lastEnd).
  { destruct (IH _ _ _ H); [now left | right; now right]. }
  destruct (existsb (is_duplicate x) result).
  { destruct (IH _ _ _ H); [now left | right; now right]. }
  destruct (IH _ _ _ H) as [H0|H0]; [|right; now right].
  apply in_app_or in H0 as [H0|[<-|[]]]; [now left | right; now left].
Qed.

(** Consecutive kept entities: the next starts at or after the end of
    the one before. *)
Lemma dedup_loop_steps sorted :
  forall result lastEnd,
    (forall i a b, nth_error result i = Some a ->
                   nth_error result (S i) = Some b ->
                   ent_endChar a <= ent_startChar b) ->
    match rev result with
    | k :: _ => lastEnd = ent_endChar k
    | [] => True
    end ->
    forall i a b,
      nth_error (dedup_loop sorted result lastEnd) i = Some a ->
      nth_error (dedup_loop sorted result lastEnd) (S i) = Some b ->
      ent_endChar a <= ent_startChar b.
Proof.
  induction sorted as [|x rest IH]; intros result lastEnd Hres Hlast;
    cbn [dedup_loop]; [exact Hres|].
  destruct (ent_startChar x <? lastEnd) eqn:E1;
    [apply IH; [exact Hres | exact Hlast]|].
  destruct (existsb (is_duplicate x) result);
    [apply IH; [exact Hres | exact Hlast]|].
  apply Z.ltb_ge in E1.
  apply IH; [|now rewrite rev_app_distr].
  intros i a b Ha Hb.
  destruct (Nat.lt_ge_cases (S i) (List.length result)) as [Hlt|Hge].
  - rewrite nth_error_app1 in Ha, Hb by lia. now apply (Hres i).
  - rewrite nth_error_app2 in Hb by lia.
    assert (Hi : S i = List.length result).
    { destruct (S i - List.length result)%nat as [|n] eqn:En; [lia|].
      destruct n; discriminate. }
    rewrite Hi, Nat.sub_diag in Hb. injection Hb as <-.
    rewrite nth_error_app1 in Ha by lia.
    assert (Hr : rev result = a :: rev (firstn i result)).
    { rewrite <- (firstn_skipn i result) at 1.
      assert (Hs : skipn i result = [a]).
      { rewrite <- (firstn_skipn i result) in Ha.
        rewrite nth_error_app2 in Ha by (rewrite length_firstn; lia).
        rewrite length_firstn, Nat.min_l, Nat.sub_diag in Ha by lia.
        destruct (skipn i result) as [|y [|z l]] eqn:Es; try discriminate.
        - cbn in Ha. congruence.
        - exfalso. assert (List.length (skipn i result) = 1%nat)
            by (rewrite length_skipn; lia).
          rewrite Es in H. discriminate. }
      rewrite Hs, rev_app_distr. reflexivity. }
    rewrite Hr in Hlast. lia.
Qed.

Local Open Scope Q_scope.

Lemma calculateConfidence_range (tokens : list Token) (ty : EntityType) :
  0.5 <= calculateConfidence tokens ty /\ calculateConfidence tokens ty <= 0.95.
Proof.
  unfold calculateConfidence. split; [|apply Math_min_r].
  apply Math_min_glb; [|discriminate].
  assert (H0 : 0 <= Math_min (num (List.length tokens) * 0.05) 0.2).
  { apply Math_min_glb; [|discriminate].
    pose proof (num_nonneg (List.length tokens)). lra. }
  repeat match goal with
         | |- context [if ?b then _ else _] => destruct b
         end; lra.
Qed.

Lemma token_entities_confident fuel :
  forall l, Forall confident (token_entities fuel l).
Proof.
  induction fuel as [|f IH]; intros l; cbn [token_entities]; [constructor|].
  destruct l as [|token rest]; [constructor|].
  destruct (negb (isAlpha token)); [apply IH|].
  destruct (if isCapitalized (tok_text token)
            then extractCapitalizedSequence (token :: rest) else [])
    as [|k ks] eqn:E.
  - destruct (checkKnownEntity (toLowerCase (tok_text token)));
      [|apply IH].
    constructor; [|apply IH]. split; discriminate.
  - apply Forall_app. split; [|apply IH].
    unfold sequence_entity. destruct (classifyEntity (k :: ks)); [|constructor].
    constructor; [|constructor]. apply calculateConfidence_range.
Qed.

Section Patterns.
Variable regex_matches : Pattern -> text -> list (nat * text).

Lemma exec_entities_confident ps ty c t :
  0.5 <= c /\ c <= 0.95 ->
  Forall confident (exec_entities regex_matches ps ty c t).
Proof.
  intros Hc. unfold exec_entities. apply Forall_forall. intros e He.
  apply in_flat_map in He as [p [_ He]].
  apply in_map_iff in He as [m [<- _]]. exact Hc.
Qed.

Lemma match_entities_confident p ty t :
  Forall confident (match_entities regex_matches p ty t).
Proof.
  unfold match_entities. apply Forall_forall. intros e He.
  apply in_map_iff in He as [m [<- _]]. split; discriminate.
Qed.

Lemma extractPatternEntities_confident t :
  Forall confident (extractPatternEntities regex_matches t).
Proof.
  unfold extractPatternEntities.
  do 4 (apply Forall_app; split; [apply match_entities_confident|]).
  do 4 (apply Forall_app; split;
        [apply exec_entities_confident; split; discriminate|]).
  apply exec_entities_confident; split; discriminate.
Qed.

End Patterns.

Lemma deduplicateEntities_incl (entities : list NamedEntity) (e : NamedEntity) :
  In e (deduplicateEntities entities) -> In e entities.
Proof.
  unfold deduplicateEntities. intros H.
  apply dedup_loop_incl in H as [[]|H]. now apply sort_In in H.
Qed.

Lemma getEntityFrequencies_fold (entities : list NamedEntity) (k : text) :
  forall f : Map (nat * EntityType),
    Map_get
      (fold_left
         (fun (frequencies : Map (nat * EntityType)) entity =>
            let key := toLowerCase (ent_text entity) in
            match Map_get frequencies key with
            | Some existing =>
                Map_set frequencies key (S (fst existing), snd existing)
            | None => Map_set frequencies key (1%nat, ent_type entity)
            end) entities f) k
    = recorded (named k entities) (Map_get f k).
Proof.
  induction entities as [|e entities IH]; intros f; [reflexivity|].
  cbn [fold_left]. rewrite IH. unfold named. cbn [filter]. cbv zeta.
  destruct (text_eqb (toLowerCase (ent_text e)) k) eqn:E.
  - apply text_eqb_eq in E. subst k.
    destruct (Map_get f (toLowerCase (ent_text e))) as [[n ty]|] eqn:G;
      rewrite Map_get_set_same; cbn [fst snd recorded List.length];
      destruct (filter _ entities); cbn [recorded List.length];
      try reflexivity; (f_equal; f_equal; lia).
  - apply text_eqb_neq in E.
    destruct (Map_get f (toLowerCase (ent_text e))) as [[n ty]|];
      now rewrite Map_get_set_other.
Qed.

Lemma pop_connectors_head (x : list Token) :
  match pop_connectors x with
  | k :: _ => isEntityConnector (tok_text k) = false
  | [] => True
  end.
Proof.
  induction x as [|k x IH]; cbn [pop_connectors]; [exact I|].
  destruct (isEntityConnector (tok_text k)) eqn:E; [exact IH | exact E].
Qed.

Lemma capitalized_run_head (l : list Token) :
  match capitalized_run l false with
  | k :: _ => isCapitalized (tok_text k) = true
  | [] => True
  end.
Proof.
  destruct l as [|k l]; cbn [capitalized_run]; [exact I|].
  cbn [andb]. rewrite orb_false_r.
  destruct (isCapitalized (tok_text k)) eqn:E; [exact E | exact I].
Qed.

Lemma sequence_shape (l : list Token) :
  let sequence := extractCapitalizedSequence l in
  (exists r, l = sequence ++ r)
  /\ match sequence with
     | k :: _ => isCapitalized (tok_text k) = true
     | [] => True
     end
  /\ match rev sequence with
     | k :: _ => isEntityConnector (tok_text k) = false
     | [] => True
     end.
Proof.
  cbv zeta. split; [apply sequence_prefix|]. unfold extractCapitalizedSequence.
  split.
  - destruct (pop_connectors_suffix (rev (capitalized_run l false))) as [p Hp].
    pose proof (capitalized_run_head l) as Hh.
    assert (Hr : capitalized_run l false
                 = rev (pop_connectors (rev (capitalized_run l false)))
                   ++ rev p).
    { rewrite <- rev_app_distr, <- Hp. now rewrite rev_involutive. }
    destruct (rev (pop_connectors (rev (capitalized_run l false))))
      as [|k ks]; [exact I|].
    rewrite Hr in Hh. exact Hh.
  - rewrite rev_involutive. apply pop_connectors_head.
Qed.

(** *** Confidence in every reachable state *)

Lemma recognize_confident rx t w :
  confident_cache w ->
  Forall confident (fst (recognize rx t w))
  /\ confident_cache (snd (recognize rx t w)).
Proof.
  apply (call_preserves (engine rx) (Forall confident) confident_cache).
  - apply NamedEntityRecognizer_lawful.
  - intros w0 H. exact H.
  - intros i w0 H. cbn [compute engine]. unfold recognize_uncached.
    rewrite bind_run. cbn [ret fst snd]. split.
    + apply Forall_forall. intros e He.
      apply deduplicateEntities_incl, in_app_or in He.
      destruct He as [He|He].
      * pose proof (extractPatternEntities_confident rx i) as Hp.
        rewrite Forall_forall in Hp. now apply Hp.
      * pose proof (token_entities_confident
                      (List.length (fst (Tokenizer.tokenize i w0)))
                      (fst (Tokenizer.tokenize i w0))) as Hp.
        rewrite Forall_forall in Hp. now apply Hp.
    + unfold confident_cache.
      now rewrite (proj2 (proj2 (proj2 (tokenize_frame i w0)))).
  - intros c w0 _ Hc. exact Hc.
Qed.

Lemma reachable_confident w : reachable w -> confident_cache w.
Proof.
  induction 1 as [|w t _ IH|w t _ IH|w t _ IH|w t _ IH|w log cfg t corpus _ IH
                 |w rx t _ IH|w _ IH|w _ IH|w _ IH|w log cfg _ IH|w rx _ IH];
    unfold confident_cache in *.
  - constructor.
  - now rewrite (proj2 (proj2 (proj2 (tokenize_frame t w)))).
  - now rewrite (proj2 (proj2 (split_frame t w))).
  - now rewrite (proj2 (analyze_frame t w)).
  - unfold SentimentAnalyzer.analyzeEmotions. rewrite bind_run. cbn [ret snd].
    now rewrite (proj2 (proj2 (proj2 (tokenize_frame t w)))).
  - now rewrite extract_frame.
  - now apply recognize_confident.
  - exact IH.
  - exact IH.
  - exact IH.
  - exact IH.
  - constructor.
Qed.

End NERMore.

(** ** More on the keyword extractor *)

Module KeywordMore.
Import Props JSFacts CacheFacts SentimentFacts NERFacts WorldFacts CacheMore.
Import TokenizerMore SentimentMore SplitterMore KeywordExtractor.


Lemma Map_set_keys_In {V} (m : Map V) (k0 : text) (v : V) (k : text) :
  In k (Map_keys (Map_set m k0 v)) <-> k = k0 \/ In k (Map_keys m).
Proof.
  induction m as [|[k1 v1] m IH]; cbn [Map_set Map_keys List.map fst In].
  - intuition congruence.
  - destruct (text_eqb k1 k0) eqn:E; cbn [Map_keys List.map fst In].
    + apply text_eqb_eq in E. subst. intuition congruence.
    + unfold Map_keys in IH. rewrite IH. intuition congruence.
Qed.

Lemma combine_keyword_keys (mx : Q) (m : Map Combined) (kw : ScoredKeyword)
    (k : text) :
  In k (Map_keys (combine_keyword mx m kw))
  <-> k = keyword kw \/ In k (Map_keys m).
Proof.
  unfold combine_keyword.
  destruct (Map_get m (keyword kw)); apply Map_set_keys_In.
Qed.

Lemma combine_keyword_NoDup (mx : Q) (m : Map Combined) (kw : ScoredKeyword) :
  NoDup (Map_keys m) -> NoDup (Map_keys (combine_keyword mx m kw)).
Proof.
  unfold combine_keyword.
  destruct (Map_get m (keyword kw)); apply Map_set_keys_NoDup.
Qed.

Lemma combine_set_keys (kws : list ScoredKeyword) (k : text) :
  forall m : Map Combined,
    In k (Map_keys (combine_set m kws))
    <-> In k (List.map keyword kws) \/ In k (Map_keys m).
Proof.
  unfold combine_set.
  generalize (fold_left Math_max (List.map kw_score kws) 0.001%Q) as mx.
  intros mx. induction kws as [|kw kws IH]; intros m; cbn [fold_left List.map In].
  - tauto.
  - rewrite IH, combine_keyword_keys. intuition congruence.
Qed.

Lemma combine_set_NoDup (kws : list ScoredKeyword) :
  forall m : Map Combined,
    NoDup (Map_keys m) -> NoDup (Map_keys (combine_set m kws)).
Proof.
  unfold combine_set.
  generalize (fold_left Math_max (List.map kw_score kws) 0.001%Q) as mx.
  intros mx. induction kws as [|kw kws IH]; intros m H; cbn [fold_left];
    [exact H|].
  apply IH. now apply combine_keyword_NoDup.
Qed.

Lemma combine_sets_keys (sets : list (list ScoredKeyword)) (k : text) :
  forall m : Map Combined,
    In k (Map_keys (fold_left combine_set sets m))
    <-> (exists s, In s sets /\ In k (List.map keyword s))
        \/ In k (Map_keys m).
Proof.
  induction sets as [|s sets IH]; intros m; cbn [fold_left In].
  - split; [now right | intros [(s & [] & _)|H]; exact H].
  - rewrite IH, combine_set_keys. split.
    + intros [(s' & Hs & Hk)|[Hk|Hk]].
      * left. exists s'. split; [now right | exact Hk].
      * left. exists s. split; [now left | exact Hk].
      * now right.
    + intros [(s' & [<-|Hs] & Hk)|Hk].
      * right. now left.
      * left. exists s'. now split.
      * right. now right.
Qed.

Lemma combine_sets_NoDup (sets : list (list ScoredKeyword)) :
  forall m : Map Combined,
    NoDup (Map_keys m) -> NoDup (Map_keys (fold_left combine_set sets m)).
Proof.
  induction sets as [|s sets IH]; intros m H; cbn [fold_left]; [exact H|].
  apply IH. now apply combine_set_NoDup.
Qed.

Lemma combineKeywords_keywords (sets : list (list ScoredKeyword)) :
  Permutation (List.map keyword (combineKeywords sets))
    (Map_keys (fold_left combine_set sets [])).
Proof.
  unfold combineKeywords. cbv zeta.
  rewrite (Permutation_map keyword (sort_perm _ by_score _)).
  rewrite map_map. cbn [keyword]. reflexivity.
Qed.

Lemma firstn_NoDup {A} (n : nat) (l : list A) : NoDup l -> NoDup (firstn n l).
Proof.
  intros H. rewrite <- (firstn_skipn n l) in H.
  now apply NoDup_app_remove_r in H.
Qed.

Lemma combineKeywords_spec (sets : list (list ScoredKeyword)) :
  NoDup (List.map keyword (combineKeywords sets))
  /\ forall k, In k (List.map keyword (combineKeywords sets))
               <-> exists s, In s sets /\ In k (List.map keyword s).
Proof.
  pose proof (combineKeywords_keywords sets) as Hp. split.
  - apply (Permutation_NoDup (Permutation_sym Hp)).
    apply combine_sets_NoDup. constructor.
  - intros k. split.
    + intros H. apply (Permutation_in _ Hp) in H.
      apply combine_sets_keys in H as [H|[]]. exact H.
    + intros H. apply (Permutation_in _ (Permutation_sym Hp)).
      apply combine_sets_keys. now left.
Qed.

Local Open Scope Q_scope.







Lemma or_default_nonneg (o : option Q) (d : Q) :
  0 <= d -> (forall q, o = Some q -> 0 <= q) -> 0 <= or_default o d.
Proof.
  intros Hd Ho. unfold or_default. destruct o as [q|]; [|exact Hd].
  destruct (Qeq_bool q 0); [exact Hd | now apply Ho].
Qed.

Lemma Map_get_Forall {V} (P : text * V -> Prop) (m : Map V) (k : text) (v : V) :
  Forall P m -> Map_get m k = Some v -> P (k, v).
Proof.
  intros H Hg. apply Map_get_In in Hg. rewrite Forall_forall in H.
  now apply H.
Qed.

Lemma Map_set_Forall {V} (P : text * V -> Prop) (m : Map V) (k : text) (v : V) :
  Forall P m -> P (k, v) -> Forall P (Map_set m k v).
Proof.
  intros H Hv. apply Forall_forall. intros x Hx.
  apply Map_set_incl in Hx. destruct Hx as [<-|Hx]; [exact Hv|].
  rewrite Forall_forall in H. now apply H.
Qed.

Lemma edges_of_ok (g : Graph) (w : text) :
  weights_ok g -> Forall (fun e : text * Q => 0 <= snd e) (edges_of g w).
Proof.
  intros H. unfold edges_of. destruct (Map_get g w) as [e|] eqn:E; [|constructor].
  exact (Map_get_Forall _ g w e H E).
Qed.

Lemma bump_ok (g : Graph) (a b : text) :
  weights_ok g ->
  weights_ok (Map_set g a
                (Map_set (edges_of g a) b
                   (or_default (Map_get (edges_of g a) b) 0 + 1))).
Proof.
  intros H. apply Map_set_Forall; [exact H|]. cbn [snd].
  pose proof (edges_of_ok g a H) as He.
  apply Map_set_Forall; [exact He|]. cbn [snd].
  assert (0 <= or_default (Map_get (edges_of g a) b) 0); [|lra].
  apply or_default_nonneg; [apply Qle_refl|]. intros q Hq.
  exact (Map_get_Forall _ _ b q He Hq).
Qed.

Lemma ensure_ok (g : Graph) (a : text) :
  weights_ok g -> weights_ok (if Map_has g a then g else Map_set g a []).
Proof.
  intros H. destruct (Map_has g a); [exact H|].
  apply Map_set_Forall; [exact H | constructor].
Qed.

Lemma addEdge_ok (g : Graph) (a b : text) :
  weights_ok g -> weights_ok (addEdge g a b).
Proof.
  intros H. unfold addEdge. destruct (text_eqb a b); [exact H|]. cbv zeta.
  apply bump_ok, bump_ok, ensure_ok, ensure_ok, H.
Qed.

Lemma ensure_keys (ws : list text) (g : Graph) (a : text) :
  In a ws -> keys_within ws g ->
  keys_within ws (if Map_has g a then g else Map_set g a []).
Proof.
  intros Ha H. destruct (Map_has g a); [exact H|].
  intros k Hk. apply Map_set_keys_In in Hk as [->|Hk]; [exact Ha | now apply H].
Qed.


Lemma bump_keys (ws : list text) (g : Graph) (a : text) (e : Map Q) :
  In a ws -> keys_within ws g -> keys_within ws (Map_set g a e).
Proof.
  intros Ha H k Hk.
  apply Map_set_keys_In in Hk as [->|Hk]; [exact Ha | now apply H].
Qed.

Lemma addEdge_keys (ws : list text) (g : Graph) (a b : text) :
  In a ws -> In b ws -> keys_within ws g -> keys_within ws (addEdge g a b).
Proof.
  intros Ha Hb H. unfold addEdge. destruct (text_eqb a b); [exact H|].
  cbv zeta.
  apply bump_keys; [exact Hb|]. apply bump_keys; [exact Ha|].
  apply ensure_keys; [exact Hb|]. apply ensure_keys; [exact Ha | exact H].
Qed.

Lemma window_edges_inv (ws : list text) (l : list Token) (g : Graph) :
  (forall t, In t l -> In (lemma_of t) ws) ->
  weights_ok g /\ keys_within ws g ->
  weights_ok (window_edges g l) /\ keys_within ws (window_edges g l).
Proof.
  intros Hl Hg. destruct l as [|t rest]; [exact Hg|]. cbn [window_edges].
  assert (Ht : In (lemma_of t) ws) by (apply Hl; now left).
  assert (Hr : forall u, In u (firstn 2 rest) -> In (lemma_of u) ws).
  { intros u Hu. apply Hl. right. eapply in_firstn, Hu. }
  revert g Hg. induction (firstn 2 rest) as [|u us IH]; intros g Hg;
    cbn [fold_left]; [exact Hg|].
  apply IH.
  - intros v Hv. apply Hr. now right.
  - destruct Hg as [H1 H2]. split; [now apply addEdge_ok|].
    apply addEdge_keys; [exact Ht | apply Hr; now left | exact H2].
Qed.

Lemma build_graph_inv (ws : list text) (l : list Token) :
  forall g,
    (forall t, In t l -> In (lemma_of t) ws) ->
    weights_ok g /\ keys_within ws g ->
    weights_ok (build_graph g l) /\ keys_within ws (build_graph g l).
Proof.
  induction l as [|t rest IH]; intros g Hl Hg; cbn [build_graph]; [exact Hg|].
  apply IH; [intros u Hu; apply Hl; now right|].
  now apply window_edges_inv.
Qed.


Lemma node_score_ge (g : Graph) (scores node_edges : Map Q) :
  weights_ok g -> scores_ok scores ->
  Forall (fun e : text * Q => 0 <= snd e) node_edges ->
  0.15 <= node_score g scores node_edges.
Proof.
  intros Hg Hs. unfold node_score.
  assert (H0 : 0.15 <= 1 - dampingFactor) by discriminate.
  revert H0. generalize (1 - dampingFactor) as acc.
  induction node_edges as [|[n w] es IH]; intros acc Hacc He;
    cbn [fold_left]; [exact Hacc|].
  inversion He as [|? ? Hw He']; subst. cbn [fst snd] in *.
  apply IH; [|exact He'].
  destruct (Map_get g n) as [ne|]; [|exact Hacc].
  destruct (negb (Qle_bool (fold_left Qplus (List.map snd ne) 0) 0)) eqn:E;
    [|exact Hacc].
  apply negb_true_iff in E.
  assert (Ht : 0 < fold_left Qplus (List.map snd ne) 0).
  { apply Qnot_le_lt. intros H. apply Qle_bool_iff in H. congruence. }
  set (total := fold_left Qplus (List.map snd ne) 0) in *.
  assert (Hd : 0 <= w / total) by (apply div_nonneg; assumption).
  assert (Hsc : 0 <= or_default (Map_get scores n) 1).
  { apply or_default_nonneg; [discriminate|]. intros q Hq.
    pose proof (Map_get_Forall _ scores n q Hs Hq) as H. cbn [snd] in H. lra. }
  assert (0 <= dampingFactor * (w / total) * or_default (Map_get scores n) 1).
  { apply mult_nonneg; [|exact Hsc]. apply mult_nonneg; [discriminate|exact Hd]. }
  lra.
Qed.

Lemma sweep_fold_inv (ws : list text) (g : Graph) (nodes : Graph) :
  weights_ok g ->
  Forall (fun n : text * Map Q =>
            Forall (fun e : text * Q => 0 <= snd e) (snd n)
            /\ In (fst n) ws) nodes ->
  forall acc : Map Q * Q,
    scores_ok (fst acc) /\ (forall k, In k (Map_keys (fst acc)) -> In k ws) ->
    let acc' :=
      fold_left
        (fun (acc : Map Q * Q) (n : text * Map Q) =>
           let (scores, maxDiff) := acc in
           let newScore := node_score g scores (snd n) in
           let oldScore := or_default (Map_get scores (fst n)) 1 in
           (Map_set scores (fst n) newScore,
            Math_max maxDiff (Math_abs (newScore - oldScore))))
        nodes acc in
    scores_ok (fst acc') /\ (forall k, In k (Map_keys (fst acc')) -> In k ws).
Proof.
  intros Hg Hnodes.
  induction Hnodes as [|n rest [Hn1 Hn2] _ IH]; intros [scores maxDiff] Hs;
    cbn [fold_left]; [exact Hs|].
  apply IH. cbn [fst] in *. destruct Hs as [Hs1 Hs2]. split.
  - apply Map_set_Forall; [exact Hs1|]. cbn [snd].
    now apply node_score_ge.
  - intros k Hin. apply Map_set_keys_In in Hin as [->|Hin];
      [exact Hn2 | now apply Hs2].
Qed.

Lemma sweep_inv (ws : list text) (g : Graph) (scores : Map Q) :
  weights_ok g -> keys_within ws g ->
  scores_ok scores /\ (forall k, In k (Map_keys scores) -> In k ws) ->
  scores_ok (fst (sweep g scores))
  /\ (forall k, In k (Map_keys (fst (sweep g scores))) -> In k ws).
Proof.
  intros Hg Hk Hs. unfold sweep.
  apply (sweep_fold_inv ws g g Hg); [|exact Hs].
  apply Forall_forall. intros n Hn. split.
  - unfold weights_ok in Hg. rewrite Forall_forall in Hg. now apply Hg.
  - apply Hk. unfold Map_keys. now apply in_map.
Qed.

Lemma iterate_inv (ws : list text) (g : Graph) (n : nat) :
  weights_ok g -> keys_within ws g ->
  forall scores,
    scores_ok scores /\ (forall k, In k (Map_keys scores) -> In k ws) ->
    scores_ok (iterate g n scores)
    /\ (forall k, In k (Map_keys (iterate g n scores)) -> In k ws).
Proof.
  intros Hg Hk. induction n as [|n IH]; intros scores Hs; cbn [iterate];
    [exact Hs|].
  pose proof (sweep_inv ws g scores Hg Hk Hs) as H.
  destruct (sweep g scores) as [scores' maxDiff]. cbn [fst] in H.
  destruct (negb (Qle_bool convergenceThreshold maxDiff)); [exact H|].
  now apply IH.
Qed.

Lemma init_scores_inv (ws : list text) (nodes : Graph) :
  forall init : Map Q,
    scores_ok init /\ (forall k, In k (Map_keys init) -> In k ws) ->
    (forall n, In n nodes -> In (fst n) ws) ->
    scores_ok (fold_left (fun s (n : text * Map Q) => Map_set s (fst n) 1)
                 nodes init)
    /\ (forall k,
           In k (Map_keys
                   (fold_left (fun s (n : text * Map Q) => Map_set s (fst n) 1)
                      nodes init)) ->
           In k ws).
Proof.
  induction nodes as [|n nodes IH]; intros init Hi Hn; cbn [fold_left];
    [exact Hi|].
  apply IH; [|intros m Hm; apply Hn; now right].
  destruct Hi as [H1 H2]. split.
  - apply Map_set_Forall; [exact H1 | discriminate].
  - intros k Hin. apply Map_set_keys_In in Hin as [->|Hin];
      [apply Hn; now left | now apply H2].
Qed.

Lemma calculate_inv (ws : list text) (g : Graph) :
  weights_ok g -> keys_within ws g ->
  scores_ok (calculate g)
  /\ (forall k, In k (Map_keys (calculate g)) -> In k ws).
Proof.
  intros Hg Hk. unfold calculate. apply iterate_inv; [exact Hg | exact Hk|].
  apply init_scores_inv.
  - split; [constructor | intros k []].
  - intros n Hn. apply Hk. unfold Map_keys. now apply in_map.
Qed.

Lemma extractTextRank_spec (cfg : KeywordConfig) (tokens : list Token) :
  Forall (fun kw =>
            0.15 <= kw_score kw
            /\ (1 <= frequency kw)%Z
            /\ method kw = str "textrank"
            /\ exists token,
                 In token tokens /\ isAlpha token = true
                 /\ isStopWord token = false
                 /\ lemma_of token = keyword kw)
    (extractTextRank cfg tokens).
Proof.
  unfold extractTextRank. cbv zeta.
  set (ct := filter _ tokens).
  destruct (build_graph_inv (List.map lemma_of ct) ct [])
    as [Hg Hk].
  { intros t Ht. now apply in_map. }
  { split; [constructor | intros k []]. }
  destruct (calculate_inv _ _ Hg Hk) as [Hs Hkeys].
  apply Forall_forall. intros kw Hkw. apply sort_In in Hkw.
  apply in_map_iff in Hkw as [[k q] [<- Hin]].
  cbn [kw_score frequency method keyword fst snd].
  assert (Hw : In k (List.map lemma_of ct)).
  { apply Hkeys. unfold Map_keys. now apply (in_map fst) in Hin. }
  apply in_map_iff in Hw as [token [Hl Ht]].
  split; [|split; [|split; [reflexivity|]]].
  - unfold scores_ok in Hs. rewrite Forall_forall in Hs. now apply (Hs (k, q)).
  - unfold count_lemma.
    assert (Hf : In token (filter (fun t => text_eqb (lemma_of t) k) ct)).
    { apply filter_In. split; [exact Ht|]. now apply text_eqb_eq. }
    destruct (filter (fun t => text_eqb (lemma_of t) k) ct); [destruct Hf|].
    cbn [List.length]. lia.
  - exists token. unfold ct in Ht. apply filter_In in Ht as [Hin' Hc].
    apply andb_true_iff in Hc as [Hc _].
    apply andb_true_iff in Hc as [Ha Hb].
    apply negb_true_iff in Hb. repeat split; assumption.
Qed.


Lemma count_word_ok (m : Map Q) (w : text) :
  counts_ok m -> counts_ok (count_word m w).
Proof.
  intros H. unfold count_word. apply Map_set_Forall; [exact H|]. cbn [snd].
  unfold or_default. destruct (Map_get m w) as [q|] eqn:E.
  - destruct (Qeq_bool q 0); [exists 1%Z; split; [lia | reflexivity]|].
    destruct (Map_get_Forall _ m w q H E) as (n & Hn & Hq). cbn [snd] in Hq.
    exists (n + 1)%Z. split; [lia|]. rewrite Hq, inject_Z_plus. reflexivity.
  - exists 1%Z. split; [lia | reflexivity].
Qed.

Lemma count_words_inv (texts : list text) :
  forall m,
    counts_ok m ->
    counts_ok (fold_left count_word texts m)
    /\ forall k, In k (Map_keys (fold_left count_word texts m)) ->
                 In k texts \/ In k (Map_keys m).
Proof.
  induction texts as [|t texts IH]; intros m Hm; cbn [fold_left].
  - split; [exact Hm | now right].
  - destruct (IH (count_word m t) (count_word_ok m t Hm)) as [H1 H2].
    split; [exact H1|]. intros k Hk. apply H2 in Hk as [Hk|Hk].
    + left. now right.
    + unfold count_word in Hk. apply Map_set_keys_In in Hk as [->|Hk];
        [left; now left | now right].
Qed.

Lemma ngrams_at_length (n : nat) (l : list Token) :
  Forall (fun g => List.length g = n) (ngrams_at n l).
Proof.
  induction l as [|t rest IH]; cbn [ngrams_at]; [constructor|].
  destruct (n <=? List.length (t :: rest))%nat eqn:E; [|constructor].
  apply Nat.leb_le in E. constructor; [|exact IH].
  rewrite length_firstn. lia.
Qed.

Lemma join_has_space (a b : text) (rest : list text) :
  In 32%N (join (str " ") (a :: b :: rest)).
Proof.
  cbn [join]. apply in_or_app. right. apply in_or_app. left. now left.
Qed.

Lemma space_parts_ge (s : text) : In 32%N s -> (2 <= space_parts s)%nat.
Proof.
  intros H. unfold space_parts.
  assert (Hf : In 32%N (filter (N.eqb 32) s))
    by (apply filter_In; split; [exact H | reflexivity]).
  destruct (filter (N.eqb 32) s); [destruct Hf|]. cbn [List.length]. lia.
Qed.

Lemma extractNGrams_spec (tokens : list Token) :
  Forall (fun kw =>
            4 <= kw_score kw
            /\ (2 <= frequency kw)%Z
            /\ method kw = str "ngram"
            /\ In 32%N (keyword kw))
    (extractNGrams tokens).
Proof.
  unfold extractNGrams. cbv zeta.
  set (ct := filter _ tokens).
  set (texts := List.map _ (filter keep_ngram _)).
  destruct (count_words_inv texts []) as [Hc Hk]; [constructor|].
  assert (Htexts : forall k, In k texts -> In 32%N k).
  { intros k Hin. unfold texts in Hin.
    apply in_map_iff in Hin as [g [<- Hg]].
    apply filter_In in Hg as [Hg _].
    assert (Hlen : (2 <= List.length g)%nat).
    { apply in_app_or in Hg as [Hg|Hg].
      - pose proof (ngrams_at_length 2 ct) as H.
        rewrite Forall_forall in H. rewrite (H g Hg). lia.
      - pose proof (ngrams_at_length 3 ct) as H.
        rewrite Forall_forall in H. rewrite (H g Hg). lia. }
    destruct g as [|a [|b rest]]; cbn [List.length] in Hlen; try lia.
    cbn [List.map]. apply join_has_space. }
  apply Forall_forall. intros kw Hkw. apply sort_In in Hkw.
  apply in_map_iff in Hkw as [[k c] [<- Hin]].
  cbn [kw_score frequency method keyword fst snd].
  apply filter_In in Hin as [Hin Hge]. cbn [snd] in Hge.
  apply Qle_bool_iff in Hge.
  assert (Hsp : In 32%N k).
  { apply Htexts.
    destruct (Hk k) as [H|[]]; [|exact H].
    unfold Map_keys. now apply (in_map fst) in Hin. }
  unfold counts_ok in Hc. rewrite Forall_forall in Hc.
  destruct (Hc (k, c) Hin) as (n & Hn & Hq). cbn [snd] in Hq.
  pose proof (space_parts_ge k Hsp) as Hp.
  assert (Hp' : 2 <= num (space_parts k)).
  { unfold num. change 2 with (inject_Z 2). rewrite <- Zle_Qle. lia. }
  split; [|split; [|split; [reflexivity | exact Hsp]]].
  - nra.
  - rewrite Hq, Qfloor_Z. rewrite Hq in Hge.
    change 2 with (inject_Z 2) in Hge. now rewrite <- Zle_Qle in Hge.
Qed.

(** *** Distinct keywords in every reachable state *)

Lemma extract_uncached_distinct log cfg i w :
  NoDup (List.map keyword
           (keywords (fst (KeywordExtractor.extract_uncached log cfg i w)))).
Proof.
  destruct i as [t corpus]. unfold KeywordExtractor.extract_uncached.
  rewrite !bind_run. cbn [ret fst keywords].
  rewrite <- firstn_map. apply firstn_NoDup, combineKeywords_spec.
Qed.

Lemma extract_distinct log cfg t corpus w :
  distinct_cache w ->
  NoDup (List.map keyword
           (keywords (fst (KeywordExtractor.extract log cfg t corpus w))))
  /\ distinct_cache (snd (KeywordExtractor.extract log cfg t corpus w)).
Proof.
  apply (call_preserves (KeywordExtractor.engine log cfg)
           (fun r => NoDup (List.map keyword (keywords r))) distinct_cache).
  - apply KeywordExtractor_lawful.
  - intros w0 H. exact H.
  - intros i w0 H. split; [apply extract_uncached_distinct|].
    unfold distinct_cache.
    pose proof (KeywordExtractor_untouched log cfg i w0) as Hu.
    cbn [cache_get KeywordExtractor.engine] in Hu. now rewrite Hu.
  - intros c w0 _ Hc. exact Hc.
Qed.

Lemma reachable_distinct w : reachable w -> distinct_cache w.
Proof.
  induction 1 as [|w t _ IH|w t _ IH|w t _ IH|w t _ IH|w log cfg t corpus _ IH
                 |w rx t _ IH|w _ IH|w _ IH|w _ IH|w log cfg _ IH|w rx _ IH];
    unfold distinct_cache in *.
  - constructor.
  - now rewrite (proj1 (proj2 (proj2 (tokenize_frame t w)))).
  - now rewrite (proj1 (proj2 (split_frame t w))).
  - now rewrite (proj1 (analyze_frame t w)).
  - unfold SentimentAnalyzer.analyzeEmotions. rewrite bind_run. cbn [ret snd].
    now rewrite (proj1 (proj2 (proj2 (tokenize_frame t w)))).
  - now apply extract_distinct.
  - now rewrite recognize_frame.
  - exact IH.
  - exact IH.
  - exact IH.
  - constructor.
  - exact IH.
Qed.

End KeywordMore.

(** ** What every cached token list satisfies *)

Module WorldMore.
Import Props JSFacts CacheFacts SentimentFacts NERFacts WorldFacts.
Import TokenizerMore CacheMore.

Section TokenCache.
Variable P : list Token -> Prop.
Hypothesis P_tokenize : forall t, P (Tokenizer.tokenize_uncached t).

Lemma preserves_ret {A} (Inv : World -> Prop) (a : A) : preserves Inv (ret a).
Proof. intros w H. exact H. Qed.

Lemma preserves_bind {A B} (Inv : World -> Prop) (m : M A) (k : A -> M B) :
  preserves Inv m -> (forall a, preserves Inv (k a)) -> preserves Inv (bind m k).
Proof.
  intros Hm Hk w H. rewrite bind_run. apply Hk, Hm, H.
Qed.

Lemma preserves_mapM {A B} (Inv : World -> Prop) (f : A -> M B) (l : list A) :
  (forall a, preserves Inv (f a)) -> preserves Inv (mapM f l).
Proof.
  intros Hf. induction l as [|a l IH]; cbn [mapM]; [apply preserves_ret|].
  apply preserves_bind; [apply Hf|]. intros b.
  apply preserves_bind; [apply IH|]. intros bs. apply preserves_ret.
Qed.

Lemma tokenize_tokens t w :
  tokens_cache P w ->
  P (fst (Tokenizer.tokenize t w))
  /\ tokens_cache P (snd (Tokenizer.tokenize t w)).
Proof.
  apply (call_preserves Tokenizer.engine P (tokens_cache P)).
  - apply Tokenizer_lawful.
  - intros w0 H. exact H.
  - intros i w0 H. split; [apply P_tokenize | exact H].
  - intros c w0 _ Hc. exact Hc.
Qed.

Lemma preserves_tokenize t : preserves (tokens_cache P) (Tokenizer.tokenize t).
Proof. intros w H. now apply tokenize_tokens. Qed.

(** A call of another engine keeps the invariant when its computation
    does: storing the result leaves the cache of the tokenizer alone. *)
Lemma preserves_call {I R} (E : Engine I R) (i : I) :
  (forall c w, tokenizer_cache (cache_set E c w) = tokenizer_cache w) ->
  preserves (tokens_cache P) (compute E i) ->
  preserves (tokens_cache P) (call E i).
Proof.
  intros Hset Hcomp w H. unfold call.
  destruct (Map_get (cache_get E w) (cacheKey E i)); [exact H|].
  specialize (Hcomp w H). destruct (compute E i w) as [r w1].
  cbn [snd] in *. unfold tokens_cache in *. now rewrite Hset.
Qed.

Lemma preserves_make_sentence s a b :
  preserves (tokens_cache P) (SentenceSplitter.make_sentence s a b).
Proof.
  unfold SentenceSplitter.make_sentence.
  destruct (0 <? List.length s)%nat; [|apply preserves_ret].
  apply preserves_bind; [apply preserves_tokenize|].
  intros; apply preserves_ret.
Qed.

Lemma preserves_split_loop t bs :
  forall lastEnd,
    preserves (tokens_cache P) (SentenceSplitter.split_loop t bs lastEnd).
Proof.
  induction bs as [|b bs IH]; intros lastEnd; cbn [SentenceSplitter.split_loop].
  - destruct (lastEnd <? List.length t)%nat;
      [apply preserves_make_sentence | apply preserves_ret].
  - apply preserves_bind; [apply preserves_make_sentence|]. intros s.
    apply preserves_bind; [apply IH|]. intros; apply preserves_ret.
Qed.

Lemma preserves_split t : preserves (tokens_cache P) (SentenceSplitter.split t).
Proof.
  apply (preserves_call SentenceSplitter.engine); [reflexivity|].
  apply preserves_split_loop.
Qed.

Lemma preserves_analyze t :
  preserves (tokens_cache P) (SentimentAnalyzer.analyze t).
Proof.
  apply (preserves_call SentimentAnalyzer.engine); [reflexivity|].
  cbn [compute SentimentAnalyzer.engine].
  apply preserves_bind; [apply preserves_tokenize | intros; apply preserves_ret].
Qed.

Lemma preserves_recognize rx t :
  preserves (tokens_cache P) (NamedEntityRecognizer.recognize rx t).
Proof.
  apply (preserves_call (NamedEntityRecognizer.engine rx)); [reflexivity|].
  cbn [compute NamedEntityRecognizer.engine].
  apply preserves_bind; [apply preserves_tokenize | intros; apply preserves_ret].
Qed.

Lemma preserves_calculateForDocument log t corpus :
  preserves (tokens_cache P) (KeywordExtractor.calculateForDocument log t corpus).
Proof.
  unfold KeywordExtractor.calculateForDocument.
  apply preserves_bind; [apply preserves_tokenize|]. intros tokens.
  apply preserves_bind; [|intros; apply preserves_ret].
  destruct corpus as [[|d ds]|]; try apply preserves_ret.
  unfold KeywordExtractor.calculateIDFFromCorpus.
  apply preserves_bind; [|intros; apply preserves_ret].
  apply preserves_mapM. intros doc.
  apply preserves_bind; [apply preserves_tokenize | intros; apply preserves_ret].
Qed.

Lemma preserves_extract log cfg t corpus :
  preserves (tokens_cache P) (KeywordExtractor.extract log cfg t corpus).
Proof.
  apply (preserves_call (KeywordExtractor.engine log cfg)); [reflexivity|].
  cbn [compute KeywordExtractor.engine].
  unfold KeywordExtractor.extract_uncached.
  apply preserves_bind; [apply preserves_tokenize|]. intros tokens.
  apply preserves_bind; [apply preserves_split|]. intros sentences.
  apply preserves_bind; [|intros; apply preserves_ret].
  destruct (KeywordExtractor.useTFIDF cfg); [|apply preserves_ret].
  unfold KeywordExtractor.extractTFIDF.
  apply preserves_bind;
    [apply preserves_calculateForDocument | intros; apply preserves_ret].
Qed.

Lemma reachable_tokens w : reachable w -> tokens_cache P w.
Proof.
  induction 1 as [|w t _ IH|w t _ IH|w t _ IH|w t _ IH|w log cfg t corpus _ IH
                 |w rx t _ IH|w _ IH|w _ IH|w _ IH|w log cfg _ IH|w rx _ IH].
  - constructor.
  - now apply preserves_tokenize.
  - now apply preserves_split.
  - now apply preserves_analyze.
  - revert IH. apply (preserves_bind (tokens_cache P));
      [apply preserves_tokenize | intros; apply preserves_ret].
  - now apply preserves_extract.
  - now apply preserves_recognize.
  - constructor.
  - exact IH.
  - exact IH.
  - exact IH.
  - exact IH.
Qed.

End TokenCache.

Lemma tokenize_uncached_lemmas (t : text) :
  Forall (fun k => plain (lemma k) = true) (Tokenizer.tokenize_uncached t).
Proof.
  apply Forall_forall. intros k Hk. unfold Tokenizer.tokenize_uncached in Hk.
  destruct (tokenize_loop_lemmas _ _ _ _ _ Hk) as (raw & idx & s & e & Hin & ->).
  rewrite analyzeToken_lemma. apply plain_spec.
  apply getLemma_plain; [|apply toLowerCase_not_upper].
  pose proof (Tiling_solid _ _ (TokenizerFacts.splitIntoRawTokens_tiling t))
    as Hs.
  rewrite Forall_forall in Hs.
  destruct (Hs (Tokenizer.raw_text raw)
              (in_map Tokenizer.raw_text _ _ Hin)) as [Hne _].
  unfold toLowerCase. intros Hnil. apply map_eq_nil in Hnil. contradiction.
Qed.

Lemma tokenize_uncached_sound (t : text) :
  tokens_sound (Tokenizer.tokenize_uncached t).
Proof.
  destruct (TokenizerFacts.tokenize_uncached_spec t) as (Hc & _ & _ & Hi).
  split; [exact Hc|]. split; [exact Hi|].
  pose proof (Tiling_solid _ _ (TokenizerFacts.splitIntoRawTokens_tiling t))
    as Hsolid.
  rewrite <- tokenize_uncached_texts in Hsolid.
  apply Forall_forall. intros k Hk. rewrite Forall_forall in Hsolid.
  apply (Hsolid (tok_text k)), in_map, Hk.
Qed.

End WorldMore.

(** ** The tables read through the prototype chain *)

Module PrototypeFacts.
Import Props JSFacts SentimentFacts EmotionFacts Tokenizer SentimentAnalyzer.
Import TokenizerMore WorldMore.

(** Off the inherited keys [obj[key]] is the own-property lookup. *)
Lemma lookup_own {V} (r : Record V) (k : text) :
  inherited k = false ->
  lookup r k = match Record_get r k with Some v => Own v | None => Absent end.
Proof. intros H. unfold lookup. now rewrite H. Qed.

Lemma lookup_inherited {V} (r : Record V) (k : text) :
  inherited k = true ->
  Forall (fun p : text * V => inherited (fst p) = false) r ->
  lookup r k = Inherited.
Proof.
  intros H Hr. unfold lookup.
  destruct (Record_get r k) as [v|] eqn:E; [|now rewrite H].
  apply Record_get_In in E. rewrite Forall_forall in Hr.
  specialize (Hr _ E). cbn [fst] in Hr. congruence.
Qed.

(** No table of the tokenizer has an inherited key of its own. *)
Lemma tables_own :
  Forall (fun p : text * (PartOfSpeech * text) => inherited (fst p) = false)
    WORD_POS_MAP
  /\ Forall (fun p : text * text => inherited (fst p) = false) IRREGULAR_VERBS
  /\ Forall (fun p : text * text => inherited (fst p) = false)
       IRREGULAR_PLURALS.
Proof.
  repeat split; apply Forall_forall; intros p Hp.
  - assert (H : forallb (fun p : text * (PartOfSpeech * text) =>
                           negb (inherited (fst p))) WORD_POS_MAP = true)
      by (vm_compute; reflexivity).
    rewrite forallb_forall in H. now apply negb_true_iff, H.
  - assert (H : forallb (fun p : text * text => negb (inherited (fst p)))
                  IRREGULAR_VERBS = true) by (vm_compute; reflexivity).
    rewrite forallb_forall in H. now apply negb_true_iff, H.
  - assert (H : forallb (fun p : text * text => negb (inherited (fst p)))
                  IRREGULAR_PLURALS = true) by (vm_compute; reflexivity).
    rewrite forallb_forall in H. now apply negb_true_iff, H.
Qed.

(** Off the inherited keys the two readings of the tables agree. *)
Lemma determinePOS_full_own (t lowerText : text) :
  inherited lowerText = false ->
  determinePOS_full t lowerText = Some (determinePOS t lowerText).
Proof.
  intros H. unfold determinePOS_full, determinePOS. rewrite (lookup_own _ _ H).
  destruct (Record_get WORD_POS_MAP lowerText); [reflexivity|].
  now destruct (find _ POS_PATTERNS).
Qed.

Lemma getLemma_full_own (w : text) (p : PartOfSpeech) :
  inherited w = false -> getLemma_full w (Some p) = Some (getLemma w p).
Proof.
  intros H. unfold getLemma_full, getLemma. rewrite !(lookup_own _ _ H).
  destruct (Record_get IRREGULAR_VERBS w); [reflexivity|].
  destruct (Record_get IRREGULAR_PLURALS w); [reflexivity|].
  now destruct (first_rule w p LEMMA_RULES).
Qed.

(** On them the source returns the inherited value. *)
Lemma getLemma_full_inherited (w : text) (p : option PartOfSpeech) :
  inherited w = true -> getLemma_full w p = None.
Proof.
  intros H. unfold getLemma_full.
  now rewrite (lookup_inherited _ _ H (proj1 (proj2 tables_own))).
Qed.

Lemma typed_spec (k : Token) :
  typed k = negb (inherited (toLowerCase (tok_text k))).
Proof.
  unfold typed. cbv zeta.
  destruct (inherited (toLowerCase (tok_text k))) eqn:E; cbn [negb].
  - unfold determinePOS_full.
    now rewrite (lookup_inherited _ _ E (proj1 tables_own)).
  - rewrite (determinePOS_full_own _ _ E), (getLemma_full_own _ _ E).
    reflexivity.
Qed.

(** The token of the model is the token of the source when it is typed. *)
Lemma analyzeToken_typed (t : text) (idx : nat) (s e : Z) :
  typed (analyzeToken t idx s e) = true ->
  let k := analyzeToken t idx s e in
  determinePOS_full t (toLowerCase t) = Some (pos k, tag k)
  /\ getLemma_full (toLowerCase t) (Some (pos k)) = Some (lemma k).
Proof.
  intros H. rewrite typed_spec in H. apply negb_true_iff in H.
  rewrite TokenizerFacts.analyzeToken_text in H. cbv zeta.
  rewrite (determinePOS_full_own _ _ H). unfold analyzeToken.
  destruct (determinePOS t (toLowerCase t)) as [p g].
  cbn [pos tag lemma]. split; [reflexivity|].
  apply (getLemma_full_own _ _ H).
Qed.

Lemma multiplier_own (r : Record Q) (lem : text) :
  inherited lem = false ->
  multiplier r lem = option_map Num (nonzero (Record_get r lem)).
Proof.
  intros H. unfold multiplier. rewrite (lookup_own _ _ H).
  destruct (Record_get r lem) as [q|]; [|reflexivity]. cbn [nonzero].
  now destruct (Qeq_bool q 0).
Qed.

Lemma entry_score_own (lem : text) :
  inherited lem = false ->
  entry_score lem
  = option_map (fun entry => Num (score entry * intensity entry)%Q)
      (Record_get SENTIMENT_LEXICON lem).
Proof.
  intros H. unfold entry_score. rewrite (lookup_own _ _ H).
  now destruct (Record_get SENTIMENT_LEXICON lem).
Qed.

(** On tokens whose lemma is no inherited key the analysis in full is the
    analysis on rationals. *)
Lemma full_step_lift (s : Scan) (token : Token) :
  own_lemma token = true ->
  full_step (lift_scan s) token = lift_scan (step s token).
Proof.
  intros H. unfold own_lemma in H. apply negb_true_iff in H.
  unfold full_step, step. cbv zeta.
  destruct (is_negation token); [reflexivity|].
  rewrite !(multiplier_own _ _ H).
  destruct (nonzero (Record_get INTENSIFIERS (toLowerCase (lemma token))));
    [reflexivity|].
  destruct (nonzero (Record_get DIMINISHERS (toLowerCase (lemma token))));
    [reflexivity|].
  cbn [option_map]. unfold full_score_token, score_token. cbv zeta.
  rewrite (entry_score_own _ H).
  destruct s as [ts ps ns wc swc ci na nsc].
  destruct (Record_get SENTIMENT_LEXICON (toLowerCase (lemma token)))
    as [entry|]; cbn [option_map].
  - unfold full_word_score, word_score, positive_num. cbv zeta.
    cbn [lift_scan full_currentIntensifier full_negationActive
           full_negationScope currentIntensifier negationActive
           negationScope number_mul].
    destruct (isAlpha token), (isStopWord token), na, (0 <? nsc)%Z;
      cbn [andb negb number_mul number_positive];
      match goal with
      | |- context [negb (Qle_bool ?x 0)] => destruct (negb (Qle_bool x 0))
      end; reflexivity.
  - destruct (isAlpha token), (isStopWord token), na; reflexivity.
Qed.

Lemma full_fold_lift (tokens : list Token) :
  forall s,
    Forall (fun k => own_lemma k = true) tokens ->
    fold_left full_step tokens (lift_scan s)
    = lift_scan (fold_left step tokens s).
Proof.
  induction tokens as [|k tokens IH]; intros s H; [reflexivity|].
  inversion H; subst. cbn [fold_left].
  rewrite full_step_lift by assumption. now apply IH.
Qed.

Lemma full_normalize_lift (s : Scan) :
  full_normalize (lift_scan s) = lift_score (normalize s).
Proof. reflexivity. Qed.

Lemma analyzeTokens_full_own (tokens : list Token) :
  Forall (fun k => own_lemma k = true) tokens ->
  analyzeTokens_full tokens = lift_score (analyzeTokens tokens).
Proof.
  intros H. unfold analyzeTokens_full, analyzeTokens.
  change full_init with (lift_scan scan_init).
  now rewrite (full_fold_lift tokens scan_init H), full_normalize_lift.
Qed.

Lemma lift_in_ranges (r : SentimentScore) :
  in_ranges r -> full_in_ranges (lift_score r).
Proof. intros H. exact H. Qed.

Lemma multipliers_own :
  Forall (fun p : text * Q => inherited (fst p) = false) INTENSIFIERS.
Proof.
  apply Forall_forall. intros p Hp.
  assert (H : forallb (fun p : text * Q => negb (inherited (fst p)))
                INTENSIFIERS = true) by (vm_compute; reflexivity).
  rewrite forallb_forall in H. now apply negb_true_iff, H.
Qed.

Lemma multiplier_inherited (lem : text) :
  inherited lem = true -> multiplier INTENSIFIERS lem = Some NaN.
Proof.
  intros H. unfold multiplier.
  now rewrite (lookup_inherited _ _ H multipliers_own).
Qed.

(** Without a scored token the sums stay as they are, whatever the
    multiplier becomes. *)
Lemma full_step_unscored (s : FullScan) (token : Token) :
  unscored token = true ->
  full_totalScore (full_step s token) = full_totalScore s
  /\ full_positiveScore (full_step s token) = full_positiveScore s
  /\ full_negativeScore (full_step s token) = full_negativeScore s
  /\ full_sentimentWordCount (full_step s token) = full_sentimentWordCount s.
Proof.
  unfold unscored, scored_entry, full_step. cbv zeta.
  destruct (is_negation token); [now cbn|].
  destruct (inherited (toLowerCase (lemma token))) eqn:E.
  - rewrite (multiplier_inherited _ E). now cbn.
  - rewrite !(multiplier_own _ _ E).
    destruct (nonzero (Record_get INTENSIFIERS _)); [now cbn|].
    destruct (nonzero (Record_get DIMINISHERS _)); [now cbn|].
    cbn [option_map]. unfold full_score_token. cbv zeta.
    rewrite (entry_score_own _ E).
    destruct (Record_get SENTIMENT_LEXICON _); [discriminate|]. intros _.
    cbn [option_map].
    destruct (isAlpha token && negb (isStopWord token));
      cbn [full_negationActive];
      destruct (full_negationActive s && isAlpha token); now cbn.
Qed.

Lemma full_fold_unscored tokens s :
  sentiment_words tokens = [] ->
  full_totalScore (fold_left full_step tokens s) = full_totalScore s
  /\ full_positiveScore (fold_left full_step tokens s) = full_positiveScore s
  /\ full_negativeScore (fold_left full_step tokens s) = full_negativeScore s
  /\ full_sentimentWordCount (fold_left full_step tokens s)
     = full_sentimentWordCount s.
Proof.
  revert s; induction tokens as [|k ks IH]; intros s H; [now cbn|].
  unfold sentiment_words in H. cbn [filter] in H.
  destruct (unscored k) eqn:E; [|discriminate]. cbn [negb] in H.
  cbn [fold_left].
  destruct (full_step_unscored s k E) as (H1 & H2 & H3 & H4).
  destruct (IH (full_step s k) H) as (I1 & I2 & I3 & I4).
  repeat split; congruence.
Qed.

Lemma analyzeTokens_full_neutral tokens :
  sentiment_words tokens = [] ->
  let r := analyzeTokens_full tokens in
  exactly 0 (full_overall r) /\ exactly 0 (full_positive r)
  /\ exactly 0 (full_negative r) /\ exactly 1 (full_neutral r)
  /\ exactly 0 (full_confidence r).
Proof.
  intros H.
  destruct (full_fold_unscored tokens full_init H) as (H1 & H2 & H3 & H4).
  cbn zeta. unfold analyzeTokens_full, full_normalize.
  cbn [full_overall full_positive full_negative full_neutral full_confidence].
  rewrite H1, H2, H3, H4.
  cbn [full_init full_totalScore full_positiveScore full_negativeScore
         full_sentimentWordCount].
  repeat split; reflexivity.
Qed.

Lemma analyze_full_typed (t : text) :
  Forall (fun k => typed k = true) (tokenize_uncached t) ->
  analyze_full t = Some (analyzeTokens_full (tokenize_uncached t)).
Proof.
  intros H. unfold analyze_full. cbv zeta.
  replace (forallb typed (tokenize_uncached t)) with true; [reflexivity|].
  symmetry. apply forallb_forall. now apply Forall_forall.
Qed.

Lemma analyzeTokens_full_in_ranges tokens :
  Forall (fun k => own_lemma k = true) tokens ->
  full_in_ranges (analyzeTokens_full tokens).
Proof.
  intros H. rewrite (analyzeTokens_full_own tokens H).
  apply lift_in_ranges, analyzeTokens_in_ranges.
Qed.

Lemma forallb_Forall {A} (f : A -> bool) (l : list A) :
  forallb f l = true -> Forall (fun x => f x = true) l.
Proof. intros H. apply Forall_forall. now apply forallb_forall. Qed.

(** Every token the tokenizer builds has a lower-case lemma in the model,
    which is the lemma of the source when the token is typed. *)
Lemma tokenize_uncached_built (t : text) :
  Forall (fun k => plain (lemma k) = true /\ (typed k = true -> as_built k))
    (tokenize_uncached t).
Proof.
  pose proof (tokenize_uncached_lemmas t) as Hl.
  rewrite Forall_forall in Hl. apply Forall_forall. intros k Hk.
  split; [now apply Hl|]. intros Ht.
  unfold tokenize_uncached in Hk.
  destruct (tokenize_loop_lemmas _ _ _ _ _ Hk) as (raw & idx & s & e & _ & ->).
  unfold as_built. rewrite TokenizerFacts.analyzeToken_text.
  exact (analyzeToken_typed _ idx s e Ht).
Qed.

Lemma clean_typed (tokens : list Token) :
  Forall (fun k => clean k = true) tokens ->
  Forall (fun k => typed k = true) tokens
  /\ Forall (fun k => own_lemma k = true) tokens.
Proof.
  intros H. split; (eapply Forall_impl; [|exact H]); intros k Hk;
    unfold clean in Hk; apply andb_true_iff in Hk; tauto.
Qed.

(** Of the words a text can hold, in lower case, [constructor] alone is an
    inherited key. *)
Lemma inherited_word (w : text) :
  Forall (fun c => is_upper c = false) w ->
  Forall (fun c => solid c = true) w ->
  inherited w = true -> w = str "constructor".
Proof.
  intros Hu Hs H. unfold inherited in H. apply mem_In in H.
  assert (Hb : forallb (fun c => negb (is_upper c) && solid c) w = true).
  { apply forallb_forall. intros c Hc. rewrite Forall_forall in Hu, Hs.
    now rewrite (Hu c Hc), (Hs c Hc). }
  unfold Object_prototype in H. cbn [List.map In] in H.
  repeat (destruct H as [<-|H]; [first [reflexivity | vm_compute in Hb; discriminate]|]).
  destruct H.
Qed.

Lemma lower_char_solid (c : char) : solid c = true -> solid (lower_char c) = true.
Proof.
  intros H. unfold lower_char. destruct (is_upper c) eqn:E; [|exact H].
  unfold is_upper, in_range in E. apply andb_true_iff in E as [E1 E2].
  apply N.leb_le in E1, E2.
  assert (Hr : exists d, (d <= 25)%N /\ c = (65 + d)%N)
    by (exists (c - 65)%N; lia).
  destruct Hr as (d & Hd & ->). clear E1 E2 H.
  assert (Hall : forallb (fun d => solid (65 + N.of_nat d + 32)%N)
                   (seq 0 26) = true) by (vm_compute; reflexivity).
  rewrite forallb_forall in Hall.
  specialize (Hall (N.to_nat d)). rewrite N2Nat.id in Hall. apply Hall.
  apply in_seq. lia.
Qed.

(** A token the tokenizer builds without a string for lemma is the word
    [constructor], in some letter case. *)
Lemma untyped_word (t : text) (k : Token) :
  In k (tokenize_uncached t) -> typed k = false ->
  toLowerCase (tok_text k) = str "constructor".
Proof.
  intros Hk Ht. rewrite typed_spec in Ht. apply negb_false_iff in Ht.
  destruct (tokenize_uncached_sound t) as (_ & _ & Hs).
  rewrite Forall_forall in Hs. destruct (Hs k Hk) as [_ Hsolid].
  apply inherited_word; [apply toLowerCase_not_upper | | exact Ht].
  unfold toLowerCase. apply Forall_forall. intros c Hc.
  apply in_map_iff in Hc as [c0 [<- Hc0]]. apply lower_char_solid.
  rewrite Forall_forall in Hsolid. now apply Hsolid.
Qed.

Lemma no_constructor_typed (t : text) :
  Forall (fun k => toLowerCase (tok_text k) <> str "constructor")
    (tokenize_uncached t) ->
  Forall (fun k => typed k = true) (tokenize_uncached t).
Proof.
  intros H. apply Forall_forall. intros k Hk. rewrite Forall_forall in H.
  destruct (typed k) eqn:E; [reflexivity|].
  now destruct (H k Hk (untyped_word t k Hk E)).
Qed.

End PrototypeFacts.

(** ** The properties of the specification *)

Import Props JSFacts CacheFacts TokenizerFacts SentimentFacts EmotionFacts.
Import NERFacts WorldFacts PrototypeFacts.

(** A fresh tokenizer computes: nothing is cached yet. *)
Lemma tokenize_fresh (t : text) :
  fst (Tokenizer.tokenize t fresh) = Tokenizer.tokenize_uncached t.
Proof. reflexivity. Qed.

Lemma analyze_fresh (t : text) :
  fst (SentimentAnalyzer.analyze t fresh)
  = SentimentAnalyzer.analyzeTokens (Tokenizer.tokenize_uncached t).
Proof. reflexivity. Qed.

(** C1. In every state the engines can reach and for every text, no two
    entities returned by one call of [recognize] have half-open ranges
    [[startChar, endChar)] that intersect; the greedy deduplication
    enforces it. *)
Theorem recognize_no_overlap :
  forall (rx : NamedEntityRecognizer.Pattern -> text -> list (nat * text))
         (t : text) (w : World),
    reachable w ->
    no_overlap (fst (NamedEntityRecognizer.recognize rx t w)).
Proof.
  intros rx t w H. apply recognize_ok, reachable_ok, H.
Qed.

Lemma recognize_no_overlap_witness :
  reachable fresh
  /\ no_overlap
       (fst (NamedEntityRecognizer.recognize
               (fun p _ => match p with
                           | NamedEntityRecognizer.HASHTAG_PATTERN =>
                               [(24%nat, str "#tech")]
                           | _ => []
                           end)
               (str "Tim Cook leads Apple Inc #tech") fresh)).
Proof.
  split; [exact reach_fresh|].
  apply (recognize_no_overlap _ _ fresh). exact reach_fresh.
Defined.

(** C2. On the text [a_b] the spans of the tokens of a fresh tokenizer,
    concatenated in order, give [ab], while the non-whitespace characters
    of the text are [a_b]: the underscore is lost. *)
Theorem tokenize_drops_underscore :
  let t := str "a_b" in
  non_whitespace t = str "a_b"
  /\ spanned t (fst (Tokenizer.tokenize t fresh)) = str "ab".
Proof. split; vm_compute; reflexivity. Qed.

(** C3 as stated fails on the empty text: the confidence is not 0.5. *)
Lemma analyze_empty_confidence :
  ~ (let r := fst (SentimentAnalyzer.analyze (str "") fresh) in
     overall r == 0 /\ positive r == 0 /\ negative r == 0 /\ neutral r == 1
     /\ confidence r == 0.5)%Q.
Proof. intros (_ & _ & _ & _ & H). vm_compute in H. discriminate. Qed.

(** The word [constructor] is read off the prototype of the tables: its
    token has no string for lemma and the analysis raises a TypeError. *)
Lemma analyze_full_constructor :
  List.map Tokenizer.typed (Tokenizer.tokenize_uncached (str "constructor"))
  = [false]
  /\ SentimentAnalyzer.analyze_full (str "constructor") = None.
Proof. split; vm_compute; reflexivity. Qed.

(** C3, amended.  For every text without a sentiment-bearing word, none of
    whose tokens is the word [constructor] in any letter case, a fresh
    analyzer returns overall 0, positive 0, negative 0, neutral 1 and
    confidence 0; the analysis in full, which reads the tables through
    the prototype chain, raises no error and returns the same numbers. *)
Theorem analyze_neutral_text :
  forall t : text,
    Forall (fun k => toLowerCase (tok_text k) <> str "constructor")
      (Tokenizer.tokenize_uncached t) ->
    sentiment_words (Tokenizer.tokenize_uncached t) = [] ->
    (let r := fst (SentimentAnalyzer.analyze t fresh) in
     overall r == 0 /\ positive r == 0 /\ negative r == 0 /\ neutral r == 1
     /\ confidence r == 0)%Q
    /\ match SentimentAnalyzer.analyze_full t with
       | Some r =>
           exactly 0 (SentimentAnalyzer.full_overall r)
           /\ exactly 0 (SentimentAnalyzer.full_positive r)
           /\ exactly 0 (SentimentAnalyzer.full_negative r)
           /\ exactly 1 (SentimentAnalyzer.full_neutral r)
           /\ exactly 0 (SentimentAnalyzer.full_confidence r)
       | None => False
       end.
Proof.
  intros t Ht H. split.
  - rewrite analyze_fresh. now apply analyzeTokens_neutral.
  - rewrite (analyze_full_typed t (no_constructor_typed t Ht)).
    now apply analyzeTokens_full_neutral.
Qed.

Lemma analyze_neutral_text_witness :
  Forall (fun k => toLowerCase (tok_text k) <> str "constructor")
    (Tokenizer.tokenize_uncached (str "The cat sat."))
  /\ sentiment_words (Tokenizer.tokenize_uncached (str "The cat sat.")) = []
  /\ (let r := fst (SentimentAnalyzer.analyze (str "The cat sat.") fresh) in
      overall r == 0 /\ positive r == 0 /\ negative r == 0 /\ neutral r == 1
      /\ confidence r == 0)%Q.
Proof.
  assert (Ht : Forall (fun k => toLowerCase (tok_text k) <> str "constructor")
                 (Tokenizer.tokenize_uncached (str "The cat sat."))).
  { apply Forall_forall. intros k Hk He.
    assert (H : forallb
                  (fun k => negb (text_eqb (toLowerCase (tok_text k))
                                    (str "constructor")))
                  (Tokenizer.tokenize_uncached (str "The cat sat.")) = true)
      by (vm_compute; reflexivity).
    rewrite forallb_forall in H. specialize (H k Hk).
    apply negb_true_iff in H. rewrite He, text_eqb_refl in H. discriminate. }
  assert (Hs : sentiment_words
                 (Tokenizer.tokenize_uncached (str "The cat sat.")) = [])
    by (vm_compute; reflexivity).
  split; [exact Ht|]. split; [exact Hs|].
  exact (proj1 (analyze_neutral_text (str "The cat sat.") Ht Hs)).
Defined.



(** C5. On the text [constructors good] a fresh analyzer returns a score
    whose [overall], [negative] and [neutral] are NaN, outside every
    range: the lemma of the first token is [constructor], at which
    [INTENSIFIERS[lemma]] is the inherited [Object.prototype.constructor],
    a function; it becomes the multiplier of the score of [good]. *)
Theorem analyze_constructors_good :
  let t := str "constructors good" in
  List.map lemma (Tokenizer.tokenize_uncached t)
  = [str "constructor"; str "good"]
  /\ List.map Tokenizer.typed (Tokenizer.tokenize_uncached t) = [true; true]
  /\ lookup SentimentAnalyzer.INTENSIFIERS (str "constructor") = Inherited
  /\ option_map SentimentAnalyzer.full_overall
       (SentimentAnalyzer.analyze_full t) = Some NaN
  /\ option_map SentimentAnalyzer.full_negative
       (SentimentAnalyzer.analyze_full t) = Some NaN
  /\ option_map SentimentAnalyzer.full_neutral
       (SentimentAnalyzer.analyze_full t) = Some NaN.
Proof. repeat split; vm_compute; reflexivity. Qed.

(** C6. On the text [done] a fresh extractor with the default
    configuration returns the single keyword [do], the lemma of [done],
    and [do] is a stop word of the tokenizer and of the extractor. *)
Theorem extract_returns_stop_word :
  forall log : Q -> Q,
    List.map keyword
      (keywords (fst (KeywordExtractor.extract log
                        KeywordExtractor.DEFAULT_CONFIG (str "done") None
                        fresh)))
    = [str "do"]
    /\ mem (str "do") Tokenizer.STOP_WORDS = true
    /\ mem (str "do") KeywordExtractor.STOP_WORDS = true.
Proof. intros log. repeat split; vm_compute; reflexivity. Qed.

(** C7. A fresh splitter cuts "Dr. Smith met Mrs. Jones. They left." into
    four sentences: the periods after [Dr] and [Mrs] are boundaries
    too. *)
Theorem split_after_titles :
  List.map sen_text
    (fst (SentenceSplitter.split
            (str "Dr. Smith met Mrs. Jones. They left.") fresh))
  = [str "Dr."; str "Smith met Mrs."; str "Jones."; str "They left."].
Proof. vm_compute. reflexivity. Qed.

(** C8. After the empty text and then the thousand texts [1] ... [1000],
    the cache of a fresh tokenizer holds 1001 entries, one more than its
    capacity, and its oldest key is still the empty string. *)
Theorem cache_overflows_behind_empty_key :
  let w := tokenize_all (str "" :: List.map numbered (seq 1 1000)) fresh in
  maxCacheSize Tokenizer.engine = 1000%nat
  /\ Map_size (tokenizer_cache w) = 1001%nat
  /\ Map_first_key (tokenizer_cache w) = Some [].
Proof. vm_compute. repeat split. Qed.

(** C9 as stated fails on the empty text: [primary] is not one of the
    sixteen categories. *)
Lemma analyzeEmotions_empty_primary :
  ~ In (SentimentAnalyzer.primary
          (fst (SentimentAnalyzer.analyzeEmotions (str "") fresh)))
       SentimentAnalyzer.EmotionCategory.
Proof. intros H. apply mem_In in H. vm_compute in H. discriminate. Qed.

(** C9, amended.  For every text and every state in which every token
    of the text has a string for lemma (the token of the word
    [constructor] has none, and [analyzeEmotions] raises a TypeError on
    it), [primary] is one of the sixteen categories when a token of the
    text bears an emotion, and is the string [neutral] when none does. *)
Theorem analyzeEmotions_primary :
  forall (t : text) (w : World),
    let tokens := fst (Tokenizer.tokenize t w) in
    let r := fst (SentimentAnalyzer.analyzeEmotions t w) in
    Forall (fun k => Tokenizer.typed k = true) tokens ->
    if existsb emotion_bearing tokens
    then In (SentimentAnalyzer.primary r) SentimentAnalyzer.EmotionCategory
    else SentimentAnalyzer.primary r = str "neutral".
Proof.
  intros t w. cbv zeta. intros _. unfold SentimentAnalyzer.analyzeEmotions.
  rewrite bind_run. cbn [ret fst].
  apply analyzeEmotionsTokens_primary.
Qed.

Lemma analyzeEmotions_primary_witness :
  Forall (fun k => Tokenizer.typed k = true)
    (fst (Tokenizer.tokenize (str "I love it") fresh))
  /\ In (SentimentAnalyzer.primary
           (fst (SentimentAnalyzer.analyzeEmotions (str "I love it") fresh)))
       SentimentAnalyzer.EmotionCategory.
Proof.
  assert (Ht : Forall (fun k => Tokenizer.typed k = true)
                 (fst (Tokenizer.tokenize (str "I love it") fresh))).
  { apply Forall_forall. intros k Hk.
    assert (H : forallb Tokenizer.typed
                  (fst (Tokenizer.tokenize (str "I love it") fresh)) = true)
      by (vm_compute; reflexivity).
    rewrite forallb_forall in H. now apply H. }
  split; [exact Ht|].
  pose proof (analyzeEmotions_primary (str "I love it") fresh Ht) as H.
  replace (existsb emotion_bearing
             (fst (Tokenizer.tokenize (str "I love it") fresh)))
    with true in H by (vm_compute; reflexivity).
  exact H.
Defined.



(** ** Further properties of the code *)

Import TokenizerMore WorldMore PrototypeFacts.

(** X1. For every text, the spans of the tokens of a fresh tokenizer,
    concatenated in order, are exactly the characters of the text that are
    neither white space nor the underscore. *)
Theorem tokenize_spans_cover :
  forall t : text,
    spanned t (fst (Tokenizer.tokenize t fresh))
    = filter (fun c => negb (is_space c || N.eqb c 95)) t.
Proof.
  intros t. rewrite tokenize_fresh. apply (tokenize_uncached_spec t).
Qed.

(** X2. In every reachable state, every token [tokenize] returns carries
    its position in the sequence as [index], spans a non-empty range that
    starts at 0 or later, has a non-empty [text] without white space or
    underscore, and ends at or before the start of every later token.
    When the key of the text is not cached, every token moreover ends
    inside the text and has as [text] the characters of its range. *)
Theorem token_offsets :
  forall (t : text) (w : World),
    reachable w ->
    let ks := fst (Tokenizer.tokenize t w) in
    (forall i k,
        nth_error ks i = Some k ->
        index k = i
        /\ (0 <= startChar k /\ startChar k < endChar k)
        /\ tok_text k <> []
        /\ Forall (fun c => is_space c = false /\ c <> 95%N) (tok_text k))
    /\ (forall i j a b,
           (i < j)%nat -> nth_error ks i = Some a -> nth_error ks j = Some b ->
           endChar a <= startChar b)
    /\ (Map_get (tokenizer_cache w) (substring t 0 100) = None ->
        forall k,
          In k ks ->
          endChar k <= Z.of_nat (List.length t)
          /\ substring t (Z.to_nat (startChar k)) (Z.to_nat (endChar k))
             = tok_text k).
Proof.
  intros t w Hw ks.
  pose proof (tokenize_tokens tokens_sound tokenize_uncached_sound t w
                (reachable_tokens _ tokenize_uncached_sound w Hw)) as [H _].
  fold ks in H. destruct H as (Hc & Hi & Hs).
  split; [|split; [exact (chained_ordered 0 _ Hc)|]].
  - intros i k Hk. pose proof (nth_error_In _ _ Hk) as Hin.
    rewrite Forall_forall in Hs. destruct (Hs k Hin) as [Hne Hall].
    destruct (NERFacts.chained_In _ _ _ Hc Hin) as [Hlo Hlt].
    repeat split; try assumption.
    + now rewrite (seq_nth_index _ 0 Hi i k Hk).
    + eapply Forall_impl; [|exact Hall]. intros c Hc0.
      unfold solid, gap in Hc0. apply negb_true_iff, orb_false_iff in Hc0.
      destruct Hc0 as [H1 H2]. split; [exact H1 | now apply N.eqb_neq].
  - intros Hmiss k Hk. unfold ks, Tokenizer.tokenize in Hk.
    rewrite (CacheMore.call_miss Tokenizer.engine t w Hmiss) in Hk.
    cbn [compute Tokenizer.engine ret fst] in Hk.
    destruct (TokenizerFacts.tokenize_uncached_spec t) as (_ & _ & Hsp & _).
    rewrite Forall_forall in Hsp. destruct (Hsp k Hk) as [H1 H2].
    split; [exact H2 | exact H1].
Qed.

Lemma token_offsets_witness :
  reachable fresh
  /\ Map_get (tokenizer_cache fresh) (substring (str "It's 3.5% up") 0 100)
     = None
  /\ In (Tokenizer.analyzeToken (str "3.5%") 1 5 9)
       (fst (Tokenizer.tokenize (str "It's 3.5% up") fresh))
  /\ substring (str "It's 3.5% up") 5 9 = str "3.5%".
Proof.
  assert (Hn : In (Tokenizer.analyzeToken (str "3.5%") 1 5 9)
                 (fst (Tokenizer.tokenize (str "It's 3.5% up") fresh)))
    by (vm_compute; right; left; reflexivity).
  split; [exact reach_fresh|]. split; [reflexivity|]. split; [exact Hn|].
  pose proof (proj2 (proj2 (token_offsets (str "It's 3.5% up") fresh
                              reach_fresh)) eq_refl _ Hn) as [_ H].
  rewrite TokenizerFacts.analyzeToken_start, TokenizerFacts.analyzeToken_end,
    TokenizerFacts.analyzeToken_text in H.
  exact H.
Defined.

(** X7. A fresh tokenizer returns no token exactly for the texts made of
    white space and underscores only, the empty text among them. *)
Theorem tokenize_nothing_iff :
  forall t : text,
    fst (Tokenizer.tokenize t fresh) = []
    <-> Forall (fun c => is_space c || N.eqb c 95 = true) t.
Proof.
  intros t. rewrite tokenize_fresh.
  pose proof (splitIntoRawTokens_tiling t) as Ht.
  rewrite <- tokenize_uncached_texts in Ht. split.
  - intros H. rewrite H in Ht. cbn [List.map] in Ht.
    inversion Ht; subst; assumption.
  - intros H. apply (Tiling_no_token _ _ Ht) in H.
    now apply map_eq_nil in H.
Qed.

(** X9. In every reachable state, a token [tokenize] returns whose text,
    in lower case, is no inherited key of the tables (the word
    [constructor] is one) has strings for [pos], [tag] and [lemma], those
    the source computes through the prototype chain of its tables, and
    its lemma is a non-empty string without upper-case ASCII letters. *)
Theorem token_lemmas :
  forall (t : text) (w : World) (k : Token),
    reachable w ->
    In k (fst (Tokenizer.tokenize t w)) ->
    Tokenizer.typed k = true ->
    as_built k
    /\ lemma k <> [] /\ Forall (fun c => is_upper c = false) (lemma k).
Proof.
  intros t w k Hw Hk Ht.
  pose proof (tokenize_tokens _ tokenize_uncached_built t w
                (reachable_tokens _ tokenize_uncached_built w Hw)) as [H _].
  rewrite Forall_forall in H. destruct (H k Hk) as [Hp Hb].
  split; [exact (Hb Ht) | now apply plain_spec].
Qed.

Lemma token_lemmas_witness :
  reachable fresh
  /\ In (word_token "Mice") (fst (Tokenizer.tokenize (str "Mice") fresh))
  /\ Tokenizer.typed (word_token "Mice") = true
  /\ lemma (word_token "Mice") = str "mouse"
  /\ lemma (word_token "Mice") <> [].
Proof.
  assert (H : In (word_token "Mice")
                (fst (Tokenizer.tokenize (str "Mice") fresh)))
    by (vm_compute; left; reflexivity).
  assert (Ht : Tokenizer.typed (word_token "Mice") = true)
    by (vm_compute; reflexivity).
  split; [exact reach_fresh|]. split; [exact H|]. split; [exact Ht|].
  split; [vm_compute; reflexivity|].
  exact (proj1 (proj2 (token_lemmas (str "Mice") fresh (word_token "Mice")
                         reach_fresh H Ht))).
Defined.

(** X10. [getWordFrequencies] maps every lemma to the number of tokens
    that carry it among the alphabetic tokens that are neither stop words
    nor punctuation, holds no lemma that no such token carries, and holds
    every lemma once. *)
Theorem word_frequencies :
  forall (tokens : list Token) (l : text),
    Map_get (Tokenizer.getWordFrequencies tokens) l
    = match occurrences tokens l with
      | O => None
      | S n => Some (S n)
      end
    /\ NoDup (Map_keys (Tokenizer.getWordFrequencies tokens)).
Proof.
  intros tokens l. split.
  - unfold Tokenizer.getWordFrequencies.
    rewrite getWordFrequencies_fold. cbn [Map_get].
    destruct (occurrences tokens l); reflexivity.
  - apply getWordFrequencies_keys. constructor.
Qed.

Import CacheMore.

(** X4. A call on a non-empty text keeps the cache of its engine within
    the capacity and free of the empty key, when it was so before: 1000
    entries for the tokenizer and the sentiment analyzer, 500 for the
    sentence splitter and the recognizer, 200 for the keyword extractor. *)
Theorem caches_stay_bounded :
  forall (w : World) (t : text),
    t <> [] ->
    (no_empty_key (tokenizer_cache w) ->
     (Map_size (tokenizer_cache w) <= 1000)%nat ->
     let w' := snd (Tokenizer.tokenize t w) in
     no_empty_key (tokenizer_cache w')
     /\ (Map_size (tokenizer_cache w') <= 1000)%nat)
    /\ (no_empty_key (sentimentAnalyzer_cache w) ->
        (Map_size (sentimentAnalyzer_cache w) <= 1000)%nat ->
        let w' := snd (SentimentAnalyzer.analyze t w) in
        no_empty_key (sentimentAnalyzer_cache w')
        /\ (Map_size (sentimentAnalyzer_cache w') <= 1000)%nat)
    /\ (no_empty_key (sentenceSplitter_cache w) ->
        (Map_size (sentenceSplitter_cache w) <= 500)%nat ->
        let w' := snd (SentenceSplitter.split t w) in
        no_empty_key (sentenceSplitter_cache w')
        /\ (Map_size (sentenceSplitter_cache w') <= 500)%nat)
    /\ (no_empty_key (nerRecognizer_cache w) ->
        (Map_size (nerRecognizer_cache w) <= 500)%nat ->
        forall rx,
          let w' := snd (NamedEntityRecognizer.recognize rx t w) in
          no_empty_key (nerRecognizer_cache w')
          /\ (Map_size (nerRecognizer_cache w') <= 500)%nat)
    /\ (no_empty_key (keywordExtractor_cache w) ->
        (Map_size (keywordExtractor_cache w) <= 200)%nat ->
        forall log cfg corpus,
          let w' := snd (KeywordExtractor.extract log cfg t corpus w) in
          no_empty_key (keywordExtractor_cache w')
          /\ (Map_size (keywordExtractor_cache w') <= 200)%nat).
Proof.
  intros w t Ht. split; [|split; [|split; [|split]]].
  - intros H1 H2.
    exact (call_bounded_text Tokenizer.engine t w 1000 Tokenizer_lawful
             Tokenizer_untouched eq_refl (le_n_S _ _ (Nat.le_0_l _))
             (le_n_S _ _ (Nat.le_0_l _)) Ht H1 H2).
  - intros H1 H2.
    exact (call_bounded_text SentimentAnalyzer.engine t w 1000
             SentimentAnalyzer_lawful SentimentAnalyzer_untouched eq_refl
             (le_n_S _ _ (Nat.le_0_l _)) (le_n_S _ _ (Nat.le_0_l _)) Ht H1 H2).
  - intros H1 H2.
    exact (call_bounded_text SentenceSplitter.engine t w 500
             SentenceSplitter_lawful SentenceSplitter_untouched eq_refl
             (le_n_S _ _ (Nat.le_0_l _)) (le_n_S _ _ (Nat.le_0_l _)) Ht H1 H2).
  - intros H1 H2 rx.
    exact (call_bounded_text (NamedEntityRecognizer.engine rx) t w 500
             (NamedEntityRecognizer_lawful rx)
             (NamedEntityRecognizer_untouched rx) eq_refl
             (le_n_S _ _ (Nat.le_0_l _)) (le_n_S _ _ (Nat.le_0_l _)) Ht H1 H2).
  - intros H1 H2 log cfg corpus.
    exact (call_bounded_text (KeywordExtractor.engine log cfg) (t, corpus) w
             200 (KeywordExtractor_lawful log cfg)
             (KeywordExtractor_untouched log cfg) eq_refl
             (le_n_S _ _ (Nat.le_0_l _)) (le_n_S _ _ (Nat.le_0_l _)) Ht H1 H2).
Qed.

Lemma caches_stay_bounded_witness :
  str "hello" <> []
  /\ no_empty_key (tokenizer_cache fresh)
  /\ (Map_size (tokenizer_cache fresh) <= 1000)%nat
  /\ (Map_size (tokenizer_cache (snd (Tokenizer.tokenize (str "hello") fresh)))
      <= 1000)%nat.
Proof.
  assert (H1 : str "hello" <> []) by discriminate.
  assert (H2 : no_empty_key (tokenizer_cache fresh)) by constructor.
  assert (H3 : (Map_size (tokenizer_cache fresh) <= 1000)%nat)
    by (vm_compute; lia).
  repeat split; try assumption.
  exact (proj2 (proj1 (caches_stay_bounded fresh (str "hello") H1) H2 H3)).
Defined.

(** X6. Starting from a fresh tokenizer, any sequence of non-empty texts
    leaves at most 1000 entries in its cache. *)
Theorem tokenizer_cache_bounded :
  forall ts : list text,
    Forall (fun t => t <> []) ts ->
    (Map_size (tokenizer_cache (tokenize_all ts fresh)) <= 1000)%nat.
Proof.
  intros ts Hts.
  assert (H : forall w,
             no_empty_key (tokenizer_cache w) ->
             (Map_size (tokenizer_cache w) <= 1000)%nat ->
             no_empty_key (tokenizer_cache (tokenize_all ts w))
             /\ (Map_size (tokenizer_cache (tokenize_all ts w)) <= 1000)%nat).
  { induction Hts as [|t ts Ht Hts IH]; intros w H1 H2; [now split|].
    unfold tokenize_all in *. cbn [fold_left].
    destruct (proj1 (caches_stay_bounded w t Ht) H1 H2) as [K1 K2].
    now apply IH. }
  apply H; [constructor | cbn; lia].
Qed.

Lemma tokenizer_cache_bounded_witness :
  Forall (fun t => t <> []) [str "a"; str "b"; str "a"]
  /\ (Map_size (tokenizer_cache
                  (tokenize_all [str "a"; str "b"; str "a"] fresh))
      <= 1000)%nat.
Proof.
  assert (H : Forall (fun t : text => t <> []) [str "a"; str "b"; str "a"])
    by (repeat constructor; discriminate).
  split; [exact H | exact (tokenizer_cache_bounded _ H)].
Defined.





Import SentimentMore PrototypeFacts.

(** X12. On tokens none of whose lemmas is an inherited key of the
    tables ([constructor] is one), the analysis that reads the tables
    through the prototype chain returns the numbers of the analysis by own
    properties, never NaN: [overall] lies in [[-1,1]] and [positive],
    [negative], [neutral] and [confidence] in [[0,1]].  So does [analyze]
    of fresh engines on a text whose tokens are such and have a string for
    lemma: it raises no error. *)
Theorem clean_scores_in_ranges :
  (forall tokens : list Token,
      Forall (fun k => Tokenizer.own_lemma k = true) tokens ->
      SentimentAnalyzer.analyzeTokens_full tokens
      = lift_score (SentimentAnalyzer.analyzeTokens tokens)
      /\ full_in_ranges (SentimentAnalyzer.analyzeTokens_full tokens))
  /\ (forall t : text,
         Forall (fun k => clean k = true) (Tokenizer.tokenize_uncached t) ->
         match SentimentAnalyzer.analyze_full t with
         | Some r => full_in_ranges r
         | None => False
         end).
Proof.
  split.
  - intros tokens H. split; [now apply analyzeTokens_full_own|].
    now apply analyzeTokens_full_in_ranges.
  - intros t H. destruct (clean_typed _ H) as [Ht Ho].
    rewrite (analyze_full_typed t Ht).
    now apply analyzeTokens_full_in_ranges.
Qed.

Lemma clean_scores_in_ranges_witness :
  Forall (fun k => clean k = true)
    (Tokenizer.tokenize_uncached (str "This is insanely perfect"))
  /\ match SentimentAnalyzer.analyze_full (str "This is insanely perfect") with
     | Some r => full_in_ranges r
     | None => False
     end.
Proof.
  assert (H : Forall (fun k => clean k = true)
                (Tokenizer.tokenize_uncached (str "This is insanely perfect")))
    by (apply forallb_Forall; vm_compute; reflexivity).
  split; [exact H|].
  exact (proj2 clean_scores_in_ranges (str "This is insanely perfect") H).
Defined.

(** X13. For every text and every state in which every token of the
    text has a string for lemma (the token of the word [constructor] has
    none), [analyzeEmotions] scores exactly the eight basic emotions,
    each between 0 and 1, and returns an intensity and a confidence
    between 0 and 1. *)
Theorem emotion_scores_in_ranges :
  forall (t : text) (w : World),
    let r := fst (SentimentAnalyzer.analyzeEmotions t w) in
    Forall (fun k => Tokenizer.typed k = true) (fst (Tokenizer.tokenize t w)) ->
    List.map fst (SentimentAnalyzer.emotion_scores r)
    = List.map str ["joy"; "sadness"; "anger"; "fear"; "surprise";
                    "disgust"; "trust"; "anticipation"]
    /\ Forall (fun p : text * Q => 0 <= snd p /\ snd p <= 1)%Q
         (SentimentAnalyzer.emotion_scores r)
    /\ (0 <= SentimentAnalyzer.emo_intensity r
        /\ SentimentAnalyzer.emo_intensity r <= 1)%Q
    /\ (0 <= SentimentAnalyzer.emo_confidence r
        /\ SentimentAnalyzer.emo_confidence r <= 1)%Q.
Proof.
  intros t w. cbv zeta. intros _. unfold SentimentAnalyzer.analyzeEmotions.
  rewrite bind_run. cbn [ret fst].
  set (tokens := fst (Tokenizer.tokenize t w)). clearbody tokens.
  unfold SentimentAnalyzer.analyzeEmotionsTokens.
  cbn [SentimentAnalyzer.emotion_scores SentimentAnalyzer.emo_intensity
         SentimentAnalyzer.emo_confidence].
  set (t0 := {| SentimentAnalyzer.emotionCounts := [];
                SentimentAnalyzer.emotionIntensities := [];
                SentimentAnalyzer.totalIntensity := 0 |}).
  assert (Ht : tally_nonneg (fold_left SentimentAnalyzer.tally_token tokens t0)).
  { apply tally_fold_nonneg. split; [constructor | apply Qle_refl]. }
  set (tl := fold_left SentimentAnalyzer.tally_token tokens t0) in *.
  destruct Ht as [Hi Htot].
  destruct (emotions_fold
              (List.length (SentimentAnalyzer.emotionIntensities tl))
              (SentimentAnalyzer.emotionIntensities tl)
              SentimentAnalyzer.base_emotions Hi) as [He Hk].
  { unfold SentimentAnalyzer.base_emotions. apply Forall_forall.
    intros p Hp. apply in_map_iff in Hp as [e [<- _]]. apply Qle_refl. }
  cbv zeta in He, Hk.
  set (em := fold_left _ (SentimentAnalyzer.emotionIntensities tl)
               SentimentAnalyzer.base_emotions) in *.
  destruct (fold_max_bounds (List.map snd em) 0.01%Q) as [Hm1 Hm2].
  set (mx := fold_left Math_max (List.map snd em) 0.01%Q) in *.
  assert (Hmx : (0 < mx)%Q).
  { eapply Qlt_le_trans; [|exact Hm1]. reflexivity. }
  split; [|split; [|split]].
  - transitivity (List.map fst em).
    + rewrite map_map. apply map_ext. reflexivity.
    + rewrite Hk. unfold SentimentAnalyzer.base_emotions.
      rewrite map_map. reflexivity.
  - apply Forall_forall. intros p Hp. apply in_map_iff in Hp as [q [<- Hq]].
    cbn [snd]. rewrite Forall_forall in He, Hm2.
    specialize (He q Hq). specialize (Hm2 (snd q) (in_map snd _ _ Hq)).
    split; [now apply div_nonneg|].
    apply Qle_shift_div_r; [assumption|]. now rewrite Qmult_1_l.
  - split; [|apply Math_min_l].
    apply Math_min_glb; [discriminate|].
    apply div_nonneg; [assumption | apply num_pos; lia].
  - split; [|apply Math_min_l].
    apply Math_min_glb; [discriminate|].
    apply div_nonneg; [apply num_nonneg | reflexivity].
Qed.

Lemma emotion_scores_in_ranges_witness :
  Forall (fun k => Tokenizer.typed k = true)
    (fst (Tokenizer.tokenize (str "I love it") fresh))
  /\ List.map fst
       (SentimentAnalyzer.emotion_scores
          (fst (SentimentAnalyzer.analyzeEmotions (str "I love it") fresh)))
     = List.map str ["joy"; "sadness"; "anger"; "fear"; "surprise";
                     "disgust"; "trust"; "anticipation"].
Proof.
  assert (H : Forall (fun k => Tokenizer.typed k = true)
                (fst (Tokenizer.tokenize (str "I love it") fresh)))
    by (apply forallb_Forall; vm_compute; reflexivity).
  split; [exact H|].
  exact (proj1 (emotion_scores_in_ranges (str "I love it") fresh H)).
Defined.

(** X14. In every reachable state, every shift [findSentimentShifts]
    reports is at a position from 1 on and carries the sentence at that
    position; its magnitude is the absolute difference of [to] and [from],
    more than 0.3 and at most 2; its direction is positive exactly when
    [to] is above [from]; the shifts come in increasing position. *)
Theorem sentiment_shifts :
  forall (sentences : list text) (w : World),
    reachable w ->
    let shifts := fst (SentimentAnalyzer.findSentimentShifts sentences w) in
    Forall (fun sh =>
              (1 <= SentimentAnalyzer.sh_position sh)%nat
              /\ nth_error sentences (SentimentAnalyzer.sh_position sh)
                 = Some (SentimentAnalyzer.sh_sentence sh)
              /\ (0.3 < SentimentAnalyzer.sh_magnitude sh
                  /\ SentimentAnalyzer.sh_magnitude sh <= 2)%Q
              /\ (SentimentAnalyzer.sh_magnitude sh
                  == Qabs (SentimentAnalyzer.sh_to sh
                           - SentimentAnalyzer.sh_from sh))%Q
              /\ (SentimentAnalyzer.sh_direction sh
                  = SentimentAnalyzer.dir_positive
                  <-> (SentimentAnalyzer.sh_from sh
                       < SentimentAnalyzer.sh_to sh)%Q))
      shifts
    /\ StronglySorted
         (fun a b => (SentimentAnalyzer.sh_position a
                      < SentimentAnalyzer.sh_position b)%nat) shifts.
Proof.
  intros sentences w Hw. cbv zeta.
  unfold SentimentAnalyzer.findSentimentShifts. rewrite bind_run.
  cbn [ret fst].
  destruct (mapM_analyze_ok sentences w (reachable_ok w Hw)) as [Hr _].
  set (xs := fst (mapM SentimentAnalyzer.analyze sentences w)) in *.
  clearbody xs.
  destruct sentences as [|s0 ss]; [split; constructor|].
  destruct xs as [|x0 xs]; [split; constructor|].
  cbn [combine]. inversion Hr as [|? ? Hx0 Hxs]; subst.
  destruct (shift_loop_spec (combine ss xs) 1 x0) as [H1 H2].
  { destruct Hx0 as (Ho & _). exact Ho. }
  { apply (combine_snd_Forall overall_in_range).
    eapply Forall_impl; [|exact Hxs]. intros s (Ho & _). exact Ho. }
  split; [|exact H2].
  eapply Forall_impl; [|exact H1].
  intros sh (Ha & Hb & Hc & Hd & He).
  split; [exact Ha|]. split; [|split; [exact Hc|split; [exact Hd|exact He]]].
  apply combine_nth_fst in Hb.
  replace (SentimentAnalyzer.sh_position sh)
    with (S (SentimentAnalyzer.sh_position sh - 1)) by lia.
  exact Hb.
Qed.

Lemma sentiment_shifts_witness :
  reachable fresh
  /\ List.map SentimentAnalyzer.sh_position
       (fst (SentimentAnalyzer.findSentimentShifts
               [str "good"; str "bad"; str "bad"] fresh)) = [1%nat]
  /\ Forall (fun sh => (1 <= SentimentAnalyzer.sh_position sh)%nat)
       (fst (SentimentAnalyzer.findSentimentShifts
               [str "good"; str "bad"; str "bad"] fresh)).
Proof.
  split; [exact reach_fresh|]. split; [vm_compute; reflexivity|].
  eapply Forall_impl;
    [|exact (proj1 (sentiment_shifts [str "good"; str "bad"; str "bad"]
                      fresh reach_fresh))].
  intros sh H. exact (proj1 H).
Defined.

(** X15. On fresh engines and sentences whose tokens have strings for
    lemma, none an inherited key of the tables (as [constructor] is, the
    lemma of [constructors]), [getSentimentTrend] returns one point per
    sentence, with positions between 0 and 1 that increase strictly and
    sentiments between -1 and 1. *)
Theorem sentiment_trend :
  forall sentences : list text,
    Forall (fun s => Forall (fun k => clean k = true)
                       (Tokenizer.tokenize_uncached s)) sentences ->
    let pts := fst (SentimentAnalyzer.getSentimentTrend sentences fresh) in
    List.length pts = List.length sentences
    /\ Forall (fun p =>
                 (0 <= SentimentAnalyzer.tr_position p
                  /\ SentimentAnalyzer.tr_position p <= 1)%Q
                 /\ (-1 <= SentimentAnalyzer.tr_sentiment p
                     /\ SentimentAnalyzer.tr_sentiment p <= 1)%Q) pts
    /\ StronglySorted
         (fun a b => (SentimentAnalyzer.tr_position a
                      < SentimentAnalyzer.tr_position b)%Q) pts.
Proof.
  intros sentences _. cbv zeta.
  unfold SentimentAnalyzer.getSentimentTrend.
  set (d := Math_max (num (List.length sentences) - 1) 1).
  assert (Hd1 : (1 <= d)%Q) by apply Math_max_r.
  assert (Hd2 : (num (List.length sentences) - 1 <= d)%Q) by apply Math_max_l.
  destruct (trend_spec d sentences) with (k := 0%nat) (w := fresh)
    as (H1 & H2 & H3).
  - eapply Qlt_le_trans; [|exact Hd1]. reflexivity.
  - apply reachable_ok, reach_fresh.
  - exact Hd2.
  - split; [exact H1|]. split; [|exact H3].
    eapply Forall_impl; [|exact H2]. intros p [[Ha Hb] Hc].
    split; [split; [|exact Hb] | exact Hc].
    eapply Qle_trans; [|exact Ha].
    apply div_nonneg; [apply num_nonneg|].
    eapply Qlt_le_trans; [|exact Hd1]. reflexivity.
Qed.

Lemma sentiment_trend_witness :
  Forall (fun s => Forall (fun k => clean k = true)
                     (Tokenizer.tokenize_uncached s)) [str "good"; str "bad"]
  /\ List.length (fst (SentimentAnalyzer.getSentimentTrend
                         [str "good"; str "bad"] fresh)) = 2%nat.
Proof.
  assert (H : Forall (fun s => Forall (fun k => clean k = true)
                                 (Tokenizer.tokenize_uncached s))
                [str "good"; str "bad"]).
  { repeat constructor; vm_compute; reflexivity. }
  split; [exact H|].
  exact (proj1 (sentiment_trend [str "good"; str "bad"] H)).
Defined.

(** X16. For every text, list of aspects and state in which the tokens
    of the text have strings for lemma, none an inherited key of the
    tables, [analyzeAspectSentiment] returns one result per aspect, in
    order; its confidence is between 0 and 1 and its sentiment between -5
    and 5; an aspect that no token mentions has sentiment 0 and
    confidence 0. *)
Theorem aspect_sentiment_ranges :
  forall (t : text) (aspects : list text) (w : World),
    let rs := fst (SentimentAnalyzer.analyzeAspectSentiment t aspects w) in
    Forall (fun k => clean k = true) (fst (Tokenizer.tokenize t w)) ->
    List.map SentimentAnalyzer.as_aspect rs = aspects
    /\ Forall (fun r =>
                 (0 <= SentimentAnalyzer.as_confidence r
                  /\ SentimentAnalyzer.as_confidence r <= 1)%Q
                 /\ (-5 <= SentimentAnalyzer.as_sentiment r
                     /\ SentimentAnalyzer.as_sentiment r <= 5)%Q
                 /\ (SentimentAnalyzer.as_mentions r = 0%nat ->
                     SentimentAnalyzer.as_sentiment r = 0%Q
                     /\ (SentimentAnalyzer.as_confidence r == 0)%Q)) rs.
Proof.
  intros t aspects w. cbv zeta. intros _.
  unfold SentimentAnalyzer.analyzeAspectSentiment. rewrite bind_run.
  cbn [ret fst]. set (tokens := fst (Tokenizer.tokenize t w)).
  clearbody tokens. split.
  - rewrite map_map. rewrite <- (map_id aspects) at 2. apply map_ext.
    intros a. reflexivity.
  - apply Forall_forall. intros r Hr. apply in_map_iff in Hr as [a [<- _]].
    destruct (aspect_of_spec tokens a) as (_ & H2 & H3 & H4).
    cbv zeta in H2, H3, H4. split; [exact H2|]. split; [exact H3|exact H4].
Qed.

Lemma aspect_sentiment_ranges_witness :
  Forall (fun k => clean k = true)
    (fst (Tokenizer.tokenize (str "good food") fresh))
  /\ List.map SentimentAnalyzer.as_mentions
       (fst (SentimentAnalyzer.analyzeAspectSentiment (str "good food")
               [str "price"] fresh)) = [0%nat]
  /\ Forall (fun r => SentimentAnalyzer.as_sentiment r = 0%Q)
       (fst (SentimentAnalyzer.analyzeAspectSentiment (str "good food")
               [str "price"] fresh)).
Proof.
  assert (Hc : Forall (fun k => clean k = true)
                 (fst (Tokenizer.tokenize (str "good food") fresh)))
    by (apply forallb_Forall; vm_compute; reflexivity).
  assert (Hm : List.map SentimentAnalyzer.as_mentions
                 (fst (SentimentAnalyzer.analyzeAspectSentiment
                         (str "good food") [str "price"] fresh)) = [0%nat])
    by (vm_compute; reflexivity).
  split; [exact Hc|]. split; [exact Hm|].
  pose proof (proj2 (aspect_sentiment_ranges (str "good food") [str "price"]
                       fresh Hc)) as H.
  cbv zeta in H.
  destruct (fst (SentimentAnalyzer.analyzeAspectSentiment (str "good food")
                   [str "price"] fresh)) as [|r [|r' rs]];
    try discriminate.
  injection Hm as Hm. inversion H as [|? ? (_ & _ & Hr) _]; subst.
  constructor; [exact (proj1 (Hr Hm)) | constructor].
Defined.

Import SplitterMore PrototypeFacts.

(** X17. The complexity score of [analyzeComplexity] lies between 0 and
    100 for every token sequence. *)
Theorem complexity_in_range :
  forall tokens : list Token,
    (0 <= SentenceSplitter.analyzeComplexity tokens
     /\ SentenceSplitter.analyzeComplexity tokens <= 100)%Q.
Proof. exact analyzeComplexity_bounds. Qed.

(** X18. The placeholder sentiment of a sentence has every field in its
    range and [overall = positive - negative]; it is either the neutral
    score (0, 0, 0, 1) with confidence 0.5, when no token is a listed
    word, or a score with [positive + negative = 1], [neutral = 0] and a
    confidence of at least 0.2. *)
Theorem basic_sentiment_shape :
  forall tokens : list Token,
    let s := SentenceSplitter.calculateBasicSentiment tokens in
    in_ranges s
    /\ (overall s == positive s - negative s)%Q
    /\ ((positive s = 0 /\ negative s = 0 /\ neutral s = 1
         /\ confidence s = 0.5)%Q
        \/ (positive s + negative s == 1 /\ neutral s == 0
            /\ 0.2 <= confidence s)%Q).
Proof. exact calculateBasicSentiment_spec. Qed.

(** X19. The boundaries [findBoundaries] returns follow one another from
    position 0: each starts where the one before ends, none is empty, and
    the last ends inside the text. *)
Theorem boundaries_linked :
  forall t : text,
    exists hi : nat,
      (hi <= List.length t)%nat
      /\ linked 0 (SentenceSplitter.findBoundaries t) hi.
Proof. exact findBoundaries_linked. Qed.

(** X20. When the key of the text is not cached and every token of the
    sentences has a string for lemma (the token of the word [constructor]
    has none, and the placeholder sentiment raises a TypeError on it),
    [split] returns
    sentences in increasing, non-empty spans inside the text; the text of
    each is the trimmed content of its span and is not empty; every
    character of the text that is not white space lies in the span of a
    sentence. *)
Theorem split_layout :
  forall (t : text) (w : World),
    Map_get (sentenceSplitter_cache w) (substring t 0 200) = None ->
    let ss := fst (SentenceSplitter.split t w) in
    Forall (fun s => Forall (fun k => Tokenizer.typed k = true)
                       (sen_tokens s)) ss ->
    laid_out t 0 ss
    /\ forall p c, nth_error t p = Some c -> is_space c = false ->
                   covered ss p.
Proof.
  intros t w Hmiss. cbv zeta. intros _. unfold SentenceSplitter.split.
  rewrite (call_miss SentenceSplitter.engine t w Hmiss).
  cbn [compute SentenceSplitter.engine].
  destruct (findBoundaries_linked t) as (hi & Hhi & Hl).
  destruct (split_loop_spec t _ 0 hi w Hl Hhi) as [H1 H2].
  split; [exact H1|]. intros p c Hc Hs. apply (H2 p c); [lia | exact Hc | exact Hs].
Qed.

Lemma split_layout_witness :
  Map_get (sentenceSplitter_cache fresh) (substring (str "Hi. Go!") 0 200)
  = None
  /\ Forall (fun s => Forall (fun k => Tokenizer.typed k = true)
                        (sen_tokens s))
       (fst (SentenceSplitter.split (str "Hi. Go!") fresh))
  /\ laid_out (str "Hi. Go!") 0
       (fst (SentenceSplitter.split (str "Hi. Go!") fresh))
  /\ List.map sen_text (fst (SentenceSplitter.split (str "Hi. Go!") fresh))
     = [str "Hi."; str "Go!"].
Proof.
  assert (Ht : Forall (fun s => Forall (fun k => Tokenizer.typed k = true)
                                  (sen_tokens s))
                 (fst (SentenceSplitter.split (str "Hi. Go!") fresh))).
  { apply Forall_forall. intros s Hs. apply forallb_Forall.
    assert (H : forallb (fun s => forallb Tokenizer.typed (sen_tokens s))
                  (fst (SentenceSplitter.split (str "Hi. Go!") fresh)) = true)
      by (vm_compute; reflexivity).
    rewrite forallb_forall in H. now apply H. }
  split; [reflexivity|]. split; [exact Ht|]. split; [|vm_compute; reflexivity].
  exact (proj1 (split_layout (str "Hi. Go!") fresh eq_refl Ht)).
Defined.

(** X21. At a period that follows an abbreviation, [isSentenceBoundary]
    answers whether the next character that is not white space is an
    upper-case letter; whether the abbreviation is a title makes no
    difference. *)
Theorem abbreviation_boundary :
  forall (t : text) (p : nat) (w : text),
    nth_error t p = Some 46%N ->
    SentenceSplitter.getWordBefore t p = Some w ->
    mem (toLowerCase w) SentenceSplitter.ALL_ABBREVIATIONS = true ->
    SentenceSplitter.isSentenceBoundary t p
    = SentenceSplitter.char_is is_upper
        (SentenceSplitter.getNextNonSpace t (p + 1)).
Proof.
  intros t p w Hc Hw Ha. unfold SentenceSplitter.isSentenceBoundary.
  rewrite Hc, Hw, Ha, (getWordAfter_at_period t p Hc).
  cbn [SentenceSplitter.char_is]. cbn.
  now destruct (SentenceSplitter.char_is is_upper
                  (SentenceSplitter.getNextNonSpace t (p + 1))).
Qed.

Lemma abbreviation_boundary_witness :
  nth_error (str "Dr. Smith") 2 = Some 46%N
  /\ SentenceSplitter.getWordBefore (str "Dr. Smith") 2 = Some (str "Dr")
  /\ mem (toLowerCase (str "Dr")) SentenceSplitter.titles = true
  /\ SentenceSplitter.isSentenceBoundary (str "Dr. Smith") 2 = true.
Proof.
  split; [reflexivity|]. split; [reflexivity|].
  split; [vm_compute; reflexivity|].
  rewrite (abbreviation_boundary (str "Dr. Smith") 2 (str "Dr")).
  - vm_compute. reflexivity.
  - reflexivity.
  - reflexivity.
  - vm_compute. reflexivity.
Defined.



Import NERMore.

(** X23. [deduplicateEntities] keeps candidates only; every candidate it
    does not keep starts before the end of a kept entity, or has the text
    and type of a kept entity that starts less than 5 characters away (or
    starts before -1, which no offset does); and each kept entity starts
    at or after the end of the one kept before it. *)
Theorem dedup_sound_complete :
  forall entities : list NamedEntity,
    let kept := NamedEntityRecognizer.deduplicateEntities entities in
    (forall e, In e kept -> In e entities)
    /\ (forall e, In e entities -> explained kept e)
    /\ (forall i a b,
          nth_error kept i = Some a -> nth_error kept (S i) = Some b ->
          ent_endChar a <= ent_startChar b).
Proof.
  intros entities kept. unfold kept. split; [|split].
  - apply deduplicateEntities_incl.
  - intros e He. unfold NamedEntityRecognizer.deduplicateEntities.
    apply dedup_loop_explains; [left; now split | now apply sort_In].
  - unfold NamedEntityRecognizer.deduplicateEntities.
    apply dedup_loop_steps; [|exact I].
    intros i a b Ha. destruct i; discriminate.
Qed.

Lemma dedup_sound_complete_witness :
  let a := NamedEntityRecognizer.createEntity (str "New York") LOCATION 0 8
             0.9 in
  let b := NamedEntityRecognizer.createEntity (str "York") PERSON 4 8 0.6 in
  In b [b; a]
  /\ NamedEntityRecognizer.deduplicateEntities [b; a] = [a]
  /\ explained (NamedEntityRecognizer.deduplicateEntities [b; a]) b.
Proof.
  cbv zeta. split; [now left|]. split; [vm_compute; reflexivity|].
  apply (proj1 (proj2 (dedup_sound_complete _))). now left.
Defined.

(** X24. In every reachable state, every entity [recognize] returns has
    a confidence between 0.5 and 0.95, whatever the regular expressions
    match. *)
Theorem recognize_confidence :
  forall (rx : NamedEntityRecognizer.Pattern -> text -> list (nat * text))
         (t : text) (w : World),
    reachable w ->
    Forall confident (fst (NamedEntityRecognizer.recognize rx t w)).
Proof.
  intros rx t w Hw.
  exact (proj1 (recognize_confident rx t w (reachable_confident w Hw))).
Qed.

Lemma recognize_confidence_witness :
  reachable fresh
  /\ List.map ent_text
       (fst (NamedEntityRecognizer.recognize (fun _ _ => [])
               (str "Dr Amy Lee") fresh)) = [str "Dr Amy Lee"]
  /\ Forall confident
       (fst (NamedEntityRecognizer.recognize (fun _ _ => [])
               (str "Dr Amy Lee") fresh)).
Proof.
  split; [exact reach_fresh|]. split; [vm_compute; reflexivity|].
  exact (recognize_confidence (fun _ _ => []) (str "Dr Amy Lee") fresh
           reach_fresh).
Defined.

(** X25. [getEntityFrequencies] maps a lower-cased text to the number of
    entities with that text, whatever their case, together with the type
    of the first of them, and holds no other key. *)
Theorem entity_frequencies :
  forall (entities : list NamedEntity) (k : text),
    Map_get (NamedEntityRecognizer.getEntityFrequencies entities) k
    = match named k entities with
      | [] => None
      | e :: rest => Some (S (List.length rest), ent_type e)
      end.
Proof.
  intros entities k. unfold NamedEntityRecognizer.getEntityFrequencies.
  rewrite getEntityFrequencies_fold. cbn [Map_get].
  destruct (named k entities); reflexivity.
Qed.

(** X26. The sequence [extractCapitalizedSequence] takes from a token
    list is a prefix of the list; when it is not empty, its first token
    is capitalized and its last token is not a connector. *)
Theorem capitalized_sequence_shape :
  forall l : list Token,
    let sequence := NamedEntityRecognizer.extractCapitalizedSequence l in
    (exists r, l = sequence ++ r)
    /\ match sequence with
       | k :: _ => NamedEntityRecognizer.isCapitalized (tok_text k) = true
       | [] => True
       end
    /\ match rev sequence with
       | k :: _ =>
           NamedEntityRecognizer.isEntityConnector (tok_text k) = false
       | [] => True
       end.
Proof. exact sequence_shape. Qed.

Import KeywordMore.

(** X8. In every reachable state, for every logarithm, configuration,
    text and corpus, the keywords [extract] returns are in descending
    order of score. *)
Theorem extract_keywords_sorted :
  forall (log : Q -> Q) (cfg : KeywordExtractor.KeywordConfig) (t : text)
         (corpus : option (list text)) (w : World),
    reachable w ->
    sorted_desc
      (keywords (fst (KeywordExtractor.extract log cfg t corpus w))).
Proof.
  intros log cfg t corpus w Hw.
  exact (proj1 (extract_ok log cfg t corpus w (reachable_ok w Hw))).
Qed.

Lemma extract_keywords_sorted_witness :
  reachable (snd (Tokenizer.tokenize (str "well done") fresh))
  /\ sorted_desc
       (keywords
          (fst (KeywordExtractor.extract (fun _ => 0%Q)
                  KeywordExtractor.DEFAULT_CONFIG (str "done") None
                  (snd (Tokenizer.tokenize (str "well done") fresh))))).
Proof.
  assert (H : reachable (snd (Tokenizer.tokenize (str "well done") fresh)))
    by (apply reach_tokenize, reach_fresh).
  split; [exact H|].
  exact (extract_keywords_sorted (fun _ => 0%Q) KeywordExtractor.DEFAULT_CONFIG
           (str "done") None _ H).
Defined.

(** X27. [combineKeywords] returns every keyword of its sets once, and no
    other keyword. *)
Theorem combined_keywords :
  forall sets : list (list ScoredKeyword),
    NoDup (List.map keyword (KeywordExtractor.combineKeywords sets))
    /\ forall k : text,
         In k (List.map keyword (KeywordExtractor.combineKeywords sets))
         <-> exists s, In s sets /\ In k (List.map keyword s).
Proof. exact combineKeywords_spec. Qed.

(** X28. In every reachable state the keywords [extract] returns are
    pairwise distinct, and when the key of the text is not cached there
    are at most [maxKeywords] of them. *)
Theorem extract_keywords_bounded :
  forall (log : Q -> Q) (cfg : KeywordExtractor.KeywordConfig) (t : text)
         (corpus : option (list text)) (w : World),
    reachable w ->
    let kws := keywords (fst (KeywordExtractor.extract log cfg t corpus w)) in
    NoDup (List.map keyword kws)
    /\ (Map_get (keywordExtractor_cache w) (substring t 0 100) = None ->
        (List.length kws <= KeywordExtractor.maxKeywords cfg)%nat).
Proof.
  intros log cfg t corpus w Hw. cbv zeta. split.
  - exact (proj1 (extract_distinct log cfg t corpus w
                    (reachable_distinct w Hw))).
  - intros Hmiss. unfold KeywordExtractor.extract.
    rewrite (call_miss (KeywordExtractor.engine log cfg) (t, corpus) w Hmiss).
    cbn [compute KeywordExtractor.engine].
    unfold KeywordExtractor.extract_uncached.
    rewrite !bind_run. cbn [ret fst keywords].
    rewrite length_firstn. apply Nat.le_min_l.
Qed.

Lemma extract_keywords_bounded_witness :
  reachable fresh
  /\ Map_get (keywordExtractor_cache fresh) (substring (str "done") 0 100)
     = None
  /\ (List.length
        (keywords (fst (KeywordExtractor.extract (fun _ => 0%Q)
                          KeywordExtractor.DEFAULT_CONFIG (str "done") None
                          fresh))) <= 30)%nat.
Proof.
  split; [exact reach_fresh|]. split; [reflexivity|].
  exact (proj2 (extract_keywords_bounded (fun _ => 0%Q)
                  KeywordExtractor.DEFAULT_CONFIG (str "done") None fresh
                  reach_fresh) eq_refl).
Defined.

(** X29. Every keyword of [extractTextRank] has a score of at least 0.15,
    the share that does not depend on the neighbours, and is the
    lower-cased lemma of a token that is alphabetic and not a stop word;
    its frequency is at least 1. *)
Theorem textrank_keywords :
  forall (cfg : KeywordExtractor.KeywordConfig) (tokens : list Token),
    Forall (fun kw =>
              (0.15 <= kw_score kw)%Q
              /\ 1 <= frequency kw
              /\ method kw = str "textrank"
              /\ exists token,
                   In token tokens /\ isAlpha token = true
                   /\ isStopWord token = false
                   /\ KeywordExtractor.lemma_of token = keyword kw)
      (KeywordExtractor.extractTextRank cfg tokens).
Proof. exact extractTextRank_spec. Qed.

(** X30. Every keyword of [extractNGrams] holds a space, occurs at least
    twice and has a score of at least 4. *)
Theorem ngram_keywords :
  forall tokens : list Token,
    Forall (fun kw =>
              (4 <= kw_score kw)%Q
              /\ 2 <= frequency kw
              /\ method kw = str "ngram"
              /\ In 32%N (keyword kw))
      (KeywordExtractor.extractNGrams tokens).
Proof. exact extractNGrams_spec. Qed.
